(* ===== verification/_CoqProject ===== *)
-Q . S2P
Prelude.v
Storage.v
Memory.v
Pool.v
Access.v
Fifo.v
Lru.v
Clock.v
Pin.v
OneFrame.v
FifoSpec.v
RecordMgr.v
CString.v
VarString.v
Deserializer.v
Stats.v
FillOrder.v
PoolIface.v
BTree.v
BTreeUtil.v
Table.v
SchemaParser.v
