(* ===== verification/Prelude.v ===== *)
(** * A verification development of the PranithaN/B-Tree database stack

    The repository is a small database stack in C.  A storage manager (page
    files of fixed-size blocks; its code is not under [src/]) is used by a
    buffer manager ([src/buffer_mgr.c]) that caches pages of one page file
    in a fixed ring of frames, with one of three replacement strategies
    (FIFO, LRU, CLOCK).  Two clients sit on top: a record manager
    ([src/record_mgr.c], with the string parser [src/rm_deserializer.c])
    and an index manager ([src/btree_mgr.c]), which keeps its keys in a
    global array and pins "node" pages of the index file through a buffer
    pool.

    ** Files and what they model

    - [Prelude.v] (this file): the shared vocabulary.  Frame indices of the
      C ring [head -> next -> ... -> head] are the positions [0 .. n-1] of a
      list, [cnext]/[cprev] are the [next]/[prev] pointers that
      [createPageFrame] links.  Every loop of [buffer_mgr.c] of the form
      [do { if (cond(frame)) break; frame = frame->next; } while (frame != stop)]
      is the fuelled combinator [scan].  The effects of the C functions
      (mutation of the pool, early [return]) are the state-and-early-return
      monad [ST] with stdpp's [x ← m ; k] notation, with the hint database
      [bm]; [Pool.v] adds the tactics [bm_run], [bm_case], [wf_auto] and
      the database [bm_wf] that carry the proofs on pools.
    - [Storage.v]: [ensureCapacity], [readBlock], [writeBlock] and the
      return codes, modelled from the specification (section 6).  The page
      file is a list of blocks; the model counts the block reads and writes
      that succeed, so that the pool's statistics can be compared with the
      I/O really performed.
    - [Memory.v]: the C heap as the set of live blocks; the functions whose
      only effect is on memory ([freeRecord], [closeScan], [freeSchema],
      [closeBtree], [closeTreeScan], [FREE_VARSTRING]) and the [malloc]s
      of [createRecord], [startScan], [createSchema], [MAKE_VARSTRING].
    - [Pool.v]: [PageFrame], [BM_BufferPool_Mgmt] and the pool handle
      flattened into the record [BM] together with the page file;
      [initBufferPool]/[createPageFrame]; the shared pieces of the pin
      functions ([find_page], [fill_frame], [write_back_if_dirty],
      [load_page]); the statistics functions; the invariant [WF]
      (ring of [numPages] frames, cursors inside it, [occupiedCount <=
      numPages], no page in two frames) and the frame-update lemmas.
    - [Access.v]: [markDirty], [unpinPage], [forcePage], [forceFlushPool],
      [shutdownBufferPool]; a flush or a shutdown leaves the block of a
      pinned page as it was ([Access.shutdown_skips_pinned]).
    - [Fifo.v], [Lru.v], [Clock.v]: [pinPageFIFO], [pinPageLRU],
      [pinPageCLOCK], each with its hit path, its fill path, its victim loop
      and its read of the requested block, with every cursor move of the C
      code.
    - [Pin.v]: the dispatcher [pinPage], the client operations as a step
      relation on pool states, reachability and the invariants proved by
      rule induction, and the scenarios of the specification (section 8)
      evaluated on concrete pools.
    - [OneFrame.v]: the pool of one frame [one] under any strategy; each
      request on it ([exec_pin_fill], [exec_pin_evict], [exec_write],
      [exec_markDirty], [exec_unpin], [exec_flush]) as an equation on the
      generic frame and page file, from which the scenarios of
      specification 8.2 follow for every strategy, file and bytes.
    - [FifoSpec.v]: the FIFO cache the specification describes (4.2), a
      queue of resident pages oldest first with its miss counter
      ([fifo_access], [fifo_spec_step], [fifo_cache], [fifo_misses]),
      and the relation [fifo_rel] that reads that queue on the ring of
      frames from [tail].
    - [RecordMgr.v]: [attrOffset], [getRecordSize], [createSchema],
      [createRecord], [getAttr], [setAttr] byte for byte on the record
      buffer: little-endian [int]s, [strncpy], the NUL [setAttr] writes
      into the caller's string.
    - [CString.v]: the C library functions the parsers call, from the C
      standard: [strtok] with its saved pointer as explicit state,
      [strtol] in base 10, the [long] to [int] conversion, [atoi] and
      [sprintf("%d")].
    - [VarString.v]: the dynamic-string macros at the top of
      [rm_deserializer.c] ([MAKE_VARSTRING], [ENSURE_SIZE],
      [APPEND_STRING], [APPEND], [GET_STRING], [RETURN_STRING]) on the
      record [VarString], whose [buf] is the whole allocation.
    - [Deserializer.v]: [deserializeRecord] of [src/rm_deserializer.c],
      its [strtok] loop and the [switch] that stores each value with
      [setAttr]; the allocation sizes are explicit
      ([deserializeRecord_with]).  The printer [serializeRecord]
      ([rm_serializer.c], not in the repository) is modelled from the
      format the comment in [deleteRecord] documents, with the text of
      floats and booleans as a parameter; [strtof] is a parameter.
    - [Table.v]: the tables and scans of [record_mgr.c]: [createTable],
      [deleteTable] (over a file system of page files), [openTable],
      [closeTable], [insertRecord], [updateRecord], [deleteRecord],
      [getRecord], [getNumTuples], [startScan], [next], on the record
      [TableState] ([RM_TableData], its [RM_RecordMgmt] and the global
      [totalPages]); every page access goes through the buffer-manager
      model ([pinPage], [markDirty], [unpinPage], [forcePage]), and the C
      string calls on [page->data] ([strlen], [memset], [sprintf],
      [strcpy], [strcat], [strncmp]) are checked against the buffers they
      touch.  The schema parser and printer, [evalExpr] (expr.c, not in
      the repository) and the first line [fgets] reads from the page file
      are parameters.
    - [SchemaParser.v]: [deserializeSchema] of [rm_deserializer.c], the
      [strtok] parse of the schema text: the attribute loop
      ([parse_schema_attrs]), the key list ([key_tokens], [key_attrs]) and
      the [STRING[n]] fix-up on [splitString] ([string_attr]).  The sizes
      of the string buffers it [malloc]s are the record [Caps]
      ([code_caps] for the code); [deserializeSchema] instantiates the
      schema-parser parameter of [Table.openTable].
    - [Stats.v]: the I/O counters against the storage model.
    - [FillOrder.v]: the order in which FIFO and CLOCK fill the frames of a
      pool that is not yet full (the invariant [fill_inv], read through
      [shape]: page numbers, [head], [occupiedCount], [numPages]).
    - [PoolIface.v]: the type class [BufferPool], what the index manager
      may assume of a buffer pool (creation, pin, markDirty, unpin keep it
      well formed; a readable handle stays readable; markDirty changes no
      bytes), and the instance [BM_BufferPool] that proves it of the model
      of [buffer_mgr.c].
    - [BTree.v]: the index manager, in a Section over any [BufferPool]:
      keys as the 8-byte union word, [AllocBTree] as the list of its pointer
      slots, [findKey], [insertKey], [deleteKey], [openTreeScan] (selection
      sort), [nextEntry], [getNumNodes], [createBtree], [openBtree],
      [deleteBtree]; the abstraction [key_map] of an index of [int] keys to
      a [gmap] from keys to [RID]s; a client's call sequences [run_ops].

    - [BTreeUtil.v]: [shutdownIndexManager] (the slots it frees),
      [getKeyType] (on the caller's array) and the debug printer
      [printTree] (its 500-byte stack strings and the text it prints).

    ** What the theorems show

    - Invariants: every pool reachable from [initBufferPool] satisfies [WF]
      ([Pin.reachable_WF]); the statistics equal the I/O performed
      ([Stats.stats_exact]); under FIFO and CLOCK, while the pool is not
      full, [head] is frame [occupiedCount] and it and every later frame
      are empty, so a fill never overwrites a resident page
      ([FillOrder.fill_in_ring_order]; LRU breaks it, see below).
    - Functional behaviour of the pin paths: a hit, a FIFO eviction, the
      exhaustion path, and LRU's two eviction branches
      ([Lru.pinPageLRU_evict_next], [Lru.pinPageLRU_evict_tail]); a page
      written, evicted and pinned again gives back its bytes, for every
      strategy ([OneFrame.write_back_roundtrip]).
    - Termination: [scan_fuel_adequate] proves that [n] units of fuel always
      suffice for the ring loops (the loop stops at the first frame of its
      cyclic window satisfying its condition); [Clock.clock_sweep_fuel]
      proves that CLOCK's inner [while] loop needs at most one unit per set
      reference bit, so [nframes] is enough.
    - Record layout: [setAttr] then [getAttr] round trips, attributes are
      disjoint, the two size computations agree, [int]s wrap modulo 2^32.
    - Records as strings: [serializeRecord] then the loop of
      [deserializeRecord] gives back every attribute of a record of [int]s
      and strings that fill their field
      ([Deserializer.deserialize_serialize]); the data buffer of
      [sizeof(char* )] bytes the code allocates makes every call fail
      ([Deserializer.deserialize_short_buffer]).
    - Tables: [insertRecord] then [getRecord] (with its copy buffer one
      byte larger) gives back every attribute, the page being written and
      read through the pool ([Table.insert_get_roundtrip]);
      [openTable] makes [totalPages] [0], so the first two records share
      page 1 ([Table.open_insert_overwrite]); [getRecord] and
      [deleteRecord] are undefined on every RID they accept, so
      [getNumTuples] is undefined on every table with a data page and
      counts 0 on the others ([Table.getNumTuples_never_counts]).  Its
      loop retries a page whose [getRecord] fails, which the code's
      [getRecord] never does, so that defect stays latent.
    - Schemas: with the code's one-byte [splitString], [openTable] only
      ever yields tables whose attributes are [INT], [FLOAT] or [BOOL]
      ([SchemaParser.openTable_no_string]).
    - Dynamic strings: appending C strings and reading them back gives
      their concatenation ([VarString.varstring_roundtrip]);
      [ENSURE_SIZE] overflows its [int] exactly above [100 * 2^24] bytes
      ([VarString.ENSURE_SIZE_overflow]).
    - Refinement of the FIFO policy: for a client that unpins every page
      before its next request, the pool of [pinPageFIFO] holds exactly the
      pages of the abstract FIFO cache after any sequence of accesses,
      has read one block per miss of the cache and written none
      ([FifoSpec.fifo_refines]); the hit, fill and eviction steps each
      preserve [fifo_rel].
    - Refinement of the index manager: on an index of [int] keys with room
      in [AllocBTree], [findKey], [insertKey] and [deleteKey] implement
      lookup, insertion and deletion in the map [key_map] ([deleteKey]
      moving the later elements down a slot and freeing the last one,
      [BTree.deleteKey_spec]), and every
      sequence of such calls returns what the map returns
      ([BTree.index_refinement]).
    - Defects of the code, each as a theorem on the model: the pool returns
      [RC_OK] and corrupts a pinned frame when every frame is pinned
      ([Pin.pinPage_all_pinned]); a negative page number leaves a pinned
      frame advertising it after the failed read, and [pinPage] still
      returns [RC_OK] ([Pin.pinPage_negative_fill]); once the pool has filled, LRU stores the
      page in the frame after the unpinned one its loop found, pinned or
      dirty as it may be, after writing back the one it found
      ([Lru.pinPageLRU_evict_next]), and while it fills, a
      hit makes the next miss overwrite the page just hit
      ([Lru.pinPageLRU_hit_then_fill]); FIFO never
      examines the frame at [head], the newest
      ([Fifo.pinPageFIFO_skips_head]); CLOCK evicts a pinned page whenever
      its inner loop runs past the frame the outer loop found
      ([Clock.pinPageCLOCK_evicts_pinned]); the dirty flag survives
      eviction, so a page just read is written again by the next flush
      ([OneFrame.evicted_frame_stays_dirty]); shutdown loses pinned dirty
      pages ([Access.shutdown_skips_pinned]); [AllocBTree] has room
      for one key; [openBtree] reads the tree's order from the wrong page;
      [deleteKey] of an absent key returns [RC_OK]; scans are not reset;
      string keys are stored by 4 of their 8 pointer bytes;
      [shutdownIndexManager] frees one pointer once per key
      ([BTreeUtil.shutdownIndexManager_defined]); [freeRecord] and
      [closeScan] set their pointers to [NULL] before freeing them, so
      every record and every scan leaks two blocks while schemas and
      string builders are freed ([Memory.client_leaks]).

    ** Conventions and bounds

    C [int]s (page numbers, fix counts, flags, counters) are [Z]; the
    empty-frame sentinel [NO_PAGE] is [-1]; a key's union is a 64-bit word
    whose [intV] and [floatV] are the low 4 bytes.  A record attribute's
    [intV] is a [Z] too: [setAttr] stores its low 32 bits, so the values
    a C [int] holds read back unchanged.  Signed overflow of the
    counters (2^31 pins or I/O operations) is undefined behaviour in C and
    is not modelled.  Undefined behaviour the code does reach (an access
    outside an allocation, through an unassigned or freed pointer, or a
    [NULL] token of [strtok]) is [None].  [sprintf("%d")] prints at most
    [DEC_FUEL = 20] digits, enough for every 64-bit integer.  The page search of [insertRecord] and
    the loop of [next] get [totalPages + 1] iterations, which
    [Table.next_page_loop_spec] shows is enough; the loop of
    [getNumTuples] would retry a page forever, so its fuel is a parameter
    and running out of it is divergence.  Bytes [malloc] leaves indeterminate are parameters of the
    operation that allocates them.  [openPageFile]/[closePageFile] always
    succeed.  The pools of the theorems have [numPages >= 1], which
    [initBufferPool] needs to create a ring at all.

    ** Not modelled

    [serializeSchema] and [evalExpr], which are not in the repository
    (parameters of [Table.v]); the [VarString] [deserializeSchema]
    allocates and never uses; the page-file format [openTable] reads with
    [fgets]; the blocks the buffer
    pool and the table functions allocate and free (the frames, the pool
    handles of [openTable] and [openBtree]): [Memory.v] models the heap only
    for the objects a client creates and releases; the sizes of blocks; the
    [strcpy] of string keys in [deleteKey]'s shift (the model stops with
    [None] there).  Among the sizes not modelled: [createPageFrame]'s
    [calloc(PAGE_SIZE, sizeof(char* ))] frame buffer (the model keeps
    [PAGE_SIZE] bytes, all any operation reads or writes) and
    [createBtree]'s [malloc(sizeof(BTreeHandle* ))] for the tree handle.
    [strtok]'s writes into page 0 in [openTable], the uninitialised
    [idxId] of [openBtree] (a fixed value), and the replacement strategies
    other than FIFO, LRU and CLOCK, which [initBufferPool] accepts but no
    [pinPage] case handles, are not modelled either. *)

From stdpp Require Export base list numbers.
From Stdlib Require Export ZArith Lia.

Declare Scope bm_scope.
Delimit Scope bm_scope with bm.

Create HintDb bm discriminated.

(** ** The ring of frames *)

(** [frame->next] in the ring built by [createPageFrame]: frame [i] is
    followed by frame [i+1], and the last frame by the first. *)
Definition cnext (n i : nat) : nat := if Nat.eqb (S i) n then 0 else S i.

(** [frame->prev]. *)
Definition cprev (n i : nat) : nat :=
  match i with 0 => Nat.pred n | S j => j end.

(** The frames visited by [k] iterations from [i]. *)
Fixpoint cyc_from (n i k : nat) : list nat :=
  match k with
  | 0 => []
  | S k' => i :: cyc_from n (cnext n i) k'
  end.

(** Number of [next] steps from [i] to [j] in a ring of [n] frames. *)
Definition cdist (n i j : nat) : nat :=
  if Nat.leb i j then j - i else n - i + j.

(** The frames a [do ... while (frame != stop)] loop started at [start]
    examines: a full lap when it starts at [stop], otherwise the frames
    from [start] up to, and excluding, [stop]. *)
Definition window (n start stop : nat) : list nat :=
  cyc_from n start (if Nat.eqb start stop then n else cdist n start stop).

(** ** The scanning loop of [buffer_mgr.c]

    [frame = start; do { if (P(frame)) break; frame = frame->next; }
     while (frame != stop);]
    The result is the frame the loop stops at and whether it stopped
    because [P] held.  [fuel] bounds the number of iterations. *)
Fixpoint scan (n : nat) (P : nat -> bool) (stop i fuel : nat) : nat * bool :=
  match fuel with
  | 0 => (i, false)
  | S fuel' =>
      if P i then (i, true)
      else let j := cnext n i in
           if Nat.eqb j stop then (j, false) else scan n P stop j fuel'
  end.

(** The reference loop: the first frame of the window satisfying [P]; a loop
    that finds none leaves [frame] at [stop]. *)
Definition scan_ref (n : nat) (P : nat -> bool) (start stop : nat) : nat * bool :=
  match List.find P (window n start stop) with
  | Some j => (j, true)
  | None => (stop, false)
  end.

(** ** The state and early-return monad

    A C function that mutates the pool and may [return] early is a value of
    [ST S E A]: from a state it yields the new state and either an early
    return code ([inl]) or the value of the computation ([inr]). *)
Definition ST (S E A : Type) : Type := S -> S * (E + A).

#[export] Instance st_ret {S E} : MRet (ST S E) := fun A a s => (s, inr a).
#[export] Instance st_bind {S E} : MBind (ST S E) :=
  fun A B k m s =>
    match m s with
    | (s', inl e) => (s', inl e)
    | (s', inr a) => k a s'
    end.

Definition st_get {S E} : ST S E S := fun s => (s, inr s).
Definition st_modify {S E} (f : S -> S) : ST S E unit := fun s => (f s, inr tt).
(** [return e;] in the middle of a C function. *)
Definition st_throw {S E A} (e : E) : ST S E A := fun s => (s, inl e).

Ltac st_unfold :=
  cbv [mbind mret st_bind st_ret st_get st_modify st_throw] in *.

(** [m] keeps the state invariant [I], whether it returns early or not. *)
Definition preserves {S E A} (I : S -> Prop) (m : ST S E A) : Prop :=
  forall s, I s -> I (fst (m s)).

Lemma preserves_bind {S E A B} (I : S -> Prop) (m : ST S E A) (k : A -> ST S E B) :
  preserves I m -> (forall a, preserves I (k a)) -> preserves I (m ≫= k).
Proof.
  intros Hm Hk s Hs. cbv [mbind st_bind]. specialize (Hm s Hs).
  destruct (m s) as [s' [e|a]]; [done|]. by apply Hk.
Qed.

Lemma preserves_ret {S E A} (I : S -> Prop) (a : A) : preserves (E:=E) I (mret a).
Proof. by intros s Hs. Qed.

(** ** Generic list lemmas *)

(** Lists with the same image under [f] agree under [f] at every index. *)
Lemma map_eq_lookup_total {A B} `{Inhabited A} (f : A -> B) (l1 l2 : list A) j :
  map f l1 = map f l2 -> j < length l1 -> f (l1 !!! j) = f (l2 !!! j).
Proof.
  revert l2 j. induction l1 as [|x l1 IH]; intros [|y l2] [|j] Heq Hj; simpl in *;
    try done; try lia; injection Heq as ? ?; [done|]. apply IH; [done|lia].
Qed.

(** [repeat x k] reads [x] at every index below [k]. *)
Lemma repeat_lookup_total {A} `{Inhabited A} (x : A) k i : i < k -> repeat x k !!! i = x.
Proof. revert i. induction k as [|k IH]; intros [|i] Hi; simpl; try lia; [done|]. apply IH. lia. Qed.

(** The image of a list under [f], read at an index of the list. *)
Lemma map_lookup_total_lt {A B} `{Inhabited A, Inhabited B} (f : A -> B) (l : list A) j :
  j < length l -> map f l !!! j = f (l !!! j).
Proof. revert j. induction l as [|x l IH]; intros [|j] Hj; simpl in *; try lia; [done|]. apply IH. lia. Qed.

(** An update invisible to [h] leaves [map h] unchanged. *)
Lemma map_alter_absorb {A B} (h : A -> B) (g : A -> A) (i : nat) (l : list A) :
  (forall x, h (g x) = h x) -> map h (alter g i l) = map h l.
Proof.
  intros Hg. revert i. induction l as [|x l IH]; intros [|i]; simpl;
    [done|done|by rewrite Hg|f_equal; apply IH].
Qed.

(** [map h] of an update at [i] is an insertion at [i]. *)
Lemma map_alter_insert {A B} `{Inhabited A} (h : A -> B) (g : A -> A) (i : nat) (l : list A) :
  i < length l -> map h (alter g i l) = <[i := h (g (l !!! i))]> (map h l).
Proof.
  revert i. induction l as [|x l IH]; intros [|i] Hi; simpl in *; [lia|lia|done|].
  f_equal. apply IH. lia.
Qed.

Lemma lookup_map_Some {A B} (h : A -> B) (l : list A) i x :
  l !! i = Some x -> map h l !! i = Some (h x).
Proof.
  revert i. induction l as [|y l IH]; intros [|i] Hi; simpl in *; [done|done|by simplify_eq|].
  by apply IH.
Qed.

(** ** Lemmas on the ring *)

(** [List.find] returns the first element satisfying the test. *)
Lemma find_split {A} (P : A -> bool) l j :
  List.find P l = Some j ->
  exists pre post, l = pre ++ j :: post /\ P j = true /\ Forall (fun k => P k = false) pre.
Proof.
  induction l as [|x l IH]; simpl; [done|]. destruct (P x) eqn:E.
  - intros [= <-]. by exists [], l.
  - intros H. destruct (IH H) as (pre & post & -> & Hj & Hpre).
    exists (x :: pre), post. split_and!; [done|done|by constructor].
Qed.

Section Ring.
Context (n : nat).

Lemma cnext_lt i : i < n -> cnext n i < n.
Proof. unfold cnext. destruct (Nat.eqb_spec (S i) n); lia. Qed.

Lemma cprev_lt i : i < n -> cprev n i < n.
Proof. destruct i; simpl; lia. Qed.

Lemma cprev_cnext i : i < n -> cprev n (cnext n i) = i.
Proof. unfold cnext. destruct (Nat.eqb_spec (S i) n); simpl; lia. Qed.

Lemma cnext_cdist i stop :
  i < n -> stop < n -> i <> stop ->
  cdist n (cnext n i) stop = cdist n i stop - 1 /\ 0 < cdist n i stop < n /\
  (cnext n i = stop <-> cdist n i stop = 1).
Proof.
  unfold cnext, cdist; intros.
  destruct (Nat.eqb_spec (S i) n);
    repeat match goal with |- context [Nat.leb ?a ?b] => destruct (Nat.leb_spec a b) end;
    repeat split; intros; lia.
Qed.

Lemma cnext_self i : i < n -> cnext n i = i -> n = 1.
Proof. unfold cnext. destruct (Nat.eqb_spec (S i) n); lia. Qed.

Lemma cdist_cnext_self i :
  i < n -> cnext n i <> i -> cdist n (cnext n i) i = n - 1 /\ 2 <= n.
Proof.
  unfold cnext, cdist. destruct (Nat.eqb_spec (S i) n);
    repeat match goal with |- context [Nat.leb ?a ?b] => destruct (Nat.leb_spec a b) end;
    intros; lia.
Qed.

Lemma cyc_from_seq i k : i + k <= n -> cyc_from n i k = seq i k.
Proof.
  revert i; induction k as [|k IH]; intros i Hk; [done|].
  simpl. f_equal. destruct k as [|k]; [done|].
  unfold cnext. destruct (Nat.eqb_spec (S i) n); [lia|]. apply IH; lia.
Qed.

Lemma cyc_from_wrap k i b :
  i + k = n -> 0 < k -> cyc_from n i (k + b) = seq i k ++ cyc_from n 0 b.
Proof.
  revert i; induction k as [|k IH]; intros i Hk Hpos; [lia|].
  simpl. f_equal. unfold cnext. destruct (Nat.eqb_spec (S i) n).
  - by replace k with 0 by lia.
  - rewrite IH by lia. destruct k; [lia|done].
Qed.

Lemma cyc_from_lt i k j : i < n -> In j (cyc_from n i k) -> j < n.
Proof.
  revert i; induction k as [|k IH]; intros i Hi Hin; [done|].
  destruct Hin as [<-|Hin]; [done|]. eapply IH; [apply cnext_lt|]; eauto.
Qed.

(** A loop that starts at [stop] visits every frame. *)
Lemma window_full i j : i < n -> In j (window n i i) <-> j < n.
Proof.
  intros Hi. unfold window. rewrite Nat.eqb_refl.
  replace n with ((n - i) + i) at 2 by lia.
  rewrite cyc_from_wrap, cyc_from_seq by lia.
  rewrite in_app_iff, !in_seq. lia.
Qed.

Lemma window_self i : i < n -> window n i i = i :: cyc_from n (cnext n i) (n - 1).
Proof.
  intros Hi. unfold window. rewrite Nat.eqb_refl.
  replace n with (S (n - 1)) at 2 by lia. reflexivity.
Qed.

(** A full lap of the ring from [k] is [seq k (n-k) ++ seq 0 k]. *)
Lemma cyc_full_seq k : k < n -> cyc_from n k n = seq k (n - k) ++ seq 0 k.
Proof.
  intros Hk. replace n with ((n - k) + k) at 2 by lia.
  rewrite cyc_from_wrap, cyc_from_seq by lia. done.
Qed.

(** The lap from the frame after [k] is the lap from [k] rotated by one. *)
Lemma cyc_rotate k :
  k < n -> exists l, cyc_from n k n = k :: l /\ cyc_from n (cnext n k) n = l ++ [k].
Proof.
  intros Hk. rewrite (cyc_full_seq k Hk).
  exists (seq (S k) (n - S k) ++ seq 0 k). split.
  - replace (n - k) with (S (n - S k)) by lia. done.
  - unfold cnext. destruct (Nat.eqb_spec (S k) n) as [E|E].
    + rewrite cyc_from_seq by lia. replace (n - S k) with 0 by lia. simpl.
      rewrite <- E, seq_S. done.
    + rewrite (cyc_full_seq (S k)) by lia. rewrite seq_S, app_assoc. done.
Qed.

Lemma cyc_full_NoDup k : k < n -> NoDup (cyc_from n k n).
Proof.
  intros Hk. rewrite (cyc_full_seq k Hk). apply list_relations.list.NoDup_app.
  split_and!; [apply list_numbers.list.NoDup_seq| |apply list_numbers.list.NoDup_seq].
  intros x Hx1 Hx2. apply elem_of_seq in Hx1, Hx2. lia.
Qed.

(** A loop that does not start at [stop] never examines [stop]. *)
Lemma window_excludes_stop start stop :
  start < n -> stop < n -> start <> stop -> ~ In stop (window n start stop).
Proof.
  intros Hs Hst Hne. unfold window. rewrite (proj2 (Nat.eqb_neq _ _) Hne).
  remember (cdist n start stop) as k eqn:Hk. revert start Hs Hne Hk.
  induction k as [|k IH]; intros i Hi Hne Hk; [intros []|].
  destruct (cnext_cdist i stop Hi Hst Hne) as (Hd & _ & Heq).
  intros [E|Hin]; [exact (Hne E)|]. destruct (Nat.eqb_spec (cnext n i) stop) as [E|E].
  - apply Heq in E. replace k with 0 in Hin by lia. exact Hin.
  - exact (IH (cnext n i) (cnext_lt i Hi) E ltac:(lia) Hin).
Qed.

Lemma window_lt start stop j :
  start < n -> In j (window n start stop) -> j < n.
Proof. unfold window. apply cyc_from_lt. Qed.

Section Scan.
Context (P : nat -> bool) (stop : nat).

Lemma scan_inner k i fuel :
  i < n -> stop < n -> k = cdist n i stop -> 0 < k -> k <= fuel ->
  scan n P stop i fuel =
  match List.find P (cyc_from n i k) with
  | Some j => (j, true) | None => (stop, false) end.
Proof.
  revert i fuel; induction k as [|k IH]; intros i fuel Hi Hs Hk Hpos Hf; [lia|].
  destruct fuel as [|fuel]; [lia|].
  assert (Hne : i <> stop) by (intros ->; unfold cdist in Hk;
                               rewrite Nat.leb_refl in Hk; lia).
  destruct (cnext_cdist i stop Hi Hs Hne) as (Hd & Hr & Heq).
  simpl. destruct (P i); [done|].
  destruct (Nat.eqb_spec (cnext n i) stop) as [E|E].
  - replace k with 0 by (apply Heq in E; lia). by rewrite E.
  - assert (cdist n i stop <> 1) by (intros Hc; by apply E, Heq).
    apply IH; try apply cnext_lt; try done; lia.
Qed.

(** Termination of the loop: from any start frame, [n] iterations reach
    the exit condition, so any fuel [>= n] computes the reference loop. *)
Lemma scan_eq_ref start fuel :
  start < n -> stop < n -> n <= fuel ->
  scan n P stop start fuel = scan_ref n P start stop.
Proof.
  intros Hs Hst Hf. unfold scan_ref.
  destruct (Nat.eqb_spec start stop) as [->|Hne].
  - rewrite window_self by done.
    destruct fuel as [|fuel]; [lia|].
    simpl. destruct (P stop) eqn:HP; [done|].
    destruct (Nat.eqb_spec (cnext n stop) stop) as [E|E].
    + by rewrite E, (cnext_self stop Hs E).
    + destruct (cdist_cnext_self stop Hs E) as [Hd Hn].
      rewrite (scan_inner (n - 1)); try done; try apply cnext_lt; lia.
  - unfold window. rewrite (proj2 (Nat.eqb_neq _ _) Hne).
    destruct (cnext_cdist start stop Hs Hst Hne) as (_ & Hr & _).
    apply scan_inner; try done; lia.
Qed.

Lemma scan_ref_lt start : start < n -> stop < n -> fst (scan_ref n P start stop) < n.
Proof.
  intros Hs Hst. unfold scan_ref.
  destruct (List.find P _) as [j|] eqn:E; simpl; [|exact Hst].
  apply find_some in E as [Hin _]. eapply window_lt; [exact Hs|exact Hin].
Qed.

Lemma scan_ref_found start j :
  scan_ref n P start stop = (j, true) ->
  In j (window n start stop) /\ P j = true.
Proof.
  unfold scan_ref. destruct (List.find P _) as [k|] eqn:E; [|done].
  intros [= ->]. by apply find_some in E.
Qed.

Lemma scan_ref_not_found start j :
  scan_ref n P start stop = (j, false) ->
  j = stop /\ forall k, In k (window n start stop) -> P k = false.
Proof.
  unfold scan_ref. destruct (List.find P _) as [k|] eqn:E; [done|].
  intros [= ->]. split; [done|]. intros k Hk. by eapply find_none in E.
Qed.

Lemma scan_lt start : start < n -> stop < n -> fst (scan n P stop start n) < n.
Proof. intros. rewrite scan_eq_ref by done. by apply scan_ref_lt. Qed.

(** A loop whose condition holds nowhere stops at [stop], not found. *)
Lemma scan_none start :
  start < n -> stop < n -> (forall i, i < n -> P i = false) -> scan n P stop start n = (stop, false).
Proof.
  intros Hs Hst HP. rewrite scan_eq_ref by done. unfold scan_ref.
  destruct (List.find P _) as [j|] eqn:E; [|done].
  apply find_some in E as [Hin Hj]. rewrite HP in Hj; [discriminate|eapply window_lt; [exact Hs|exact Hin]].
Qed.

(** C17. The ring loops of [buffer_mgr.c] terminate within [n] iterations
    and compute what they are meant to: with any fuel [>= n], [scan] stops
    at the first frame of the cyclic window from [start] to [stop] that
    satisfies [P], every frame before it in the window failing [P], or
    returns [stop] and [false] when no frame of the window satisfies [P]. *)
Theorem scan_fuel_adequate start fuel :
  start < n -> stop < n -> n <= fuel ->
  match scan n P stop start fuel with
  | (j, true) => exists pre post, window n start stop = pre ++ j :: post /\
                 P j = true /\ Forall (fun k => P k = false) pre
  | (j, false) => j = stop /\ Forall (fun k => P k = false) (window n start stop)
  end.
Proof.
  intros Hs Hst Hf. rewrite scan_eq_ref by done. unfold scan_ref.
  destruct (List.find P _) as [j|] eqn:E.
  - by apply find_split.
  - split; [done|]. apply Forall_forall. intros k Hk. by eapply find_none in E.
Qed.
End Scan.
End Ring.

#[export] Hint Resolve cnext_lt cprev_lt : bm.

Lemma scan_fuel_adequate_witness :
  1 < 3 /\ 0 < 3 /\ 3 <= 5 /\
  (match scan 3 (Nat.eqb 2) 0 1 5 with
   | (j, true) => exists pre post, window 3 1 0 = pre ++ j :: post /\
                  Nat.eqb 2 j = true /\ Forall (fun k => Nat.eqb 2 k = false) pre
   | (j, false) => j = 0 /\ Forall (fun k => Nat.eqb 2 k = false) (window 3 1 0)
   end).
Proof.
  assert (H1 : 1 < 3) by lia. assert (H2 : 0 < 3) by lia. assert (H3 : 3 <= 5) by lia.
  exact (conj H1 (conj H2 (conj H3 (scan_fuel_adequate 3 (Nat.eqb 2) 0 1 5 H1 H2 H3)))).
Defined.
