(* ===== verification/Storage.v ===== *)
(** * The storage manager, as the buffer manager consumes it

    [storage_mgr.c] and [dberror.h] are not part of [src/]: this file models
    them from section 6 of the specification.  A page file is the list of
    its blocks ([totalNumPages] is its length); [ensureCapacity] grows it
    with zero-filled blocks, [readBlock] and [writeBlock] fail outside
    [0 .. totalNumPages-1].  Two ghost counters record the block reads and
    writes that succeed, so that the pool's [numRead]/[numWrite] statistics
    can be compared with the I/O really performed. *)

From Stdlib Require Import Strings.Byte.
From S2P Require Import Prelude.

(** The return codes of [dberror.h] that [buffer_mgr.c], [record_mgr.c] and [btree_mgr.c]
    produce. *)
Inductive RC :=
  | RC_OK | RC_FILE_NOT_FOUND | RC_WRITE_FAILED | RC_READ_NON_EXISTING_PAGE
  | RC_RM_NO_PRINT_FOR_DATATYPE | RC_IM_KEY_NOT_FOUND | RC_IM_KEY_ALREADY_EXISTS
  | RC_IM_NO_MORE_ENTRIES | RC_TABLE_ALREADY_EXISTS | RC_RM_NO_MORE_TUPLES
  | RC_RM_UPDATE_NOT_POSSIBLE_ON_DELETED_RECORD.

#[export] Instance RC_eq_dec : EqDecision RC.
Proof. solve_decision. Defined.

Definition PAGE_SIZE : nat := 4096.

#[export] Instance byte_eq_decision : EqDecision Byte.byte := Byte.byte_eq_dec.

Definition page := list Byte.byte.

(** A zero-filled block, as [ensureCapacity] appends and [calloc] returns. *)
Definition empty_page : page := repeat Byte.x00 PAGE_SIZE.

Record SM_FileHandle := mkFile {
  blocks : list page;
  nReads : nat;   (* ghost: successful [readBlock] calls *)
  nWrites : nat   (* ghost: successful [writeBlock] calls *)
}.

Definition totalNumPages (f : SM_FileHandle) : Z := Z.of_nat (length (blocks f)).

(** [ensureCapacity(numberOfPages, fHandle)]: append empty blocks until the
    file has at least [numberOfPages] blocks. *)
Definition ensureCapacity (k : Z) (f : SM_FileHandle) : SM_FileHandle :=
  let missing := (Z.to_nat k - length (blocks f))%nat in
  {| f with blocks := blocks f ++ repeat empty_page missing |}.

(** [readBlock(pageNum, fHandle, memPage)]: [None] is
    [RC_READ_NON_EXISTING_PAGE]. *)
Definition readBlock (p : Z) (f : SM_FileHandle) : SM_FileHandle * option page :=
  if decide (0 <= p < totalNumPages f)%Z then
    match blocks f !! Z.to_nat p with
    | Some d => ({| f with nReads := S (nReads f) |}, Some d)
    | None => (f, None)
    end
  else (f, None).

(** [writeBlock(pageNum, fHandle, memPage)]: [None] is [RC_WRITE_FAILED]. *)
Definition writeBlock (p : Z) (d : page) (f : SM_FileHandle) : option SM_FileHandle :=
  if decide (0 <= p < totalNumPages f)%Z then
    Some {| blocks := <[Z.to_nat p := d]> (blocks f);
            nReads := nReads f; nWrites := S (nWrites f) |}
  else None.

(** ** Lemmas *)

Lemma ensureCapacity_length k f :
  length (blocks (ensureCapacity k f)) = Nat.max (length (blocks f)) (Z.to_nat k).
Proof. unfold ensureCapacity; simpl. rewrite length_app, repeat_length. lia. Qed.

Lemma ensureCapacity_old k f i :
  (i < length (blocks f))%nat -> blocks (ensureCapacity k f) !! i = blocks f !! i.
Proof. intros. unfold ensureCapacity; simpl. by apply lookup_app_l. Qed.

Lemma ensureCapacity_counters k f :
  nReads (ensureCapacity k f) = nReads f /\ nWrites (ensureCapacity k f) = nWrites f.
Proof. done. Qed.

(** After [ensureCapacity(p+1)], block [p] can be read. *)
Lemma readBlock_ensure p f :
  (0 <= p)%Z ->
  exists d, readBlock p (ensureCapacity (p + 1) f) =
            ({| blocks := blocks (ensureCapacity (p + 1) f);
                nReads := S (nReads f); nWrites := nWrites f |}, Some d)
         /\ blocks (ensureCapacity (p + 1) f) !! Z.to_nat p = Some d.
Proof.
  intros Hp. unfold readBlock, totalNumPages.
  pose proof (ensureCapacity_length (p + 1) f) as Hl.
  destruct (lookup_lt_is_Some_2 (blocks (ensureCapacity (p + 1) f)) (Z.to_nat p))
    as [d Hd]; [lia|].
  rewrite decide_True by lia. rewrite Hd. by exists d.
Qed.

Lemma readBlock_fail p f :
  ~ (0 <= p < totalNumPages f)%Z -> readBlock p f = (f, None).
Proof. intros H. unfold readBlock. by rewrite decide_False. Qed.

Lemma readBlock_blocks p f : blocks (fst (readBlock p f)) = blocks f.
Proof. unfold readBlock. repeat case_match; done. Qed.

Lemma writeBlock_Some p d f :
  (0 <= p < totalNumPages f)%Z ->
  writeBlock p d f = Some {| blocks := <[Z.to_nat p := d]> (blocks f);
                             nReads := nReads f; nWrites := S (nWrites f) |}.
Proof. intros. unfold writeBlock. by rewrite decide_True. Qed.

Lemma writeBlock_None p d f :
  ~ (0 <= p < totalNumPages f)%Z -> writeBlock p d f = None.
Proof. intros. unfold writeBlock. by rewrite decide_False. Qed.

(** [ensureCapacity] keeps every block the file has. *)
Lemma ensureCapacity_Some k f i x :
  blocks f !! i = Some x -> blocks (ensureCapacity k f) !! i = Some x.
Proof. intros. unfold ensureCapacity; simpl. by apply lookup_app_l_Some. Qed.

(** A write changes no other block. *)
Lemma writeBlock_other p d f f' k :
  writeBlock p d f = Some f' -> k <> Z.to_nat p -> blocks f' !! k = blocks f !! k.
Proof. unfold writeBlock. case_decide; [intros [= <-] Hk; simpl|done]. by rewrite list_lookup_insert_ne. Qed.

Lemma writeBlock_Some_inv p d f f' : writeBlock p d f = Some f' -> (0 <= p)%Z.
Proof. unfold writeBlock. case_decide; [lia|done]. Qed.

(** Write-then-read: a written block reads back as written. *)
Lemma writeBlock_readBlock p d f f' :
  writeBlock p d f = Some f' -> snd (readBlock p f') = Some d.
Proof.
  unfold writeBlock, readBlock, totalNumPages.
  destruct (decide _) as [H|H]; [|done]. intros [= <-]; simpl.
  rewrite length_insert, decide_True by lia.
  by rewrite list_lookup_insert_eq by lia.
Qed.

(** The ghost counters: a successful read counts one read, a successful
    write one write. *)
Lemma readBlock_counts p f f' d :
  readBlock p f = (f', Some d) -> nReads f' = S (nReads f) /\ nWrites f' = nWrites f.
Proof. unfold readBlock. repeat case_match; intros; simplify_eq/=; done. Qed.

Lemma writeBlock_counts p d f f' :
  writeBlock p d f = Some f' -> nReads f' = nReads f /\ nWrites f' = S (nWrites f).
Proof. unfold writeBlock. case_decide; intros; simplify_eq/=; done. Qed.

#[export] Hint Resolve ensureCapacity_old : bm.
