(* ===== verification/Memory.v ===== *)
(** * Allocation and release of the record manager's objects

    The functions that only allocate or free memory: [createRecord] and
    [freeRecord], [startScan] (its two [malloc]s) and [closeScan],
    [createSchema] and [freeSchema] of [src/record_mgr.c]; [closeBtree] and
    [closeTreeScan] of [src/btree_mgr.c]; [MAKE_VARSTRING] and
    [FREE_VARSTRING] of [src/rm_deserializer.c].  The other files model
    what these objects hold; this one models the blocks themselves.

    The heap is the set [live] of the addresses of the blocks allocated and
    not yet freed, and the next address [malloc] returns; a pointer is an
    [option Z], [None] being [NULL].  [free(NULL)] does nothing; freeing an
    address that is not live is undefined ([None]); dereferencing [NULL] is
    undefined.  The fields these functions write ([record->data],
    [scan->mgmtData], [mgmt->currentRecord]) are records of their own.

    [freeRecord] and [closeScan] set the field to [NULL] before freeing it,
    and set their parameter to [NULL] before freeing it: they free nothing.
    [leak_count] states it: a client that creates and frees records, opens
    and closes scans, creates and frees schemas and string builders keeps
    two more blocks live for every record and every scan
    ([client_leaks]). *)

From stdpp Require Import gmap sets.
From S2P Require Import Prelude Storage.

(** The heap: the live blocks, and the address the next [malloc] returns. *)
Record Heap := mkHeap { live : gset Z; next_addr : Z }.

(** [malloc(n)]: a block that is not live (the size is not modelled). *)
Definition malloc (h : Heap) : Z * Heap :=
  (next_addr h, mkHeap ({[next_addr h]} ∪ live h) (next_addr h + 1)).

(** [free(p)]. *)
Definition free (p : option Z) (h : Heap) : option Heap :=
  match p with
  | None => Some h
  | Some a => if decide (a ∈ live h) then Some (mkHeap (live h ∖ {[a]}) (next_addr h)) else None
  end.

(** The field [data] of a [Record]. *)
Record RecordCell := mkRecordCell { rc_data : option Z }.

(** The field [mgmtData] of an [RM_ScanHandle]. *)
Record ScanHandleCell := mkScanHandleCell { sh_mgmtData : option Z }.

(** The field [currentRecord] of an [RM_ScanMgmt]. *)
Record ScanMgmtCell := mkScanMgmtCell { sm_currentRecord : option Z }.

(** [createRecord(&record, schema)]: the [Record], then its data buffer. *)
Definition createRecord_alloc (h : Heap) : Z * RecordCell * Heap :=
  let '(r, h1) := malloc h in
  let '(d, h2) := malloc h1 in
  (r, mkRecordCell (Some d), h2).

(** [freeRecord(record)]: [record->data = NULL; free(record->data);
    record = NULL; free(record);]. *)
Definition freeRecord (record : option Z) (c : RecordCell) (h : Heap)
  : option (RecordCell * Heap * RC) :=
  match record with
  | None => None
  | Some _ =>
      let c' := mkRecordCell None in
      h1 ← free (rc_data c') h;
      h2 ← free None h1;
      Some (c', h2, RC_OK)
  end.

(** The allocations of [startScan]: the [RM_ScanMgmt], then its
    [currentRecord]; [scan->mgmtData] points to the first. *)
Definition startScan_alloc (h : Heap) : ScanHandleCell * ScanMgmtCell * Heap :=
  let '(m, h1) := malloc h in
  let '(r, h2) := malloc h1 in
  (mkScanHandleCell (Some m), mkScanMgmtCell (Some r), h2).

(** [closeScan(scan)]: [mgmt->currentRecord = NULL; free(mgmt->currentRecord);
    scan->mgmtData = NULL; free(scan->mgmtData); scan = NULL; free(scan);]. *)
Definition closeScan (scan : option Z) (sh : ScanHandleCell) (sm : ScanMgmtCell) (h : Heap)
  : option (ScanHandleCell * ScanMgmtCell * Heap * RC) :=
  match scan, sh_mgmtData sh with
  | Some _, Some _ =>
      let sm' := mkScanMgmtCell None in
      h1 ← free (sm_currentRecord sm') h;
      let sh' := mkScanHandleCell None in
      h2 ← free (sh_mgmtData sh') h1;
      h3 ← free None h2;
      Some (sh', sm', h3, RC_OK)
  | _, _ => None
  end.

(** The allocation of [createSchema]: the [Schema] struct (its arrays are
    the caller's). *)
Definition createSchema_alloc (h : Heap) : Z * Heap := malloc h.

(** [freeSchema(schema)]: [free(schema)]. *)
Definition freeSchema (schema : option Z) (h : Heap) : option (Heap * RC) :=
  h' ← free schema h; Some (h', RC_OK).

(** [closeBtree(tree)]: [free(tree)]. *)
Definition closeBtree (tree : option Z) (h : Heap) : option (Heap * RC) :=
  h' ← free tree h; Some (h', RC_OK).

(** [closeTreeScan(handle)]: [free(handle)]. *)
Definition closeTreeScan (handle : option Z) (h : Heap) : option (Heap * RC) :=
  h' ← free handle h; Some (h', RC_OK).

(** The allocations of [MAKE_VARSTRING]: the [VarString], then its buffer. *)
Definition MAKE_VARSTRING_alloc (h : Heap) : Z * Z * Heap :=
  let '(v, h1) := malloc h in
  let '(b, h2) := malloc h1 in
  (v, b, h2).

(** [FREE_VARSTRING(var)]: [free(var->buf); free(var);]. *)
Definition FREE_VARSTRING (var : option Z) (buf : option Z) (h : Heap) : option Heap :=
  match var with
  | None => None
  | Some _ => h1 ← free buf h; free var h1
  end.

(** ** A client's allocations *)

(** An object a client creates and then releases. *)
Inductive mem_op := MRecord | MScan | MSchema | MVarString.

(** Creating then releasing it. *)
Definition run_mem_op (o : mem_op) (h : Heap) : option Heap :=
  match o with
  | MRecord =>
      let '(r, c, h1) := createRecord_alloc h in
      '(_, h2, _) ← freeRecord (Some r) c h1; Some h2
  | MScan =>
      (* [scan] is the caller's handle, whose storage this heap does not hold *)
      let '(sh, sm, h1) := startScan_alloc h in
      '(_, _, h2, _) ← closeScan (Some 0%Z) sh sm h1; Some h2
  | MSchema =>
      let '(s, h1) := createSchema_alloc h in
      '(h2, _) ← freeSchema (Some s) h1; Some h2
  | MVarString =>
      let '(v, b, h1) := MAKE_VARSTRING_alloc h in
      FREE_VARSTRING (Some v) (Some b) h1
  end.

Fixpoint run_mem_ops (os : list mem_op) (h : Heap) : option Heap :=
  match os with
  | [] => Some h
  | o :: os' => h' ← run_mem_op o h; run_mem_ops os' h'
  end.

(** The blocks an object leaves live. *)
Definition leak_count (o : mem_op) : nat :=
  match o with MRecord => 2 | MScan => 2 | MSchema => 0 | MVarString => 0 end.

(** ** The heap's invariant *)

(** Every live block lies below the next address. *)
Definition heap_ok (h : Heap) : Prop := forall a, a ∈ live h -> (a < next_addr h)%Z.

Lemma malloc_ok h : heap_ok h ->
  let '(a, h') := malloc h in
  heap_ok h' /\ a ∉ live h /\ live h' = {[a]} ∪ live h /\ (next_addr h < next_addr h')%Z.
Proof.
  intros Hh. simpl. split; [|split; [|split; [done|lia]]].
  - intros a [->%elem_of_singleton|Ha]%elem_of_union; simpl; [lia|]. specialize (Hh a Ha). lia.
  - intros Ha. specialize (Hh _ Ha). lia.
Qed.

Lemma malloc_size h : heap_ok h -> size (live (malloc h).2) = S (size (live h)).
Proof.
  intros Hh. simpl. rewrite size_union; [by rewrite size_singleton|].
  apply disjoint_singleton_l. intros Ha. specialize (Hh _ Ha). lia.
Qed.

Lemma free_live h a h' :
  free (Some a) h = Some h' -> a ∈ live h /\ live h' = live h ∖ {[a]} /\ next_addr h' = next_addr h.
Proof. simpl. case_decide; [intros [= <-]; done|done]. Qed.

Lemma free_ok p h h' : heap_ok h -> free p h = Some h' -> heap_ok h'.
Proof.
  destruct p as [a|]; [|by intros ? [= <-]].
  intros Hh (Ha & Hl & Hn)%free_live b Hb. rewrite Hl in Hb. rewrite Hn. apply Hh. set_solver.
Qed.

Lemma free_size h a h' : free (Some a) h = Some h' -> S (size (live h')) = size (live h).
Proof.
  intros (Ha & -> & _)%free_live.
  rewrite size_difference by set_solver. rewrite size_singleton.
  assert (0 < size (live h)).
  { apply Nat.neq_0_lt_0. intros Hs%size_empty_inv. set_solver. }
  lia.
Qed.

Lemma free_in h a : a ∈ live h -> exists h', free (Some a) h = Some h'.
Proof. intros Ha. simpl. rewrite decide_True by done. by eexists. Qed.

(** Creating and releasing one object succeeds, keeps the invariant, and
    leaves [leak_count] more blocks live. *)
Lemma run_mem_op_spec o h :
  heap_ok h ->
  exists h', run_mem_op o h = Some h' /\ heap_ok h' /\ size (live h') = size (live h) + leak_count o.
Proof.
  intros Hh. pose proof (malloc_ok h Hh) as Hm1. pose proof (malloc_size h Hh) as Hs1.
  destruct (malloc h) as [a h1] eqn:E1. destruct Hm1 as (Hh1 & Ha & Hl1 & _). simpl in Hs1.
  pose proof (malloc_ok h1 Hh1) as Hm2. pose proof (malloc_size h1 Hh1) as Hs2.
  destruct (malloc h1) as [b h2] eqn:E2. destruct Hm2 as (Hh2 & Hb & Hl2 & _). simpl in Hs2.
  assert (Ha1 : a ∈ live h1) by (rewrite Hl1; set_solver).
  assert (Hb2 : b ∈ live h2) by (rewrite Hl2; set_solver).
  destruct o; unfold run_mem_op, createRecord_alloc, startScan_alloc, createSchema_alloc,
    MAKE_VARSTRING_alloc, freeSchema, FREE_VARSTRING; rewrite ?E1, ?E2; cbn -[free].
  - exists h2. split_and!; [done|done|lia].
  - exists h2. split_and!; [done|done|lia].
  - destruct (free_in h1 a Ha1) as [h' F]. rewrite F. cbn -[free].
    exists h'. pose proof (free_size _ _ _ F).
    split_and!; [done|exact (free_ok _ _ _ Hh1 F)|lia].
  - destruct (free_in h2 b Hb2) as [h3 F3]. rewrite F3. cbn -[free].
    pose proof F3 as (_ & Hl3 & _)%free_live.
    assert (Ha3 : a ∈ live h3) by (rewrite Hl3, Hl2; set_solver).
    destruct (free_in h3 a Ha3) as [h4 F4]. rewrite F4.
    exists h4. pose proof (free_size _ _ _ F3). pose proof (free_size _ _ _ F4).
    split_and!; [done|exact (free_ok _ _ _ (free_ok _ _ _ Hh2 F3) F4)|lia].
Qed.

(** C29. Memory leak of [freeRecord] and [closeScan]: a client that creates
    and releases records ([createRecord]/[freeRecord]), scans
    ([startScan]/[closeScan]), schemas ([createSchema]/[freeSchema]) and
    string builders ([MAKE_VARSTRING]/[FREE_VARSTRING]), in any order,
    never frees twice or frees an unallocated block, and ends with exactly
    two more live blocks per record and per scan: the schemas and the
    builders are freed, the records and the scans are not. *)
Theorem client_leaks os h :
  heap_ok h ->
  exists h', run_mem_ops os h = Some h' /\ heap_ok h' /\
             size (live h') = size (live h) + sum_list_with leak_count os.
Proof.
  revert h. induction os as [|o os IH]; intros h Hh; simpl.
  { exists h. split_and!; [done|done|lia]. }
  destruct (run_mem_op_spec o h Hh) as (h1 & -> & Hh1 & Hs1). simpl.
  destruct (IH h1 Hh1) as (h' & -> & Hh' & Hs'). exists h'. split_and!; [done|done|lia].
Qed.

(** ** Witness *)

Lemma client_leaks_witness :
  heap_ok (mkHeap ∅ 0) /\
  exists h', run_mem_ops [MRecord; MScan; MSchema; MVarString] (mkHeap ∅ 0) = Some h' /\
             heap_ok h' /\ size (live h') = 4.
Proof.
  assert (H0 : heap_ok (mkHeap ∅ 0)) by (intros a Ha; set_solver).
  split; [exact H0|].
  exact (client_leaks [MRecord; MScan; MSchema; MVarString] (mkHeap ∅ 0) H0).
Defined.
