(* ===== verification/Pool.v ===== *)
(** * The buffer pool: frames, management data, creation and statistics

    [src/buffer_mgr.c] keeps the frames of a pool in a circular doubly
    linked list of [PageFrame]s built by [createPageFrame], with three
    cursors into it ([start], the first frame created; [head]; [tail]), and
    the counters of [BM_BufferPool_Mgmt].  Here the ring is the list
    [frames], frame [i] being the [i]-th frame created, so that [start] is
    always index [0] and [next]/[prev] are [cnext]/[cprev] of the Prelude.
    The pool handle [BM_BufferPool], its management data and the page file
    it caches are flattened into the record [BM].

    The file also holds the frame-update helpers the operations share, the
    invariant [WF] and the lemmas that make its preservation proofs short. *)

From S2P Require Import Prelude Storage.

(** [NO_PAGE], the page number of an empty frame. *)
Definition NO_PAGE : Z := -1.

(** [struct PageFrame] (the [next]/[prev] pointers are the ring order). *)
Record PageFrame := mkFrame {
  frameNum : Z;
  pageNum : Z;
  dirtyFlag : Z;
  fixCount : Z;
  refBit : Z;
  data : page
}.

(** [ReplacementStrategy] values handled by [pinPage]. *)
Inductive ReplacementStrategy := RS_FIFO | RS_LRU | RS_CLOCK.

#[export] Instance ReplacementStrategy_eq_dec : EqDecision ReplacementStrategy.
Proof. solve_decision. Defined.

(** [BM_BufferPool] with its [BM_BufferPool_Mgmt] and the page file. *)
Record BM := mkBM {
  numPages : Z;
  strategy : ReplacementStrategy;
  occupiedCount : Z;
  frames : list PageFrame;
  head : nat;
  tail : nat;
  numRead : Z;
  numWrite : Z;
  fh : SM_FileHandle
}.

(** What [page->data] points to: nothing yet, the [data] buffer of frame
    [i], or a string constant a client assigned to it. *)
Inductive PageData := NoData | FrameData (i : nat) | ConstData (s : list Byte.byte).

(** [BM_PageHandle]: the page number and the buffer [page->data]. *)
Record BM_PageHandle := mkHandle { ph_pageNum : Z; ph_data : PageData }.

(** The monad of the buffer manager's functions. *)
Abbreviation BMM := (ST BM RC).

(** ** Creation: [createPageFrame] and [initBufferPool] *)

(** The frame [createPageFrame] allocates: empty, clean, unpinned. *)
Definition newFrame : PageFrame :=
  {| frameNum := 0; pageNum := NO_PAGE; dirtyFlag := 0; fixCount := 0;
     refBit := 0; data := empty_page |}.

#[export] Instance PageFrame_inhabited : Inhabited PageFrame := populate newFrame.

(** [createPageFrame]: link a new frame after [tail], closing the ring. *)
Definition createPageFrame (ring : list PageFrame) : list PageFrame :=
  ring ++ [newFrame].

(** [initBufferPool(bm, pageFileName, numPages, strategy, stratData)]:
    [numPages] calls of [createPageFrame], then [tail = head = start]. *)
Definition initBufferPool (f : SM_FileHandle) (n : Z) (s : ReplacementStrategy) : BM :=
  {| numPages := n; strategy := s; occupiedCount := 0;
     frames := Nat.iter (Z.to_nat n) createPageFrame [];
     head := 0; tail := 0; numRead := 0; numWrite := 0; fh := f |}.

(** ** Reading and updating frames *)

Definition nframes (b : BM) : nat := length (frames b).
Definition frame_at (b : BM) (i : nat) : PageFrame := frames b !!! i.

Definition set_pageNum (p : Z) (f : PageFrame) : PageFrame := {| f with pageNum := p |}.
Definition fix_incr (f : PageFrame) : PageFrame := {| f with fixCount := fixCount f + 1 |}.
Definition fix_decr (f : PageFrame) : PageFrame := {| f with fixCount := fixCount f - 1 |}.
Definition set_dirty (v : Z) (f : PageFrame) : PageFrame := {| f with dirtyFlag := v |}.
Definition set_ref (v : Z) (f : PageFrame) : PageFrame := {| f with refBit := v |}.
Definition set_data (d : page) (f : PageFrame) : PageFrame := {| f with data := d |}.

(** State transformers: one per kind of assignment in [buffer_mgr.c]. *)
Definition upd_frames (g : list PageFrame -> list PageFrame) (b : BM) : BM :=
  {| b with frames := g (frames b) |}.
Definition with_head (i : nat) (b : BM) : BM := {| b with head := i |}.
Definition with_tail (i : nat) (b : BM) : BM := {| b with tail := i |}.
Definition with_fh (f : SM_FileHandle) (b : BM) : BM := {| b with fh := f |}.
Definition bump_occupied (b : BM) : BM := {| b with occupiedCount := occupiedCount b + 1 |}.
Definition bump_read (b : BM) : BM := {| b with numRead := numRead b + 1 |}.
Definition bump_write (b : BM) : BM := {| b with numWrite := numWrite b + 1 |}.

(** [frame->field = ...] for frame [i]. *)
Definition update_frame (i : nat) (g : PageFrame -> PageFrame) : BMM unit :=
  st_modify (upd_frames (alter g i)).

Definition set_head (i : nat) : BMM unit := st_modify (with_head i).
Definition set_tail (i : nat) : BMM unit := st_modify (with_tail i).
(** [bp_mgmt->occupiedCount++], [numRead++], [numWrite++]. *)
Definition incr_occupied : BMM unit := st_modify bump_occupied.
Definition incr_numRead : BMM unit := st_modify bump_read.
Definition incr_numWrite : BMM unit := st_modify bump_write.

(** ** The page-file calls of [buffer_mgr.c] *)

(** [ensureCapacity(k, &fh);] (its result is never checked). *)
Definition ensureCapacityM (k : Z) : BMM unit :=
  b ← st_get; st_modify (with_fh (ensureCapacity k (fh b))).

(** [if (readBlock(p, &fh, frame->data) != RC_OK)
       return RC_READ_NON_EXISTING_PAGE;] with [frame] the frame [i]. *)
Definition readBlockM (p : Z) (i : nat) : BMM unit :=
  b ← st_get;
  match readBlock p (fh b) with
  | (f', Some d) => st_modify (upd_frames (alter (set_data d) i) ∘ with_fh f')
  | (_, None) => st_throw RC_READ_NON_EXISTING_PAGE
  end.

(** [if (writeBlock(frame->pageNum, &fh, frame->data) != RC_OK)
       return RC_WRITE_FAILED;] with [frame] the frame [i]. *)
Definition writeBlockM (i : nat) : BMM unit :=
  b ← st_get;
  match writeBlock (pageNum (frame_at b i)) (data (frame_at b i)) (fh b) with
  | Some f' => st_modify (with_fh f')
  | None => st_throw RC_WRITE_FAILED
  end.

(** ** Steps shared by [pinPageFIFO], [pinPageLRU] and [pinPageCLOCK] *)

(** The miss path while the pool has empty frames, shared by the three
    strategies up to the reference bit CLOCK sets:
    [frame = head; frame->pageNum = pageNum; if (frame->next != head)
     head = frame->next; frame->fixCount++; occupiedCount++;] *)
Definition fill_frame (b : BM) (p : Z) : BMM nat :=
  let i := head b in
  update_frame i (set_pageNum p);;
  (if negb (Nat.eqb (cnext (nframes b) i) i) then set_head (cnext (nframes b) i) else mret tt);;
  update_frame i fix_incr;;
  incr_occupied;;
  mret i.

(** [if (frame->dirtyFlag == 1) { ensureCapacity(frame->pageNum, &fh);
     if (writeBlock(...) != RC_OK) return RC_WRITE_FAILED; numWrite++; }] *)
Definition write_back_if_dirty (j : nat) : BMM unit :=
  b ← st_get;
  if bool_decide (dirtyFlag (frame_at b j) = 1%Z)
  then ensureCapacityM (pageNum (frame_at b j));; writeBlockM j;; incr_numWrite
  else mret tt.

(** The end of every [pinPage*]: [ensureCapacity(pageNum+1, &fh);] the read
    into [frame->data] (or [RC_READ_NON_EXISTING_PAGE]), [numRead++], and
    the handle [page] set to the page and the frame. *)
Definition load_page (p : Z) (i : nat) : BMM BM_PageHandle :=
  ensureCapacityM (p + 1);;
  readBlockM p i;;
  incr_numRead;;
  mret (mkHandle p (FrameData i)).

(** ** The search for a page: [if (frame->pageNum == pageNum)] over the ring
    from [head]; shared by the three [pinPage*] functions, [markDirty],
    [unpinPage]. *)
Definition holds (b : BM) (p : Z) (i : nat) : bool :=
  bool_decide (pageNum (frame_at b i) = p).

Definition find_page (b : BM) (p : Z) : nat * bool :=
  scan (nframes b) (holds b p) (head b) (head b) (nframes b).

(** The victim test of the replacement loops: [frame->fixCount == 0]. *)
Definition unpinned (b : BM) (i : nat) : bool :=
  bool_decide (fixCount (frame_at b i) = 0%Z).

(** Running a [pinPage*] function: the caller's handle is updated only when
    the function reaches its final [return RC_OK]. *)
Definition run_pin (m : BMM BM_PageHandle) (page : BM_PageHandle) (b : BM)
  : BM * BM_PageHandle * RC :=
  match m b with
  | (b', inl e) => (b', page, e)
  | (b', inr h) => (b', h, RC_OK)
  end.

(** ** Statistics interface

    Each walks [numPages] frames from [start] along [next]. *)
Definition stat_walk {A} (sel : PageFrame -> A) (b : BM) : list A :=
  map (fun i => sel (frame_at b i)) (cyc_from (nframes b) 0 (Z.to_nat (numPages b))).

Definition getFrameContents (b : BM) : list Z := stat_walk pageNum b.
(** [dirtyBit[i] = frame->dirtyFlag]: the [int] converts to [bool]. *)
Definition getDirtyFlags (b : BM) : list bool :=
  stat_walk (fun f => negb (Z.eqb (dirtyFlag f) 0)) b.
Definition getFixCounts (b : BM) : list Z := stat_walk fixCount b.
Definition getNumReadIO (b : BM) : Z := numRead b.
Definition getNumWriteIO (b : BM) : Z := numWrite b.

(** ** The invariant *)

(** Page numbers held by non-empty frames. *)
Definition resident (fr : list PageFrame) : list Z :=
  List.filter (fun p => negb (Z.eqb p NO_PAGE)) (map pageNum fr).

(** Well-formedness of a pool: a non-empty ring of [numPages] frames, the
    cursors inside it, the occupied count within the capacity, no page held
    by two frames (invariant 1 of the specification), non-negative
    counters. *)
Definition WF (b : BM) : Prop :=
  (1 <= numPages b)%Z /\
  nframes b = Z.to_nat (numPages b) /\
  head b < nframes b /\ tail b < nframes b /\
  (0 <= occupiedCount b <= numPages b)%Z /\
  NoDup (resident (frames b)) /\
  (0 <= numRead b)%Z /\ (0 <= numWrite b)%Z.

#[export] Instance WF_dec b : Decision (WF b).
Proof. unfold WF. apply _. Defined.

(** ** Lemmas on the ring of frames *)

Arguments resident : simpl never.

Lemma init_frames k : Nat.iter k createPageFrame [] = repeat newFrame k.
Proof.
  induction k as [|k IH]; [done|]. simpl. rewrite IH. unfold createPageFrame.
  symmetry. apply repeat_cons.
Qed.

Lemma In_resident q fr : In q (resident fr) <-> In q (map pageNum fr) /\ q <> NO_PAGE.
Proof.
  unfold resident. rewrite filter_In.
  destruct (Z.eqb_spec q NO_PAGE); simpl; intuition congruence.
Qed.

Lemma resident_cons f fr :
  resident (f :: fr) =
  if Z.eqb (pageNum f) NO_PAGE then resident fr else pageNum f :: resident fr.
Proof. unfold resident. simpl. by destruct (Z.eqb (pageNum f) NO_PAGE). Qed.

Lemma NoDup_resident_tail f fr : NoDup (resident (f :: fr)) -> NoDup (resident fr).
Proof. rewrite resident_cons. case_match; [done|]. by inversion 1. Qed.

Lemma map_pageNum_alter (g : PageFrame -> PageFrame) i fr :
  (forall f, pageNum (g f) = pageNum f) -> map pageNum (alter g i fr) = map pageNum fr.
Proof. apply map_alter_absorb. Qed.

(** Updates that keep every page number keep the resident pages. *)
Lemma resident_alter (g : PageFrame -> PageFrame) i fr :
  (forall f, pageNum (g f) = pageNum f) -> resident (alter g i fr) = resident fr.
Proof. intros Hg. unfold resident. by rewrite map_pageNum_alter. Qed.

Lemma In_map_set_pageNum q p i fr :
  In q (map pageNum (alter (set_pageNum p) i fr)) -> In q (map pageNum fr) \/ q = p.
Proof.
  revert i. induction fr as [|f fr IH]; intros [|i]; simpl; [tauto|tauto| |].
  - intros [<-|H]; [by right|left; by right].
  - intros [<-|H]; [left; by left|]. destruct (IH i H); [left; by right|by right].
Qed.

Lemma In_resident_set_pageNum q p i fr :
  In q (resident (alter (set_pageNum p) i fr)) -> In q (resident fr) \/ q = p.
Proof.
  rewrite !In_resident. intros [H Hq].
  destruct (In_map_set_pageNum q p i fr H); [left|right]; done.
Qed.

(** Storing a page number that no frame holds keeps page numbers unique. *)
Lemma NoDup_resident_set_pageNum p i fr :
  NoDup (resident fr) -> ~ In p (map pageNum fr) \/ p = NO_PAGE ->
  NoDup (resident (alter (set_pageNum p) i fr)).
Proof.
  revert i. induction fr as [|f fr IH]; intros [|i] Hnd Hp; [done..| |].
  - simpl. rewrite resident_cons. simpl. apply NoDup_resident_tail in Hnd.
    case_match; [done|]. constructor; [|done].
    rewrite list_elem_of_In, In_resident. intros [Hin _].
    destruct Hp as [Hp|Hp]; [apply Hp; by right|].
    apply Z.eqb_neq in H. lia.
  - assert (Hp' : ~ In p (map pageNum fr) \/ p = NO_PAGE)
      by (destruct Hp as [Hp|Hp]; [left; intros Hin; apply Hp; by right|by right]).
    simpl. rewrite !resident_cons in Hnd |- *. case_match; [by apply IH|].
    inversion Hnd as [|? ? Hnin Hnd']; subst. rewrite list_elem_of_In in Hnin.
    constructor; [rewrite list_elem_of_In|by apply IH].
    intros Hin. apply In_resident_set_pageNum in Hin as [Hin|Hin]; [done|].
    subst. destruct Hp as [Hp|Hp]; [apply Hp; by left|].
    apply Z.eqb_neq in H. lia.
Qed.

Lemma frame_at_lookup b i : i < nframes b -> frames b !! i = Some (frame_at b i).
Proof. intros Hi. unfold frame_at. apply list_lookup_lookup_total_lt. done. Qed.

(** A frame's position in [map pageNum]. *)
Lemma In_map_pageNum b p :
  In p (map pageNum (frames b)) -> exists k, k < nframes b /\ pageNum (frame_at b k) = p.
Proof.
  rewrite in_map_iff. intros (f & <- & Hin).
  apply list_elem_of_In, list_elem_of_lookup in Hin as [k Hl]. exists k.
  split; [by eapply lookup_lt_Some|]. unfold frame_at. by rewrite (list_lookup_total_correct _ _ _ Hl).
Qed.

Lemma In_resident_lookup fr k f :
  fr !! k = Some f -> pageNum f <> NO_PAGE -> In (pageNum f) (resident fr).
Proof.
  intros Hk Hne. apply In_resident. split; [|done].
  apply in_map, list_elem_of_In. by eapply list_elem_of_lookup_2.
Qed.

(** Two frames holding the same page are the same frame. *)
Lemma resident_unique fr i j f g :
  NoDup (resident fr) -> fr !! i = Some f -> fr !! j = Some g ->
  pageNum f = pageNum g -> pageNum f <> NO_PAGE -> i = j.
Proof.
  revert i j. induction fr as [|x fr IH]; intros i j Hnd Hi Hj Heq Hne; [done|].
  rewrite resident_cons in Hnd.
  destruct i as [|i], j as [|j]; simpl in Hi, Hj.
  - done.
  - injection Hi as <-. rewrite (proj2 (Z.eqb_neq _ _) Hne) in Hnd.
    inversion Hnd as [|? ? Hnin _]; subst. destruct Hnin.
    apply list_elem_of_In. rewrite Heq. apply (In_resident_lookup _ j); [done|congruence].
  - injection Hj as <-. rewrite <- Heq, (proj2 (Z.eqb_neq _ _) Hne) in Hnd.
    inversion Hnd as [|? ? Hnin _]; subst. destruct Hnin.
    apply list_elem_of_In. by apply (In_resident_lookup _ i).
  - f_equal. eapply IH; eauto. case_match; [done|]. by inversion Hnd.
Qed.

Lemma alter_set_pageNum_same (fr : list PageFrame) (i : nat) p :
  pageNum (fr !!! i) = p -> alter (set_pageNum p) i fr = fr.
Proof.
  intros Hp. apply list_eq. intros j. rewrite list_lookup_alter.
  case_decide as E; [subst j|done].
  destruct (fr !! i) as [f|] eqn:Hf; [|done]. simpl.
  rewrite (list_lookup_total_correct _ _ _ Hf) in Hp. by destruct f; simpl in *; subst.
Qed.

(** ** The search for a page *)

Lemma find_page_hit b p i :
  WF b -> find_page b p = (i, true) -> i < nframes b /\ pageNum (frame_at b i) = p.
Proof.
  intros (_ & _ & Hh & _) Hf. unfold find_page in Hf.
  rewrite scan_eq_ref in Hf by done.
  apply scan_ref_found in Hf as [Hin HP]. split; [by eapply window_lt|].
  by apply bool_decide_eq_true in HP.
Qed.

Lemma find_page_miss b p i :
  WF b -> find_page b p = (i, false) -> i = head b /\ ~ In p (map pageNum (frames b)).
Proof.
  intros (_ & _ & Hh & _) Hf. unfold find_page in Hf.
  rewrite scan_eq_ref in Hf by done.
  apply scan_ref_not_found in Hf as [-> HP]. split; [done|].
  intros Hin. apply In_map_pageNum in Hin as (k & Hk & Hp).
  assert (Hw : In k (window (nframes b) (head b) (head b))) by (by apply window_full).
  apply HP in Hw. unfold holds in Hw. by rewrite bool_decide_eq_false in Hw.
Qed.

Lemma find_page_lt b p : WF b -> fst (find_page b p) < nframes b.
Proof.
  intros (_ & _ & Hh & _). unfold find_page.
  rewrite scan_eq_ref by done. by apply scan_ref_lt.
Qed.

Lemma In_map_frame_at b i : i < nframes b -> In (pageNum (frame_at b i)) (map pageNum (frames b)).
Proof. intros Hi. apply in_map, list_elem_of_In, list_elem_of_lookup_2 with i. by apply frame_at_lookup. Qed.

(** A resident page is found in the frame that holds it. *)
Lemma find_page_resident b p i :
  WF b -> i < nframes b -> pageNum (frame_at b i) = p -> p <> NO_PAGE ->
  find_page b p = (i, true).
Proof.
  intros Hb Hi Hp Hne. destruct (find_page b p) as [j [|]] eqn:E.
  - destruct (find_page_hit b p j Hb E) as [Hj Hpj]. f_equal.
    destruct Hb as (_ & _ & _ & _ & _ & Hnd & _).
    eapply (resident_unique _ j i);
      [done|by apply frame_at_lookup|by apply frame_at_lookup|congruence|congruence].
  - destruct (find_page_miss b p j Hb E) as [_ Hnin]. destruct Hnin.
    rewrite <- Hp. by apply In_map_frame_at.
Qed.

Lemma find_page_absent b p :
  WF b -> ~ In p (map pageNum (frames b)) -> find_page b p = (head b, false).
Proof.
  intros Hb Hnin. destruct (find_page b p) as [i [|]] eqn:E.
  - destruct (find_page_hit b p i Hb E) as [Hi Hpi]. destruct Hnin. rewrite <- Hpi. by apply In_map_frame_at.
  - by destruct (find_page_miss b p i Hb E) as [-> _].
Qed.

(** ** Statistics *)

Lemma stat_walk_frames {A} (sel : PageFrame -> A) b :
  nframes b = Z.to_nat (numPages b) -> stat_walk sel b = map sel (frames b).
Proof.
  intros Hn. unfold stat_walk. rewrite <- Hn, cyc_from_seq by lia.
  apply list_eq. intros k. rewrite !list_lookup_fmap.
  destruct (decide (k < nframes b)) as [Hk|Hk].
  - rewrite lookup_seq_lt by done. simpl. by rewrite frame_at_lookup.
  - rewrite lookup_seq_ge by lia. symmetry. apply fmap_None, lookup_ge_None. unfold nframes in Hk. lia.
Qed.

(** ** The invariant under each state transformer *)

Lemma WF_upd_frames_same b g i :
  WF b -> (forall f, pageNum (g f) = pageNum f) -> WF (upd_frames (alter g i) b).
Proof.
  intros (Hn & Hl & Hh & Ht & Ho & Hnd & Hr) Hg. unfold WF, nframes in *; simpl.
  rewrite length_alter, resident_alter by done. done.
Qed.

Lemma WF_set_pageNum b p i :
  WF b -> ~ In p (map pageNum (frames b)) \/ p = NO_PAGE ->
  WF (upd_frames (alter (set_pageNum p) i) b).
Proof.
  intros (Hn & Hl & Hh & Ht & Ho & Hnd & Hr) Hp. unfold WF, nframes in *; simpl.
  rewrite length_alter. split_and!; try done; try lia. by apply NoDup_resident_set_pageNum.
Qed.

Lemma WF_with_head b i : WF b -> i < nframes b -> WF (with_head i b).
Proof. unfold WF, nframes; cbn. intros; destruct_and!; split_and!; try done; lia. Qed.

Lemma WF_with_tail b i : WF b -> i < nframes b -> WF (with_tail i b).
Proof. unfold WF, nframes; cbn. intros; destruct_and!; split_and!; try done; lia. Qed.

Lemma WF_with_fh b f : WF b -> WF (with_fh f b).
Proof. done. Qed.

Lemma WF_bump_occupied b : WF b -> (occupiedCount b < numPages b)%Z -> WF (bump_occupied b).
Proof. unfold WF, nframes; cbn. intros; destruct_and!; split_and!; try done; lia. Qed.

Lemma WF_bump_read b : WF b -> WF (bump_read b).
Proof. unfold WF, nframes; cbn. intros; destruct_and!; split_and!; try done; lia. Qed.

Lemma WF_bump_write b : WF b -> WF (bump_write b).
Proof. unfold WF, nframes; cbn. intros; destruct_and!; split_and!; try done; lia. Qed.

Lemma WF_init f n s : (1 <= n)%Z -> WF (initBufferPool f n s).
Proof.
  intros Hn. unfold WF, initBufferPool, nframes; simpl. rewrite init_frames, repeat_length.
  assert (Hr : resident (repeat newFrame (Z.to_nat n)) = []).
  { induction (Z.to_nat n) as [|k IH]; [done|]. simpl. by rewrite resident_cons. }
  rewrite Hr. split_and!; try lia. constructor.
Qed.

(** The frames, page numbers and capacity seen through the transformers. *)
Lemma nframes_upd_frames b g i : nframes (upd_frames (alter g i) b) = nframes b.
Proof. apply length_alter. Qed.

Lemma pageNums_upd_frames b g i :
  (forall f, pageNum (g f) = pageNum f) ->
  map pageNum (frames (upd_frames (alter g i) b)) = map pageNum (frames b).
Proof. apply map_pageNum_alter. Qed.

Create HintDb bm_wf discriminated.
#[export] Hint Resolve WF_with_fh WF_bump_read WF_bump_write : bm_wf.
(** A wholesale update of the frames that changes only reference bits. *)
Lemma WF_upd_frames_ref b fr' :
  WF b -> map (set_ref 0) fr' = map (set_ref 0) (frames b) -> WF (upd_frames (fun _ => fr') b).
Proof.
  intros (Hn & Hl & Hh & Ht & Ho & Hnd & Hr) Heq.
  assert (Hlen : length fr' = length (frames b)) by (rewrite <- (length_map (set_ref 0) fr'), Heq; apply length_map).
  assert (Hpn : map pageNum fr' = map pageNum (frames b)).
  { transitivity (map pageNum (map (set_ref 0) fr')); [by rewrite map_map|].
    rewrite Heq, map_map. done. }
  unfold WF, nframes, resident in *; simpl. rewrite Hlen, Hpn. done.
Qed.

Lemma WF_set_pageNum_same b p i :
  WF b -> pageNum (frame_at b i) = p -> WF (upd_frames (alter (set_pageNum p) i) b).
Proof. intros Hb Hp. unfold upd_frames. by rewrite alter_set_pageNum_same. Qed.

Lemma pageNum_frame_at_upd b g i j :
  (forall f, pageNum (g f) = pageNum f) ->
  pageNum (frame_at (upd_frames (alter g i) b) j) = pageNum (frame_at b j).
Proof.
  intros Hg. unfold frame_at, upd_frames; simpl. rewrite list_lookup_total_alter.
  case_decide as E; [destruct E as [-> _]; by rewrite Hg|done].
Qed.

(** Frames seen through the transformers. *)
Lemma frame_at_upd_same b g i :
  i < nframes b -> frame_at (upd_frames (alter g i) b) i = g (frame_at b i).
Proof.
  intros Hi. unfold frame_at, upd_frames; simpl.
  rewrite list_lookup_total_alter, decide_True by done. done.
Qed.

Lemma frame_at_upd_other b g i j :
  j <> i -> frame_at (upd_frames (alter g i) b) j = frame_at b j.
Proof.
  intros Hji. unfold frame_at, upd_frames; simpl.
  rewrite list_lookup_total_alter, decide_False; [done|]. intros [E _]. by apply Hji.
Qed.

Lemma frame_at_with_head b k i : frame_at (with_head k b) i = frame_at b i.
Proof. done. Qed.
Lemma frame_at_with_tail b k i : frame_at (with_tail k b) i = frame_at b i.
Proof. done. Qed.
Lemma frame_at_with_fh b f i : frame_at (with_fh f b) i = frame_at b i.
Proof. done. Qed.
Lemma frame_at_bump_read b i : frame_at (bump_read b) i = frame_at b i.
Proof. done. Qed.
Lemma frame_at_bump_write b i : frame_at (bump_write b) i = frame_at b i.
Proof. done. Qed.
Lemma frame_at_bump_occupied b i : frame_at (bump_occupied b) i = frame_at b i.
Proof. done. Qed.

Create Rewrite HintDb bm_rw.
#[export] Hint Rewrite nframes_upd_frames frame_at_with_head frame_at_with_tail frame_at_with_fh
  frame_at_bump_read frame_at_bump_write frame_at_bump_occupied : bm_rw.
#[export] Hint Rewrite pageNums_upd_frames using (intros; reflexivity) : bm_rw.

(** Preservation of [WF] by a composition of transformers: apply the
    lemma of the outermost transformer and simplify what it asks about the
    state below. *)
Ltac wf_side :=
  unfold nframes in *; cbn [frames numPages occupiedCount head tail upd_frames
                             with_head with_tail with_fh bump_read bump_write bump_occupied];
  rewrite ?length_alter, ?map_pageNum_alter by (intros; reflexivity);
  try lia; try (apply cnext_lt; lia).

Ltac wf_auto :=
  repeat match goal with
    | H : WF ?b |- WF ?b => exact H
    | |- WF (with_fh _ _) => apply WF_with_fh
    | |- WF (bump_read _) => apply WF_bump_read
    | |- WF (bump_write _) => apply WF_bump_write
    | |- WF (bump_occupied _) => apply WF_bump_occupied; [|wf_side]
    | |- WF (with_head _ _) => apply WF_with_head; [|wf_side]
    | |- WF (with_tail _ _) => apply WF_with_tail; [|wf_side]
    | |- WF (upd_frames (alter (set_pageNum _) _) _) =>
        first [ apply WF_set_pageNum_same;
                [|rewrite ?pageNum_frame_at_upd by (intros; reflexivity); assumption]
              | apply WF_set_pageNum; [|wf_side] ]
    | |- WF (upd_frames (alter _ _) _) => apply WF_upd_frames_same; [|intros; reflexivity]
    end.

(** Rewrite [frame_at] through a composition of transformers. *)
Ltac frame_simpl :=
  repeat first [ rewrite frame_at_with_head | rewrite frame_at_with_tail | rewrite frame_at_with_fh
               | rewrite frame_at_bump_read | rewrite frame_at_bump_write
               | rewrite frame_at_bump_occupied | rewrite frame_at_upd_same by wf_side
               | rewrite frame_at_upd_other by lia ].

(** Case analysis on the innermost [match] of the goal, so that the state
    each branch reaches stays a composition of transformers. *)
Ltac bm_case :=
  match goal with
  | |- context [match ?x with _ => _ end] =>
      lazymatch x with
      | context [match _ with _ => _ end] => fail
      | _ => destruct x eqn:?
      end
  end.

Ltac bm_cases := repeat (bm_case; simpl).

(** Symbolic execution of a buffer-manager function: unfold the monad and
    the statement-level helpers, leaving the state transformers. *)
Ltac bm_run :=
  cbv [mbind mret st_bind st_ret st_get st_modify st_throw update_frame set_head
       set_tail incr_occupied incr_numRead incr_numWrite ensureCapacityM readBlockM
       writeBlockM compose fill_frame write_back_if_dirty load_page] in *.

(** The victim loops of the replacement strategies stop, when they find a
    frame, on an unpinned frame of the ring. *)
Lemma victim_found b e s j :
  e < nframes b -> s < nframes b ->
  scan (nframes b) (unpinned b) e s (nframes b) = (j, true) ->
  j < nframes b /\ fixCount (frame_at b j) = 0%Z.
Proof.
  intros He Hs Hv. rewrite scan_eq_ref in Hv by done.
  apply scan_ref_found in Hv as [Hin HP]. split; [by eapply window_lt|].
  by apply bool_decide_eq_true in HP.
Qed.

(** The read of the requested block that ends every eviction, and the
    frame-table facts that follow from it. *)
Ltac evict_read p Hp :=
  match goal with |- context [readBlock p (ensureCapacity (p + 1) ?F)] =>
    let d := fresh "d" in let Hr := fresh "Hr" in let Hd := fresh "Hd" in
    destruct (readBlock_ensure p F Hp) as (d & Hr & Hd); rewrite Hr; simpl;
    split; [done|]; split; [exists d; split; [exact Hd|frame_simpl; done]|];
    split; [intros ? ?; frame_simpl; done|];
    split_and!; try done; try (simpl; lia)
  end.
