(* ===== verification/Access.v ===== *)
(** * Access to pinned pages: [markDirty], [unpinPage], [forcePage],
      [forceFlushPool], [shutdownBufferPool]

    Each function of [src/buffer_mgr.c] walks the ring from [head] with the
    loop [scan] of the Prelude, and mutates the frame it finds.  None of them
    reports a page that is not resident: they all return [RC_OK]. *)

From S2P Require Import Prelude Storage Pool.

(** Running a buffer-manager function: its final state and the [RC] it
    returns, early or not. *)
Definition run_rc (m : BMM RC) (b : BM) : BM * RC :=
  match m b with
  | (b', inl e) => (b', e)
  | (b', inr r) => (b', r)
  end.

(** [markDirty(bm, page)]: set [dirtyFlag] of the first frame from [head]
    holding [page->pageNum]. *)
Definition markDirty (page : BM_PageHandle) : BMM RC :=
  b ← st_get;
  match find_page b (ph_pageNum page) with
  | (i, true) => update_frame i (set_dirty 1);; mret RC_OK
  | (_, false) => mret RC_OK
  end.

(** [unpinPage(bm, page)]: decrement [fixCount] of that frame, whatever its
    value. *)
Definition unpinPage (page : BM_PageHandle) : BMM RC :=
  b ← st_get;
  match find_page b (ph_pageNum page) with
  | (i, true) => update_frame i fix_decr;; mret RC_OK
  | (_, false) => mret RC_OK
  end.

(** The condition of [forcePage]'s loop:
    [Frame->pageNum == page->pageNum && Frame->dirtyFlag == 1]. *)
Definition dirty_holder (b : BM) (p : Z) (i : nat) : bool :=
  bool_decide (pageNum (frame_at b i) = p) && bool_decide (dirtyFlag (frame_at b i) = 1%Z).

(** [forcePage(bm, page)]: write back the first dirty frame holding the
    page, count the write and clear the flag. *)
Definition forcePage (page : BM_PageHandle) : BMM RC :=
  b ← st_get;
  match scan (nframes b) (dirty_holder b (ph_pageNum page)) (head b) (head b) (nframes b) with
  | (i, true) =>
      writeBlockM i;; incr_numWrite;; update_frame i (set_dirty 0);; mret RC_OK
  | (_, false) => mret RC_OK
  end.

(** The condition of [forceFlushPool]'s loop:
    [Frame->dirtyFlag == 1 && Frame->fixCount == 0]. *)
Definition flushable (f : PageFrame) : bool :=
  bool_decide (dirtyFlag f = 1%Z) && bool_decide (fixCount f = 0%Z).

(** One iteration of [forceFlushPool]'s loop, on frame [i]. *)
Definition flush_frame (i : nat) : BMM unit :=
  b ← st_get;
  if flushable (frame_at b i)
  then writeBlockM i;; update_frame i (set_dirty 0);; incr_numWrite
  else mret tt.

Fixpoint flush_loop (idx : list nat) : BMM unit :=
  match idx with
  | [] => mret tt
  | i :: idx' => flush_frame i;; flush_loop idx'
  end.

(** [forceFlushPool(bm)]: one lap of the ring from [head]; the first failed
    write returns [RC_WRITE_FAILED] and leaves the rest of the lap undone. *)
Definition forceFlushPool : BMM RC :=
  b ← st_get;
  flush_loop (cyc_from (nframes b) (head b) (nframes b));; mret RC_OK.

(** [shutdownBufferPool(bm)]: [forceFlushPool] (its result ignored), then the
    frames are freed; what remains is the page file. *)
Definition shutdownBufferPool (b : BM) : SM_FileHandle * RC :=
  (fh (fst (forceFlushPool b)), RC_OK).


(** ** Preservation of the invariant *)

Lemma markDirty_WF h b : WF b -> WF (fst (markDirty h b)).
Proof. intros Hb. unfold markDirty. bm_run. destruct (find_page b _) as [i [|]]; simpl; wf_auto. Qed.

Lemma unpinPage_WF h b : WF b -> WF (fst (unpinPage h b)).
Proof. intros Hb. unfold unpinPage. bm_run. destruct (find_page b _) as [i [|]]; simpl; wf_auto. Qed.

Lemma forcePage_WF h b : WF b -> WF (fst (forcePage h b)).
Proof.
  intros Hb. unfold forcePage. bm_run.
  repeat case_match; simplify_eq/=; wf_auto.
Qed.

Lemma flush_frame_WF i : preserves WF (flush_frame i).
Proof.
  intros b Hb. unfold flush_frame. bm_run.
  repeat case_match; simplify_eq/=; wf_auto.
Qed.

Lemma forceFlushPool_WF b : WF b -> WF (fst (forceFlushPool b)).
Proof.
  intros Hb. unfold forceFlushPool. cbv [mbind st_bind st_get].
  assert (Hl : forall idx, preserves WF (flush_loop idx)).
  { induction idx as [|i idx IH]; simpl; [apply preserves_ret|].
    apply preserves_bind; [apply flush_frame_WF|done]. }
  apply (preserves_bind _ _ (fun _ => mret RC_OK)); [apply Hl|intros; apply preserves_ret|done].
Qed.

(** ** Behaviour *)

(** [unpinPage] on a resident page decrements the fix count of its frame
    and returns [RC_OK], whatever the count was: from [0] it becomes [-1]. *)
Theorem unpinPage_decrements b h i :
  WF b -> i < nframes b -> pageNum (frame_at b i) = ph_pageNum h -> ph_pageNum h <> NO_PAGE ->
  run_rc (unpinPage h) b = (upd_frames (alter fix_decr i) b, RC_OK) /\
  fixCount (frame_at (upd_frames (alter fix_decr i) b) i) = (fixCount (frame_at b i) - 1)%Z.
Proof.
  intros Hb Hi Hp Hne. unfold unpinPage, run_rc. bm_run.
  rewrite (find_page_resident b _ i Hb Hi Hp Hne). split; [done|].
  unfold frame_at; simpl. by rewrite list_lookup_total_alter, decide_True.
Qed.

(** [markDirty] and [unpinPage] on a page that no frame holds change nothing
    and report success: the misuse is not detected. *)
Theorem access_absent_page b h :
  WF b -> ~ In (ph_pageNum h) (map pageNum (frames b)) ->
  run_rc (markDirty h) b = (b, RC_OK) /\ run_rc (unpinPage h) b = (b, RC_OK).
Proof.
  intros Hb Hnin. unfold markDirty, unpinPage, run_rc. bm_run.
  destruct (find_page b (ph_pageNum h)) as [i [|]] eqn:E; [|done].
  destruct (find_page_hit b _ i Hb E) as [Hi Hp]. destruct Hnin.
  rewrite <- Hp. by apply In_map_frame_at.
Qed.

(** ** Shutdown and pinned pages *)

Section Pinned.
Context (b0 : BM) (i : nat) (q : Z).
Hypothesis Hwf : WF b0.
Hypothesis Hi : i < nframes b0.
Hypothesis Hq : pageNum (frame_at b0 i) = q.
Hypothesis Hq0 : (0 <= q)%Z.
Hypothesis Hpin : fixCount (frame_at b0 i) <> 0%Z.

(** What each step of the flush keeps: the page numbers, the fix counts,
    and block [q] of the page file. *)
Definition keeps_block (s : BM) : Prop :=
  map pageNum (frames s) = map pageNum (frames b0) /\
  map fixCount (frames s) = map fixCount (frames b0) /\
  blocks (fh s) !! Z.to_nat q = blocks (fh b0) !! Z.to_nat q.

(** A frame the flush writes back is unpinned, so it is not frame [i], and
    it holds another page than [q]. *)
Lemma flushed_other s j :
  keeps_block s -> j < nframes b0 -> fixCount (frame_at s j) = 0%Z ->
  pageNum (frame_at s j) <> q.
Proof.
  intros (Hpn & Hfx & _) Hj Hf Heq. pose proof Hwf as (_ & _ & _ & _ & _ & Hnd & _).
  pose proof (length_map pageNum (frames s)) as Hl. rewrite Hpn, length_map in Hl.
  unfold frame_at, nframes in *.
  rewrite (map_eq_lookup_total _ _ _ _ Hpn) in Heq by lia.
  rewrite (map_eq_lookup_total _ _ _ _ Hfx) in Hf by lia.
  assert (j = i) as ->.
  { apply (resident_unique (frames b0) j i (frames b0 !!! j) (frames b0 !!! i) Hnd);
      [apply list_lookup_lookup_total_lt; lia|apply list_lookup_lookup_total_lt; lia|congruence|].
    rewrite Heq. unfold NO_PAGE. lia. }
  by apply Hpin.
Qed.

Lemma flush_frame_keeps j : j < nframes b0 -> preserves keeps_block (flush_frame j).
Proof.
  intros Hj s Hs. unfold flush_frame. bm_run.
  destruct (flushable (frame_at s j)) eqn:Hfl; [|done].
  unfold flushable in Hfl. apply andb_true_iff in Hfl as [_ Hfx0%bool_decide_eq_true].
  pose proof (flushed_other s j Hs Hj Hfx0) as Hne. destruct Hs as (Hpn & Hfx & Hblk).
  destruct (writeBlock _ _ (fh s)) as [f'|] eqn:Hw; simpl; [|done].
  pose proof (writeBlock_Some_inv _ _ _ _ Hw).
  unfold keeps_block; cbn [frames fh bump_write upd_frames with_fh].
  split; [rewrite map_alter_absorb by done; done|].
  split; [rewrite map_alter_absorb by done; done|].
  rewrite (writeBlock_other _ _ _ _ _ Hw) by lia. done.
Qed.

Lemma flush_loop_keeps idx : Forall (fun j => j < nframes b0) idx -> preserves keeps_block (flush_loop idx).
Proof.
  induction 1 as [|j idx Hj _ IH]; simpl; [apply preserves_ret|].
  apply preserves_bind; [by apply flush_frame_keeps|done].
Qed.

(** C32. [shutdownBufferPool] flushes only unpinned frames: whatever a
    pinned frame holds for page [q], dirty or not, block [q] of the page
    file after shutdown is the block it was before. *)
Theorem shutdown_skips_pinned :
  blocks (fst (shutdownBufferPool b0)) !! Z.to_nat q = blocks (fh b0) !! Z.to_nat q.
Proof.
  unfold shutdownBufferPool, forceFlushPool. cbv [mbind st_bind st_get].
  assert (Hl : Forall (fun j => j < nframes b0) (cyc_from (nframes b0) (head b0) (nframes b0))).
  { apply Forall_forall. intros j Hin.
    apply (cyc_from_lt (nframes b0) (head b0) (nframes b0)); [apply Hwf|].
    exact Hin. }
  pose proof (flush_loop_keeps _ Hl b0 ltac:(done)) as (_ & _ & Hblk).
  destruct (flush_loop _ b0) as [s' [e|[]]]; exact Hblk.
Qed.

End Pinned.

(** ** Witnesses *)

(** One frame holding page 1, unpinned, and one empty frame. *)
Definition b_unpinned : BM :=
  {| numPages := 2; strategy := RS_FIFO; occupiedCount := 1;
     frames := [set_pageNum 1 newFrame; newFrame]; head := 1; tail := 0;
     numRead := 1; numWrite := 0; fh := {| blocks := [empty_page; empty_page]; nReads := 1; nWrites := 0 |} |}.

Lemma unpinPage_decrements_witness :
  WF b_unpinned /\ 0 < nframes b_unpinned /\
  pageNum (frame_at b_unpinned 0) = ph_pageNum (mkHandle 1 NoData) /\ ph_pageNum (mkHandle 1 NoData) <> NO_PAGE /\
  run_rc (unpinPage (mkHandle 1 NoData)) b_unpinned = (upd_frames (alter fix_decr 0) b_unpinned, RC_OK) /\
  fixCount (frame_at (upd_frames (alter fix_decr 0) b_unpinned) 0) = (fixCount (frame_at b_unpinned 0) - 1)%Z.
Proof.
  assert (Hb : WF b_unpinned) by (apply (bool_decide_unpack _); vm_compute; exact I).
  assert (Hi : 0 < nframes b_unpinned) by (vm_compute; lia).
  assert (Hp : pageNum (frame_at b_unpinned 0) = ph_pageNum (mkHandle 1 NoData)) by reflexivity.
  assert (Hn : ph_pageNum (mkHandle 1 NoData) <> NO_PAGE) by (unfold NO_PAGE; simpl; lia).
  exact (conj Hb (conj Hi (conj Hp (conj Hn (unpinPage_decrements _ _ 0 Hb Hi Hp Hn))))).
Defined.

Lemma access_absent_page_witness :
  WF b_unpinned /\ ~ In (ph_pageNum (mkHandle 5 NoData)) (map pageNum (frames b_unpinned)) /\
  run_rc (markDirty (mkHandle 5 NoData)) b_unpinned = (b_unpinned, RC_OK) /\
  run_rc (unpinPage (mkHandle 5 NoData)) b_unpinned = (b_unpinned, RC_OK).
Proof.
  assert (Hb : WF b_unpinned) by (apply (bool_decide_unpack _); vm_compute; exact I).
  assert (Hn : ~ In (ph_pageNum (mkHandle 5 NoData)) (map pageNum (frames b_unpinned)))
    by (simpl; unfold NO_PAGE; lia).
  exact (conj Hb (conj Hn (access_absent_page _ _ Hb Hn))).
Defined.

(** Frame 0 holds page 1, pinned and dirty, with bytes the file does not
    have; frame 1 is empty. *)
Definition b_pinned_dirty : BM :=
  {| numPages := 2; strategy := RS_FIFO; occupiedCount := 1;
     frames := [set_data (repeat Byte.x01 PAGE_SIZE) (set_dirty 1 (fix_incr (set_pageNum 1 newFrame)));
                newFrame];
     head := 1; tail := 0; numRead := 1; numWrite := 0;
     fh := {| blocks := [empty_page; empty_page]; nReads := 1; nWrites := 0 |} |}.

Lemma shutdown_skips_pinned_witness :
  dirtyFlag (frame_at b_pinned_dirty 0) = 1%Z /\
  blocks (fst (shutdownBufferPool b_pinned_dirty)) !! Z.to_nat 1 = Some empty_page.
Proof.
  split; [reflexivity|].
  rewrite (shutdown_skips_pinned b_pinned_dirty 0 1).
  - reflexivity.
  - apply (bool_decide_unpack _). vm_compute. exact I.
  - vm_compute. lia.
  - reflexivity.
  - lia.
  - discriminate.
Defined.
