(* ===== verification/Fifo.v ===== *)
(** * FIFO replacement: [pinPageFIFO] (src/buffer_mgr.c, lines 336-433)

    On a hit the frame's fix count is incremented.  On a miss the page goes
    to the frame at [head] while the pool is filling up (then [head] moves
    on); once it is full, the victim loop starts at [tail] and stops at
    [head], evicting the first frame with fix count [0], after which
    [head] is the victim and [tail] the frame after it.  The requested block
    is then read into the frame the loop stopped at, found or not. *)

From S2P Require Import Prelude Storage Pool Access.

(** The FIFO victim loop:
    [frame = tail; do { if (frame->fixCount != 0) frame = frame->next;
                        else { ... break; } } while (frame != head);] *)
Definition fifo_victim (b : BM) : nat * bool :=
  scan (nframes b) (unpinned b) (head b) (tail b) (nframes b).

Definition pinPageFIFO (p : Z) : BMM BM_PageHandle :=
  b ← st_get;
  match find_page b p with
  | (i, true) =>
      update_frame i (set_pageNum p);; update_frame i fix_incr;;
      mret (mkHandle p (FrameData i))
  | (_, false) =>
      frame ← (if bool_decide (occupiedCount b < numPages b)%Z
               then fill_frame b p
               else match fifo_victim b with
                    | (j, true) =>
                        write_back_if_dirty j;;
                        update_frame j (set_pageNum p);; update_frame j fix_incr;;
                        set_tail (cnext (nframes b) j);; set_head j;;
                        mret j
                    | (j, false) => mret j
                    end);
      load_page p frame
  end.

(** ** Invariant *)

Lemma fifo_victim_lt b : WF b -> fst (fifo_victim b) < nframes b.
Proof. intros (_ & _ & Hh & Ht & _). by apply scan_lt. Qed.

Lemma pinPageFIFO_WF p b : WF b -> WF (fst (pinPageFIFO p b)).
Proof.
  intros Hb. unfold pinPageFIFO. bm_run.
  destruct (find_page b p) as [i [|]] eqn:Hf.
  - destruct (find_page_hit b p i Hb Hf) as [Hi Hp]. simpl.
    wf_auto.
  - destruct (find_page_miss b p i Hb Hf) as [-> Hnin].
    pose proof (fifo_victim_lt b Hb) as Hv. pose proof (proj1 (proj2 (proj2 Hb))).
    destruct (fifo_victim b) as [j found]; simpl in Hv.
    repeat case_bool_decide; bm_cases; wf_auto; by left.
Qed.

(** ** Eviction *)

Lemma fifo_victim_found b j :
  WF b -> fifo_victim b = (j, true) -> j < nframes b /\ fixCount (frame_at b j) = 0%Z.
Proof. intros (_ & _ & Hh & Ht & _). by apply victim_found. Qed.

#[local] Arguments ensureCapacity : simpl never.

(** C4. FIFO eviction: when the pool is full, the page is not resident and
    the victim loop finds the unpinned frame [j], [pinPageFIFO] writes [j]
    back if it is dirty, stores the page in [j] with fix count [+1], reads
    the block into it, makes [j] the new [head] and the frame after it the
    new [tail], and touches no other frame.  The frame keeps the dirty flag
    of the page it evicted. *)
Theorem pinPageFIFO_evict b p j :
  WF b -> occupiedCount b = numPages b -> (0 <= p)%Z -> ~ In p (map pageNum (frames b)) ->
  fifo_victim b = (j, true) -> (0 <= pageNum (frame_at b j) < totalNumPages (fh b))%Z ->
  let '(b', r) := pinPageFIFO p b in
  r = inr (mkHandle p (FrameData j)) /\
  (exists d, blocks (fh b') !! Z.to_nat p = Some d /\
             frame_at b' j = set_data d (fix_incr (set_pageNum p (frame_at b j)))) /\
  (forall i, i <> j -> frame_at b' i = frame_at b i) /\
  head b' = j /\ tail b' = cnext (nframes b) j /\ occupiedCount b' = occupiedCount b /\
  numRead b' = (numRead b + 1)%Z /\
  (if bool_decide (dirtyFlag (frame_at b j) = 1%Z)
   then numWrite b' = (numWrite b + 1)%Z /\
        blocks (fh b') !! Z.to_nat (pageNum (frame_at b j)) = Some (data (frame_at b j))
   else numWrite b' = numWrite b).
Proof.
  intros Hb Hocc Hp Hnin Hv Hpj. unfold totalNumPages in Hpj.
  destruct (fifo_victim_found b j Hb Hv) as [Hj Hfix].
  unfold pinPageFIFO. bm_run.
  rewrite (find_page_absent b p Hb Hnin). simpl. rewrite bool_decide_eq_false_2 by lia.
  rewrite Hv. simpl. case_bool_decide as Hd; simpl.
  - rewrite !frame_at_with_fh, writeBlock_Some; cycle 1.
    { unfold totalNumPages. rewrite ensureCapacity_length. lia. }
    simpl. evict_read p Hp.
    rewrite lookup_app_l by (rewrite length_insert, length_app; lia).
    rewrite list_lookup_insert_eq by (rewrite length_app; lia). done.
  - evict_read p Hp.
Qed.

(** The FIFO victim loop runs from [tail] to [head] and does not examine
    [head]: when every other frame is pinned it finds nothing. *)
Lemma fifo_victim_skips_head b :
  WF b -> tail b <> head b ->
  (forall i, i < nframes b -> i <> head b -> fixCount (frame_at b i) <> 0%Z) ->
  fifo_victim b = (head b, false).
Proof.
  intros (_ & _ & Hh & Ht & _) Hne Hpin. unfold fifo_victim. rewrite scan_eq_ref by done.
  unfold scan_ref. destruct (List.find _ _) as [j|] eqn:E; [|done].
  apply find_some in E as [Hin HP]. apply bool_decide_eq_true in HP.
  assert (Hj : j < nframes b) by (eapply window_lt; [exact Ht|exact Hin]).
  destruct (decide (j = head b)) as [->|Hjh].
  - by apply window_excludes_stop in Hin.
  - by destruct (Hpin j Hj Hjh).
Qed.

(** C28. FIFO never examines the frame it loaded last: in a full pool where
    [tail != head] and every frame but [head] is pinned, a miss evicts
    nothing, even if [head] is unpinned; the block is read into the frame
    at [head], which keeps its page number and fix count, and the handle
    names the requested page on that frame.  No cursor and no other frame
    changes. *)
Theorem pinPageFIFO_skips_head b p :
  WF b -> occupiedCount b = numPages b -> (0 <= p)%Z -> ~ In p (map pageNum (frames b)) ->
  tail b <> head b ->
  (forall i, i < nframes b -> i <> head b -> fixCount (frame_at b i) <> 0%Z) ->
  let '(b', r) := pinPageFIFO p b in
  r = inr (mkHandle p (FrameData (head b))) /\
  (exists d, blocks (fh b') !! Z.to_nat p = Some d /\
             frame_at b' (head b) = set_data d (frame_at b (head b))) /\
  (forall i, i <> head b -> frame_at b' i = frame_at b i) /\
  head b' = head b /\ tail b' = tail b /\ occupiedCount b' = occupiedCount b.
Proof.
  intros Hb Hocc Hp Hnin Hne Hpin. pose proof Hb as (_ & _ & Hh & _).
  unfold pinPageFIFO. bm_run.
  rewrite (find_page_absent b p Hb Hnin). simpl. rewrite bool_decide_eq_false_2 by lia.
  rewrite (fifo_victim_skips_head b Hb Hne Hpin). simpl. evict_read p Hp.
Qed.

(** A hit: [pinPageFIFO] increments the fix count of the frame that holds
    the page. *)
Lemma pinPageFIFO_hit_state b p i :
  find_page b p = (i, true) ->
  pinPageFIFO p b = (upd_frames (alter fix_incr i) (upd_frames (alter (set_pageNum p) i) b),
                     inr (mkHandle p (FrameData i))).
Proof. intros Hf. unfold pinPageFIFO. bm_run. by rewrite Hf. Qed.

(** The fill path: while the pool is not full, the page goes to the frame
    at [head], which moves on unless the ring has one frame. *)
Lemma pinPageFIFO_fill b p :
  WF b -> (occupiedCount b < numPages b)%Z -> (0 <= p)%Z -> ~ In p (map pageNum (frames b)) ->
  let '(b', r) := pinPageFIFO p b in
  r = inr (mkHandle p (FrameData (head b))) /\
  (exists d, blocks (fh b') !! Z.to_nat p = Some d /\
             frame_at b' (head b) = set_data d (fix_incr (set_pageNum p (frame_at b (head b))))) /\
  (forall j, j <> head b -> frame_at b' j = frame_at b j) /\
  nframes b' = nframes b /\ tail b' = tail b /\
  head b' = (if Nat.eqb (cnext (nframes b) (head b)) (head b) then head b
             else cnext (nframes b) (head b)) /\
  occupiedCount b' = (occupiedCount b + 1)%Z /\ strategy b' = strategy b /\
  numRead b' = (numRead b + 1)%Z /\ numWrite b' = numWrite b.
Proof.
  intros Hb Hocc Hp Hnin. pose proof Hb as (_ & _ & Hh & _).
  unfold pinPageFIFO. bm_run.
  rewrite (find_page_absent b p Hb Hnin). simpl. rewrite bool_decide_eq_true_2 by lia.
  destruct (Nat.eqb _ _); simpl; evict_read p Hp; unfold nframes; simpl; by rewrite ?length_alter.
Qed.

(** The eviction of a clean victim [j]: nothing is written back. *)
Lemma pinPageFIFO_evict_clean b p j :
  WF b -> occupiedCount b = numPages b -> (0 <= p)%Z -> ~ In p (map pageNum (frames b)) ->
  fifo_victim b = (j, true) -> dirtyFlag (frame_at b j) = 0%Z ->
  let '(b', r) := pinPageFIFO p b in
  r = inr (mkHandle p (FrameData j)) /\
  (exists d, blocks (fh b') !! Z.to_nat p = Some d /\
             frame_at b' j = set_data d (fix_incr (set_pageNum p (frame_at b j)))) /\
  (forall i, i <> j -> frame_at b' i = frame_at b i) /\
  nframes b' = nframes b /\ head b' = j /\ tail b' = cnext (nframes b) j /\
  occupiedCount b' = occupiedCount b /\ strategy b' = strategy b /\
  numRead b' = (numRead b + 1)%Z /\ numWrite b' = numWrite b.
Proof.
  intros Hb Hocc Hp Hnin Hv Hd.
  destruct (fifo_victim_found b j Hb Hv) as [Hj _].
  unfold pinPageFIFO. bm_run.
  rewrite (find_page_absent b p Hb Hnin). simpl. rewrite bool_decide_eq_false_2 by lia.
  rewrite Hv. simpl. rewrite bool_decide_eq_false_2 by lia. simpl.
  evict_read p Hp; unfold nframes; simpl; by rewrite ?length_alter.
Qed.

(** A full pool of three unpinned frames, the first one dirty. *)
Definition fifo_full : BM :=
  {| numPages := 3; strategy := RS_FIFO; occupiedCount := 3;
     frames := [set_dirty 1 (set_pageNum 1 newFrame); set_pageNum 2 newFrame; set_pageNum 3 newFrame];
     head := 0; tail := 0; numRead := 3; numWrite := 0;
     fh := {| blocks := repeat empty_page 4; nReads := 3; nWrites := 0 |} |}.

Lemma pinPageFIFO_evict_witness :
  let '(b', r) := pinPageFIFO 4 fifo_full in
  r = inr (mkHandle 4 (FrameData 0)) /\
  (exists d, blocks (fh b') !! Z.to_nat 4 = Some d /\
             frame_at b' 0 = set_data d (fix_incr (set_pageNum 4 (frame_at fifo_full 0)))) /\
  (forall i, i <> 0 -> frame_at b' i = frame_at fifo_full i) /\
  head b' = 0 /\ tail b' = cnext (nframes fifo_full) 0 /\ occupiedCount b' = occupiedCount fifo_full /\
  numRead b' = (numRead fifo_full + 1)%Z /\
  (if bool_decide (dirtyFlag (frame_at fifo_full 0) = 1%Z)
   then numWrite b' = (numWrite fifo_full + 1)%Z /\
        blocks (fh b') !! Z.to_nat (pageNum (frame_at fifo_full 0)) = Some (data (frame_at fifo_full 0))
   else numWrite b' = numWrite fifo_full).
Proof.
  apply pinPageFIFO_evict.
  - apply (bool_decide_unpack _). vm_compute. exact I.
  - reflexivity.
  - lia.
  - vm_compute. intuition congruence.
  - vm_compute. reflexivity.
  - vm_compute. split; congruence.
Defined.

(** Two frames: page 3, loaded last, unpinned at [head]; page 2 pinned. *)
Definition fifo_newest : BM :=
  {| numPages := 2; strategy := RS_FIFO; occupiedCount := 2;
     frames := [set_pageNum 3 newFrame; fix_incr (set_pageNum 2 newFrame)];
     head := 0; tail := 1; numRead := 3; numWrite := 0;
     fh := {| blocks := repeat empty_page 4; nReads := 3; nWrites := 0 |} |}.

Lemma pinPageFIFO_skips_head_witness :
  let '(b', r) := pinPageFIFO 4 fifo_newest in
  r = inr (mkHandle 4 (FrameData (head fifo_newest))) /\
  (exists d, blocks (fh b') !! Z.to_nat 4 = Some d /\
             frame_at b' (head fifo_newest) = set_data d (frame_at fifo_newest (head fifo_newest))) /\
  (forall i, i <> head fifo_newest -> frame_at b' i = frame_at fifo_newest i) /\
  head b' = head fifo_newest /\ tail b' = tail fifo_newest /\
  occupiedCount b' = occupiedCount fifo_newest.
Proof.
  apply pinPageFIFO_skips_head.
  - apply (bool_decide_unpack _). vm_compute. exact I.
  - reflexivity.
  - lia.
  - vm_compute. intuition congruence.
  - vm_compute. lia.
  - intros i Hi Hh. vm_compute in Hi, Hh. destruct i as [|[|i]]; vm_compute; [lia|congruence|lia].
Defined.
