(* ===== verification/Lru.v ===== *)
(** * LRU replacement: [pinPageLRU] (src/buffer_mgr.c, lines 440-548)

    The code keeps no recency list: it moves the [head] and [tail] cursors of
    the ring.  A hit makes the hit frame [head] and the frame after the old
    [head] the new [tail].  On a miss in a full pool the victim loop starts
    at [tail] and runs one lap; the first frame with fix count [0] is written
    back if dirty, and then
    - if [tail != head], that frame receives the page and [tail] moves past
      it;
    - if [tail == head], the page goes to the frame AFTER it, which becomes
      [head], with [tail] the frame written back.
    The block is then read into the frame that received the page, or into
    the frame at [tail] when the loop found no unpinned frame. *)

From S2P Require Import Prelude Storage Pool Access.

(** [frame = tail; do { if (frame->fixCount != 0) frame = frame->next;
     else { ... break; } } while (frame != tail);] *)
Definition lru_victim (b : BM) : nat * bool :=
  scan (nframes b) (unpinned b) (tail b) (tail b) (nframes b).

Definition pinPageLRU (p : Z) : BMM BM_PageHandle :=
  b ← st_get;
  match find_page b p with
  | (i, true) =>
      update_frame i (set_pageNum p);; update_frame i fix_incr;;
      set_tail (cnext (nframes b) (head b));; set_head i;;
      mret (mkHandle p (FrameData i))
  | (_, false) =>
      frame ← (if bool_decide (occupiedCount b < numPages b)%Z
               then fill_frame b p
               else match lru_victim b with
                    | (j, true) =>
                        write_back_if_dirty j;;
                        if negb (Nat.eqb (tail b) (head b))
                        then update_frame j (set_pageNum p);; update_frame j fix_incr;;
                             set_tail (cnext (nframes b) j);;
                             mret j
                        else let k := cnext (nframes b) j in
                             update_frame k (set_pageNum p);; update_frame k fix_incr;;
                             set_head k;; set_tail (cprev (nframes b) k);;
                             mret k
                    | (j, false) => mret j
                    end);
      load_page p frame
  end.

(** ** Invariant *)

Lemma lru_victim_lt b : WF b -> fst (lru_victim b) < nframes b.
Proof. intros (_ & _ & Hh & Ht & _). by apply scan_lt. Qed.

Lemma pinPageLRU_WF p b : WF b -> WF (fst (pinPageLRU p b)).
Proof.
  intros Hb. unfold pinPageLRU. bm_run.
  destruct (find_page b p) as [i [|]] eqn:Hf.
  - destruct (find_page_hit b p i Hb Hf) as [Hi Hp]. simpl.
    pose proof (proj1 (proj2 (proj2 Hb))).
    wf_auto.
  - destruct (find_page_miss b p i Hb Hf) as [-> Hnin].
    pose proof (lru_victim_lt b Hb) as Hv. pose proof (proj1 (proj2 (proj2 Hb))).
    destruct (lru_victim b) as [j found]; simpl in Hv.
    repeat case_bool_decide; bm_cases; wf_auto; try by left.
    all: try (apply cprev_lt); wf_side.
Qed.

(** ** Eviction *)

Lemma lru_victim_found b j :
  WF b -> lru_victim b = (j, true) -> j < nframes b /\ fixCount (frame_at b j) = 0%Z.
Proof. intros (_ & _ & _ & Ht & _). by apply victim_found. Qed.

#[local] Arguments ensureCapacity : simpl never.

(** C25. LRU eviction when [tail == head] (the first eviction after the pool
    has filled): the victim loop finds the unpinned frame [j], which is
    written back if dirty and keeps its page; the page is stored in the
    frame [k] AFTER [j], whatever its fix count and dirty flag, and read
    into it; [k] becomes [head] and [j] [tail]; no other frame changes.
    One block is read, and when [j] is dirty its bytes are written to its
    block and [numWrite] grows by one; otherwise nothing is written. *)
Theorem pinPageLRU_evict_next b p j :
  WF b -> occupiedCount b = numPages b -> (0 <= p)%Z -> ~ In p (map pageNum (frames b)) ->
  lru_victim b = (j, true) -> tail b = head b ->
  (0 <= pageNum (frame_at b j) < totalNumPages (fh b))%Z ->
  let k := cnext (nframes b) j in
  let '(b', r) := pinPageLRU p b in
  r = inr (mkHandle p (FrameData k)) /\
  (exists d, blocks (fh b') !! Z.to_nat p = Some d /\
             frame_at b' k = set_data d (fix_incr (set_pageNum p (frame_at b k)))) /\
  (forall i, i <> k -> frame_at b' i = frame_at b i) /\
  head b' = k /\ tail b' = j /\ occupiedCount b' = occupiedCount b /\
  numRead b' = (numRead b + 1)%Z /\
  (if bool_decide (dirtyFlag (frame_at b j) = 1%Z)
   then numWrite b' = (numWrite b + 1)%Z /\
        blocks (fh b') !! Z.to_nat (pageNum (frame_at b j)) = Some (data (frame_at b j))
   else numWrite b' = numWrite b).
Proof.
  intros Hb Hocc Hp Hnin Hv Hth Hpj k. unfold totalNumPages in Hpj.
  destruct (lru_victim_found b j Hb Hv) as [Hj Hfix].
  assert (Hk : k < nframes b) by (apply cnext_lt; lia).
  assert (Hck : cprev (nframes b) k = j) by (apply cprev_cnext; lia).
  unfold pinPageLRU. bm_run.
  rewrite (find_page_absent b p Hb Hnin). simpl. rewrite bool_decide_eq_false_2 by lia.
  rewrite Hv, Hth, Nat.eqb_refl. simpl. fold k. case_bool_decide as Hd; simpl.
  - rewrite !frame_at_with_fh, writeBlock_Some; cycle 1.
    { unfold totalNumPages. rewrite ensureCapacity_length. lia. }
    simpl. rewrite ?length_alter. evict_read p Hp.
    rewrite lookup_app_l by (rewrite length_insert, length_app; lia).
    rewrite list_lookup_insert_eq by (rewrite length_app; lia). done.
  - rewrite ?length_alter. evict_read p Hp.
Qed.

(** LRU eviction when [tail != head]: the page goes to the unpinned frame
    [j] the loop found, written back first if dirty; [tail] moves past it
    and [head] stays. *)
Theorem pinPageLRU_evict_tail b p j :
  WF b -> occupiedCount b = numPages b -> (0 <= p)%Z -> ~ In p (map pageNum (frames b)) ->
  lru_victim b = (j, true) -> tail b <> head b ->
  (0 <= pageNum (frame_at b j) < totalNumPages (fh b))%Z ->
  let '(b', r) := pinPageLRU p b in
  r = inr (mkHandle p (FrameData j)) /\
  (exists d, blocks (fh b') !! Z.to_nat p = Some d /\
             frame_at b' j = set_data d (fix_incr (set_pageNum p (frame_at b j)))) /\
  (forall i, i <> j -> frame_at b' i = frame_at b i) /\
  head b' = head b /\ tail b' = cnext (nframes b) j /\ occupiedCount b' = occupiedCount b.
Proof.
  intros Hb Hocc Hp Hnin Hv Hth Hpj. unfold totalNumPages in Hpj.
  destruct (lru_victim_found b j Hb Hv) as [Hj Hfix].
  unfold pinPageLRU. bm_run.
  rewrite (find_page_absent b p Hb Hnin). simpl. rewrite bool_decide_eq_false_2 by lia.
  rewrite Hv. apply Nat.eqb_neq in Hth. rewrite Hth. simpl. case_bool_decide as Hd; simpl.
  - rewrite !frame_at_with_fh, writeBlock_Some; cycle 1.
    { unfold totalNumPages. rewrite ensureCapacity_length. lia. }
    simpl. evict_read p Hp.
  - evict_read p Hp.
Qed.

(** A hit: the frame's fix count is incremented, [head] moves to it and
    [tail] to the frame after the old [head]. *)
Lemma pinPageLRU_hit_state b q i :
  find_page b q = (i, true) ->
  pinPageLRU q b =
    (with_head i (with_tail (cnext (nframes b) (head b))
       (upd_frames (alter fix_incr i) (upd_frames (alter (set_pageNum q) i) b))),
     inr (mkHandle q (FrameData i))).
Proof. intros Hf. unfold pinPageLRU. bm_run. by rewrite Hf. Qed.

(** The fill path: while the pool is not full, the page goes to the frame
    at [head], whatever that frame holds, and nothing is written back. *)
Lemma pinPageLRU_fill b p :
  WF b -> (occupiedCount b < numPages b)%Z -> (0 <= p)%Z -> ~ In p (map pageNum (frames b)) ->
  let '(b', r) := pinPageLRU p b in
  r = inr (mkHandle p (FrameData (head b))) /\
  (exists d, blocks (fh b') !! Z.to_nat p = Some d /\
             frame_at b' (head b) = set_data d (fix_incr (set_pageNum p (frame_at b (head b))))) /\
  (forall j, j <> head b -> frame_at b' j = frame_at b j) /\
  numWrite b' = numWrite b /\ nframes b' = nframes b.
Proof.
  intros Hb Hocc Hp Hnin. pose proof Hb as (_ & _ & Hh & _).
  unfold pinPageLRU. bm_run.
  rewrite (find_page_absent b p Hb Hnin). simpl. rewrite bool_decide_eq_true_2 by lia.
  destruct (negb _); simpl; evict_read p Hp; unfold nframes; simpl; by rewrite !length_alter.
Qed.

(** C26. An LRU hit breaks the next fill: while the pool is not full, a hit
    on page [q] in frame [i] makes [i] the [head], and the next miss, for
    a page [p], stores [p] in frame [i].  Page [q] is no longer resident
    though it was just pinned (the frame's fix count counts both pins),
    and it is not written back whatever its dirty flag. *)
Theorem pinPageLRU_hit_then_fill b q i p :
  WF b -> (occupiedCount b < numPages b)%Z -> find_page b q = (i, true) -> q <> NO_PAGE ->
  (0 <= p)%Z -> ~ In p (map pageNum (frames b)) ->
  let b1 := fst (pinPageLRU q b) in
  let '(b2, r) := pinPageLRU p b1 in
  r = inr (mkHandle p (FrameData i)) /\
  pageNum (frame_at b2 i) = p /\ fixCount (frame_at b2 i) = (fixCount (frame_at b i) + 2)%Z /\
  dirtyFlag (frame_at b2 i) = dirtyFlag (frame_at b i) /\
  ~ In q (map pageNum (frames b2)) /\ numWrite b2 = numWrite b.
Proof.
  intros Hb Hocc Hf Hq Hp Hnin b1.
  destruct (find_page_hit b q i Hb Hf) as [Hi Hqi].
  assert (Hb1 : WF b1) by (apply pinPageLRU_WF, Hb).
  unfold b1 in *. rewrite (pinPageLRU_hit_state b q i Hf) in Hb1 |- *. simpl.
  set (b1' := with_head i _) in *.
  assert (Hn1 : ~ In p (map pageNum (frames b1'))).
  { unfold b1'; cbn. rewrite map_pageNum_alter by (intros; reflexivity).
    by rewrite alter_set_pageNum_same. }
  pose proof (pinPageLRU_fill b1' p Hb1 Hocc Hp Hn1) as Hfill.
  destruct (pinPageLRU p b1') as [b2 r].
  destruct Hfill as (-> & (d & _ & Hfi) & Hoth & Hw & Hn2). change (head b1') with i in *.
  assert (Hfr : forall j, j <> i -> frame_at b2 j = frame_at b j).
  { intros j Hj. rewrite Hoth by done. unfold b1'. frame_simpl. done. }
  assert (Hfi' : frame_at b2 i = set_data d (fix_incr (set_pageNum p (fix_incr (frame_at b i))))).
  { rewrite Hfi. unfold b1'. frame_simpl. rewrite <- Hqi. by destruct (frame_at b i). }
  rewrite Hfi'. cbn. split_and!; [done|done|lia|done| |exact Hw].
  intros (k & Hk & Hkq)%In_map_pageNum.
  destruct (decide (k = i)) as [->|Hki].
  - rewrite Hfi' in Hkq. cbn in Hkq. apply Hnin. rewrite Hkq, <- Hqi. by apply In_map_frame_at.
  - rewrite Hfr in Hkq by done. pose proof Hb as (_ & _ & _ & _ & _ & Hnd & _).
    apply Hki. eapply (resident_unique _ k i (frame_at b k) (frame_at b i) Hnd);
      [apply frame_at_lookup|apply frame_at_lookup|congruence|congruence].
    all: unfold b1' in Hn2; unfold nframes in *; cbn in Hn2; rewrite ?length_alter in Hn2; lia.
Qed.

(** ** Witness *)

(** A full pool of three frames with [tail == head == 0]: frame 0 is
    unpinned, frame 1 holds page 2 pinned and dirty. *)
Definition lru_full : BM :=
  {| numPages := 3; strategy := RS_LRU; occupiedCount := 3;
     frames := [set_pageNum 1 newFrame; set_dirty 1 (fix_incr (set_pageNum 2 newFrame));
                set_pageNum 3 newFrame];
     head := 0; tail := 0; numRead := 3; numWrite := 0;
     fh := {| blocks := repeat empty_page 4; nReads := 3; nWrites := 0 |} |}.

(** Page 4 replaces the pinned, dirty page 2, not the unpinned page 1. *)
Lemma pinPageLRU_evict_next_witness :
  let '(b', r) := pinPageLRU 4 lru_full in
  r = inr (mkHandle 4 (FrameData 1)) /\
  (exists d, blocks (fh b') !! Z.to_nat 4 = Some d /\
             frame_at b' 1 = set_data d (fix_incr (set_pageNum 4 (frame_at lru_full 1)))) /\
  (forall i, i <> 1 -> frame_at b' i = frame_at lru_full i) /\
  head b' = 1 /\ tail b' = 0 /\ occupiedCount b' = occupiedCount lru_full /\
  numRead b' = (numRead lru_full + 1)%Z /\
  (if bool_decide (dirtyFlag (frame_at lru_full 0) = 1%Z)
   then numWrite b' = (numWrite lru_full + 1)%Z /\
        blocks (fh b') !! Z.to_nat (pageNum (frame_at lru_full 0)) = Some (data (frame_at lru_full 0))
   else numWrite b' = numWrite lru_full).
Proof.
  apply (pinPageLRU_evict_next lru_full 4 0).
  - apply (bool_decide_unpack _). vm_compute. exact I.
  - reflexivity.
  - lia.
  - vm_compute. intuition congruence.
  - vm_compute. reflexivity.
  - reflexivity.
  - vm_compute. split; congruence.
Defined.

(** Three frames after the first pin: page 1 pinned in frame 0, [head] on
    frame 1. *)
Definition lru_filling : BM :=
  {| numPages := 3; strategy := RS_LRU; occupiedCount := 1;
     frames := [fix_incr (set_pageNum 1 newFrame); newFrame; newFrame];
     head := 1; tail := 0; numRead := 1; numWrite := 0;
     fh := {| blocks := repeat empty_page 4; nReads := 1; nWrites := 0 |} |}.

(** Pinning page 1 again and then page 2 puts page 2 in frame 0. *)
Lemma pinPageLRU_hit_then_fill_witness :
  let b1 := fst (pinPageLRU 1 lru_filling) in
  let '(b2, r) := pinPageLRU 2 b1 in
  r = inr (mkHandle 2 (FrameData 0)) /\
  pageNum (frame_at b2 0) = 2%Z /\ fixCount (frame_at b2 0) = (fixCount (frame_at lru_filling 0) + 2)%Z /\
  dirtyFlag (frame_at b2 0) = dirtyFlag (frame_at lru_filling 0) /\
  ~ In 1%Z (map pageNum (frames b2)) /\ numWrite b2 = numWrite lru_filling.
Proof.
  apply (pinPageLRU_hit_then_fill lru_filling 1 0 2).
  - apply (bool_decide_unpack _). vm_compute. exact I.
  - vm_compute. reflexivity.
  - vm_compute. reflexivity.
  - unfold NO_PAGE. lia.
  - lia.
  - vm_compute. intuition congruence.
Defined.
