(* ===== verification/Clock.v ===== *)
(** * CLOCK replacement: [pinPageCLOCK] (src/buffer_mgr.c, lines 557-667)

    Every load and every hit sets the frame's reference bit.  On a miss in a
    full pool the outer loop starts at [head] and skips pinned frames; at
    the first unpinned frame the inner loop
    [while (frame->refBit != 0) { frame->refBit = 0; frame = frame->next; }]
    clears reference bits until it reaches a frame whose bit is [0], pinned
    or not, and that frame is evicted: written back if dirty, its bit set,
    the page stored, and [head] moved past it.  [pinPageCLOCK_evicts_pinned]
    shows that frame can be pinned. *)

From S2P Require Import Prelude Storage Pool Access.

(** The inner loop on the frames: the frames with their bits cleared and
    the frame it stops at.  [fuel] bounds the iterations; [n] suffice
    ([clock_sweep_fuel]). *)
Fixpoint clock_sweep (n : nat) (fr : list PageFrame) (i fuel : nat) : list PageFrame * nat :=
  match fuel with
  | 0 => (fr, i)
  | S fuel' =>
      if bool_decide (refBit (fr !!! i) <> 0%Z)
      then clock_sweep n (alter (set_ref 0) i fr) (cnext n i) fuel'
      else (fr, i)
  end.

(** [frame = head; do { if (frame->fixCount != 0) frame = frame->next;
     else { while (...) ...; ... break; } } while (frame != head);] *)
Definition clock_victim (b : BM) : nat * bool :=
  scan (nframes b) (unpinned b) (head b) (head b) (nframes b).

(** The inner loop run on the pool from frame [j]; the frame it stops at. *)
Definition sweepM (j : nat) : BMM nat :=
  b ← st_get;
  let '(fr', k) := clock_sweep (nframes b) (frames b) j (nframes b) in
  st_modify (upd_frames (fun _ => fr'));;
  mret k.

Definition pinPageCLOCK (p : Z) : BMM BM_PageHandle :=
  b ← st_get;
  match find_page b p with
  | (i, true) =>
      update_frame i (set_ref 1);; update_frame i (set_pageNum p);; update_frame i fix_incr;;
      mret (mkHandle p (FrameData i))
  | (_, false) =>
      frame ← (if bool_decide (occupiedCount b < numPages b)%Z
               then let i := head b in
                    update_frame i (set_pageNum p);; update_frame i (set_ref 1);;
                    (if negb (Nat.eqb (cnext (nframes b) i) i)
                     then set_head (cnext (nframes b) i) else mret tt);;
                    update_frame i fix_incr;; incr_occupied;;
                    mret i
               else match clock_victim b with
                    | (j, true) =>
                        k ← sweepM j;
                        write_back_if_dirty k;;
                        update_frame k (set_ref 1);; update_frame k (set_pageNum p);;
                        update_frame k fix_incr;; set_head (cnext (nframes b) k);;
                        mret k
                    | (j, false) => mret j
                    end);
      load_page p frame
  end.

(** ** The inner loop *)

(** Number of frames whose reference bit is set: the variant of the inner
    loop. *)
Definition refs_set (fr : list PageFrame) : nat :=
  length (List.filter (fun f => bool_decide (refBit f <> 0%Z)) fr).

Lemma refs_set_clear fr i :
  i < length fr -> refBit (fr !!! i) <> 0%Z ->
  S (refs_set (alter (set_ref 0) i fr)) = refs_set fr.
Proof.
  unfold refs_set. revert i. induction fr as [|f fr IH]; intros [|i] Hi Hr; simpl in *; [lia|lia| |].
  - by rewrite (bool_decide_eq_true_2 _ Hr).
  - case_bool_decide; simpl; rewrite <- (IH i) by (done || lia); done.
Qed.

Lemma refs_set_le fr : refs_set fr <= length fr.
Proof. unfold refs_set. apply filter_length_le. Qed.

(** Termination of [while (frame->refBit != 0)]: every iteration clears a
    set bit, so [refs_set] iterations, at most [n], reach a clear bit. *)
Theorem clock_sweep_fuel n fr i fuel1 fuel2 :
  length fr = n -> i < n -> refs_set fr <= fuel1 -> refs_set fr <= fuel2 ->
  clock_sweep n fr i fuel1 = clock_sweep n fr i fuel2.
Proof.
  revert fr i fuel2. induction fuel1 as [|f1 IH]; intros fr i [|f2] Hl Hi H1 H2; simpl; [done| | |].
  - case_bool_decide as Hr; [|done]. pose proof (refs_set_clear fr i ltac:(lia) Hr). lia.
  - case_bool_decide as Hr; [|done]. pose proof (refs_set_clear fr i ltac:(lia) Hr). lia.
  - case_bool_decide as Hr; [|done]. pose proof (refs_set_clear fr i ltac:(lia) Hr).
    apply IH; [by rewrite length_alter|by apply cnext_lt|lia|lia].
Qed.

Lemma clock_sweep_only_ref n fr i fuel :
  map (set_ref 0) (clock_sweep n fr i fuel).1 = map (set_ref 0) fr.
Proof.
  revert fr i. induction fuel as [|fuel IH]; intros fr i; simpl; [done|].
  case_bool_decide; [|done]. rewrite IH. apply map_alter_absorb. done.
Qed.

Lemma clock_sweep_lt n fr i fuel : i < n -> (clock_sweep n fr i fuel).2 < n.
Proof.
  revert fr i. induction fuel as [|fuel IH]; intros fr i Hi; simpl; [done|].
  case_bool_decide; [|done]. by apply IH, cnext_lt.
Qed.

(** ** Invariant *)

Lemma clock_victim_lt b : WF b -> fst (clock_victim b) < nframes b.
Proof. intros (_ & _ & Hh & Ht & _). by apply scan_lt. Qed.

Lemma clock_sweep_facts n fr j fuel l k :
  clock_sweep n fr j fuel = (l, k) -> j < n ->
  map (set_ref 0) l = map (set_ref 0) fr /\ map pageNum l = map pageNum fr /\
  length l = length fr /\ k < n.
Proof.
  intros Hs Hj. pose proof (clock_sweep_only_ref n fr j fuel) as Hr.
  pose proof (clock_sweep_lt n fr j fuel Hj) as Hk. rewrite Hs in Hr, Hk; simpl in *.
  split_and!; [done| | |done].
  - transitivity (map pageNum (map (set_ref 0) l)); [by rewrite map_map|].
    rewrite Hr, map_map. done.
  - rewrite <- (length_map (set_ref 0) l), Hr. apply length_map.
Qed.

(** The inner loop started on a frame whose bit is set, followed by a
    frame whose bit is clear, stops on the second. *)
Lemma clock_sweep_two n fr j fuel :
  j < n -> length fr = n -> refBit (fr !!! j) <> 0%Z -> cnext n j <> j ->
  refBit (fr !!! cnext n j) = 0%Z -> 2 <= fuel ->
  clock_sweep n fr j fuel = (alter (set_ref 0) j fr, cnext n j).
Proof.
  intros Hj Hl Hr Hne Hk Hf. destruct fuel as [|[|fuel]]; [lia|lia|]. simpl.
  rewrite bool_decide_eq_true_2 by done.
  rewrite list_lookup_total_alter_ne by done. by rewrite bool_decide_eq_false_2 by (intros []; done).
Qed.

Lemma pinPageCLOCK_WF p b : WF b -> WF (fst (pinPageCLOCK p b)).
Proof.
  intros Hb. unfold pinPageCLOCK, sweepM. bm_run.
  destruct (find_page b p) as [i [|]] eqn:Hf.
  - destruct (find_page_hit b p i Hb Hf) as [Hi Hp]. simpl. wf_auto.
  - destruct (find_page_miss b p i Hb Hf) as [-> Hnin].
    pose proof (clock_victim_lt b Hb) as Hv. pose proof (proj1 (proj2 (proj2 Hb))).
    destruct (clock_victim b) as [j found]; simpl in Hv.
    repeat case_bool_decide; bm_cases.
    all: try match goal with
           | H : clock_sweep _ _ _ _ = _ |- _ =>
               apply clock_sweep_facts in H as (Hr0 & Hpn & Hlen & Hk); [|done]
           end.
    all: wf_auto; try (apply WF_upd_frames_ref; [done|done]).
    all: rewrite ?Hpn, ?Hlen; first [by left | by apply cnext_lt].
Qed.

(** ** Eviction *)

#[local] Arguments ensureCapacity : simpl never.

(** A hit: [pinPageCLOCK] sets the reference bit of the frame that holds
    the page and increments its fix count. *)
Lemma pinPageCLOCK_hit_state b p i :
  find_page b p = (i, true) ->
  pinPageCLOCK p b =
    (upd_frames (alter fix_incr i) (upd_frames (alter (set_pageNum p) i)
       (upd_frames (alter (set_ref 1) i) b)), inr (mkHandle p (FrameData i))).
Proof. intros Hf. unfold pinPageCLOCK. bm_run. by rewrite Hf. Qed.

(** The read of the requested block that ends an eviction, and the facts
    on the frames that follow from it. *)
Ltac clock_read :=
  match goal with |- context [readBlock ?p (ensureCapacity (?p + 1) ?F)] =>
    let d := fresh "d" in let Hr := fresh "Hr" in
    destruct (readBlock_ensure p F ltac:(assumption)) as (d & Hr & _); rewrite Hr; simpl;
    split; [done|]; frame_simpl; simpl; split_and!; try done; try lia
  end.

(** C30. CLOCK evicts a pinned page: in a full pool, when the outer loop
    stops at the unpinned frame [j] whose reference bit is set and the next
    frame [k] has its bit clear, the inner loop clears [j]'s bit and stops
    on [k], whatever its fix count: the page of [k] is replaced, [k]'s fix
    count is incremented rather than reset, and [j] keeps its page. *)
Theorem pinPageCLOCK_evicts_pinned b p j :
  WF b -> occupiedCount b = numPages b -> (0 <= p)%Z -> ~ In p (map pageNum (frames b)) ->
  clock_victim b = (j, true) -> refBit (frame_at b j) <> 0%Z ->
  cnext (nframes b) j <> j -> refBit (frame_at b (cnext (nframes b) j)) = 0%Z ->
  (0 <= pageNum (frame_at b (cnext (nframes b) j)) < totalNumPages (fh b))%Z ->
  let k := cnext (nframes b) j in
  let '(b', r) := pinPageCLOCK p b in
  r = inr (mkHandle p (FrameData k)) /\
  pageNum (frame_at b' k) = p /\ fixCount (frame_at b' k) = (fixCount (frame_at b k) + 1)%Z /\
  frame_at b' j = set_ref 0 (frame_at b j) /\ head b' = cnext (nframes b) k.
Proof.
  intros Hb Hocc Hp Hnin Hv Hrj Hne Hrk Hpk. cbv zeta.
  pose proof (clock_victim_lt b Hb) as Hjl. rewrite Hv in Hjl. simpl in Hjl.
  unfold pinPageCLOCK, sweepM. bm_run.
  rewrite (find_page_absent b p Hb Hnin). simpl. rewrite bool_decide_eq_false_2 by lia.
  assert (Hn2 : 2 <= nframes b) by (unfold cnext in Hne; destruct (Nat.eqb_spec (S j) (nframes b)); lia).
  rewrite Hv. simpl. rewrite clock_sweep_two by done.
  simpl. change (upd_frames (fun _ => alter (set_ref 0) j (frames b)) b)
    with (upd_frames (alter (set_ref 0) j) b).
  set (k := cnext (nframes b) j) in *. assert (Hkl : k < nframes b) by (apply cnext_lt; lia).
  rewrite frame_at_upd_other by lia. unfold totalNumPages in Hpk.
  case_bool_decide as Hd; simpl.
  - rewrite !frame_at_with_fh. rewrite !frame_at_upd_other by lia.
    rewrite writeBlock_Some; cycle 1.
    { unfold totalNumPages. cbn [fh upd_frames]. rewrite ensureCapacity_length. lia. }
    simpl. clock_read.
  - clock_read.
Qed.

Lemma clock_sweep_fuel_witness :
  length (repeat (set_ref 1 newFrame) 3) = 3 /\ 1 < 3 /\
  refs_set (repeat (set_ref 1 newFrame) 3) <= 3 /\ refs_set (repeat (set_ref 1 newFrame) 3) <= 7 /\
  clock_sweep 3 (repeat (set_ref 1 newFrame) 3) 1 3 = clock_sweep 3 (repeat (set_ref 1 newFrame) 3) 1 7.
Proof.
  assert (H1 : length (repeat (set_ref 1 newFrame) 3) = 3) by reflexivity.
  assert (H2 : 1 < 3) by lia.
  assert (H3 : refs_set (repeat (set_ref 1 newFrame) 3) <= 3) by (vm_compute; lia).
  assert (H4 : refs_set (repeat (set_ref 1 newFrame) 3) <= 7) by (vm_compute; lia).
  exact (conj H1 (conj H2 (conj H3 (conj H4 (clock_sweep_fuel 3 _ 1 3 7 H1 H2 H3 H4))))).
Defined.

Definition clock_pinned : BM :=
  {| numPages := 2; strategy := RS_CLOCK; occupiedCount := 2;
     frames := [set_ref 1 (set_pageNum 3 newFrame); fix_incr (set_pageNum 2 newFrame)];
     head := 0; tail := 0; numRead := 2; numWrite := 0;
     fh := {| blocks := repeat empty_page 5; nReads := 2; nWrites := 0 |} |}.

Lemma pinPageCLOCK_evicts_pinned_witness :
  fixCount (frame_at clock_pinned 1) = 1%Z /\
  let '(b', r) := pinPageCLOCK 4 clock_pinned in
  r = inr (mkHandle 4 (FrameData 1)) /\
  pageNum (frame_at b' 1) = 4%Z /\ fixCount (frame_at b' 1) = 2%Z /\
  frame_at b' 0 = set_ref 0 (frame_at clock_pinned 0) /\ head b' = 0.
Proof.
  split; [reflexivity|].
  apply (pinPageCLOCK_evicts_pinned clock_pinned 4 0).
  - apply (bool_decide_unpack _). vm_compute. exact I.
  - reflexivity.
  - lia.
  - apply (bool_decide_unpack _). vm_compute. exact I.
  - reflexivity.
  - discriminate.
  - discriminate.
  - reflexivity.
  - unfold totalNumPages. simpl. lia.
Defined.
