(* ===== verification/Pin.v ===== *)
(** * The buffer manager as a whole: [pinPage], client requests, reachable
      pools

    [pinPage] (src/buffer_mgr.c, lines 309-329) dispatches on the pool's
    strategy and returns [RC_OK] whatever the strategy function returned.
    A client of the pool issues the requests of [Request]; a pool is
    reachable when some sequence of requests leads to it from
    [initBufferPool].  The invariant [WF] holds in every reachable pool. *)

From Stdlib Require Import Strings.Byte.
From S2P Require Import Prelude Storage Pool Access Fifo Lru Clock.

Definition strategy_pin (s : ReplacementStrategy) (p : Z) : BMM BM_PageHandle :=
  match s with
  | RS_FIFO => pinPageFIFO p
  | RS_LRU => pinPageLRU p
  | RS_CLOCK => pinPageCLOCK p
  end.

(** [pinPage(bm, page, pageNum)]. *)
Definition pinPage (page : BM_PageHandle) (p : Z) (b : BM) : BM * BM_PageHandle * RC :=
  let '(b', h', _) := run_pin (strategy_pin (strategy b) p) page b in (b', h', RC_OK).

(** The calls a client (the record manager, the index manager, a test) makes
    on an open pool. *)
Inductive Request :=
  | ReqPin (p : Z)
  | ReqUnpin (h : BM_PageHandle)
  | ReqMarkDirty (h : BM_PageHandle)
  | ReqForcePage (h : BM_PageHandle)
  | ReqFlush
  | ReqWrite (h : BM_PageHandle) (d : page).

(** The client's own writes: [memcpy(page->data, ...)] through a handle,
    into the frame buffer the handle points to (a write through any other
    pointer does not reach the pool). *)
Definition write_through (h : BM_PageHandle) (d : page) (b : BM) : BM :=
  match ph_data h with
  | FrameData i => upd_frames (alter (set_data d) i) b
  | _ => b
  end.

(** A call that leaves the client's handle variable alone. *)
Definition call (m : BMM RC) (page : BM_PageHandle) (b : BM) : BM * BM_PageHandle * RC :=
  let '(b', rc) := run_rc m b in (b', page, rc).

(** One request, with the client's handle variable [page] that [pinPage]
    writes. *)
Definition exec (r : Request) (page : BM_PageHandle) (b : BM) : BM * BM_PageHandle * RC :=
  match r with
  | ReqPin p => pinPage page p b
  | ReqUnpin h => call (unpinPage h) page b
  | ReqMarkDirty h => call (markDirty h) page b
  | ReqForcePage h => call (forcePage h) page b
  | ReqFlush => call forceFlushPool page b
  | ReqWrite h d => (write_through h d b, page, RC_OK)
  end.

Definition exec_state (r : Request) (page : BM_PageHandle) (b : BM) : BM :=
  fst (fst (exec r page b)).

(** Pools reachable from [initBufferPool] by client requests. *)
Inductive reachable : BM -> Prop :=
  | reach_init f n s : (1 <= n)%Z -> reachable (initBufferPool f n s)
  | reach_step r page b : reachable b -> reachable (exec_state r page b).

(** A sequence of requests from a given handle. *)
Fixpoint exec_all (rs : list Request) (page : BM_PageHandle) (b : BM)
  : BM * BM_PageHandle * RC :=
  match rs with
  | [] => (b, page, RC_OK)
  | r :: rs' => let '(b', page', _) := exec r page b in exec_all rs' page' b'
  end.

(** ** The invariant in every reachable pool *)

Lemma call_fst m page b : fst (fst (call m page b)) = fst (m b).
Proof. unfold call, run_rc. by destruct (m b) as [? []]. Qed.

Lemma pinPage_fst page p b :
  fst (fst (pinPage page p b)) = fst (strategy_pin (strategy b) p b).
Proof. unfold pinPage, run_pin. by destruct (strategy_pin _ p b) as [? []]. Qed.

Lemma pinPage_WF page p b : WF b -> WF (fst (fst (pinPage page p b))).
Proof.
  rewrite pinPage_fst. destruct (strategy b); simpl;
    [apply pinPageFIFO_WF|apply pinPageLRU_WF|apply pinPageCLOCK_WF].
Qed.

Lemma exec_WF r page b : WF b -> WF (exec_state r page b).
Proof.
  unfold exec_state, exec. intros Hb. destruct r; rewrite ?call_fst.
  - by apply pinPage_WF.
  - by apply unpinPage_WF.
  - by apply markDirty_WF.
  - by apply forcePage_WF.
  - by apply forceFlushPool_WF.
  - unfold write_through. destruct (ph_data h); [done| |done]. simpl. wf_auto.
Qed.

(** C1. Every pool a client can reach satisfies the invariant: a non-empty
    ring of [numPages] frames, cursors inside it, at most [numPages]
    occupied frames, no page held by two frames, non-negative counters. *)
Theorem reachable_WF b : reachable b -> WF b.
Proof. induction 1; [by apply WF_init|by apply exec_WF]. Qed.

(** ** Scenarios *)

Definition byte_of (k : nat) : Byte.byte :=
  match Byte.of_nat k with Some x => x | None => Byte.x00 end.

(** A page file of [k] blocks, block [i] filled with the byte [i]. *)
Definition marked_file (k : nat) : SM_FileHandle :=
  {| blocks := map (fun i => repeat (byte_of i) PAGE_SIZE) (seq 0 k); nReads := 0; nWrites := 0 |}.

Definition no_handle : BM_PageHandle := mkHandle NO_PAGE NoData.
Definition unpin (p : Z) : Request := ReqUnpin (mkHandle p NoData).

(** Run requests on a fresh pool of [n] frames over [marked_file 8]. *)
Definition session (s : ReplacementStrategy) (n : Z) (rs : list Request)
  : BM * BM_PageHandle * RC :=
  exec_all rs no_handle (initBufferPool (marked_file 8) n s).

Definition contents (r : BM * BM_PageHandle * RC) : list Z := getFrameContents (fst (fst r)).

Definition pool_of (r : BM * BM_PageHandle * RC) : BM := fst (fst r).

Definition handle_of (r : BM * BM_PageHandle * RC) : BM_PageHandle := snd (fst r).

(** The block a client writes in the scenarios. *)
Definition client_bytes : page := repeat (byte_of 42) PAGE_SIZE.

(** The bytes in frame [i] are those of block [k] of [marked_file]. *)
Definition frame_shows (b : BM) (i k : nat) : bool :=
  bool_decide (data (frame_at b i) = repeat (byte_of k) PAGE_SIZE).

(** FIFO, specification 8.4: three frames filled with pages 1, 2, 3, all
    unpinned, then page 4: page 1, the oldest, is evicted and page 4 takes
    its frame. *)
Example fifo_scenario :
  let r := session RS_FIFO 3 [ReqPin 1; ReqPin 2; ReqPin 3; unpin 1; unpin 2; unpin 3; ReqPin 4] in
  contents r = [4; 2; 3]%Z /\ snd (fst r) = mkHandle 4 (FrameData 0) /\ frame_shows (pool_of r) 0 4 = true.
Proof. vm_compute. auto. Qed.

(** LRU, specification 8.5: with page 1 re-pinned before page 4, page 2 is
    evicted. *)
Example lru_scenario :
  contents (session RS_LRU 3 [ReqPin 1; ReqPin 2; ReqPin 3; unpin 1; unpin 2; unpin 3;
                              ReqPin 1; unpin 1; ReqPin 4]) = [1; 4; 3]%Z.
Proof. vm_compute. reflexivity. Qed.

(** LRU evicts the wrong page: without the re-pin, page 1 is the least
    recently used page, yet page 2 is evicted.  After the pool fills up,
    [tail == head], and the [else] branch of the victim loop stores the new
    page in the frame AFTER the unpinned frame it found. *)
Example lru_evicts_second_frame :
  contents (session RS_LRU 3 [ReqPin 1; ReqPin 2; ReqPin 3; unpin 1; unpin 2; unpin 3;
                              ReqPin 4]) = [1; 4; 3]%Z.
Proof. vm_compute. reflexivity. Qed.

(** CLOCK, specification 8.6: the sweep clears the three reference bits,
    comes back to frame 0 and evicts page 1; the new page's bit is set and
    the hand is on frame 1. *)
Example clock_scenario :
  let r := session RS_CLOCK 3 [ReqPin 1; ReqPin 2; ReqPin 3; unpin 1; unpin 2; unpin 3; ReqPin 4] in
  contents r = [4; 2; 3]%Z /\ map refBit (frames (pool_of r)) = [1; 0; 0]%Z /\
  head (pool_of r) = 1.
Proof. vm_compute. auto. Qed.

(** Exhaustion, specification 8.7: two frames pinned by pages 1 and 2, then
    page 3.  The pin reports [RC_OK] (no error), the frame table still
    says pages 1 and 2, and the bytes of block 3 have been read into the
    frame that holds page 1, which the handle for page 3 now points to. *)
Example exhaustion_scenario :
  let r := session RS_FIFO 2 [ReqPin 1; ReqPin 2; ReqPin 3] in
  snd r = RC_OK /\ contents r = [1; 2]%Z /\ getFixCounts (pool_of r) = [1; 1]%Z /\
  snd (fst r) = mkHandle 3 (FrameData 0) /\ frame_shows (pool_of r) 0 3 = true.
Proof. vm_compute. auto. Qed.

(** FIFO never examines the frame it loaded last: with page 2 pinned and
    page 3 (the newest, in frame 0) unpinned, pinning page 4 evicts nothing
    and reads block 4 into the frame of page 3. *)
Example fifo_skips_newest_frame :
  let r := session RS_FIFO 2 [ReqPin 1; ReqPin 2; unpin 1; ReqPin 3; unpin 3; ReqPin 4] in
  contents r = [3; 2]%Z /\ getFixCounts (pool_of r) = [0; 1]%Z /\
  snd (fst r) = mkHandle 4 (FrameData 0) /\ frame_shows (pool_of r) 0 4 = true.
Proof. vm_compute. auto. Qed.

(** CLOCK evicts a pinned page: the inner loop clears the bit of the
    unpinned frame 0 and stops on frame 1, pinned by page 2, whose bit an
    earlier sweep had cleared; page 2 is replaced by page 4 and the fix
    count of the frame becomes 2. *)
Example clock_evicts_pinned :
  let r := session RS_CLOCK 2 [ReqPin 1; ReqPin 2; unpin 1; ReqPin 3; unpin 3; ReqPin 4] in
  contents r = [3; 4]%Z /\ getFixCounts (pool_of r) = [0; 2]%Z.
Proof. vm_compute. auto. Qed.

(** LRU loses a page while the pool is filling: a hit on page 1 moves
    [head] back to page 1's frame, and the next miss stores page 2 in that
    frame, although two frames are empty. *)
Example lru_fill_overwrites :
  let r := session RS_LRU 3 [ReqPin 1; ReqPin 1; ReqPin 2] in
  contents r = [2; -1; -1]%Z /\ getFixCounts (pool_of r) = [3; 0; 0]%Z.
Proof. vm_compute. auto. Qed.

(** ** Pinning a resident page *)

Lemma upd_frames_alter_alter b f g i :
  upd_frames (alter f i) (upd_frames (alter g i) b) = upd_frames (alter (f ∘ g) i) b.
Proof. unfold upd_frames; simpl. by rewrite list_alter_alter_eq. Qed.

(** The statistics after an update of frame [i]. *)
Lemma stats_alter b g i :
  WF b -> i < nframes b ->
  getFrameContents (upd_frames (alter g i) b) =
    <[i := pageNum (g (frame_at b i))]> (getFrameContents b) /\
  getFixCounts (upd_frames (alter g i) b) =
    <[i := fixCount (g (frame_at b i))]> (getFixCounts b) /\
  getDirtyFlags (upd_frames (alter g i) b) =
    <[i := negb (Z.eqb (dirtyFlag (g (frame_at b i))) 0)]> (getDirtyFlags b).
Proof.
  intros (_ & Hn & _) Hi. unfold getFrameContents, getFixCounts, getDirtyFlags.
  rewrite !stat_walk_frames by (try rewrite nframes_upd_frames; done). simpl.
  by rewrite !map_alter_insert.
Qed.

Lemma stats_lookup b i :
  WF b -> i < nframes b ->
  getFrameContents b !! i = Some (pageNum (frame_at b i)) /\
  getFixCounts b !! i = Some (fixCount (frame_at b i)) /\
  getDirtyFlags b !! i = Some (negb (Z.eqb (dirtyFlag (frame_at b i)) 0)).
Proof.
  intros (_ & Hn & _) Hi. unfold getFrameContents, getFixCounts, getDirtyFlags.
  rewrite !stat_walk_frames by done. pose proof (frame_at_lookup b i Hi).
  split_and!; [apply (lookup_map_Some pageNum)|apply (lookup_map_Some fixCount)
              |apply (lookup_map_Some (fun f => negb (Z.eqb (dirtyFlag f) 0)))]; done.
Qed.

(** The statistics do not look at the cursors. *)
Lemma stats_cursors {A} (sel : PageFrame -> A) b i j :
  stat_walk sel (with_head i (with_tail j b)) = stat_walk sel b.
Proof. reflexivity. Qed.

(** C3. Pinning a resident page, whatever the strategy: [RC_OK], a handle on
    the frame that holds the page, the frame's fix count incremented, no
    other change to the frame table, and no I/O. *)
Theorem pinPage_hit b page p i :
  WF b -> i < nframes b -> pageNum (frame_at b i) = p -> p <> NO_PAGE ->
  let '(b', h, rc) := pinPage page p b in
  rc = RC_OK /\ h = mkHandle p (FrameData i) /\
  getFrameContents b' = getFrameContents b /\
  getFixCounts b' = <[i := (fixCount (frame_at b i) + 1)%Z]> (getFixCounts b) /\
  getDirtyFlags b' = getDirtyFlags b /\
  fh b' = fh b /\ numRead b' = numRead b /\ numWrite b' = numWrite b.
Proof.
  intros Hb Hi Hp Hne. pose proof (find_page_resident b p i Hb Hi Hp Hne) as Hf.
  destruct (stats_lookup b i Hb Hi) as (Lc & Lx & Ld). rewrite Hp in Lc.
  unfold pinPage, run_pin, strategy_pin.
  destruct (strategy b); [unfold pinPageFIFO|unfold pinPageLRU|unfold pinPageCLOCK]; bm_run;
    rewrite Hf; simpl; rewrite ?upd_frames_alter_alter;
    unfold getFrameContents, getFixCounts, getDirtyFlags; rewrite ?stats_cursors;
    fold (getFrameContents (upd_frames (alter (fix_incr ∘ set_pageNum p) i) b));
    match goal with
    | |- context [upd_frames (alter ?g i) b] => destruct (stats_alter b g i Hb Hi) as (Hc & Hx & Hd)
    end; unfold getFrameContents, getFixCounts, getDirtyFlags in *;
    rewrite Hc, Hx, Hd; simpl; rewrite (list_insert_id _ _ _ Lc), (list_insert_id _ _ _ Ld); done.
Qed.

(** ** Witnesses *)

Lemma reachable_WF_witness :
  reachable (exec_state (ReqPin 1) no_handle (initBufferPool (marked_file 8) 2 RS_FIFO)) /\
  WF (exec_state (ReqPin 1) no_handle (initBufferPool (marked_file 8) 2 RS_FIFO)).
Proof.
  assert (H : reachable (exec_state (ReqPin 1) no_handle (initBufferPool (marked_file 8) 2 RS_FIFO)))
    by (apply reach_step, reach_init; lia).
  exact (conj H (reachable_WF _ H)).
Defined.

Definition b_hit : BM := pool_of (session RS_LRU 2 [ReqPin 1; ReqPin 2]).

Lemma pinPage_hit_witness :
  WF b_hit /\ 0 < nframes b_hit /\ pageNum (frame_at b_hit 0) = 1%Z /\ 1%Z <> NO_PAGE /\
  (let '(b', h, rc) := pinPage no_handle 1 b_hit in
   rc = RC_OK /\ h = mkHandle 1 (FrameData 0) /\
   getFrameContents b' = getFrameContents b_hit /\
   getFixCounts b' = <[0 := (fixCount (frame_at b_hit 0) + 1)%Z]> (getFixCounts b_hit) /\
   getDirtyFlags b' = getDirtyFlags b_hit /\
   fh b' = fh b_hit /\ numRead b' = numRead b_hit /\ numWrite b' = numWrite b_hit).
Proof.
  assert (Hb : WF b_hit) by (apply (bool_decide_unpack _); vm_compute; exact I).
  assert (Hi : 0 < nframes b_hit) by (vm_compute; lia).
  assert (Hp : pageNum (frame_at b_hit 0) = 1%Z) by (vm_compute; reflexivity).
  assert (Hn : 1%Z <> NO_PAGE) by (unfold NO_PAGE; lia).
  exact (conj Hb (conj Hi (conj Hp (conj Hn (pinPage_hit b_hit no_handle 1 0 Hb Hi Hp Hn))))).
Defined.

(** ** Write-back *)

Definition h1 : BM_PageHandle := mkHandle 1 (FrameData 0).

(** Specification 8.2, with one frame: page 1 pinned, overwritten through
    its handle, marked dirty and unpinned; page 2 evicts it; page 1 pinned
    again shows the bytes written, read back from the page file. *)
Example write_back_scenario :
  let r := session RS_FIFO 1 [ReqPin 1; ReqWrite h1 client_bytes; ReqMarkDirty h1; unpin 1;
                              ReqPin 2; unpin 2; ReqPin 1] in
  handle_of r = h1 /\ data (frame_at (pool_of r) 0) = client_bytes /\
  blocks (fh (pool_of r)) !! 1 = Some client_bytes.
Proof. vm_compute. auto. Qed.

(** The victim's dirty flag survives its eviction: page 2, just read from
    the file, is reported dirty, and the next flush writes it back
    although it was never modified. *)
Example evicted_frame_dirty_scenario :
  let r := session RS_FIFO 1 [ReqPin 1; ReqMarkDirty h1; unpin 1; ReqPin 2] in
  let r' := exec_all [unpin 2; ReqFlush] (handle_of r) (pool_of r) in
  contents r = [2]%Z /\ getDirtyFlags (pool_of r) = [true] /\ numWrite (pool_of r) = 1%Z /\
  numWrite (pool_of r') = 2%Z.
Proof. vm_compute. auto. Qed.

(** [shutdownBufferPool] flushes only unpinned frames: the bytes written to
    page 1, still pinned and dirty, never reach the page file. *)
Example shutdown_loses_pinned_dirty :
  let b := pool_of (session RS_FIFO 2 [ReqPin 1; ReqWrite h1 client_bytes; ReqMarkDirty h1]) in
  getDirtyFlags b = [true; false] /\ snd (shutdownBufferPool b) = RC_OK /\
  blocks (fst (shutdownBufferPool b)) !! 1 = Some (repeat (byte_of 1) PAGE_SIZE).
Proof. vm_compute. auto. Qed.

(** ** Pinning when every frame is pinned *)

Lemma victims_all_pinned b :
  WF b -> (forall i, i < nframes b -> fixCount (frame_at b i) <> 0%Z) ->
  fifo_victim b = (head b, false) /\ lru_victim b = (tail b, false) /\
  clock_victim b = (head b, false).
Proof.
  intros (_ & _ & Hh & Ht & _) HP. unfold fifo_victim, lru_victim, clock_victim.
  split_and!; apply scan_none; try done;
    intros i Hi; unfold unpinned; apply bool_decide_eq_false; by apply HP.
Qed.

(** The state after [load_page] reads block [d] into frame [j]: the frame
    table is unchanged but for the data of frame [j]. *)
Lemma load_stats b f' j d :
  WF b -> j < nframes b ->
  let b' := bump_read (upd_frames (alter (set_data d) j) (with_fh f' b)) in
  getFrameContents b' = getFrameContents b /\ getFixCounts b' = getFixCounts b /\
  pageNum (frame_at b' j) = pageNum (frame_at b j) /\ data (frame_at b' j) = d.
Proof.
  intros Hb Hj b'.
  destruct (stats_alter b (set_data d) j Hb Hj) as (Hc & Hx & _).
  destruct (stats_lookup b j Hb Hj) as (Lc & Lx & _). cbn [set_data fixCount pageNum] in Hc, Hx.
  unfold b', frame_at; cbn. rewrite list_lookup_total_alter, decide_True by done.
  split_and!; [|by rewrite (list_insert_id _ _ _ Lx) in Hx|done|done].
  change (getFrameContents (upd_frames (alter (set_data d) j) b) = getFrameContents b).
  by rewrite Hc, (list_insert_id _ _ _ Lc).
Qed.

(** C5. Pinning a page when every frame is pinned (the pool is full and no
    frame holds the page), whatever the strategy: [pinPage] returns
    [RC_OK] instead of an error, the frame table is unchanged, and the
    handle names the requested page but points to the frame of another,
    pinned page, whose buffer now holds the requested block. *)
Theorem pinPage_all_pinned b page p :
  WF b -> occupiedCount b = numPages b -> (0 <= p)%Z -> ~ In p (map pageNum (frames b)) ->
  (forall i, i < nframes b -> fixCount (frame_at b i) <> 0%Z) ->
  let '(b', h, rc) := pinPage page p b in
  rc = RC_OK /\ getFrameContents b' = getFrameContents b /\ getFixCounts b' = getFixCounts b /\
  exists j, j < nframes b /\ h = mkHandle p (FrameData j) /\
    pageNum (frame_at b' j) = pageNum (frame_at b j) /\ pageNum (frame_at b j) <> p /\
    fixCount (frame_at b j) <> 0%Z /\ blocks (fh b') !! Z.to_nat p = Some (data (frame_at b' j)).
Proof.
  intros Hb Hocc Hp Hnin Hpin. pose proof Hb as (_ & _ & Hh & Ht & _).
  destruct (victims_all_pinned b Hb Hpin) as (Hf & Hl & Hc).
  destruct (readBlock_ensure p (fh b) Hp) as (d & Hr & Hd).
  assert (Hother : forall j, j < nframes b -> pageNum (frame_at b j) <> p)
    by (intros j Hj E; apply Hnin; rewrite <- E; by apply In_map_frame_at).
  unfold pinPage, run_pin, strategy_pin.
  destruct (strategy b); [unfold pinPageFIFO|unfold pinPageLRU|unfold pinPageCLOCK]; bm_run;
    rewrite (find_page_absent b p Hb Hnin); simpl; rewrite bool_decide_eq_false_2 by lia;
    rewrite ?Hf, ?Hl, ?Hc; simpl; rewrite Hr; simpl;
    match goal with
    | |- context [upd_frames (alter (set_data d) ?j) (with_fh ?f' ?b0)] =>
        destruct (load_stats b0 f' j d) as (Sc & Sx & Sp & Sd); [by apply WF_with_fh|done|];
        split_and!; [done|exact Sc|exact Sx|]; exists j; split_and!;
        [done|done|exact Sp|by apply Hother|by apply Hpin|by rewrite Sd]
    end.
Qed.

(** C27. Pinning a negative page number (other than the empty-frame mark
    [NO_PAGE]) while the pool is not full, whatever the strategy: the
    frame at [head] is given the page number and pinned and the occupied
    count grows, then [readBlock] fails; the error is dropped, [pinPage]
    returns [RC_OK] without touching the caller's handle, and the frame
    keeps advertising the page with the bytes it held before. *)
Theorem pinPage_negative_fill b page p :
  WF b -> (occupiedCount b < numPages b)%Z -> (p < 0)%Z -> p <> NO_PAGE ->
  ~ In p (map pageNum (frames b)) ->
  let '(b', h, rc) := pinPage page p b in
  rc = RC_OK /\ h = page /\ pageNum (frame_at b' (head b)) = p /\
  fixCount (frame_at b' (head b)) = (fixCount (frame_at b (head b)) + 1)%Z /\
  data (frame_at b' (head b)) = data (frame_at b (head b)) /\
  occupiedCount b' = (occupiedCount b + 1)%Z /\ numRead b' = numRead b.
Proof.
  intros Hb Hocc Hp Hne Hnin. pose proof Hb as (_ & _ & Hh & _).
  unfold pinPage, run_pin, strategy_pin.
  destruct (strategy b); [unfold pinPageFIFO|unfold pinPageLRU|unfold pinPageCLOCK]; bm_run;
    rewrite (find_page_absent b p Hb Hnin); simpl; rewrite bool_decide_eq_true_2 by lia;
    destruct (negb _); simpl; rewrite readBlock_fail by lia; simpl;
    frame_simpl; cbn; split_and!; done || lia.
Qed.

Lemma pinPage_negative_fill_witness :
  let b := initBufferPool (marked_file 8) 3 RS_LRU in
  let '(b', h, rc) := pinPage no_handle (-5) b in
  rc = RC_OK /\ h = no_handle /\ pageNum (frame_at b' (head b)) = (-5)%Z /\
  fixCount (frame_at b' (head b)) = (fixCount (frame_at b (head b)) + 1)%Z /\
  data (frame_at b' (head b)) = data (frame_at b (head b)) /\
  occupiedCount b' = (occupiedCount b + 1)%Z /\ numRead b' = numRead b.
Proof.
  apply pinPage_negative_fill.
  - apply WF_init. lia.
  - vm_compute. reflexivity.
  - lia.
  - unfold NO_PAGE. lia.
  - vm_compute. intuition congruence.
Defined.

(** Two frames, both pinned, holding pages 1 and 2. *)
Definition b_full : BM := pool_of (session RS_FIFO 2 [ReqPin 1; ReqPin 2]).

Lemma pinPage_all_pinned_witness :
  let '(b', h, rc) := pinPage no_handle 3 b_full in
  rc = RC_OK /\ getFrameContents b' = getFrameContents b_full /\ getFixCounts b' = getFixCounts b_full /\
  exists j, j < nframes b_full /\ h = mkHandle 3 (FrameData j) /\
    pageNum (frame_at b' j) = pageNum (frame_at b_full j) /\ pageNum (frame_at b_full j) <> 3%Z /\
    fixCount (frame_at b_full j) <> 0%Z /\ blocks (fh b') !! Z.to_nat 3 = Some (data (frame_at b' j)).
Proof.
  apply pinPage_all_pinned.
  - apply (bool_decide_unpack _). vm_compute. exact I.
  - vm_compute. reflexivity.
  - lia.
  - vm_compute. intuition congruence.
  - intros i Hi. vm_compute in Hi. destruct i as [|[|i]]; vm_compute; [congruence|congruence|lia].
Defined.
