(* ===== verification/OneFrame.v ===== *)
(** * The one-frame pool

    A pool of one frame ([numPages = 1]) under any of the three strategies:
    the effect of every client request on it, as equations on the generic
    frame, and the write-back round trip of specification 8.2 for every
    strategy, page file, pair of pages and bytes written. *)

From S2P Require Import Prelude Storage Pool Access Fifo Lru Clock Pin.

(** The pool of one frame [fr]; both cursors are on it. *)
Definition one (s : ReplacementStrategy) (occ : Z) (fr : PageFrame) (r w : Z)
  (f : SM_FileHandle) : BM :=
  {| numPages := 1; strategy := s; occupiedCount := occ; frames := [fr];
     head := 0; tail := 0; numRead := r; numWrite := w; fh := f |}.

(** The page file after [ensureCapacity(q+1)] and the read of block [q]. *)
Definition loaded (f : SM_FileHandle) (q : Z) : SM_FileHandle :=
  {| blocks := blocks (ensureCapacity (q + 1) f); nReads := S (nReads f); nWrites := nWrites f |}.

(** The page file after the write-back of frame [fr]. *)
Definition written (f : SM_FileHandle) (fr : PageFrame) : SM_FileHandle :=
  {| blocks := <[Z.to_nat (pageNum fr) := data fr]> (blocks (ensureCapacity (pageNum fr) f));
     nReads := nReads f; nWrites := S (nWrites f) |}.

Lemma init_one f s : initBufferPool f 1 s = one s 0 newFrame 0 0 f.
Proof. reflexivity. Qed.

#[local] Arguments ensureCapacity : simpl never.
#[local] Arguments readBlock : simpl never.
#[local] Arguments writeBlock : simpl never.

(** Symbolic execution of a request on [one]. *)
Ltac one_run :=
  unfold exec, pinPage, run_pin, strategy_pin, call, run_rc, markDirty, unpinPage,
    write_through, pinPageFIFO, pinPageLRU, pinPageCLOCK, find_page, holds, fifo_victim,
    lru_victim, clock_victim, unpinned, sweepM, one; bm_run; cbn.

(** The decisions of a request on [one], from the hypotheses on its frame
    and the equations of the block reads and writes. *)
Ltac one_decide :=
  repeat first
    [ rewrite bool_decide_eq_true_2 by (cbn; lia)
    | rewrite bool_decide_eq_false_2 by (cbn; lia)
    | match goal with H : writeBlock _ _ _ = _ |- _ => rewrite H end
    | match goal with H : readBlock _ _ = _ |- _ => rewrite H end
    | progress cbn ].

Section Requests.
Context (s : ReplacementStrategy) (occ r w : Z) (fr : PageFrame) (f : SM_FileHandle)
  (page : BM_PageHandle).

Lemma exec_write q d :
  exec (ReqWrite (mkHandle q (FrameData 0)) d) page (one s occ fr r w f) =
  (one s occ (set_data d fr) r w f, page, RC_OK).
Proof. done. Qed.

Lemma exec_markDirty q x :
  pageNum fr = q ->
  exec (ReqMarkDirty (mkHandle q x)) page (one s occ fr r w f) =
  (one s occ (set_dirty 1 fr) r w f, page, RC_OK).
Proof. intros Hq. one_run. by rewrite bool_decide_eq_true_2 by done. Qed.

Lemma exec_unpin q x :
  pageNum fr = q ->
  exec (ReqUnpin (mkHandle q x)) page (one s occ fr r w f) =
  (one s occ (fix_decr fr) r w f, page, RC_OK).
Proof. intros Hq. one_run. by rewrite bool_decide_eq_true_2 by done. Qed.

Lemma exec_pin_fill q :
  (0 <= q)%Z -> pageNum fr <> q ->
  exists fr' d', blocks (ensureCapacity (q + 1) f) !! Z.to_nat q = Some d' /\
    exec (ReqPin q) page (one s 0 fr r w f) =
      (one s 1 fr' (r + 1) w (loaded f q), mkHandle q (FrameData 0), RC_OK) /\
    pageNum fr' = q /\ fixCount fr' = (fixCount fr + 1)%Z /\ dirtyFlag fr' = dirtyFlag fr /\
    data fr' = d'.
Proof.
  intros Hq Hne. destruct (readBlock_ensure q f Hq) as (d' & Hr & Hd).
  destruct s; one_run; one_decide.
  all: eexists _, d'; split; [exact Hd|]; split; [reflexivity|]; cbn; split_and!; done || lia.
Qed.

Lemma exec_pin_evict q :
  (0 <= q)%Z -> pageNum fr <> q -> fixCount fr = 0%Z -> dirtyFlag fr = 1%Z ->
  (0 <= pageNum fr < totalNumPages f)%Z ->
  exists fr' d', blocks (ensureCapacity (q + 1) (written f fr)) !! Z.to_nat q = Some d' /\
    exec (ReqPin q) page (one s 1 fr r w f) =
      (one s 1 fr' (r + 1) (w + 1) (loaded (written f fr) q), mkHandle q (FrameData 0), RC_OK) /\
    pageNum fr' = q /\ fixCount fr' = 1%Z /\ dirtyFlag fr' = 1%Z /\ data fr' = d'.
Proof.
  intros Hq Hne Hfix Hdirty Hrange.
  destruct (readBlock_ensure q (written f fr) Hq) as (d' & Hr & Hd).
  assert (Hw : writeBlock (pageNum fr) (data fr) (ensureCapacity (pageNum fr) f) =
               Some (written f fr)).
  { apply writeBlock_Some. unfold totalNumPages in *. rewrite ensureCapacity_length. lia. }
  destruct (decide (refBit fr = 0%Z)); destruct s; one_run; one_decide.
  all: eexists _, d'; split; [exact Hd|]; split; [reflexivity|]; cbn; split_and!; done || lia.
Qed.

Lemma exec_flush :
  dirtyFlag fr = 1%Z -> fixCount fr = 0%Z -> (0 <= pageNum fr < totalNumPages f)%Z ->
  exists f', writeBlock (pageNum fr) (data fr) f = Some f' /\
    exec ReqFlush page (one s occ fr r w f) = (one s occ (set_dirty 0 fr) r (w + 1) f', page, RC_OK).
Proof.
  intros Hd Hf Hr. pose proof (writeBlock_Some (pageNum fr) (data fr) f Hr) as Hw.
  eexists; split; [exact Hw|].
  one_run. unfold forceFlushPool, flush_loop, flush_frame, flushable. bm_run. one_decide.
  reflexivity.
Qed.
End Requests.

Lemma written_lookup_other f fr i :
  i <> Z.to_nat (pageNum fr) -> blocks (written f fr) !! i = blocks (ensureCapacity (pageNum fr) f) !! i.
Proof. intros Hi. cbn [written blocks]. by rewrite list_lookup_insert_ne. Qed.

Lemma written_lookup_self f fr :
  (0 <= pageNum fr < totalNumPages f)%Z ->
  blocks (written f fr) !! Z.to_nat (pageNum fr) = Some (data fr).
Proof.
  intros Hr. cbn [written blocks]. apply list_lookup_insert_eq.
  unfold totalNumPages in Hr. rewrite ensureCapacity_length. lia.
Qed.

Lemma loaded_total f q : (0 <= q)%Z -> (q < totalNumPages (loaded f q))%Z.
Proof. intros Hq. unfold totalNumPages, loaded; cbn [blocks]. rewrite ensureCapacity_length. lia. Qed.

Lemma written_total f fr : totalNumPages (written f fr) = totalNumPages (ensureCapacity (pageNum fr) f).
Proof. unfold totalNumPages, written; cbn [blocks]. by rewrite length_insert. Qed.

(** C8. Write-back round trip (specification 8.2), for every strategy,
    page file, pair of distinct pages [q], [p] and bytes [d]: on a pool of
    one frame, page [q] pinned, overwritten with [d] through its handle,
    marked dirty and unpinned, then page [p] pinned (evicting [q]) and
    unpinned, then page [q] pinned again: the handle is on the frame, the
    frame holds [d], and block [q] of the page file holds [d]. *)
Theorem write_back_roundtrip s f q p d :
  (0 <= q)%Z -> (0 <= p)%Z -> q <> p ->
  let h := mkHandle q (FrameData 0) in
  let res := exec_all [ReqPin q; ReqWrite h d; ReqMarkDirty h; unpin q; ReqPin p; unpin p; ReqPin q]
               no_handle (initBufferPool f 1 s) in
  handle_of res = h /\ data (frame_at (pool_of res) 0) = d /\
  blocks (fh (pool_of res)) !! Z.to_nat q = Some d.
Proof.
  intros Hq Hp Hne h res. unfold res, h. rewrite init_one.
  destruct (exec_pin_fill s 0 0 newFrame f no_handle q) as (fr1 & d1 & _ & E1 & P1 & F1 & D1 & _);
    [done|cbn; unfold NO_PAGE; lia|].
  cbn [exec_all]. rewrite E1. cbn [exec_all]. rewrite exec_write. cbn [exec_all].
  rewrite exec_markDirty by exact P1. cbn [exec_all]. unfold unpin.
  rewrite exec_unpin by exact P1. cbn [exec_all].
  set (fr2 := fix_decr (set_dirty 1 (set_data d fr1))).
  assert (P2 : pageNum fr2 = q) by exact P1.
  destruct (exec_pin_evict s (0 + 1) 0 fr2 (loaded f q) (mkHandle q (FrameData 0)) p)
    as (fr3 & d3 & _ & E3 & P3 & F3 & D3 & _);
    [done|congruence|cbn; rewrite F1; cbn; lia|done|rewrite P2; split; [done|by apply loaded_total]|].
  rewrite E3. cbn [exec_all]. rewrite exec_unpin by exact P3. cbn [exec_all].
  set (fr4 := fix_decr fr3). assert (P4 : pageNum fr4 = p) by exact P3.
  set (f2 := written (loaded f q) fr2).
  destruct (exec_pin_evict s (0 + 1 + 1) (0 + 1) fr4 (loaded f2 p) (mkHandle p (FrameData 0)) q)
    as (fr5 & d5 & Hd5 & E5 & P5 & _ & _ & D5);
    [done|congruence|cbn; rewrite F3; lia|exact D3|rewrite P4; split; [done|by apply loaded_total]|].
  rewrite E5.
  assert (KB : blocks (ensureCapacity (q + 1) (written (loaded f2 p) fr4)) !! Z.to_nat q = Some d).
  { apply ensureCapacity_Some. rewrite written_lookup_other by (rewrite P4; lia).
    apply ensureCapacity_Some. cbn [loaded blocks]. apply ensureCapacity_Some.
    replace (Z.to_nat q) with (Z.to_nat (pageNum fr2)) by (by rewrite P2).
    unfold f2. rewrite written_lookup_self; [done|]. rewrite P2. split; [done|by apply loaded_total]. }
  rewrite KB in Hd5. injection Hd5 as <-.
  split_and!; [done|exact D5|exact KB].
Qed.

(** C31. The victim's dirty flag survives its eviction, for every strategy:
    when a one-frame pool evicts a dirty unpinned page to load page [p],
    the frame holds exactly the bytes of block [p] of the page file, yet
    [getDirtyFlags] reports it dirty; after the write-back of the victim,
    unpinning [p] and flushing the pool writes block [p] again although it
    was never modified. *)
Theorem evicted_frame_stays_dirty s r w fr f p :
  (0 <= p)%Z -> pageNum fr <> p -> fixCount fr = 0%Z -> dirtyFlag fr = 1%Z ->
  (0 <= pageNum fr < totalNumPages f)%Z ->
  let r1 := exec (ReqPin p) no_handle (one s 1 fr r w f) in
  let r2 := exec_all [unpin p; ReqFlush] (handle_of r1) (pool_of r1) in
  getFrameContents (pool_of r1) = [p] /\ getDirtyFlags (pool_of r1) = [true] /\
  blocks (fh (pool_of r1)) !! Z.to_nat p = Some (data (frame_at (pool_of r1) 0)) /\
  numWrite (pool_of r1) = (w + 1)%Z /\ numWrite (pool_of r2) = (w + 2)%Z.
Proof.
  intros Hp Hne Hfix Hd Hr r1 r2. unfold r2, r1.
  destruct (exec_pin_evict s r w fr f no_handle p Hp Hne Hfix Hd Hr)
    as (fr' & d' & Hb & E & P & F & D & Dd).
  rewrite E. cbn [handle_of pool_of exec_all fst snd]. unfold unpin.
  rewrite exec_unpin by exact P. cbn [exec_all].
  destruct (exec_flush s 1 (r + 1) (w + 1) (fix_decr fr') (loaded (written f fr) p)
              (mkHandle p (FrameData 0))) as (f' & _ & E2);
    [exact D|cbn; lia|cbn; rewrite P; split; [done|by apply loaded_total]|].
  rewrite E2. unfold getFrameContents, getDirtyFlags, stat_walk, one.
  unfold frame_at. simpl. rewrite P, D, Dd.
  split_and!; [done|done|exact Hb|lia|lia].
Qed.

(** ** Witnesses *)

Lemma write_back_roundtrip_witness :
  (0 <= 1)%Z /\ (0 <= 2)%Z /\ 1%Z <> 2%Z /\
  let h := mkHandle 1 (FrameData 0) in
  let res := exec_all [ReqPin 1; ReqWrite h client_bytes; ReqMarkDirty h; unpin 1;
                       ReqPin 2; unpin 2; ReqPin 1]
               no_handle (initBufferPool (marked_file 8) 1 RS_CLOCK) in
  handle_of res = h /\ data (frame_at (pool_of res) 0) = client_bytes /\
  blocks (fh (pool_of res)) !! Z.to_nat 1 = Some client_bytes.
Proof.
  assert (H1 : (0 <= 1)%Z) by lia. assert (H2 : (0 <= 2)%Z) by lia. assert (H3 : 1%Z <> 2%Z) by lia.
  exact (conj H1 (conj H2 (conj H3
    (write_back_roundtrip RS_CLOCK (marked_file 8) 1 2 client_bytes H1 H2 H3)))).
Defined.

Lemma evicted_frame_stays_dirty_witness :
  (0 <= 2)%Z /\ pageNum (set_dirty 1 (set_pageNum 1 newFrame)) <> 2%Z /\
  fixCount (set_dirty 1 (set_pageNum 1 newFrame)) = 0%Z /\
  dirtyFlag (set_dirty 1 (set_pageNum 1 newFrame)) = 1%Z /\
  (0 <= pageNum (set_dirty 1 (set_pageNum 1 newFrame)) < totalNumPages (marked_file 8))%Z /\
  let r1 := exec (ReqPin 2) no_handle (one RS_LRU 1 (set_dirty 1 (set_pageNum 1 newFrame)) 1 0 (marked_file 8)) in
  let r2 := exec_all [unpin 2; ReqFlush] (handle_of r1) (pool_of r1) in
  getFrameContents (pool_of r1) = [2%Z] /\ getDirtyFlags (pool_of r1) = [true] /\
  blocks (fh (pool_of r1)) !! Z.to_nat 2 = Some (data (frame_at (pool_of r1) 0)) /\
  numWrite (pool_of r1) = (0 + 1)%Z /\ numWrite (pool_of r2) = (0 + 2)%Z.
Proof.
  assert (H1 : (0 <= 2)%Z) by lia.
  assert (H2 : pageNum (set_dirty 1 (set_pageNum 1 newFrame)) <> 2%Z) by (cbn; lia).
  assert (H3 : fixCount (set_dirty 1 (set_pageNum 1 newFrame)) = 0%Z) by reflexivity.
  assert (H4 : dirtyFlag (set_dirty 1 (set_pageNum 1 newFrame)) = 1%Z) by reflexivity.
  assert (H5 : (0 <= pageNum (set_dirty 1 (set_pageNum 1 newFrame)) < totalNumPages (marked_file 8))%Z)
    by (vm_compute; split; congruence).
  exact (conj H1 (conj H2 (conj H3 (conj H4 (conj H5
    (evicted_frame_stays_dirty RS_LRU 1 0 _ (marked_file 8) 2 H1 H2 H3 H4 H5)))))).
Defined.
