(* ===== verification/FifoSpec.v ===== *)
(** * FIFO replacement refines a FIFO cache

    The replacement policy [pinPageFIFO] promises (specification 4.2) to
    evict the page loaded earliest.  The abstract cache is the queue of
    resident pages, oldest first ([fifo_access]): a hit changes nothing, a
    miss appends the page, first evicting the oldest one when the cache is
    full.  When the client unpins every page it pins before the next
    request ([access]), the pool of [buffer_mgr.c] holds exactly the pages
    of the abstract cache ([fifo_refines]).  The relation [fifo_rel] reads
    the queue on the ring of frames from [tail]: while the pool fills,
    [tail] is frame [0] and the queue is the filled frames in order; once
    it is full, the lap of the ring from [tail] is the queue. *)

From S2P Require Import Prelude Storage Pool Access Fifo Lru Clock Pin.

(** ** The abstract FIFO cache *)

Definition fifo_access (n : nat) (q : list Z) (p : Z) : list Z :=
  if bool_decide (p ∈ q) then q
  else if bool_decide (length q < n) then q ++ [p] else List.tl q ++ [p].

(** One access: the new queue, and the miss counter incremented on a miss. *)
Definition fifo_spec_step (n : nat) (st : list Z * nat) (p : Z) : list Z * nat :=
  (fifo_access n st.1 p, if bool_decide (p ∈ st.1) then st.2 else S st.2).

Definition fifo_cache (n : nat) (ps : list Z) : list Z := (fold_left (fifo_spec_step n) ps ([], 0)).1.
Definition fifo_misses (n : nat) (ps : list Z) : nat := (fold_left (fifo_spec_step n) ps ([], 0)).2.

(** A client's access to a page: pin it, then unpin it. *)
Definition access (p : Z) : list Request := [ReqPin p; unpin p].

(** ** The relation *)

Definition pnum (b : BM) (i : nat) : Z := pageNum (frame_at b i).

(** The pages on a lap of the ring from [tail]. *)
Definition ring_pages (b : BM) : list Z :=
  map (pnum b) (cyc_from (nframes b) (tail b) (nframes b)).

Definition fifo_rel (n : nat) (b : BM) (q : list Z) : Prop :=
  WF b /\ nframes b = n /\ strategy b = RS_FIFO /\
  (forall i, i < n -> fixCount (frame_at b i) = 0%Z /\ dirtyFlag (frame_at b i) = 0%Z) /\
  occupiedCount b = Z.of_nat (length q) /\ Forall (fun p => 0 <= p)%Z q /\
  (if bool_decide (length q < n)
   then tail b = 0 /\ head b = length q /\
        forall i, i < n -> pnum b i = (q ++ replicate (n - length q) NO_PAGE) !!! i
   else ring_pages b = q).

(** ** Lemmas *)

Lemma access_state b page p :
  strategy b = RS_FIFO ->
  pool_of (exec_all (access p) page b) =
  fst (unpinPage (mkHandle p NoData) (fst (pinPageFIFO p b))).
Proof.
  intros Hs. unfold access, pool_of. cbn [exec_all].
  pose proof (pinPage_fst page p b) as E. rewrite Hs in E. cbn [exec] in *.
  destruct (pinPage page p b) as [[b1 page1] rc]. cbn in E |- *. subst b1.
  destruct (call _ _ _) as [[b2 page2] rc2] eqn:Ec. cbn.
  pose proof (call_fst (unpinPage (mkHandle p NoData)) page1 (fst (pinPageFIFO p b))) as Ef.
  rewrite Ec in Ef. exact Ef.
Qed.

(** A lap of the ring visits every frame. *)
Lemma in_cyc_full n k j : k < n -> In j (cyc_from n k n) <-> j < n.
Proof.
  intros Hk. rewrite <- (window_full n k j Hk). unfold window. by rewrite Nat.eqb_refl.
Qed.

Lemma in_ring_pages b x :
  tail b < nframes b -> In x (ring_pages b) <-> exists i, i < nframes b /\ pnum b i = x.
Proof.
  intros Ht. unfold ring_pages. rewrite in_map_iff.
  split; intros (i & H1 & H2); exists i.
  - by rewrite <- in_cyc_full.
  - by rewrite in_cyc_full.
Qed.

Lemma in_frames b x :
  In x (map pageNum (frames b)) <-> exists i, i < nframes b /\ pnum b i = x.
Proof.
  split; [apply In_map_pageNum|]. intros (i & Hi & <-). by apply In_map_frame_at.
Qed.

(** The pool holds exactly the pages of the queue. *)
Lemma fifo_rel_resident n b q x :
  fifo_rel n b q -> (0 <= x)%Z -> In x (map pageNum (frames b)) <-> x ∈ q.
Proof.
  intros (Hb & Hn & _ & _ & _ & _ & Hq) Hx. rewrite in_frames, list_elem_of_In.
  case_bool_decide as Hl.
  - destruct Hq as (_ & _ & Hp). split.
    + intros (i & Hi & Hpi). rewrite Hp in Hpi by lia.
      destruct (decide (i < length q)).
      * rewrite lookup_total_app_l in Hpi by done. subst x.
        apply list_elem_of_In, list_elem_of_lookup_total_2. done.
      * rewrite lookup_total_app_r, lookup_total_replicate_2 in Hpi by lia. unfold NO_PAGE in Hpi. lia.
    + intros Hin. apply list_elem_of_In, list_elem_of_lookup_total in Hin as (i & Hi & <-).
      exists i. split; [lia|]. rewrite Hp by lia. by rewrite lookup_total_app_l.
  - pose proof Hb as (_ & _ & _ & Ht & _). rewrite <- Hq. by rewrite in_ring_pages.
Qed.

Lemma ring_pages_ext b b' :
  nframes b' = nframes b -> tail b' = tail b -> tail b < nframes b ->
  (forall i, i < nframes b -> pnum b' i = pnum b i) -> ring_pages b' = ring_pages b.
Proof.
  intros Hn Ht Htl Hp. unfold ring_pages. rewrite Hn, Ht.
  apply map_ext_in. intros i Hi. apply Hp. by rewrite <- in_cyc_full.
Qed.

Lemma map_seq_total {A} `{Inhabited A} (f : nat -> A) l :
  (forall i, i < length l -> f i = l !!! i) -> map f (seq 0 (length l)) = l.
Proof.
  intros Hf. apply list_eq. intros i. rewrite list_lookup_fmap.
  destruct (decide (i < length l)) as [Hi|Hi].
  - rewrite lookup_seq_lt by done. simpl. rewrite Hf by done.
    symmetry. by apply list_lookup_lookup_total_lt.
  - rewrite lookup_seq_ge by lia. symmetry. apply lookup_ge_None. lia.
Qed.

Lemma fst_unpinPage h b : fst (unpinPage h b) = fst (run_rc (unpinPage h) b).
Proof. unfold run_rc. by destruct (unpinPage h b) as [? []]. Qed.

(** The unpin after a pin of frame [i]. *)
Lemma unpin_after b p i :
  WF b -> i < nframes b -> pnum b i = p -> (0 <= p)%Z ->
  fst (unpinPage (mkHandle p NoData) b) = upd_frames (alter fix_decr i) b.
Proof.
  intros Hb Hi Hp Hp0. rewrite fst_unpinPage.
  destruct (unpinPage_decrements b (mkHandle p NoData) i Hb Hi Hp) as [-> _]; [|done].
  unfold NO_PAGE. simpl. lia.
Qed.

Lemma fifo_step_hit n b q p :
  fifo_rel n b q -> (0 <= p)%Z -> p ∈ q ->
  let b2 := fst (unpinPage (mkHandle p NoData) (fst (pinPageFIFO p b))) in
  fifo_rel n b2 q /\ numRead b2 = numRead b /\ numWrite b2 = numWrite b.
Proof.
  intros Hr Hp Hin. cbv zeta. pose proof Hr as (Hb & Hn & Hs & Hfd & Ho & Hf & Hq).
  apply (fifo_rel_resident n b q p Hr Hp), in_frames in Hin as (i & Hi & Hpi).
  assert (Hfp : find_page b p = (i, true))
    by (apply find_page_resident; [done|done|done|unfold NO_PAGE; lia]).
  pose proof (pinPageFIFO_WF p b Hb) as Hb1.
  rewrite (pinPageFIFO_hit_state b p i Hfp) in Hb1 |- *. simpl in Hb1 |- *.
  set (b1 := upd_frames _ _) in Hb1 |- *.
  assert (Hf1 : forall j, frame_at b1 j = if decide (j = i) then fix_incr (frame_at b i) else frame_at b j).
  { intros j. unfold b1. destruct (decide (j = i)) as [->|Hj]; frame_simpl; [|done].
    unfold pnum in Hpi. rewrite <- Hpi. by destruct (frame_at b i). }
  assert (Hn1 : nframes b1 = nframes b) by (unfold b1; by rewrite !nframes_upd_frames).
  rewrite (unpin_after b1 p i Hb1) by (unfold pnum; rewrite ?Hf1, ?decide_True; done || lia).
  pose proof (unpinPage_WF (mkHandle p NoData) b1 Hb1) as Hb2.
  rewrite (unpin_after b1 p i Hb1) in Hb2 by (unfold pnum; rewrite ?Hf1, ?decide_True; done || lia).
  set (b2 := upd_frames _ b1) in Hb2 |- *.
  assert (Hf2 : forall j, j < nframes b -> pnum b2 j = pnum b j /\
                  fixCount (frame_at b2 j) = fixCount (frame_at b j) /\
                  dirtyFlag (frame_at b2 j) = dirtyFlag (frame_at b j)).
  { intros j Hj. unfold b2, pnum. destruct (decide (j = i)) as [->|Hji].
    - rewrite frame_at_upd_same by lia. rewrite Hf1, decide_True by done. cbn. split_and!; [done|lia|done].
    - rewrite frame_at_upd_other, Hf1, decide_False by done. done. }
  assert (Hn2 : nframes b2 = nframes b) by (unfold b2; by rewrite nframes_upd_frames).
  split; [|split; reflexivity].
  split_and!; [done|lia|done| |done|done|].
  - intros j Hj. destruct (Hf2 j ltac:(lia)) as (_ & -> & ->). by apply Hfd.
  - case_bool_decide; [destruct Hq as (Ht & Hh & Hpq); split_and!; [done|done|]|].
    + intros j Hj. destruct (Hf2 j ltac:(lia)) as (-> & _). by apply Hpq.
    + rewrite <- Hq. apply ring_pages_ext; [done|done| |intros j Hj; apply Hf2, Hj].
      by pose proof Hb as (_ & _ & _ & ? & _).
Qed.

(** The state after the pin of [p] into frame [j] and its unpin: frame [j]
    holds [p] with the fix count and dirty flag it had. *)
Lemma pin_unpin_frame b b1 p j d :
  WF b1 -> j < nframes b1 -> (0 <= p)%Z ->
  frame_at b1 j = set_data d (fix_incr (set_pageNum p (frame_at b j))) ->
  let b2 := fst (unpinPage (mkHandle p NoData) b1) in
  WF b2 /\ nframes b2 = nframes b1 /\ strategy b2 = strategy b1 /\
  occupiedCount b2 = occupiedCount b1 /\ head b2 = head b1 /\ tail b2 = tail b1 /\
  pnum b2 j = p /\ fixCount (frame_at b2 j) = fixCount (frame_at b j) /\
  dirtyFlag (frame_at b2 j) = dirtyFlag (frame_at b j) /\
  (forall i, i <> j -> frame_at b2 i = frame_at b1 i) /\
  numRead b2 = numRead b1 /\ numWrite b2 = numWrite b1.
Proof.
  intros Hb1 Hj Hp Hf b2.
  assert (Hpj : pnum b1 j = p) by (unfold pnum; by rewrite Hf).
  pose proof (unpinPage_WF (mkHandle p NoData) b1 Hb1) as Hb2.
  unfold b2. rewrite (unpin_after b1 p j Hb1 Hj Hpj Hp) in Hb2 |- *.
  unfold pnum. rewrite frame_at_upd_same, Hf by done. cbn.
  split_and!; try done; try lia; [by rewrite length_alter|].
  intros i Hi. by rewrite frame_at_upd_other.
Qed.

Lemma fifo_step_fill n b q p :
  fifo_rel n b q -> (0 <= p)%Z -> p ∉ q -> length q < n ->
  let b2 := fst (unpinPage (mkHandle p NoData) (fst (pinPageFIFO p b))) in
  fifo_rel n b2 (q ++ [p]) /\ numRead b2 = (numRead b + 1)%Z /\ numWrite b2 = numWrite b.
Proof.
  intros Hr Hp Hin Hl. cbv zeta. pose proof Hr as (Hb & Hn & Hs & Hfd & Ho & Hf & Hq).
  rewrite bool_decide_eq_true_2 in Hq by done. destruct Hq as (Ht & Hh & Hpq).
  assert (Hnin : ~ In p (map pageNum (frames b))) by (by rewrite (fifo_rel_resident n b q p Hr Hp)).
  pose proof Hb as (_ & Hnp & _).
  pose proof (pinPageFIFO_WF p b Hb) as Hb1.
  pose proof (pinPageFIFO_fill b p Hb ltac:(lia) Hp Hnin) as Hfill.
  destruct (pinPageFIFO p b) as [b1 r]. simpl in Hb1 |- *.
  destruct Hfill as (_ & (d & _ & Hfj) & Hoth & Hn1 & Ht1 & Hh1 & Ho1 & Hs1 & Hr1 & Hw1).
  rewrite Hh in Hfj, Hoth, Hh1.
  destruct (pin_unpin_frame b b1 p (length q) d Hb1 ltac:(lia) Hp Hfj)
    as (Hb2 & Hn2 & Hs2 & Ho2 & Hh2 & Ht2 & Hpj & Hfx & Hdx & Hoth2 & Hr2 & Hw2).
  set (b2 := fst _) in *.
  assert (Hpn : forall i, i < n -> pnum b2 i = ((q ++ [p]) ++ replicate (n - length (q ++ [p])) NO_PAGE) !!! i).
  { intros i Hi. rewrite length_app. simpl.
    destruct (decide (i = length q)) as [->|Hiq].
    - rewrite Hpj, <- app_assoc, lookup_total_app_r, Nat.sub_diag by lia. done.
    - unfold pnum. rewrite Hoth2, Hoth by done. fold (pnum b i). rewrite Hpq by lia.
      rewrite <- app_assoc. destruct (decide (i < length q)).
      + by rewrite !lookup_total_app_l.
      + rewrite !lookup_total_app_r by lia. simpl.
        replace (n - length q) with (S (n - (length q + 1))) by lia.
        destruct (i - length q) as [|k] eqn:E; [lia|]. simpl.
        rewrite !lookup_total_replicate_2 by lia. done. }
  split; [|split; lia].
  split_and!; [done|lia|congruence| | |by apply Forall_app; split; [|constructor]|].
  - intros i Hi. destruct (decide (i = length q)) as [->|Hiq].
    + rewrite Hfx, Hdx. by apply Hfd.
    + rewrite Hoth2, Hoth by done. by apply Hfd.
  - rewrite Ho2, Ho1, Ho, length_app. simpl. lia.
  - rewrite length_app. simpl. case_bool_decide.
    + split_and!; [congruence| |intros i Hi; rewrite Hpn by lia; rewrite length_app; done].
      rewrite Hh2, Hh1, Hn.
      unfold cnext. rewrite (proj2 (Nat.eqb_neq (S (length q)) n)) by lia.
      rewrite (proj2 (Nat.eqb_neq (S (length q)) (length q))) by lia. simpl. lia.
    + assert (E : length q + 1 = n) by lia.
      unfold ring_pages. rewrite Ht2, Ht1, Ht, Hn2, Hn1, Hn, cyc_from_seq by lia.
      rewrite <- E. replace (length q + 1) with (length (q ++ [p])) by (rewrite length_app; done).
      apply map_seq_total.
      intros i Hi. rewrite length_app in Hi. simpl in Hi. rewrite Hpn by lia.
      rewrite lookup_total_app_l by (rewrite length_app; simpl; lia). done.
Qed.

Lemma length_cyc_from n i k : length (cyc_from n i k) = k.
Proof. revert i. induction k; intros i; simpl; [done|by rewrite IHk]. Qed.

Lemma fifo_step_evict n b q p :
  fifo_rel n b q -> (0 <= p)%Z -> p ∉ q -> ~ length q < n ->
  let b2 := fst (unpinPage (mkHandle p NoData) (fst (pinPageFIFO p b))) in
  fifo_rel n b2 (List.tl q ++ [p]) /\ numRead b2 = (numRead b + 1)%Z /\ numWrite b2 = numWrite b.
Proof.
  intros Hr Hp Hin Hl. cbv zeta. pose proof Hr as (Hb & Hn & Hs & Hfd & Ho & Hf & Hq).
  rewrite bool_decide_eq_false_2 in Hq by done.
  assert (Hnin : ~ In p (map pageNum (frames b))) by (by rewrite (fifo_rel_resident n b q p Hr Hp)).
  pose proof Hb as (Hnp1 & Hnp & _ & Ht & _).
  set (t := tail b) in *.
  assert (Hlq : length q = n) by (rewrite <- Hq; unfold ring_pages; by rewrite length_map, length_cyc_from).
  assert (Hv : fifo_victim b = (t, true)).
  { unfold fifo_victim. destruct (nframes b) as [|n'] eqn:E; [lia|]. simpl.
    unfold unpinned. rewrite bool_decide_eq_true_2; [done|]. apply Hfd. lia. }
  pose proof (pinPageFIFO_WF p b Hb) as Hb1.
  pose proof (pinPageFIFO_evict_clean b p t Hb ltac:(lia) Hp Hnin Hv ltac:(apply Hfd; lia)) as Hev.
  destruct (pinPageFIFO p b) as [b1 r]. simpl in Hb1 |- *.
  destruct Hev as (_ & (d & _ & Hfj) & Hoth & Hn1 & Hh1 & Ht1 & Ho1 & Hs1 & Hr1 & Hw1).
  destruct (pin_unpin_frame b b1 p t d Hb1 ltac:(lia) Hp Hfj)
    as (Hb2 & Hn2 & Hs2 & Ho2 & Hh2 & Ht2 & Hpj & Hfx & Hdx & Hoth2 & Hr2 & Hw2).
  set (b2 := fst _) in *.
  destruct (cyc_rotate (nframes b) t ltac:(lia)) as (l & Hc & Hc').
  pose proof (cyc_full_NoDup (nframes b) t ltac:(lia)) as Hnd. rewrite Hc in Hnd.
  apply list_relations.list.NoDup_cons in Hnd as [Htl _].
  assert (Hq' : q = pnum b t :: map (pnum b) l) by (rewrite <- Hq; unfold ring_pages; fold t; by rewrite Hc).
  assert (Hlq' : length (List.tl q ++ [p]) = n) by (rewrite length_app; rewrite Hq' in Hlq |- *; simpl in *; lia).
  split; [|split; lia].
  split_and!; [done|lia|congruence| | | |].
  - intros i Hi. destruct (decide (i = t)) as [->|Hit].
    + rewrite Hfx, Hdx. apply Hfd. lia.
    + rewrite Hoth2, Hoth by done. by apply Hfd.
  - rewrite Ho2, Ho1, Ho, Hlq, Hlq'. done.
  - rewrite Hq' in Hf |- *. inversion Hf. simpl. apply Forall_app. split; [done|by constructor].
  - rewrite bool_decide_eq_false_2 by lia. unfold ring_pages.
    rewrite Ht2, Ht1, Hn2, Hn1. fold t. rewrite Hc', map_app, Hq'. simpl. f_equal; [|by rewrite Hpj].
    apply map_ext_in. intros i Hi. unfold pnum. rewrite Hoth2, Hoth; [done| |];
      intros ->; apply Htl; by apply list_elem_of_In.
Qed.

(** One access of the client follows [fifo_access]. *)
Lemma fifo_step n b q m p page :
  fifo_rel n b q -> numRead b = Z.of_nat m -> numWrite b = 0%Z -> (0 <= p)%Z ->
  let st := fifo_spec_step n (q, m) p in
  let b' := pool_of (exec_all (access p) page b) in
  fifo_rel n b' st.1 /\ numRead b' = Z.of_nat st.2 /\ numWrite b' = 0%Z.
Proof.
  intros Hr Hm Hw Hp. cbv zeta. pose proof Hr as (_ & _ & Hs & _). rewrite access_state by done.
  unfold fifo_spec_step, fifo_access. cbn [fst snd]. case_bool_decide as Hin.
  - destruct (fifo_step_hit n b q p Hr Hp Hin) as (? & ? & ?). split_and!; [done|lia|lia].
  - case_bool_decide as Hl.
    + destruct (fifo_step_fill n b q p Hr Hp Hin Hl) as (? & ? & ?). split_and!; [done|lia|lia].
    + destruct (fifo_step_evict n b q p Hr Hp Hin Hl) as (? & ? & ?). split_and!; [done|lia|lia].
Qed.

Lemma exec_all_app l1 l2 page b :
  exec_all (l1 ++ l2) page b =
  let '(b', page', _) := exec_all l1 page b in exec_all l2 page' b'.
Proof.
  revert page b. induction l1 as [|r l1 IH]; intros page b; [done|].
  simpl. destruct (exec r page b) as [[b' page'] rc]. apply IH.
Qed.

Lemma fifo_run n ps b q m page :
  fifo_rel n b q -> numRead b = Z.of_nat m -> numWrite b = 0%Z -> Forall (fun p => 0 <= p)%Z ps ->
  let st := fold_left (fifo_spec_step n) ps (q, m) in
  let b' := pool_of (exec_all (concat (map access ps)) page b) in
  fifo_rel n b' st.1 /\ numRead b' = Z.of_nat st.2 /\ numWrite b' = 0%Z.
Proof.
  revert b q m page. induction ps as [|p ps IH]; intros b q m page Hr Hm Hw Hps; [done|].
  apply Forall_cons_iff in Hps as [Hp Hps]. cbn [map concat fold_left]. rewrite exec_all_app.
  pose proof (fifo_step n b q m p page Hr Hm Hw Hp) as Hr1. cbv zeta in Hr1. unfold pool_of in Hr1.
  destruct (exec_all (access p) page b) as [[b1 page1] rc1].
  destruct (fifo_spec_step n (q, m) p) as [q1 m1]. destruct Hr1 as (Hr1 & Hm1 & Hw1).
  by apply IH.
Qed.

Lemma fifo_rel_init f N :
  (1 <= N)%Z -> fifo_rel (Z.to_nat N) (initBufferPool f N RS_FIFO) [].
Proof.
  intros HN. pose proof (WF_init f N RS_FIFO HN) as Hb.
  assert (Hfr : frames (initBufferPool f N RS_FIFO) = repeat newFrame (Z.to_nat N)) by apply init_frames.
  assert (Hfa : forall i, i < Z.to_nat N -> frame_at (initBufferPool f N RS_FIFO) i = newFrame).
  { intros i Hi. unfold frame_at. rewrite Hfr. by apply repeat_lookup_total. }
  split_and!; [done|unfold nframes; by rewrite Hfr, repeat_length|done| |done|done|].
  - intros i Hi. by rewrite Hfa.
  - rewrite bool_decide_eq_true_2 by (simpl; lia). split_and!; [done|done|].
    intros i Hi. unfold pnum. rewrite Hfa by done. simpl. rewrite Nat.sub_0_r.
    by rewrite lookup_total_replicate_2.
Qed.

(** ** Refinement *)

(** C9. FIFO replacement implements a FIFO cache: for a client that unpins
    each page right after pinning it, on a pool of [N >= 1] frames, after
    any sequence of accesses to pages [>= 0] the pages [getFrameContents]
    reports are exactly those of the abstract FIFO cache of capacity [N]
    fed the same accesses (hits change nothing, a miss fills an empty
    frame while there is one and otherwise evicts the page loaded
    earliest), the pool has read one block per miss of the cache, and it
    has written none. *)
Theorem fifo_refines f N ps :
  (1 <= N)%Z -> Forall (fun p => 0 <= p)%Z ps ->
  let b := pool_of (exec_all (concat (map access ps)) no_handle (initBufferPool f N RS_FIFO)) in
  (forall x, (0 <= x)%Z -> In x (getFrameContents b) <-> x ∈ fifo_cache (Z.to_nat N) ps) /\
  getNumReadIO b = Z.of_nat (fifo_misses (Z.to_nat N) ps) /\ getNumWriteIO b = 0%Z.
Proof.
  intros HN Hps b.
  destruct (fifo_run _ ps _ [] 0 no_handle (fifo_rel_init f N HN) eq_refl eq_refl Hps) as (Hr & Hm & Hw).
  split_and!; [|exact Hm|exact Hw]. intros x Hx.
  pose proof Hr as ((_ & Hn & _) & _).
  unfold getFrameContents. rewrite stat_walk_frames by done.
  by apply (fifo_rel_resident (Z.to_nat N)).
Qed.

(** ** Witness *)

Lemma fifo_refines_witness :
  (1 <= 3)%Z /\ Forall (fun p => 0 <= p)%Z [1; 2; 1; 3; 4; 5]%Z /\
  let b := pool_of (exec_all (concat (map access [1; 2; 1; 3; 4; 5]%Z)) no_handle
                     (initBufferPool (marked_file 8) 3 RS_FIFO)) in
  (forall x, (0 <= x)%Z -> In x (getFrameContents b) <-> x ∈ fifo_cache (Z.to_nat 3) [1; 2; 1; 3; 4; 5]%Z) /\
  getNumReadIO b = Z.of_nat (fifo_misses (Z.to_nat 3) [1; 2; 1; 3; 4; 5]%Z) /\ getNumWriteIO b = 0%Z.
Proof.
  assert (H1 : (1 <= 3)%Z) by lia.
  assert (H2 : Forall (fun p => 0 <= p)%Z [1; 2; 1; 3; 4; 5]%Z) by (repeat constructor; lia).
  exact (conj H1 (conj H2 (fifo_refines (marked_file 8) 3 _ H1 H2))).
Defined.
