(* ===== verification/RecordMgr.v ===== *)
(** * The record manager's schema and attribute layer (src/record_mgr.c)

    A record is a fixed-size byte buffer ([Record->data], [getRecordSize]
    bytes); attribute [k] of a schema occupies the bytes from
    [attrOffset(schema, k)] on, as many as its type needs ([sizeof(int)],
    [sizeof(float)], [sizeof(bool)] or [typeLength[k]] for a string).
    [getAttr] and [setAttr] copy an attribute out of or into the buffer with
    [memcpy], [strncpy] and C string writes.

    C's memory is modelled byte-exactly where the functions touch it: the
    record buffer and a string value's buffer are [list Byte.byte] whose
    length is the size of the allocation, an integer crosses the buffer as
    its little-endian bytes (x86), and every array read or write outside its
    allocation is undefined behaviour, which the model returns as [None].
    [DataType], [Value] and [Schema] are the types of [tables.h] and [dt.h]
    (not under [src/]): [bool] is [dt.h]'s [short], so [sizeof(bool)] is 2.
    A float is its IEEE-754 single-precision bit pattern: the code only
    copies floats, never computes with them. *)

From Stdlib Require Import Strings.Byte Strings.String.
From S2P Require Import Prelude.

(** ** Types of [tables.h] *)

Inductive DataType := DT_INT | DT_STRING | DT_FLOAT | DT_BOOL.

#[export] Instance DataType_eq_dec : EqDecision DataType.
Proof. solve_decision. Defined.

Definition SIZEOF_INT : nat := 4.
Definition SIZEOF_FLOAT : nat := 4.
Definition SIZEOF_BOOL : nat := 2.

Record Schema := mkSchema {
  numAttr : Z;
  attrNames : list string;
  dataTypes : list DataType;
  typeLength : list Z;
  keyAttrs : list Z;
  keySize : Z
}.

Record RID := mkRID { page : Z; slot : Z }.

(** [Record] of [tables.h]: its identifier and its data buffer. *)
Record Record_ := mkRecord { id : RID; data : list Byte.byte }.

(** The union [v] of a [Value], by the member last written. *)
Inductive ValueUnion :=
  | intV (i : Z)
  | stringV (buf : list Byte.byte)
  | floatV (bits : Z)
  | boolV (b : Z).

Record Value := mkValue { dt : DataType; v : ValueUnion }.

#[export] Instance byte_inhabited : Inhabited Byte.byte := populate Byte.x00.

(** ** Machine words *)

(** The low byte of an integer, as a [memcpy] of it stores it. *)
Definition byte_of_Z (z : Z) : Byte.byte :=
  match Byte.of_N (Z.to_N (z mod 256)) with Some b => b | None => Byte.x00 end.

(** The [k] bytes of [z] in memory, least significant first. *)
Fixpoint le_bytes (k : nat) (z : Z) : list Byte.byte :=
  match k with
  | 0 => []
  | S k' => byte_of_Z z :: le_bytes k' (Z.shiftr z 8)
  end.

(** The unsigned integer a little-endian byte sequence denotes. *)
Fixpoint le_value (bs : list Byte.byte) : Z :=
  match bs with
  | [] => 0
  | b :: bs' => Z.of_N (Byte.to_N b) + 256 * le_value bs'
  end.

(** Two's complement reading of a [w]-bit unsigned value. *)
Definition to_signed (w : nat) (u : Z) : Z :=
  if Z.ltb u (2 ^ (Z.of_nat w - 1)) then u else u - 2 ^ Z.of_nat w.

(** ** C arrays and memory *)

(** [a[i]] on an array of [length a] elements: [None] out of bounds. *)
Definition arr_get {A} (a : list A) (i : Z) : option A :=
  if decide (0 <= i)%Z then a !! Z.to_nat i else None.

(** [a[i] = x] on an array of [length a] elements. *)
Definition arr_set {A} (a : list A) (i : Z) (x : A) : option (list A) :=
  if decide (0 <= i < Z.of_nat (length a))%Z then Some (<[Z.to_nat i := x]> a) else None.

(** [memcpy(dst, buf + off, k)] reads these bytes of [buf]. *)
Definition read_bytes (buf : list Byte.byte) (off : Z) (k : nat) : option (list Byte.byte) :=
  if decide (0 <= off)%Z then mapM (fun i => buf !! i) (seq (Z.to_nat off) k) else None.

(** The buffer after [memcpy(buf + off, bs, length bs)], in bounds. *)
Definition memcpy_to (buf : list Byte.byte) (off : nat) (bs : list Byte.byte) : list Byte.byte :=
  imap (fun i b => if decide (off <= i < off + length bs) then bs !!! (i - off) else b) buf.

Definition write_bytes (buf : list Byte.byte) (off : Z) (bs : list Byte.byte) : option (list Byte.byte) :=
  if decide ((0 <= off)%Z /\ Z.to_nat off + length bs <= length buf)
  then Some (memcpy_to buf (Z.to_nat off) bs) else None.

(** [strncpy(dst, buf + i, n)]: the [n] bytes it stores in [dst].  It copies
    up to the first NUL and pads with NULs; it reads [buf] only up to that
    NUL, or [n] bytes. *)
Fixpoint strncpy (buf : list Byte.byte) (i n : nat) : option (list Byte.byte) :=
  match n with
  | 0 => Some []
  | S n' =>
      b ← buf !! i;
      if Byte.eqb b Byte.x00 then Some (repeat Byte.x00 n)
      else bs ← strncpy buf (S i) n'; Some (b :: bs)
  end.

(** The C string a byte buffer holds: its bytes up to the first NUL. *)
Fixpoint c_str (bs : list Byte.byte) : list Byte.byte :=
  match bs with
  | [] => []
  | b :: bs' => if Byte.eqb b Byte.x00 then [] else b :: c_str bs'
  end.

(** ** Schemas and offsets *)

(** The bytes attribute [i] occupies, by the [switch] of [attrOffset]:
    [typeLength[i]] is read for a string only. *)
Definition attr_width (schema : Schema) (i : nat) : option Z :=
  t ← dataTypes schema !! i;
  match t with
  | DT_STRING => typeLength schema !! i
  | DT_INT => Some (Z.of_nat SIZEOF_INT)
  | DT_FLOAT => Some (Z.of_nat SIZEOF_FLOAT)
  | DT_BOOL => Some (Z.of_nat SIZEOF_BOOL)
  end.

(** The same width by the [if]/[else if] chain of [getRecordSize], whose
    last [else] takes every other type as a string. *)
Definition record_width (schema : Schema) (i : nat) : option Z :=
  t ← dataTypes schema !! i;
  if decide (t = DT_INT) then Some (Z.of_nat SIZEOF_INT)
  else if decide (t = DT_FLOAT) then Some (Z.of_nat SIZEOF_FLOAT)
  else if decide (t = DT_BOOL) then Some (Z.of_nat SIZEOF_BOOL)
  else typeLength schema !! i.

(** [for (i = 0; i < k; i++) acc += width(i);] *)
Fixpoint sum_widths (width : nat -> option Z) (idx : list nat) (acc : Z) : option Z :=
  match idx with
  | [] => Some acc
  | i :: idx' => w ← width i; sum_widths width idx' (acc + w)
  end.

(** [attrOffset(schema, attrNum, &result)]: [None] when the loop reads past
    [dataTypes] or [typeLength]. *)
Definition attrOffset (schema : Schema) (attrNum : Z) : option Z :=
  sum_widths (attr_width schema) (seq 0 (Z.to_nat attrNum)) 0.

Definition getRecordSize (schema : Schema) : option Z :=
  sum_widths (record_width schema) (seq 0 (Z.to_nat (numAttr schema))) 0.

(** [createSchema]: the schema keeps the caller's arrays. *)
Definition createSchema (numAttr : Z) (attrNames : list string) (dataTypes : list DataType)
    (typeLength : list Z) (keySize : Z) (keys : list Z) : Schema :=
  {| numAttr := numAttr; attrNames := attrNames; dataTypes := dataTypes;
     typeLength := typeLength; keySize := keySize; keyAttrs := keys |}.

(** [createRecord]: a record whose [id] and [getRecordSize] data bytes are
    whatever [malloc] returns, here [junk_id] and [junk]. *)
Definition createRecord (schema : Schema) (junk_id : RID) (junk : nat -> Byte.byte) : option Record_ :=
  size ← getRecordSize schema;
  if decide (0 <= size)%Z then Some (mkRecord junk_id (map junk (seq 0 (Z.to_nat size))))
  else None.

(** ** [getAttr] and [setAttr] *)

(** [getAttr(record, schema, attrNum, &value)]: the value of the attribute,
    as the [switch] on [schema->dataTypes[attrNum]] reads it from
    [record->data + offset].  A string is copied into a fresh buffer of
    [len + 1] bytes by [strncpy] and terminated by [buf[len] = '\0']. *)
Definition getAttr (record : Record_) (schema : Schema) (attrNum : Z) : option Value :=
  offset ← attrOffset schema attrNum;
  t ← arr_get (dataTypes schema) attrNum;
  match t with
  | DT_INT =>
      bs ← read_bytes (data record) offset SIZEOF_INT;
      Some (mkValue DT_INT (intV (to_signed 32 (le_value bs))))
  | DT_STRING =>
      len ← arr_get (typeLength schema) attrNum;
      if decide (0 <= offset /\ 0 <= len)%Z then
        buf ← strncpy (data record) (Z.to_nat offset) (Z.to_nat len);
        Some (mkValue DT_STRING (stringV (buf ++ [Byte.x00])))
      else None
  | DT_FLOAT =>
      bs ← read_bytes (data record) offset SIZEOF_FLOAT;
      Some (mkValue DT_FLOAT (floatV (le_value bs)))
  | DT_BOOL =>
      bs ← read_bytes (data record) offset SIZEOF_BOOL;
      Some (mkValue DT_BOOL (boolV (to_signed 16 (le_value bs))))
  end.

(** [setAttr(record, schema, attrNum, value)]: the record and the value
    after the call.  For a string, [buf = value->v.stringV; buf[len] = '\0';]
    writes into the caller's string, which must therefore have at least
    [len + 1] bytes, and [memcpy(attrData, buf, len)] copies its first [len]
    bytes.  A value whose union member is not the one the schema's type
    names is type punning, which the model does not follow ([None]). *)
Definition setAttr (record : Record_) (schema : Schema) (attrNum : Z) (value : Value)
    : option (Record_ * Value) :=
  offset ← attrOffset schema attrNum;
  t ← arr_get (dataTypes schema) attrNum;
  match t, v value with
  | DT_INT, intV i =>
      d ← write_bytes (data record) offset (le_bytes SIZEOF_INT i);
      Some ({| record with data := d |}, value)
  | DT_STRING, stringV buf =>
      len ← arr_get (typeLength schema) attrNum;
      if decide (0 <= len < Z.of_nat (length buf))%Z then
        let buf' := <[Z.to_nat len := Byte.x00]> buf in
        d ← write_bytes (data record) offset (take (Z.to_nat len) buf');
        Some ({| record with data := d |}, {| value with v := stringV buf' |})
      else None
  | DT_FLOAT, floatV f =>
      d ← write_bytes (data record) offset (le_bytes SIZEOF_FLOAT f);
      Some ({| record with data := d |}, value)
  | DT_BOOL, boolV b =>
      d ← write_bytes (data record) offset (le_bytes SIZEOF_BOOL b);
      Some ({| record with data := d |}, value)
  | _, _ => None
  end.

(** ** Well-formed schemas *)

(** A schema as [createSchema] receives it from a correct caller: one type
    and one length per attribute, string lengths non-negative. *)
Definition schema_wf (schema : Schema) : Prop :=
  (0 <= numAttr schema)%Z /\
  length (dataTypes schema) = Z.to_nat (numAttr schema) /\
  length (typeLength schema) = Z.to_nat (numAttr schema) /\
  Forall (fun l => 0 <= l)%Z (typeLength schema).

#[export] Instance schema_wf_dec schema : Decision (schema_wf schema).
Proof. unfold schema_wf. apply _. Defined.

(** ** Machine words *)

Lemma byte_of_Z_value z : Z.of_N (Byte.to_N (byte_of_Z z)) = (z mod 256)%Z.
Proof.
  unfold byte_of_Z. pose proof (Z.mod_pos_bound z 256 ltac:(lia)).
  destruct (Byte.of_N _) eqn:E.
  - apply Byte.to_of_N in E. rewrite E. lia.
  - apply Byte.of_N_None_iff in E. lia.
Qed.

Lemma length_le_bytes k z : length (le_bytes k z) = k.
Proof. revert z. induction k; intros; simpl; auto. Qed.

(** Decoding the bytes of [z] gives [z] modulo [2^(8k)]. *)
Lemma le_value_bytes k z : le_value (le_bytes k z) = (z mod 2 ^ (8 * Z.of_nat k))%Z.
Proof.
  revert z. induction k as [|k IH]; intros z; simpl.
  - by rewrite Z.mod_1_r.
  - rewrite IH, byte_of_Z_value, Z.shiftr_div_pow2 by lia.
    replace (8 * Z.of_nat (S k))%Z with (8 + 8 * Z.of_nat k)%Z by lia.
    rewrite Z.pow_add_r by lia. rewrite (Z.rem_mul_r z (2 ^ 8)); [done|lia|].
    apply Z.pow_pos_nonneg; lia.
Qed.

(** A [w]-bit round trip through two's complement is the identity exactly
    on the representable range. *)
Lemma to_signed_mod w z :
  (1 <= w)%nat ->
  to_signed w (z mod 2 ^ Z.of_nat w) = z <->
  (- 2 ^ (Z.of_nat w - 1) <= z < 2 ^ (Z.of_nat w - 1))%Z.
Proof.
  intros Hw. unfold to_signed.
  assert (Hp : (2 ^ Z.of_nat w = 2 * 2 ^ (Z.of_nat w - 1))%Z).
  { rewrite <- Z.pow_succ_r by lia. f_equal. lia. }
  assert (0 < 2 ^ (Z.of_nat w - 1))%Z by (apply Z.pow_pos_nonneg; lia).
  pose proof (Z.mod_pos_bound z (2 ^ Z.of_nat w) ltac:(lia)).
  pose proof (Z.div_mod z (2 ^ Z.of_nat w) ltac:(lia)).
  rewrite Hp in *. set (m := (2 ^ (Z.of_nat w - 1))%Z) in *.
  set (q := (z / (2 * m))%Z) in *. set (r := (z mod (2 * m))%Z) in *.
  assert (q = 0 \/ q = -1 \/ 1 <= q \/ q <= -2)%Z as [->|[->|[Hq|Hq]]] by lia;
  destruct (Z.ltb_spec r m); split; intros; nia.
Qed.

(** ** Memory *)

Lemma length_memcpy_to buf off bs : length (memcpy_to buf off bs) = length buf.
Proof. apply length_imap. Qed.

Lemma lookup_memcpy_to_out buf off bs i :
  ~ (off <= i < off + length bs) -> memcpy_to buf off bs !! i = buf !! i.
Proof.
  intros Hout. unfold memcpy_to. rewrite list_lookup_imap.
  destruct (buf !! i); simpl; [by rewrite decide_False|done].
Qed.

Lemma lookup_memcpy_to_in buf off bs i :
  off <= i < off + length bs -> i < length buf -> memcpy_to buf off bs !! i = bs !! (i - off).
Proof.
  intros Hin Hl. unfold memcpy_to. rewrite list_lookup_imap.
  destruct (lookup_lt_is_Some_2 buf i Hl) as [b ->]; simpl.
  rewrite decide_True by done. symmetry. apply list_lookup_lookup_total_lt. lia.
Qed.

Lemma mapM_seq_ext {B} (f g : nat -> option B) off k :
  (forall i, off <= i < off + k -> f i = g i) -> mapM f (seq off k) = mapM g (seq off k).
Proof. intros H. apply Forall_mapM_ext, Forall_seq. intros; by apply H. Qed.

(** A read depends only on the bytes it reads. *)
Lemma read_bytes_ext buf1 buf2 off k :
  (forall i, Z.to_nat off <= i < Z.to_nat off + k -> buf1 !! i = buf2 !! i) ->
  read_bytes buf1 off k = read_bytes buf2 off k.
Proof. intros H. unfold read_bytes. case_decide; [by apply mapM_seq_ext|done]. Qed.

Lemma strncpy_ext buf1 buf2 i n :
  (forall j, i <= j < i + n -> buf1 !! j = buf2 !! j) ->
  strncpy buf1 i n = strncpy buf2 i n.
Proof.
  revert i. induction n as [|n IH]; intros i H; simpl; [done|].
  rewrite H by lia. destruct (buf2 !! i); simpl; [|done].
  rewrite IH by (intros; apply H; lia). done.
Qed.

Lemma mapM_lookup_seq (buf bs : list Byte.byte) off :
  (forall j, j < length bs -> buf !! (off + j) = bs !! j) ->
  mapM (fun i => buf !! i) (seq off (length bs)) = Some bs.
Proof.
  revert off. induction bs as [|b bs IH]; intros off H; simpl; [done|].
  rewrite <- (Nat.add_0_r off), H by (simpl; lia). simpl. rewrite Nat.add_0_r.
  rewrite IH; [done|]. intros j Hj. replace (S off + j) with (off + S j) by lia. apply (H (S j)). simpl; lia.
Qed.

(** What [strncpy] stores when the source holds the bytes [bs]: the C
    string they hold, padded with NULs. *)
Lemma strncpy_region buf i bs :
  (forall j, j < length bs -> buf !! (i + j) = bs !! j) ->
  strncpy buf i (length bs) = Some (c_str bs ++ repeat Byte.x00 (length bs - length (c_str bs))).
Proof.
  revert i. induction bs as [|b bs IH]; intros i H; simpl; [done|].
  rewrite <- (Nat.add_0_r i), H by (simpl; lia). simpl.
  destruct (Byte.eqb b Byte.x00); [done|]. rewrite Nat.add_0_r.
  rewrite IH; [done|]. intros j Hj. replace (S i + j) with (i + S j) by lia. apply (H (S j)). simpl; lia.
Qed.

Lemma write_bytes_Some buf off bs :
  (0 <= off)%Z -> Z.to_nat off + length bs <= length buf ->
  write_bytes buf off bs = Some (memcpy_to buf (Z.to_nat off) bs).
Proof. intros. unfold write_bytes. by rewrite decide_True. Qed.

Lemma write_bytes_inv buf off bs buf' :
  write_bytes buf off bs = Some buf' ->
  buf' = memcpy_to buf (Z.to_nat off) bs /\ (0 <= off)%Z /\ Z.to_nat off + length bs <= length buf.
Proof. unfold write_bytes. case_decide; [intros [= <-]; tauto|done]. Qed.

(** [memcpy] then [memcpy] back gives the bytes written. *)
Lemma read_bytes_write buf off bs buf' :
  write_bytes buf off bs = Some buf' -> read_bytes buf' off (length bs) = Some bs.
Proof.
  intros (-> & Hoff & Hl)%write_bytes_inv. unfold read_bytes. rewrite decide_True by done.
  apply mapM_lookup_seq. intros j Hj. rewrite lookup_memcpy_to_in by lia. f_equal; lia.
Qed.

(** [memcpy] changes no byte outside the bytes it writes. *)
Lemma write_bytes_frame buf off bs buf' i :
  write_bytes buf off bs = Some buf' -> ~ (Z.to_nat off <= i < Z.to_nat off + length bs) ->
  buf' !! i = buf !! i.
Proof. intros (-> & _ & _)%write_bytes_inv Hi. by apply lookup_memcpy_to_out. Qed.

Lemma write_bytes_length buf off bs buf' :
  write_bytes buf off bs = Some buf' -> length buf' = length buf.
Proof. intros (-> & _ & _)%write_bytes_inv. apply length_memcpy_to. Qed.

#[export] Hint Resolve read_bytes_write write_bytes_length : bm.

(** ** Offsets *)

Lemma sum_widths_app w l1 l2 acc :
  sum_widths w (l1 ++ l2) acc = a ← sum_widths w l1 acc; sum_widths w l2 a.
Proof. revert acc. induction l1 as [|i l1 IH]; intros acc; simpl; [done|]. destruct (w i); simpl; [apply IH|done]. Qed.

Lemma sum_widths_ext w1 w2 l acc :
  (forall i, w1 i = w2 i) -> sum_widths w1 l acc = sum_widths w2 l acc.
Proof. intros H. revert acc. induction l as [|i l IH]; intros acc; simpl; [done|]. rewrite H. destruct (w2 i); simpl; [apply IH|done]. Qed.

(** With non-negative widths the loop's accumulator only grows. *)
Lemma sum_widths_mono w l acc r :
  Forall (fun i => forall x, w i = Some x -> (0 <= x)%Z) l ->
  sum_widths w l acc = Some r -> (acc <= r)%Z.
Proof.
  intros Hl. revert acc. induction Hl as [|i l Hi Hl IH]; intros acc; simpl; [intros [= ->]; lia|].
  destruct (w i) as [x|] eqn:E; simpl; [|done]. intros H. specialize (Hi x eq_refl). apply IH in H. lia.
Qed.

Lemma record_width_attr_width schema i : record_width schema i = attr_width schema i.
Proof. unfold record_width, attr_width. destruct (dataTypes schema !! i) as [[]|]; done. Qed.

Lemma attrOffset_split schema j k :
  j <= k ->
  attrOffset schema (Z.of_nat k) =
    a ← attrOffset schema (Z.of_nat j); sum_widths (attr_width schema) (seq j (k - j)) a.
Proof.
  intros Hjk. unfold attrOffset. rewrite !Nat2Z.id.
  replace k with (j + (k - j)) at 1 by lia. rewrite seq_app. apply sum_widths_app.
Qed.

Lemma attrOffset_S schema k :
  attrOffset schema (Z.of_nat (S k)) =
    off ← attrOffset schema (Z.of_nat k); w ← attr_width schema k; Some (off + w)%Z.
Proof.
  rewrite (attrOffset_split schema k (S k)) by lia. replace (S k - k) with 1 by lia.
  destruct (attrOffset _ _); simpl; [|done]. by destruct (attr_width _ _).
Qed.

Section WellFormed.
Context (schema : Schema) (Hwf : schema_wf schema).

Lemma attr_width_wf i :
  i < Z.to_nat (numAttr schema) -> exists w, attr_width schema i = Some w /\ (0 <= w)%Z.
Proof.
  destruct Hwf as (_ & Hd & Ht & Hpos). intros Hi. unfold attr_width.
  destruct (lookup_lt_is_Some_2 (dataTypes schema) i ltac:(lia)) as [t ->]. simpl.
  destruct t; try (eexists; split; [done|]; vm_compute; congruence).
  destruct (lookup_lt_is_Some_2 (typeLength schema) i ltac:(lia)) as [l Hl].
  exists l. split; [done|]. by eapply Forall_lookup_1.
Qed.

Lemma widths_nonneg j k :
  k <= Z.to_nat (numAttr schema) ->
  Forall (fun i => forall x, attr_width schema i = Some x -> (0 <= x)%Z) (seq j (k - j)).
Proof.
  intros Hk. apply Forall_seq. intros i Hi x Hx.
  destruct (attr_width_wf i ltac:(lia)) as (w & Hw & ?). congruence.
Qed.

Lemma attrOffset_wf k :
  k <= Z.to_nat (numAttr schema) ->
  exists off, attrOffset schema (Z.of_nat k) = Some off /\ (0 <= off)%Z.
Proof.
  induction k as [|k IH]; intros Hk; [by exists 0%Z|].
  destruct IH as (off & Hoff & Hpos); [lia|].
  destruct (attr_width_wf k ltac:(lia)) as (w & Hw & Hw0).
  exists (off + w)%Z. rewrite attrOffset_S, Hoff, Hw. split; [done|lia].
Qed.

Lemma attrOffset_le j k oj ok :
  j <= k <= Z.to_nat (numAttr schema) ->
  attrOffset schema (Z.of_nat j) = Some oj -> attrOffset schema (Z.of_nat k) = Some ok ->
  (oj <= ok)%Z.
Proof.
  intros Hjk Hj Hk. rewrite (attrOffset_split _ j k), Hj in Hk by lia. simpl in Hk.
  eapply sum_widths_mono; [apply (widths_nonneg j k)|]; [lia|done].
Qed.

(** An attribute ends before every later attribute starts. *)
Lemma attr_before j k oj wj ok :
  j < k <= Z.to_nat (numAttr schema) ->
  attrOffset schema (Z.of_nat j) = Some oj -> attr_width schema j = Some wj ->
  attrOffset schema (Z.of_nat k) = Some ok -> (oj + wj <= ok)%Z.
Proof.
  intros Hjk Hj Hw Hk. apply (attrOffset_le (S j) k); [lia| |done].
  by rewrite attrOffset_S, Hj, Hw.
Qed.

Lemma getRecordSize_wf :
  exists size, getRecordSize schema = Some size /\
               attrOffset schema (Z.of_nat (Z.to_nat (numAttr schema))) = Some size.
Proof.
  destruct (attrOffset_wf (Z.to_nat (numAttr schema)) ltac:(lia)) as (size & Hs & _).
  exists size. split; [|done]. rewrite <- Hs. unfold getRecordSize, attrOffset.
  rewrite Nat2Z.id. apply sum_widths_ext, record_width_attr_width.
Qed.

End WellFormed.

(** ** The layout of a record *)

Lemma arr_get_nat {A} (a : list A) k : arr_get a (Z.of_nat k) = a !! k.
Proof. unfold arr_get. rewrite decide_True by lia. by rewrite Nat2Z.id. Qed.

(** Attribute [k] of a well-formed schema lies inside the record. *)
Lemma attr_layout schema k :
  schema_wf schema -> k < Z.to_nat (numAttr schema) ->
  exists off w size,
    attrOffset schema (Z.of_nat k) = Some off /\ attr_width schema k = Some w /\
    getRecordSize schema = Some size /\ (0 <= off)%Z /\ (0 <= w)%Z /\ (off + w <= size)%Z.
Proof.
  intros Hwf Hk.
  destruct (attrOffset_wf schema Hwf k ltac:(lia)) as (off & Hoff & Hoff0).
  destruct (attr_width_wf schema Hwf k Hk) as (w & Hw & Hw0).
  destruct (getRecordSize_wf schema Hwf) as (size & Hs & Hs').
  exists off, w, size. do 5 (split; [done|]).
  destruct (decide (S k = Z.to_nat (numAttr schema))) as [E|NE].
  - rewrite <- E, attrOffset_S, Hoff, Hw in Hs'. simpl in Hs'. simplify_eq. lia.
  - by apply (attr_before schema Hwf k (Z.to_nat (numAttr schema)) off w size); [lia| | |].
Qed.

(** The bytes a write puts in the buffer, where a read finds them. *)
Lemma write_bytes_lookup buf off bs buf' j :
  write_bytes buf off bs = Some buf' -> j < length bs ->
  buf' !! (Z.to_nat off + j) = bs !! j.
Proof.
  intros (-> & Hoff & Hl)%write_bytes_inv Hj.
  rewrite lookup_memcpy_to_in by lia. f_equal; lia.
Qed.

(** What a value is after [setAttr]: only a string changes, by the
    [buf[len] = '\0'] written into the caller's buffer. *)
Definition after_set (len : Z) (u : ValueUnion) : ValueUnion :=
  match u with
  | stringV buf => stringV (<[Z.to_nat len := Byte.x00]> buf)
  | _ => u
  end.

(** What [getAttr] reads back after [setAttr] stored [u]: integers modulo
    their width read in two's complement, a float's bit pattern modulo
    [2^32], and the C string of the first [len] bytes of a string, padded
    with NULs and terminated. *)
Definition stored (len : Z) (u : ValueUnion) : ValueUnion :=
  match u with
  | intV i => intV (to_signed 32 (i mod 2 ^ 32))
  | floatV f => floatV (f mod 2 ^ 32)
  | boolV b => boolV (to_signed 16 (b mod 2 ^ 16))
  | stringV buf =>
      let c := c_str (take (Z.to_nat len) buf) in
      stringV ((c ++ repeat Byte.x00 (Z.to_nat len - length c)) ++ [Byte.x00])
  end.

(** The values [setAttr] accepts for an attribute of type [t]: the union
    member [t] names, and for a string a buffer of more than [len] bytes. *)
Definition fits (t : DataType) (len : Z) (u : ValueUnion) : bool :=
  match t, u with
  | DT_INT, intV _ | DT_FLOAT, floatV _ | DT_BOOL, boolV _ => true
  | DT_STRING, stringV buf => bool_decide (0 <= len < Z.of_nat (length buf))%Z
  | _, _ => false
  end.

(** A word written in bounds reads back as its bytes. *)
Lemma write_read_word buf off n z :
  (0 <= off)%Z -> Z.to_nat off + n <= length buf ->
  exists buf', write_bytes buf off (le_bytes n z) = Some buf' /\
               length buf' = length buf /\ read_bytes buf' off n = Some (le_bytes n z).
Proof.
  intros Hoff Hl. assert (Hw : write_bytes buf off (le_bytes n z) = Some (memcpy_to buf (Z.to_nat off) (le_bytes n z)))
    by (apply write_bytes_Some; rewrite ?length_le_bytes; lia).
  eexists; split; [exact Hw|]. split; [eauto with bm|].
  rewrite <- (length_le_bytes n z) at 2. eauto with bm.
Qed.

(** The string [setAttr] writes reads back as its C string, padded. *)
Lemma write_read_string buf off len s :
  (0 <= off)%Z -> Z.to_nat off + len <= length buf -> len < length s ->
  exists buf', write_bytes buf off (take len (<[len := Byte.x00]> s)) = Some buf' /\
    length buf' = length buf /\
    strncpy buf' (Z.to_nat off) len =
      Some (c_str (take len s) ++ repeat Byte.x00 (len - length (c_str (take len s)))).
Proof.
  intros Hoff Hl Hs. rewrite take_insert_ge by lia.
  assert (Ht : length (take len s) = len) by (rewrite length_take; lia).
  assert (Hw : write_bytes buf off (take len s) = Some (memcpy_to buf (Z.to_nat off) (take len s)))
    by (apply write_bytes_Some; lia).
  eexists; split; [exact Hw|]. split; [eauto with bm|].
  pose proof (strncpy_region (memcpy_to buf (Z.to_nat off) (take len s)) (Z.to_nat off) (take len s)) as H.
  rewrite Ht in H. apply H. intros j Hj. rewrite <- Ht in Hj. eapply write_bytes_lookup; eauto.
Qed.

(** ** [setAttr] and [getAttr] *)

(** [setAttr] of a value that fits, then [getAttr] of the same attribute. *)
Lemma set_then_get record schema k t len value :
  schema_wf schema -> getRecordSize schema = Some (Z.of_nat (length (data record))) ->
  (0 <= k < numAttr schema)%Z ->
  dataTypes schema !! Z.to_nat k = Some t -> typeLength schema !! Z.to_nat k = Some len ->
  fits t len (v value) = true ->
  exists record',
    setAttr record schema k value = Some (record', {| dt := dt value; v := after_set len (v value) |}) /\
    getAttr record' schema k = Some (mkValue t (stored len (v value))) /\
    id record' = id record /\ length (data record') = length (data record).
Proof.
  intros Hwf Hsize Hk Ht Hl Hfit.
  destruct (Z_of_nat_complete k ltac:(lia)) as [kn ->]. rewrite Nat2Z.id in Ht, Hl.
  destruct (attr_layout schema kn Hwf ltac:(lia)) as (off & w & size & Hoff & Hw & Hs & Hoff0 & Hw0 & Hin).
  rewrite Hsize in Hs. injection Hs as <-.
  unfold attr_width in Hw. rewrite Ht in Hw. simpl in Hw.
  unfold setAttr, getAttr. rewrite Hoff, !arr_get_nat, Ht, ?Hl. cbn -[le_bytes SIZEOF_INT SIZEOF_FLOAT SIZEOF_BOOL].
  destruct value as [d u]. cbn -[le_bytes SIZEOF_INT SIZEOF_FLOAT SIZEOF_BOOL] in *.
  destruct t, u; cbn -[le_bytes SIZEOF_INT SIZEOF_FLOAT SIZEOF_BOOL] in Hfit |- *; try discriminate; simplify_eq.
  - destruct (write_read_word (data record) off SIZEOF_INT i) as (d' & -> & Hlen & Hr); [lia..|].
    eexists; split; [reflexivity|]. cbn -[le_bytes SIZEOF_INT SIZEOF_FLOAT SIZEOF_BOOL]. rewrite Hr. cbn -[le_bytes SIZEOF_INT SIZEOF_FLOAT SIZEOF_BOOL]. by rewrite le_value_bytes.
  - case_bool_decide as Hb; [|done]. rewrite decide_True by lia. simpl.
    destruct (write_read_string (data record) off (Z.to_nat len) buf) as (d' & -> & Hlen & Hr); [lia..|].
    eexists; split; [reflexivity|]. simpl. rewrite decide_True by lia. by rewrite Hr.
  - destruct (write_read_word (data record) off SIZEOF_FLOAT bits) as (d' & -> & Hlen & Hr); [lia..|].
    eexists; split; [reflexivity|]. cbn -[le_bytes SIZEOF_INT SIZEOF_FLOAT SIZEOF_BOOL]. rewrite Hr. cbn -[le_bytes SIZEOF_INT SIZEOF_FLOAT SIZEOF_BOOL]. by rewrite le_value_bytes.
  - destruct (write_read_word (data record) off SIZEOF_BOOL b) as (d' & -> & Hlen & Hr); [lia..|].
    eexists; split; [reflexivity|]. cbn -[le_bytes SIZEOF_INT SIZEOF_FLOAT SIZEOF_BOOL]. rewrite Hr. cbn -[le_bytes SIZEOF_INT SIZEOF_FLOAT SIZEOF_BOOL]. by rewrite le_value_bytes.
Qed.

(** [getAttr] reads only the bytes of its attribute. *)
Lemma getAttr_ext record1 record2 schema k off w :
  attrOffset schema (Z.of_nat k) = Some off -> attr_width schema k = Some w ->
  (forall i, Z.to_nat off <= i < Z.to_nat off + Z.to_nat w -> data record1 !! i = data record2 !! i) ->
  getAttr record1 schema (Z.of_nat k) = getAttr record2 schema (Z.of_nat k).
Proof.
  intros Hoff Hw H. unfold getAttr. rewrite Hoff, !arr_get_nat. simpl.
  unfold attr_width in Hw. destruct (dataTypes schema !! k) as [t|]; simpl in *; [|done].
  destruct t; simpl in Hw; simplify_eq;
    try (rewrite (read_bytes_ext _ (data record2)); [done|]; intros i Hi; apply H; lia).
  rewrite Hw. simpl. case_decide; [|done].
  rewrite (strncpy_ext _ (data record2)); [done|]. intros; apply H; lia.
Qed.

(** What [setAttr] writes: [w] bytes at the attribute's offset. *)
Lemma setAttr_writes record schema k value record' value' off w :
  attrOffset schema (Z.of_nat k) = Some off -> attr_width schema k = Some w ->
  setAttr record schema (Z.of_nat k) value = Some (record', value') ->
  exists bs, write_bytes (data record) off bs = Some (data record') /\ length bs = Z.to_nat w.
Proof.
  intros Hoff Hw. unfold setAttr. rewrite Hoff, !arr_get_nat. cbn -[le_bytes].
  unfold attr_width in Hw. destruct (dataTypes schema !! k) as [t|]; cbn -[le_bytes] in *; [|done].
  destruct t; cbn -[le_bytes] in Hw; [injection Hw as <-| |injection Hw as <-|injection Hw as <-];
    destruct (v value) as [i|buf|f|b]; cbn -[le_bytes]; try done;
    try (destruct (write_bytes _ _ _) eqn:E; simpl; [|done]; intros [= <- _];
         eexists; split; [exact E|]; rewrite length_le_bytes; lia).
  rewrite Hw. simpl. case_decide; [|done].
  destruct (write_bytes _ _ _) eqn:E; simpl; [|done]. intros [= <- _].
  eexists; split; [exact E|]. rewrite length_take, length_insert. lia.
Qed.

(** Writing [<[len := NUL]>] into a string cuts it to its first [len]
    bytes. *)
Lemma c_str_insert_nul len buf :
  len < length buf -> c_str (<[len := Byte.x00]> buf) = c_str (take len buf).
Proof.
  revert buf. induction len as [|len IH]; intros [|b buf] Hl; simpl in *; try lia; [done|].
  destruct (Byte.eqb b Byte.x00); [done|]. f_equal. apply IH. lia.
Qed.

Lemma read_bytes_in buf off n :
  (0 <= off)%Z -> Z.to_nat off + n <= length buf -> is_Some (read_bytes buf off n).
Proof.
  intros Hoff Hl. unfold read_bytes. rewrite decide_True by done.
  apply mapM_is_Some_2, Forall_seq. intros i Hi. apply lookup_lt_is_Some_2. lia.
Qed.

Lemma strncpy_in buf i n : i + n <= length buf -> is_Some (strncpy buf i n).
Proof.
  revert i. induction n as [|n IH]; intros i Hl; simpl; [by eexists|].
  destruct (lookup_lt_is_Some_2 buf i ltac:(lia)) as [b ->]. simpl.
  destruct (Byte.eqb b Byte.x00); [by eexists|].
  destruct (IH (S i) ltac:(lia)) as [bs ->]. by eexists.
Qed.

(** Every attribute of a record of [getRecordSize] bytes can be read, and
    [getAttr] tags it with the schema's type. *)
Lemma getAttr_defined record schema k t :
  schema_wf schema -> getRecordSize schema = Some (Z.of_nat (length (data record))) ->
  k < Z.to_nat (numAttr schema) -> dataTypes schema !! k = Some t ->
  exists u, getAttr record schema (Z.of_nat k) = Some (mkValue t u).
Proof.
  intros Hwf Hsize Hk Ht.
  destruct (attr_layout schema k Hwf Hk) as (off & w & size & Hoff & Hw & Hs & Hoff0 & Hw0 & Hin).
  rewrite Hsize in Hs. injection Hs as <-.
  unfold getAttr. rewrite Hoff, !arr_get_nat, Ht. unfold attr_width in Hw. rewrite Ht in Hw.
  destruct t; simpl in Hw |- *; simplify_eq;
    try (match goal with |- context [read_bytes ?b ?o ?n] =>
           destruct (read_bytes_in b o n) as [bs ->]; [lia..|]; by eexists end).
  rewrite Hw. simpl. rewrite decide_True by lia.
  destruct (strncpy_in (data record) (Z.to_nat off) (Z.to_nat w)) as [bs ->]; [lia|]. by eexists.
Qed.

Lemma createRecord_size schema junk_id junk record :
  createRecord schema junk_id junk = Some record ->
  id record = junk_id /\ getRecordSize schema = Some (Z.of_nat (length (data record))).
Proof.
  unfold createRecord. destruct (getRecordSize schema) as [size|]; simpl; [|done].
  case_decide; [|done]. intros [= <-]. simpl. rewrite length_map, length_seq. split; [done|]. f_equal. lia.
Qed.

Lemma le_value_bound bs : (0 <= le_value bs < 2 ^ (8 * Z.of_nat (length bs)))%Z.
Proof.
  induction bs as [|b bs IH]; simpl; [lia|].
  pose proof (Byte.to_N_bounded b). rewrite Nat2Z.inj_succ, Z.mul_succ_r, Z.pow_add_r by lia. lia.
Qed.

Lemma read_bytes_length buf off k bs : read_bytes buf off k = Some bs -> length bs = k.
Proof.
  unfold read_bytes. case_decide; [|done]. intros Hm%mapM_Some_1.
  apply Forall2_length in Hm. by rewrite length_seq in Hm.
Qed.

(** An [int] attribute reads as a 32-bit integer, tagged [DT_INT]. *)
Ltac getAttr_cases :=
  unfold getAttr; rewrite !arr_get_nat;
  destruct (attrOffset _ _) as [off|]; simpl; [|done];
  destruct (dataTypes _ !! _) as [[]|]; simpl; try done;
  repeat match goal with
         | |- context [read_bytes ?b ?o ?n] => destruct (read_bytes b o n) as [bs|] eqn:E; simpl; [|done]
         | |- context [typeLength ?sc !! ?i] => destruct (typeLength sc !! i); simpl; [|done]
         | |- context [decide ?P] => case_decide; simpl; [|done]
         | |- context [strncpy ?b ?i ?n] => destruct (strncpy b i n); simpl; [|done]
         end.

(** An [int] attribute reads as a 32-bit integer, tagged [DT_INT]. *)
Lemma getAttr_int record schema k t x :
  getAttr record schema (Z.of_nat k) = Some (mkValue t (intV x)) ->
  t = DT_INT /\ dataTypes schema !! k = Some DT_INT /\ (- 2 ^ 31 <= x < 2 ^ 31)%Z.
Proof.
  getAttr_cases; intros [=]; subst. apply read_bytes_length in E. pose proof (le_value_bound bs) as Hb.
  rewrite E in Hb. split; [done|split; [done|]]. unfold to_signed.
  change (2 ^ (Z.of_nat 32 - 1))%Z with (2 ^ 31)%Z. change (2 ^ Z.of_nat 32)%Z with (2 ^ 32)%Z.
  change (8 * Z.of_nat SIZEOF_INT)%Z with 32%Z in Hb. destruct (Z.ltb_spec (le_value bs) (2 ^ 31)); lia.
Qed.

(** A string attribute reads as a buffer, tagged [DT_STRING]. *)
Lemma getAttr_string record schema k t buf :
  getAttr record schema (Z.of_nat k) = Some (mkValue t (stringV buf)) ->
  t = DT_STRING /\ dataTypes schema !! k = Some DT_STRING.
Proof. getAttr_cases; intros [=]; by subst. Qed.

(** [setAttr] leaves the other attributes alone. *)
Lemma set_other record schema j k value record' value' :
  schema_wf schema -> (0 <= j < numAttr schema)%Z -> (0 <= k < numAttr schema)%Z -> j <> k ->
  setAttr record schema k value = Some (record', value') ->
  getAttr record' schema j = getAttr record schema j.
Proof.
  intros Hwf Hj Hk Hjk Hset.
  destruct (Z_of_nat_complete j ltac:(lia)) as [jn ->].
  destruct (Z_of_nat_complete k ltac:(lia)) as [kn ->].
  destruct (attr_layout schema jn Hwf ltac:(lia)) as (oj & wj & size & Hoj & Hwj & _ & Hoj0 & Hwj0 & _).
  destruct (attr_layout schema kn Hwf ltac:(lia)) as (ok & wk & _ & Hok & Hwk & _ & Hok0 & Hwk0 & _).
  destruct (setAttr_writes _ _ _ _ _ _ _ _ Hok Hwk Hset) as (bs & Hw & Hlen).
  apply (getAttr_ext _ _ _ _ oj wj Hoj Hwj). intros i Hi.
  eapply write_bytes_frame; [exact Hw|].
  assert (jn < kn \/ kn < jn) as [Hlt|Hlt] by lia.
  - pose proof (attr_before schema Hwf jn kn oj wj ok ltac:(lia) Hoj Hwj Hok). lia.
  - pose proof (attr_before schema Hwf kn jn ok wk oj ltac:(lia) Hok Hwk Hoj). lia.
Qed.

(** ** Properties *)

(** C10. On a well-formed schema and a record of [getRecordSize] bytes,
    [setAttr] of a value that fits attribute [k] succeeds, changes only the
    record's data (and, for a string, the caller's buffer), and [getAttr]
    then reads back [stored len] of the value: integers modulo their width,
    a float's bit pattern, the C string of the first [len] bytes of a
    string. *)
Theorem setAttr_getAttr record schema k t len value :
  schema_wf schema -> getRecordSize schema = Some (Z.of_nat (length (data record))) ->
  (0 <= k < numAttr schema)%Z ->
  dataTypes schema !! Z.to_nat k = Some t -> typeLength schema !! Z.to_nat k = Some len ->
  fits t len (v value) = true ->
  exists record',
    setAttr record schema k value = Some (record', {| dt := dt value; v := after_set len (v value) |}) /\
    getAttr record' schema k = Some (mkValue t (stored len (v value))) /\
    id record' = id record /\ length (data record') = length (data record).
Proof. apply set_then_get. Qed.

(** [setAttr] on attribute [k] leaves every other attribute of the
    record as [getAttr] reads it: the attributes of a well-formed schema do
    not overlap. *)
Theorem setAttr_frame record schema j k value record' value' :
  schema_wf schema -> (0 <= j < numAttr schema)%Z -> (0 <= k < numAttr schema)%Z -> j <> k ->
  setAttr record schema k value = Some (record', value') ->
  getAttr record' schema j = getAttr record schema j.
Proof. apply set_other. Qed.

(** C36. [getRecordSize] and [attrOffset] compute the same layout: the
    record size is the offset one past the last attribute, although the two
    loops test the types in different orders. *)
Theorem getRecordSize_attrOffset schema :
  getRecordSize schema = attrOffset schema (numAttr schema).
Proof. apply sum_widths_ext, record_width_attr_width. Qed.

(** C37. [createRecord] on a well-formed schema allocates [getRecordSize]
    bytes, and every attribute of the new record can be read by [getAttr]
    inside that buffer, with the schema's type. *)
Theorem createRecord_getAttr schema junk_id junk :
  schema_wf schema ->
  exists record, createRecord schema junk_id junk = Some record /\
    getRecordSize schema = Some (Z.of_nat (length (data record))) /\
    forall k t, (0 <= k < numAttr schema)%Z -> dataTypes schema !! Z.to_nat k = Some t ->
      exists u, getAttr record schema k = Some (mkValue t u).
Proof.
  intros Hwf. destruct (getRecordSize_wf schema Hwf) as (size & Hs & Hs').
  destruct (createRecord schema junk_id junk) as [record|] eqn:E.
  - exists record. destruct (createRecord_size _ _ _ _ E) as [_ Hsize].
    split_and!; [done|done|]. intros k t Hk Ht.
    destruct (Z_of_nat_complete k ltac:(lia)) as [kn ->]. rewrite Nat2Z.id in Ht.
    apply getAttr_defined; [done|done|lia|done].
  - exfalso. unfold createRecord in E. rewrite Hs in E. simpl in E.
    destruct (attrOffset_wf schema Hwf (Z.to_nat (numAttr schema)) ltac:(lia)) as (s' & Hs'' & Hpos).
    rewrite Hs' in Hs''. injection Hs'' as <-. rewrite decide_True in E by done. done.
Qed.

(** [setAttr] on a string attribute of length [len] writes a NUL into
    the caller's string at index [len]: a caller's string of more than
    [len] bytes comes back cut to its first [len] bytes, and one of at most
    [len] bytes (a string shorter than [len] characters) is written past
    its end, so [setAttr] has no defined result. *)
Theorem setAttr_string_caller record schema k d (buf : list Byte.byte) (len : Z) :
  schema_wf schema -> getRecordSize schema = Some (Z.of_nat (length (data record))) ->
  (0 <= k < numAttr schema)%Z -> dataTypes schema !! Z.to_nat k = Some DT_STRING ->
  typeLength schema !! Z.to_nat k = Some len ->
  ((Z.of_nat (length buf) <= len)%Z -> setAttr record schema k (mkValue d (stringV buf)) = None) /\
  ((len < Z.of_nat (length buf))%Z -> exists record' buf',
     setAttr record schema k (mkValue d (stringV buf)) = Some (record', mkValue d (stringV buf')) /\
     c_str buf' = c_str (take (Z.to_nat len) buf) /\ length buf' = length buf).
Proof.
  intros Hwf Hsize Hk Ht Hl. split.
  - intros Hshort. destruct (Z_of_nat_complete k ltac:(lia)) as [kn ->]. rewrite Nat2Z.id in Ht, Hl.
    destruct (attr_layout schema kn Hwf ltac:(lia)) as (off & _ & _ & Hoff & _).
    unfold setAttr. rewrite Hoff, !arr_get_nat, Ht. simpl. rewrite Hl. simpl.
    by rewrite decide_False by lia.
  - intros Hlong. assert (Hpos : (0 <= len)%Z).
    { destruct Hwf as (_ & _ & _ & Hpos). by eapply Forall_lookup_1. }
    destruct (set_then_get record schema k DT_STRING len (mkValue d (stringV buf)) Hwf Hsize Hk Ht Hl)
      as (r' & Hs & _); [simpl; by rewrite bool_decide_eq_true|].
    eexists _, _. split; [exact Hs|]. split.
    + apply c_str_insert_nul. lia.
    + apply length_insert.
Qed.

(** ** Witnesses *)

(** The schema [(a : int, b : char[4], c : int)] of the record-manager
    tests, a zeroed record of its 12 bytes, and the caller's string
    ["abcde"]. *)
Definition abc_schema : Schema :=
  createSchema 3 ["a"; "b"; "c"]%string [DT_INT; DT_STRING; DT_INT] [0; 4; 0]%Z 1 [0%Z].

Definition zero_record : Record_ := mkRecord (mkRID 1 0) (repeat Byte.x00 12).

Definition abcde : list Byte.byte := [Byte.x61; Byte.x62; Byte.x63; Byte.x64; Byte.x65; Byte.x00].

Ltac concrete_hyp :=
  first [ reflexivity | (apply (bool_decide_unpack _); vm_compute; exact I) | (vm_compute; lia) ].

Lemma setAttr_getAttr_witness :
  exists record',
    setAttr zero_record abc_schema 1 (mkValue DT_STRING (stringV abcde)) =
      Some (record', {| dt := DT_STRING; v := after_set 4 (stringV abcde) |}) /\
    getAttr record' abc_schema 1 = Some (mkValue DT_STRING (stored 4 (stringV abcde))) /\
    id record' = id zero_record /\ length (data record') = length (data zero_record).
Proof. apply (setAttr_getAttr zero_record abc_schema 1 DT_STRING 4); concrete_hyp. Defined.

Lemma setAttr_frame_witness :
  getAttr (fst (default (zero_record, mkValue DT_INT (intV 0))
                 (setAttr zero_record abc_schema 1 (mkValue DT_STRING (stringV abcde)))))
          abc_schema 2 = getAttr zero_record abc_schema 2.
Proof.
  apply (setAttr_frame zero_record abc_schema 2 1 (mkValue DT_STRING (stringV abcde)) _
           (snd (default (zero_record, mkValue DT_INT (intV 0))
                   (setAttr zero_record abc_schema 1 (mkValue DT_STRING (stringV abcde))))));
    concrete_hyp.
Defined.

Lemma createRecord_getAttr_witness :
  exists record, createRecord abc_schema (mkRID 0 0) (fun _ => Byte.x2a) = Some record /\
    getRecordSize abc_schema = Some (Z.of_nat (length (data record))) /\
    forall k t, (0 <= k < numAttr abc_schema)%Z -> dataTypes abc_schema !! Z.to_nat k = Some t ->
      exists u, getAttr record abc_schema k = Some (mkValue t u).
Proof. apply createRecord_getAttr; concrete_hyp. Defined.

Lemma setAttr_string_caller_witness :
  ((Z.of_nat (length abcde) <= 4)%Z ->
   setAttr zero_record abc_schema 1 (mkValue DT_STRING (stringV abcde)) = None) /\
  ((4 < Z.of_nat (length abcde))%Z -> exists record' buf',
     setAttr zero_record abc_schema 1 (mkValue DT_STRING (stringV abcde)) =
       Some (record', mkValue DT_STRING (stringV buf')) /\
     c_str buf' = c_str (take (Z.to_nat 4) abcde) /\ length buf' = length abcde).
Proof. apply setAttr_string_caller; concrete_hyp. Defined.
