(* ===== verification/CString.v ===== *)
(** * C strings and the C library calls of the parsers

    [src/rm_deserializer.c] splits its input with [strtok] and converts the
    pieces with [strtol], [atoi] and [strtof]; the records it parses are
    printed with [sprintf("%d")] ([%i]).  These are C library functions,
    not code of the repository: they are modelled here from the C standard,
    on the bytes of a C string (the bytes before its NUL).

    - [strtok] keeps, between calls, a pointer into the string it cuts; the
      model passes that state explicitly: [strtok d s] is the token and the
      state after it, [s] being the bytes from the saved pointer on.
    - [strtol(s, _, 10)] skips white space, reads a sign and decimal digits;
      its [long] result saturates at [LONG_MIN]/[LONG_MAX].  Converting it
      to [int] keeps it modulo [2^32] (the conversion GCC documents).
    - [sprintf("%d", i)] prints an [int] in decimal; [DEC_FUEL] digits are
      enough for any 64-bit integer. *)

From Stdlib Require Import Strings.Byte.
From S2P Require Import Prelude Storage RecordMgr.

(** ** Characters *)

Definition byte_in (c : Byte.byte) (d : list Byte.byte) : bool := bool_decide (c ∈ d).

(** [isdigit] and the digit's value. *)
Definition digit_val (c : Byte.byte) : Z := (Z.of_N (Byte.to_N c) - 48)%Z.
Definition is_digit (c : Byte.byte) : bool := bool_decide (0 <= digit_val c <= 9)%Z.

(** [isspace] in the C locale: space, [\t], [\n], [\v], [\f], [\r]. *)
Definition is_space (c : Byte.byte) : bool :=
  bool_decide (Z.of_N (Byte.to_N c) = 32 \/ 9 <= Z.of_N (Byte.to_N c) <= 13)%Z.

Definition digit_byte (d : Z) : Byte.byte := byte_of_Z (48 + d).

(** ** [strtok] *)

(** [s += strspn(s, delim)]. *)
Fixpoint skip_delims (d s : list Byte.byte) : list Byte.byte :=
  match s with
  | [] => []
  | c :: s' => if byte_in c d then skip_delims d s' else s
  end.

(** [strpbrk(token, delim)]: the token, and what follows the delimiter
    that ends it ([None] when the string ends first). *)
Fixpoint token_split (d s : list Byte.byte) : list Byte.byte * option (list Byte.byte) :=
  match s with
  | [] => ([], None)
  | c :: s' =>
      if byte_in c d then ([], Some s')
      else let '(t, r) := token_split d s' in (c :: t, r)
  end.

(** [strtok(s, delim)] on the string [s] (or, for [strtok(NULL, delim)],
    on the saved state [s]): the token ([None] for [NULL]) and the new
    state.  The delimiter that ends a token is overwritten by a NUL and the
    state moves past it; at the end of the string the state is empty. *)
Definition strtok (d s : list Byte.byte) : option (list Byte.byte) * list Byte.byte :=
  match skip_delims d s with
  | [] => (None, [])
  | s1 => let '(t, r) := token_split d s1 in (Some t, default [] r)
  end.

(** ** [strtol] and [atoi] *)

Fixpoint skip_spaces (s : list Byte.byte) : list Byte.byte :=
  match s with
  | [] => []
  | c :: s' => if is_space c then skip_spaces s' else s
  end.

(** The digits at the start of [s], accumulated onto [acc]. *)
Fixpoint read_digits (s : list Byte.byte) (acc : Z) : Z :=
  match s with
  | [] => acc
  | c :: s' => if is_digit c then read_digits s' (10 * acc + digit_val c) else acc
  end.

Definition LONG_MIN : Z := (- 2 ^ 63)%Z.
Definition LONG_MAX : Z := (2 ^ 63 - 1)%Z.

Definition minus_sign : Byte.byte := Byte.x2d.
Definition plus_sign : Byte.byte := Byte.x2b.

(** [strtol(s, &end, 10)]. *)
Definition strtol10 (s : list Byte.byte) : Z :=
  let s1 := skip_spaces s in
  let '(neg, s2) := match s1 with
                    | c :: s' => if Byte.eqb c minus_sign then (true, s')
                                 else if Byte.eqb c plus_sign then (false, s') else (false, s1)
                    | [] => (false, [])
                    end in
  let m := read_digits s2 0 in
  Z.max LONG_MIN (Z.min LONG_MAX (if neg then - m else m)).

(** The conversion of a [long] to [int]. *)
Definition to_int32 (z : Z) : Z := to_signed 32 (z mod 2 ^ 32).

(** [atoi(s)], as [(int) strtol(s, NULL, 10)]. *)
Definition atoi (s : list Byte.byte) : Z := to_int32 (strtol10 s).

(** ** [sprintf("%d", i)] *)

Definition DEC_FUEL : nat := 20.

(** The decimal digits of [n >= 0], most significant first, before [acc]. *)
Fixpoint dec_digits (fuel : nat) (n : Z) (acc : list Byte.byte) : list Byte.byte :=
  match fuel with
  | 0 => acc
  | S fuel' =>
      let acc' := digit_byte (n mod 10) :: acc in
      if Z.ltb n 10 then acc' else dec_digits fuel' (n / 10) acc'
  end.

Definition sprintf_d (z : Z) : list Byte.byte :=
  if Z.ltb z 0 then minus_sign :: dec_digits DEC_FUEL (- z) [] else dec_digits DEC_FUEL z [].

(** [strlen(buf)]: the index of the first NUL; reading past the end of the
    buffer is undefined. *)
Fixpoint c_strlen (buf : list Byte.byte) : option nat :=
  match buf with
  | [] => None
  | b :: buf' => if Byte.eqb b Byte.x00 then Some 0 else S <$> c_strlen buf'
  end.

(** ** Lemmas *)

Definition no_delim (d t : list Byte.byte) : Prop := Forall (fun c => byte_in c d = false) t.

Lemma token_split_app d t c rest :
  no_delim d t -> byte_in c d = true -> token_split d (t ++ c :: rest) = (t, Some rest).
Proof. induction 1 as [|x t Hx _ IH]; intros Hc; simpl; [by rewrite Hc|]. by rewrite Hx, IH. Qed.

Lemma token_split_all d t : no_delim d t -> token_split d t = (t, None).
Proof. induction 1 as [|x t Hx _ IH]; simpl; [done|]. by rewrite Hx, IH. Qed.

(** A token followed by one of the delimiters. *)
Lemma strtok_token d t c rest :
  t <> [] -> no_delim d t -> byte_in c d = true -> strtok d (t ++ c :: rest) = (Some t, rest).
Proof.
  intros Hne Ht Hc. destruct t as [|x t']; [done|]. inversion Ht as [|? ? Hx _]; subst.
  unfold strtok. cbn [skip_delims app]. rewrite Hx. cbn -[token_split].
  change (x :: t' ++ c :: rest) with ((x :: t') ++ c :: rest). by rewrite token_split_app.
Qed.

(** A token that ends the string. *)
Lemma strtok_last d t : t <> [] -> no_delim d t -> strtok d t = (Some t, []).
Proof.
  intros Hne Ht. destruct t as [|x t']; [done|]. inversion Ht as [|? ? Hx _]; subst.
  unfold strtok. cbn [skip_delims]. rewrite Hx. cbn -[token_split]. by rewrite token_split_all.
Qed.

Lemma no_delim_app d t1 t2 : no_delim d (t1 ++ t2) <-> no_delim d t1 /\ no_delim d t2.
Proof. apply Forall_app. Qed.

(** *** Decimal numbers *)

Definition digit_step (acc : Z) (c : Byte.byte) : Z := (10 * acc + digit_val c)%Z.

Lemma digit_byte_val d : (0 <= d <= 9)%Z -> digit_val (digit_byte d) = d.
Proof.
  intros Hd. unfold digit_val, digit_byte. rewrite byte_of_Z_value. rewrite Z.mod_small by lia. lia.
Qed.

Lemma digit_byte_is_digit d : (0 <= d <= 9)%Z -> is_digit (digit_byte d) = true.
Proof. intros Hd. unfold is_digit. rewrite digit_byte_val by done. by apply bool_decide_true. Qed.

Lemma read_digits_app ds rest a :
  Forall (fun c => is_digit c = true) ds ->
  read_digits (ds ++ rest) a = read_digits rest (fold_left digit_step ds a).
Proof.
  intros Hds. revert a. induction Hds as [|c ds Hc _ IH]; intros a; simpl; [done|].
  rewrite Hc. apply IH.
Qed.

Lemma dec_digits_app fuel n acc : dec_digits fuel n acc = dec_digits fuel n [] ++ acc.
Proof.
  revert n acc. induction fuel as [|fuel IH]; intros n acc; simpl; [done|].
  destruct (Z.ltb n 10); [done|]. rewrite (IH _ (_ :: acc)), (IH _ [_]). by rewrite <- app_assoc.
Qed.

(** [fuel] digits print every [0 <= n < 10^fuel]: the digits read back as
    [n]. *)
Lemma dec_digits_S fuel n :
  dec_digits (S fuel) n [] =
    if Z.ltb n 10 then [digit_byte (n mod 10)] else dec_digits fuel (n / 10) [] ++ [digit_byte (n mod 10)].
Proof. simpl. destruct (Z.ltb n 10); [done|apply dec_digits_app]. Qed.

Lemma dec_digits_spec fuel n :
  (0 <= n < 10 ^ Z.of_nat (S fuel))%Z ->
  dec_digits (S fuel) n [] <> [] /\ Forall (fun c => is_digit c = true) (dec_digits (S fuel) n []) /\
  fold_left digit_step (dec_digits (S fuel) n []) 0%Z = n.
Proof.
  revert n. induction fuel as [|fuel IH]; intros n Hn;
    pose proof (Z.mod_pos_bound n 10 ltac:(lia)) as Hm; rewrite dec_digits_S.
  all: destruct (Z.ltb_spec n 10) as [Hlt|Hge].
  1,3: rewrite Z.mod_small by lia; split_and!; [done|constructor; [apply digit_byte_is_digit; lia|done]|];
       simpl; unfold digit_step; rewrite digit_byte_val; lia.
  { simpl in Hn. lia. }
  rewrite Nat2Z.inj_succ, Z.pow_succ_r in Hn by lia.
  destruct (IH (n / 10)%Z) as (Hne & Hd & Hv); [split; [apply Z.div_pos; lia|apply Z.div_lt_upper_bound; lia]|].
  split_and!.
  - intros E. apply (f_equal length) in E. rewrite length_app in E. simpl in E. lia.
  - apply Forall_app. split; [done|]. constructor; [apply digit_byte_is_digit; lia|done].
  - rewrite fold_left_app, Hv. simpl. unfold digit_step. rewrite digit_byte_val by lia.
    pose proof (Z.div_mod n 10). lia.
Qed.

Lemma is_digit_not_space c : is_digit c = true -> is_space c = false.
Proof.
  unfold is_digit, is_space, digit_val. intros H. apply bool_decide_eq_true in H.
  apply bool_decide_eq_false. lia.
Qed.

(** [strtol] reads back what [sprintf("%d")] prints, up to a character
    that is not a digit. *)
Lemma strtol_sprintf_d z rest :
  (LONG_MIN <= z <= LONG_MAX)%Z ->
  (match rest with c :: _ => is_digit c = false | [] => True end) ->
  strtol10 (sprintf_d z ++ rest) = z.
Proof.
  intros Hz Hr.
  assert (Hend : forall a, read_digits rest a = a) by (intros a; destruct rest as [|c r]; simpl; [done|by rewrite Hr]).
  assert (Hfuel : forall m, (0 <= m <= 2 ^ 63)%Z -> (0 <= m < 10 ^ Z.of_nat (S 19))%Z)
    by (intros m Hm; change (10 ^ Z.of_nat (S 19))%Z with 100000000000000000000%Z; lia).
  unfold strtol10, sprintf_d, LONG_MIN, LONG_MAX in *. destruct (Z.ltb_spec z 0).
  - destruct (dec_digits_spec 19 (- z) (Hfuel (- z)%Z ltac:(lia))) as (_ & Hd & Hv).
    cbn [skip_spaces app]. change (is_space minus_sign) with false. cbn -[read_digits dec_digits DEC_FUEL].
    unfold DEC_FUEL. rewrite read_digits_app, Hend, Hv by done. lia.
  - destruct (dec_digits_spec 19 z (Hfuel z ltac:(lia))) as (Hne & Hd & Hv).
    unfold DEC_FUEL. destruct (dec_digits 20 z []) as [|c ds] eqn:E; [done|].
    inversion Hd as [|? ? Hc Hds]; subst. simpl.
    rewrite (is_digit_not_space c Hc).
    assert (Hm : Byte.eqb c minus_sign = false /\ Byte.eqb c plus_sign = false).
    { unfold is_digit, digit_val in Hc. apply bool_decide_eq_true in Hc.
      split; match goal with |- Byte.eqb c ?m = false =>
        destruct (Byte.eqb c m) eqn:E1; [apply Byte.byte_dec_bl in E1; subst; simpl in Hc; lia|done] end. }
    destruct Hm as [-> ->]. change (c :: ds ++ rest) with ((c :: ds) ++ rest).
    rewrite read_digits_app, Hend by done. simpl in Hz |- *. lia.
Qed.

(** *** Delimiters the printed numbers avoid *)

Lemma byte_in_false c d : ~ c ∈ d -> byte_in c d = false.
Proof. intros H. by apply bool_decide_eq_false. Qed.

Lemma byte_in_true c d : c ∈ d -> byte_in c d = true.
Proof. intros H. by apply bool_decide_eq_true. Qed.

Lemma dec_digits_digits fuel n acc :
  Forall (fun c => is_digit c = true) acc -> Forall (fun c => is_digit c = true) (dec_digits fuel n acc).
Proof.
  revert n acc. induction fuel as [|fuel IH]; intros n acc Hacc; simpl; [done|].
  pose proof (Z.mod_pos_bound n 10 ltac:(lia)).
  assert (Forall (fun c => is_digit c = true) (digit_byte (n mod 10) :: acc))
    by (constructor; [apply digit_byte_is_digit; lia|done]).
  destruct (Z.ltb n 10); [done|by apply IH].
Qed.

(** [sprintf("%d")] prints a non-empty text of digits and minus signs, so
    it contains no delimiter that is neither. *)
Lemma sprintf_d_no_delim d z :
  Forall (fun c => is_digit c = false /\ c <> minus_sign) d ->
  sprintf_d z <> [] /\ no_delim d (sprintf_d z).
Proof.
  intros Hd.
  assert (Hdig : forall c, is_digit c = true -> byte_in c d = false).
  { intros c Hc. apply byte_in_false. intros Hin%list_elem_of_In. rewrite Forall_forall in Hd.
    destruct (Hd c Hin) as [Hc' _]. congruence. }
  assert (Hne : forall n, dec_digits DEC_FUEL n [] <> []) by (intros n; unfold DEC_FUEL; rewrite dec_digits_S; case_match; [done|intros E; apply (f_equal length) in E; rewrite length_app in E; simpl in E; lia]).
  assert (Hall : forall n, no_delim d (dec_digits DEC_FUEL n [])).
  { intros n. exact (Forall_impl _ Hdig (dec_digits_digits DEC_FUEL n [] (Forall_nil _))). }
  unfold sprintf_d. destruct (Z.ltb z 0); [|done]. split; [done|]. constructor; [|apply Hall].
  apply byte_in_false. intros Hin%list_elem_of_In. rewrite Forall_forall in Hd. by destruct (Hd minus_sign Hin).
Qed.

(** A C string with no NUL is all of its bytes. *)
Lemma c_str_id d s : Byte.x00 ∈ d -> no_delim d s -> c_str s = s.
Proof.
  intros H0. induction 1 as [|c s Hc _ IH]; simpl; [done|].
  destruct (Byte.eqb c Byte.x00) eqn:E; [|by rewrite IH].
  apply Byte.byte_dec_bl in E. subst. rewrite (byte_in_true _ _ H0) in Hc. done.
Qed.

Lemma no_delim_sub d d' s : (forall c, c ∈ d' -> c ∈ d) -> no_delim d s -> no_delim d' s.
Proof.
  intros Hsub. apply Forall_impl. intros c Hc. apply byte_in_false. intros Hin.
  apply Hsub in Hin. apply byte_in_true in Hin. congruence.
Qed.

Lemma to_int32_id z : (- 2 ^ 31 <= z < 2 ^ 31)%Z -> to_int32 z = z.
Proof.
  intros Hz. pose proof (proj2 (to_signed_mod 32 z ltac:(lia))) as H.
  change (Z.of_nat 32 - 1)%Z with 31%Z in H. exact (H Hz).
Qed.

(** *** C strings *)

(** A C string holds no NUL. *)
Lemma c_str_no_nul s : no_delim [Byte.x00] (c_str s).
Proof.
  induction s as [|c s IH]; simpl; [constructor|].
  destruct (Byte.eqb c Byte.x00) eqn:E; [constructor|]. constructor; [|done].
  apply byte_in_false. intros ->%list_elem_of_singleton. done.
Qed.

Lemma c_str_idem s : c_str (c_str s) = c_str s.
Proof. apply (c_str_id [Byte.x00]); [constructor|apply c_str_no_nul]. Qed.

Lemma c_str_app_nul s : c_str (s ++ [Byte.x00]) = c_str s.
Proof. induction s as [|c s IH]; simpl; [done|]. by rewrite IH. Qed.

(** What [strncpy] copies: the C string of the source, padded with NULs to
    [n] bytes. *)
Lemma strncpy_shape buf i n bs :
  strncpy buf i n = Some bs -> length bs = n /\ bs = c_str bs ++ repeat Byte.x00 (n - length (c_str bs)).
Proof.
  revert i bs. induction n as [|n IH]; intros i bs; simpl; [by intros [= <-]|].
  destruct (buf !! i) as [b|]; simpl; [|done].
  destruct (Byte.eqb b Byte.x00) eqn:E; [intros [= <-]; split; [exact (repeat_length _ (S n))|done]|].
  destruct (strncpy buf (S i) n) as [bs'|] eqn:Hs; simpl; [|done]. intros [= <-].
  destruct (IH _ _ Hs) as [Hl Hbs]. simpl. rewrite E. simpl. split; [by f_equal|]. by rewrite <- Hbs.
Qed.

Lemma no_delim_union d1 d2 s : no_delim d1 s -> no_delim d2 s -> no_delim (d1 ++ d2) s.
Proof.
  unfold no_delim. rewrite !Forall_forall. intros H1 H2 c Hc.
  apply byte_in_false. intros [Hin|Hin]%elem_of_app; apply byte_in_true in Hin;
    [rewrite H1 in Hin|rewrite H2 in Hin]; done.
Qed.

Lemma c_strlen_app s rest : no_delim [Byte.x00] s -> c_strlen (s ++ Byte.x00 :: rest) = Some (length s).
Proof.
  induction 1 as [|c s Hc _ IH]; simpl; [done|]. rewrite IH.
  destruct (Byte.eqb c Byte.x00) eqn:E; [|done]. apply Byte.byte_dec_bl in E. subst.
  by rewrite byte_in_true in Hc by constructor.
Qed.

Lemma c_strlen_Some d n : c_strlen d = Some n -> n < length d.
Proof.
  revert n. induction d as [|c d IH]; intros n; simpl; [done|].
  destruct (Byte.eqb c Byte.x00); [intros [= <-]; lia|].
  destruct (c_strlen d) as [m|] eqn:E; simpl; [|done]. intros [= <-]. specialize (IH m eq_refl). lia.
Qed.

(** [strlen] counts the bytes of the C string the buffer holds. *)
Lemma c_strlen_c_str s n : c_strlen s = Some n -> take n s = c_str s /\ n = length (c_str s).
Proof.
  revert n. induction s as [|c s IH]; intros n; simpl; [done|].
  destruct (Byte.eqb c Byte.x00); [by intros [= <-]|].
  destruct (c_strlen s) as [m|]; simpl; [|done]. intros [= <-].
  simpl. destruct (IH m eq_refl) as [-> ->]. done.
Qed.
