(* ===== verification/VarString.v ===== *)
(** * The dynamic strings of [rm_deserializer.c]

    [src/rm_deserializer.c] opens with a string builder: the struct
    [VarString] (a buffer [buf], the [size] bytes written so far, the
    allocated [bufsize]) and the macros [MAKE_VARSTRING], [ENSURE_SIZE],
    [APPEND_STRING], [APPEND], [GET_STRING] and [RETURN_STRING]
    (lines 9-68).  [deserializeSchema] creates one with [MAKE_VARSTRING]
    and never uses it.

    The model keeps in [buf] the whole allocation [var->buf] points to, so
    that its length is the allocation's size, and [bufsize] as the field
    the code keeps.  The bytes [malloc] and [realloc] leave indeterminate
    are the parameter [junk] (by their position); [realloc] is assumed to
    succeed.  [newbufsize *= 2] is a signed [int] multiplication: its
    overflow is undefined and the model returns [None].

    The theorems: appending C strings and reading the result back gives
    their concatenation ([varstring_roundtrip], a refinement of the
    builder by list concatenation), and [ENSURE_SIZE] overflows exactly
    when the size asked for exceeds [VS_MAX = 100 * 2^24]
    ([ENSURE_SIZE_overflow]).  [ENSURE_SIZE] never updates [bufsize]: it
    stays [100], and every append past 100 bytes reallocates. *)

From stdpp Require Import list.
From S2P Require Import Prelude RecordMgr CString.

Definition INT_MAX : Z := (2 ^ 31 - 1)%Z.

(** The largest size [ENSURE_SIZE] reaches from [bufsize = 100] before
    [newbufsize] overflows: [100 * 2^24]. *)
Definition VS_MAX : Z := (100 * 2 ^ 24)%Z.

(** [typedef struct VarString { char *buf; int size; int bufsize; }]. *)
Record VarString := mkVS { buf : list Byte.byte; size : Z; bufsize : Z }.

Section VarString.
Context (junk : nat -> Byte.byte).

(** [MAKE_VARSTRING(var)]: [size = 0], [bufsize = 100], [buf = malloc(100)]. *)
Definition MAKE_VARSTRING : VarString := mkVS (junk <$> seq 0 100) 0 100.

(** [while ((newbufsize *= 2) < newsize);]: [newbufsize] is an [int]; the
    loop doubles it at least once.  With [nb >= 1] it overflows after at
    most 31 doublings, so 32 units of fuel never run out
    ([double_loop_reaches]). *)
Fixpoint double_loop (fuel : nat) (nb newsize : Z) : option Z :=
  match fuel with
  | 0 => None
  | S fuel' =>
      let nb' := (nb * 2)%Z in
      if decide (INT_MAX < nb')%Z then None
      else if decide (nb' < newsize)%Z then double_loop fuel' nb' newsize else Some nb'
  end.

(** [realloc(b, n)]: the first bytes kept, the new ones indeterminate. *)
Definition realloc_buf (b : list Byte.byte) (n : Z) : list Byte.byte :=
  take (Z.to_nat n) b ++ (junk <$> seq (length b) (Z.to_nat n - length b)).

(** [ENSURE_SIZE(var, newsize)]: [bufsize] is read and never written. *)
Definition ENSURE_SIZE (v : VarString) (newsize : Z) : option VarString :=
  if decide (bufsize v < newsize)%Z then
    nb ← double_loop 32 (bufsize v) newsize;
    Some (mkVS (realloc_buf (buf v) nb) (size v) (bufsize v))
  else Some v.

(** [APPEND_STRING(var, string)]: [ENSURE_SIZE(var, var->size + strlen(string));
    memcpy(var->buf + var->size, string, strlen(string));
    var->size += strlen(string);]. *)
Definition APPEND_STRING (v : VarString) (string : list Byte.byte) : option VarString :=
  len ← c_strlen string;
  v1 ← ENSURE_SIZE v (size v + Z.of_nat len);
  b ← write_bytes (buf v1) (size v1) (take len string);
  Some (mkVS b (to_int32 (size v1 + Z.of_nat len)) (bufsize v1)).

(** [APPEND(var, fmt, ...)]: [sprintf] into a buffer of 10000 bytes, then
    [APPEND_STRING]; [text] is what [sprintf] prints. *)
Definition APPEND (v : VarString) (text : list Byte.byte) : option VarString :=
  if decide (length text + 1 <= 10000) then APPEND_STRING v (text ++ [Byte.x00]) else None.

(** [GET_STRING(result, var)]: [malloc(size + 1)], [memcpy] of [size]
    bytes, a NUL. *)
Definition GET_STRING (v : VarString) : option (list Byte.byte) :=
  bs ← read_bytes (buf v) 0 (Z.to_nat (size v));
  if decide (0 <= size v)%Z then Some (bs ++ [Byte.x00]) else None.

(** [RETURN_STRING(var)]: [GET_STRING], then [FREE_VARSTRING] frees the
    builder and the string is returned. *)
Definition RETURN_STRING (v : VarString) : option (list Byte.byte) := GET_STRING v.

(** ** The builder's invariant and its contents *)

(** What every [VarString] the macros build satisfies. *)
Definition vs_ok (v : VarString) : Prop :=
  bufsize v = 100%Z /\ 100 <= length (buf v) /\ (0 <= size v <= Z.of_nat (length (buf v)))%Z.

(** [v] holds the string [c]: its first [size] bytes. *)
Definition holds (v : VarString) (c : list Byte.byte) : Prop :=
  size v = Z.of_nat (length c) /\ forall j, j < length c -> buf v !! j = c !! j.

(** A client appending C strings one after the other. *)
Fixpoint append_strings (v : VarString) (ss : list (list Byte.byte)) : option VarString :=
  match ss with
  | [] => Some v
  | s :: ss' => v' ← APPEND_STRING v s; append_strings v' ss'
  end.

(** ** The doubling loop *)

Lemma double_loop_reaches fuel nb n j :
  (1 <= nb < n)%Z -> (n <= nb * 2 ^ Z.of_nat j <= INT_MAX)%Z -> j <= fuel ->
  exists r, double_loop fuel nb n = Some r /\ (n <= r)%Z.
Proof.
  revert nb j. induction fuel as [|fuel IH]; intros nb j Hnb Hj Hf.
  { assert (j = 0) as -> by lia. simpl in Hj. lia. }
  destruct j as [|j]; [simpl in Hj; lia|].
  rewrite Nat2Z.inj_succ, Z.pow_succ_r in Hj by lia.
  assert (0 < 2 ^ Z.of_nat j)%Z by (apply Z.pow_pos_nonneg; lia).
  simpl. rewrite decide_False by nia.
  case_decide; [|eexists; split; [done|lia]].
  apply (IH _ j); [lia|nia|lia].
Qed.

Lemma double_loop_sound fuel nb n r :
  (1 <= nb)%Z -> double_loop fuel nb n = Some r ->
  (n <= r <= INT_MAX)%Z /\ exists k, r = (nb * 2 ^ Z.of_nat (S k))%Z.
Proof.
  revert nb. induction fuel as [|fuel IH]; intros nb Hnb; simpl; [done|].
  case_decide; [done|]. case_decide.
  - intros (? & k & ->)%IH; [|lia]. split; [done|]. exists (S k).
    rewrite (Nat2Z.inj_succ (S k)), Z.pow_succ_r by lia. lia.
  - intros [= <-]. split; [lia|]. exists 0. simpl. lia.
Qed.

(** From [100], the doublings that fit an [int] stop at [VS_MAX]. *)
Lemma doubling_100_bound k :
  (100 * 2 ^ Z.of_nat (S k) <= INT_MAX)%Z -> (100 * 2 ^ Z.of_nat (S k) <= VS_MAX)%Z.
Proof.
  unfold VS_MAX, INT_MAX. intros H. destruct (decide (S k <= 24)).
  - assert (2 ^ Z.of_nat (S k) <= 2 ^ 24)%Z by (apply Z.pow_le_mono_r; lia). lia.
  - assert (2 ^ 25 <= 2 ^ Z.of_nat (S k))%Z by (apply Z.pow_le_mono_r; lia). lia.
Qed.

(** ** Reallocation and the bytes it keeps *)

Lemma length_realloc_buf b n : length (realloc_buf b n) = Z.to_nat n.
Proof. unfold realloc_buf. rewrite length_app, length_take, length_fmap, length_seq. lia. Qed.

Lemma realloc_buf_lookup b n j : j < Z.to_nat n -> j < length b -> realloc_buf b n !! j = b !! j.
Proof. intros. unfold realloc_buf. rewrite lookup_app_l by (rewrite length_take; lia). by rewrite lookup_take_lt. Qed.

Lemma ENSURE_SIZE_spec v c n :
  vs_ok v -> holds v c -> (size v <= n <= VS_MAX)%Z ->
  exists v', ENSURE_SIZE v n = Some v' /\ size v' = size v /\ bufsize v' = bufsize v /\
    100 <= length (buf v') /\ (n <= Z.of_nat (length (buf v')))%Z /\ holds v' c.
Proof.
  intros (Hb & Hl & Hs) [Hc Hj] Hn. unfold ENSURE_SIZE. case_decide as Hlt.
  - destruct (double_loop_reaches 32 (bufsize v) n 24) as (r & Hr & Hnr);
      [lia|rewrite Hb; unfold VS_MAX, INT_MAX in *; simpl; lia|lia|].
    pose proof (double_loop_sound 32 (bufsize v) n r ltac:(lia) Hr) as [? _].
    rewrite Hr. eexists; split; [reflexivity|]. cbn [buf size bufsize]. rewrite length_realloc_buf.
    do 2 (split; [done|]). split; [lia|]. split; [lia|]. split; [done|].
    intros j Hjc. cbn [buf]. rewrite realloc_buf_lookup by lia. by apply Hj.
  - eexists. split; [done|]. do 3 (split; [done|]). split; [lia|]. done.
Qed.

Lemma holds_app v c b s :
  holds v c -> write_bytes (buf v) (size v) s = Some b ->
  forall j, j < length (c ++ s) -> b !! j = (c ++ s) !! j.
Proof.
  intros [Hc Hj] Hw j. rewrite length_app. intros Hjl.
  pose proof (write_bytes_length _ _ _ _ Hw) as Hbl.
  apply write_bytes_inv in Hw as (-> & _ & Hfit). rewrite Hc, Nat2Z.id in *.
  destruct (decide (j < length c)).
  - rewrite lookup_memcpy_to_out by lia. rewrite lookup_app_l by done. by apply Hj.
  - rewrite lookup_memcpy_to_in by lia. by rewrite lookup_app_r by lia.
Qed.

(** [APPEND_STRING] refines appending the C string to the contents, as long
    as [ENSURE_SIZE] does not overflow. *)
Lemma APPEND_STRING_spec v c string n :
  vs_ok v -> holds v c -> c_strlen string = Some n -> (Z.of_nat (length c + n) <= VS_MAX)%Z ->
  exists v', APPEND_STRING v string = Some v' /\ vs_ok v' /\ holds v' (c ++ take n string).
Proof.
  intros Hok Hh Hn Hmax. pose proof Hh as [Hc _]. pose proof (c_strlen_Some _ _ Hn).
  destruct (ENSURE_SIZE_spec v c (size v + Z.of_nat n) Hok Hh ltac:(lia))
    as (v1 & He & Hs1 & Hb1 & Hl1 & Hn1 & Hh1).
  unfold APPEND_STRING. rewrite Hn. simpl. rewrite He. simpl.
  assert (Hfit : Z.to_nat (size v1) + length (take n string) <= length (buf v1))
    by (rewrite length_take; lia).
  pose proof Hok as (Hb & _ & Hsv).
  rewrite (write_bytes_Some (buf v1) (size v1) (take n string) ltac:(lia) Hfit). simpl.
  eexists; split; [reflexivity|]. rewrite length_take in Hfit.
  assert (Hsz : to_int32 (size v1 + Z.of_nat n) = Z.of_nat (length (c ++ take n string))).
  { rewrite length_app, length_take, to_int32_id by (unfold VS_MAX in *; lia). lia. }
  split; [unfold vs_ok; cbn [buf size bufsize]; rewrite length_memcpy_to, Hsz, length_app, length_take; lia|].
  split; [exact Hsz|]. cbn [buf].
  eapply holds_app; [exact Hh1|apply write_bytes_Some; [lia|rewrite length_take; exact Hfit]].
Qed.

Lemma GET_STRING_holds v c : holds v c -> GET_STRING v = Some (c ++ [Byte.x00]).
Proof.
  intros [Hc Hj]. unfold GET_STRING, read_bytes. rewrite Hc, Nat2Z.id.
  rewrite decide_True by lia. change (Z.to_nat 0) with 0.
  rewrite mapM_lookup_seq by (intros j; apply Hj). simpl. by rewrite decide_True by lia.
Qed.

Lemma MAKE_VARSTRING_ok : vs_ok MAKE_VARSTRING /\ holds MAKE_VARSTRING [].
Proof. unfold vs_ok, holds; simpl. rewrite ?length_fmap, ?length_seq. split; [lia|]. split; [done|]. intros; lia. Qed.

Lemma append_strings_spec ss : forall v c,
  vs_ok v -> holds v c -> Forall (fun s => is_Some (c_strlen s)) ss ->
  (Z.of_nat (length c + sum_list_with (length ∘ c_str) ss) <= VS_MAX)%Z ->
  exists v', append_strings v ss = Some v' /\ holds v' (c ++ mjoin (c_str <$> ss)).
Proof.
  induction ss as [|s ss IH]; intros v c Hok Hh Hss Hmax; simpl.
  { exists v. split; [done|]. by rewrite app_nil_r. }
  apply Forall_cons_iff in Hss as [[n Hn] Hss]. pose proof (c_strlen_c_str _ _ Hn) as [Hc Hl].
  simpl in Hmax. destruct (APPEND_STRING_spec v c s n) as (v1 & -> & Hok1 & Hh1); [done..|lia|].
  simpl. rewrite Hc in Hh1. destruct (IH v1 _ Hok1 Hh1 Hss) as (v' & -> & Hh').
  { rewrite length_app. lia. }
  eexists. split; [done|]. by rewrite <- app_assoc in Hh'.
Qed.

End VarString.

(** ** Properties *)

(** C38. Round trip of the string builder: appending C strings to a new
    [VarString] with [APPEND_STRING] and reading it back with
    [RETURN_STRING] gives their concatenation, NUL-terminated, whenever
    their total length stays within [VS_MAX]. *)
Theorem varstring_roundtrip junk ss :
  Forall (fun s => is_Some (c_strlen s)) ss ->
  (Z.of_nat (sum_list_with (length ∘ c_str) ss) <= VS_MAX)%Z ->
  (v ← append_strings junk (MAKE_VARSTRING junk) ss; RETURN_STRING v) =
    Some (mjoin (c_str <$> ss) ++ [Byte.x00]).
Proof.
  intros Hss Hmax. destruct (MAKE_VARSTRING_ok junk) as [Hok Hh].
  destruct (append_strings_spec junk ss _ [] Hok Hh Hss Hmax) as (v' & -> & Hh'). simpl.
  by apply GET_STRING_holds.
Qed.

(** C39. Overflow of [ENSURE_SIZE]: on a [VarString] whose [bufsize] is the
    [100] every builder keeps, [ENSURE_SIZE(var, n)] is undefined (signed
    overflow of [newbufsize *= 2]) exactly when [n > 100 * 2^24]. *)
Theorem ENSURE_SIZE_overflow junk v n :
  bufsize v = 100%Z -> ENSURE_SIZE junk v n = None <-> (VS_MAX < n)%Z.
Proof.
  intros Hb. unfold ENSURE_SIZE. rewrite Hb. split.
  - case_decide; [|done]. destruct (decide (VS_MAX < n)%Z) as [|Hn]; [done|].
    destruct (double_loop_reaches 32 100 n 24) as (r & Hr & _);
      [lia|unfold VS_MAX, INT_MAX in *; simpl; lia|lia|]. by rewrite Hr.
  - intros Hn. rewrite decide_True by (unfold VS_MAX in Hn; lia).
    destruct (double_loop 32 100 n) as [r|] eqn:Hr; [|done].
    apply double_loop_sound in Hr as [[? ?] [k ->]]; [|lia].
    pose proof (doubling_100_bound k ltac:(done)). lia.
Qed.

(** ** Witnesses *)

Definition abc_strings : list (list Byte.byte) :=
  [[Byte.x61; Byte.x62; Byte.x63; Byte.x00]; [Byte.x64; Byte.x65; Byte.x00; Byte.x41]].

Lemma varstring_roundtrip_witness :
  (v ← append_strings (fun _ => Byte.x00) (MAKE_VARSTRING (fun _ => Byte.x00)) abc_strings;
   RETURN_STRING v) = Some [Byte.x61; Byte.x62; Byte.x63; Byte.x64; Byte.x65; Byte.x00].
Proof.
  exact (varstring_roundtrip (fun _ => Byte.x00) abc_strings
           ltac:(repeat constructor; eexists; reflexivity) ltac:(vm_compute; discriminate)).
Defined.

Lemma ENSURE_SIZE_overflow_witness :
  ENSURE_SIZE (fun _ => Byte.x00) (MAKE_VARSTRING (fun _ => Byte.x00)) (VS_MAX + 1) = None.
Proof.
  apply (proj2 (ENSURE_SIZE_overflow (fun _ => Byte.x00) (MAKE_VARSTRING (fun _ => Byte.x00)) (VS_MAX + 1)
           eq_refl)). unfold VS_MAX. lia.
Defined.
