(* ===== verification/Deserializer.v ===== *)
(** * Records as strings: [serializeRecord] and [deserializeRecord]
    (src/rm_deserializer.c)

    A table stores each record as a string.  The printer [serializeRecord]
    lives in [rm_serializer.c], which is not part of the repository; the
    format is the one the comment of [deleteRecord] documents
    ([src/record_mgr.c], lines 374-377):
    [[1-0](a:1,b:aaaa,c:45)], the record's [RID] and, for every attribute,
    its name and its value as [getAttr] reads it.  The printing of floats
    and booleans is not documented: it is a parameter of the printer.

    [deserializeRecord] (lines 224-285) cuts the string with [strtok] and
    stores each value into a new record with [setAttr].  It allocates the
    [Record] with [malloc(sizeof(Record* ))] and its data with
    [malloc(sizeof(char* ))], both the size of a pointer;
    [deserializeRecord_with] is the same code with the two allocation
    sizes as parameters, so that the parse can be studied apart from the
    allocation bug.  The conversion [strtof] of the C library is a
    parameter. *)

From Stdlib Require Import Strings.Byte Strings.String.
From stdpp Require Import sets.
From S2P Require Import Prelude Storage RecordMgr CString.

(** ** Sizes (LP64) *)

Definition SIZEOF_PTR : Z := 8.

(** [sizeof(Record)]: an [RID] of two [int]s and the [data] pointer. *)
Definition SIZEOF_RECORD : Z := 16.

(** ** Characters of the format *)

Definition colon : Byte.byte := Byte.x3a.
Definition comma : Byte.byte := Byte.x2c.
Definition lparen : Byte.byte := Byte.x28.
Definition rparen : Byte.byte := Byte.x29.
Definition lbracket : Byte.byte := Byte.x5b.
Definition rbracket : Byte.byte := Byte.x5d.
Definition char_t : Byte.byte := Byte.x74.

(** ** The printer of [rm_serializer.c] *)

Section Format.
(** How [rm_serializer.c] prints a float's bit pattern and a [bool]. *)
Context (fmt_float : Z -> list Byte.byte) (fmt_bool : Z -> list Byte.byte).

(** The text of a value: [%d] for an [int], the C string for a string. *)
Definition value_text (u : ValueUnion) : list Byte.byte :=
  match u with
  | intV i => sprintf_d i
  | stringV buf => c_str buf
  | floatV f => fmt_float f
  | boolV b => fmt_bool b
  end.

(** [name:value] of attribute [k]. *)
Definition attr_text (record : Record_) (schema : Schema) (k : nat) : option (list Byte.byte) :=
  name ← attrNames schema !! k;
  val ← getAttr record schema (Z.of_nat k);
  Some (list_byte_of_string name ++ colon :: value_text (v val)).

Fixpoint join_comma (ts : list (list Byte.byte)) : list Byte.byte :=
  match ts with
  | [] => []
  | [t] => t
  | t :: ts' => t ++ comma :: join_comma ts'
  end.

(** [[page-slot](name:value,...,name:value)]. *)
Definition serializeRecord (record : Record_) (schema : Schema) : option (list Byte.byte) :=
  ts ← mapM (attr_text record schema) (seq 0 (Z.to_nat (numAttr schema)));
  Some ((lbracket :: sprintf_d (page (id record)) ++ minus_sign :: sprintf_d (slot (id record)))
          ++ rbracket :: lparen :: join_comma ts ++ [rparen]).
End Format.

(** ** [deserializeRecord] *)

Section Parse.
(** [strtof] of the C library, on the bit pattern of its result. *)
Context (strtof : list Byte.byte -> Z).

(** The [switch (schema->dataTypes[i])] of the loop: the value
    [MAKE_VALUE] (or [MAKE_STRING_VALUE], a copy of the token with its NUL)
    builds from the token, stored by [setAttr], whose return code is
    ignored. *)
Definition parse_attr (record : Record_) (schema : Schema) (i : nat) (tok : list Byte.byte)
  : option Record_ :=
  t ← arr_get (dataTypes schema) (Z.of_nat i);
  let value := match t with
               | DT_INT => mkValue DT_INT (intV (to_int32 (strtol10 tok)))
               | DT_FLOAT => mkValue DT_FLOAT (floatV (strtof tok))
               | DT_BOOL => mkValue DT_BOOL (boolV (if bool_decide (head tok = Some char_t) then 1 else 0))
               | DT_STRING => mkValue DT_STRING (stringV (tok ++ [Byte.x00]))
               end in
  '(r', _) ← setAttr record schema (Z.of_nat i) value;
  Some r'.

(** [for (i = 0; i < schema->numAttr; i++) { splitEnd = strtok(NULL, ":");
    splitEnd = strtok(NULL, i == lastAttr ? ")" : ","); switch ... }]: a
    [NULL] token is dereferenced, which is undefined ([None]). *)
Fixpoint deser_loop (schema : Schema) (lastAttr : Z) (record : Record_) (st : list Byte.byte)
    (idx : list nat) : option Record_ :=
  match idx with
  | [] => Some record
  | i :: idx' =>
      let st1 := snd (strtok [colon] st) in
      let '(tok, st2) := strtok (if Z.eqb (Z.of_nat i) lastAttr then [rparen] else [comma]) st1 in
      tok' ← tok;
      record' ← parse_attr record schema i tok';
      deser_loop schema lastAttr record' st2 idx'
  end.

(** The function with the size of the [Record] allocation [rec_size], the
    data buffer [buf] [malloc] returns, and [junk_id], the [id] it never
    sets.  Storing [record->data] past the end of the [Record] allocation
    is undefined. *)
Definition deserializeRecord_with (rec_size : Z) (junk_id : RID) (buf : list Byte.byte)
    (str : list Byte.byte) (schema : Schema) : option Record_ :=
  if decide (rec_size < SIZEOF_RECORD)%Z then None
  else
    let st := snd (strtok [lparen] (c_str str)) in
    deser_loop schema (numAttr schema - 1) (mkRecord junk_id buf) st (seq 0 (Z.to_nat (numAttr schema))).

(** [deserializeRecord(str, schema)]: [junk] holds the indeterminate bytes
    of the [sizeof(char* )] data buffer. *)
Definition deserializeRecord (junk_id : RID) (junk : list Byte.byte) (str : list Byte.byte)
    (schema : Schema) : option Record_ :=
  deserializeRecord_with SIZEOF_PTR junk_id (take (Z.to_nat SIZEOF_PTR) junk) str schema.
End Parse.

(** ** Records the printer and the parser agree on *)

(** An attribute name [strtok(NULL, ":")] reads whole: not empty, with no
    [':'] and no NUL. *)
Definition name_ok (nb : list Byte.byte) : Prop := nb <> [] /\ no_delim [colon; Byte.x00] nb.

(** A value whose text the parser reads back: an [int], or a string that
    fills its field and holds no [','] and no [')'].  The text of a float or
    a [bool] depends on the printer, which is not in the repository. *)
Definition value_ok (schema : Schema) (k : nat) (u : ValueUnion) : Prop :=
  match u with
  | intV _ => True
  | stringV b => typeLength schema !! k = Some (Z.of_nat (length (c_str b))) /\
                 c_str b <> [] /\ no_delim [comma; rparen] (c_str b)
  | _ => False
  end.

Definition text_ok (schema : Schema) (record : Record_) (k : nat) : Prop :=
  match attrNames schema !! k, getAttr record schema (Z.of_nat k) with
  | Some name, Some val => name_ok (list_byte_of_string name) /\ value_ok schema k (v val)
  | _, _ => False
  end.

#[export] Instance value_ok_dec schema k u : Decision (value_ok schema k u).
Proof. unfold value_ok. destruct u; apply _. Defined.

#[export] Instance text_ok_dec schema record k : Decision (text_ok schema record k).
Proof. unfold text_ok, name_ok. repeat case_match; apply _. Defined.

(** ** Lemmas *)

Lemma join_comma_cons t ts : ts <> [] -> join_comma (t :: ts) = t ++ comma :: join_comma ts.
Proof. by destruct ts. Qed.

Lemma join_comma_no_delim d ts :
  byte_in comma d = false -> Forall (no_delim d) ts -> no_delim d (join_comma ts).
Proof.
  intros Hc. induction 1 as [|t ts Ht Hts IH]; [constructor|].
  destruct ts as [|t' ts'']; [done|]. rewrite join_comma_cons by done.
  apply no_delim_app. split; [done|]. by constructor.
Qed.

(** The header [[page-slot]] holds no ['('] and no NUL. *)
Lemma header_no_delim p sl :
  no_delim [lparen; Byte.x00] ((lbracket :: sprintf_d p ++ minus_sign :: sprintf_d sl) ++ [rbracket]).
Proof.
  assert (Hd : Forall (fun c => is_digit c = false /\ c <> minus_sign) [lparen; Byte.x00])
    by (repeat constructor; discriminate).
  destruct (sprintf_d_no_delim _ p Hd) as [_ Hp]. destruct (sprintf_d_no_delim _ sl Hd) as [_ Hs].
  apply no_delim_app. split; [|by repeat constructor].
  constructor; [done|]. apply no_delim_app. split; [done|]. by constructor.
Qed.

(** The text of a value the parser reads back is a token of its own. *)
Lemma value_text_ok fmt_float fmt_bool schema k u :
  value_ok schema k u ->
  value_text fmt_float fmt_bool u <> [] /\ no_delim [comma; rparen; Byte.x00] (value_text fmt_float fmt_bool u).
Proof.
  destruct u as [x|b|f|bb]; simpl; try done.
  - intros _. apply sprintf_d_no_delim. repeat constructor; discriminate.
  - intros (_ & Hne & Hd). split; [done|]. by apply (no_delim_union [comma; rparen] [Byte.x00]), c_str_no_nul.
Qed.

(** A string [getAttr] reads and whose C string fills its field is that C
    string and its NUL. *)
Lemma getAttr_string_full record schema k t b :
  getAttr record schema (Z.of_nat k) = Some (mkValue t (stringV b)) ->
  typeLength schema !! k = Some (Z.of_nat (length (c_str b))) -> b = c_str b ++ [Byte.x00].
Proof.
  intros Hg Hl. unfold getAttr in Hg. rewrite !arr_get_nat in Hg.
  destruct (attrOffset _ _); simpl in Hg; [|done].
  destruct (dataTypes schema !! k) as [[]|]; simpl in Hg; try done;
    try (destruct (read_bytes _ _ _); simpl in Hg; done).
  destruct (typeLength schema !! k) as [len|]; simpl in Hg; [|done].
  case_decide; [|done]. destruct (strncpy _ _ _) as [bs|] eqn:Hs; simpl in Hg; [|done].
  injection Hg as <- <-. injection Hl as ->. rewrite c_str_app_nul in Hs |- *.
  destruct (strncpy_shape _ _ _ _ Hs) as [Hlen Hbs]. rewrite Nat2Z.id, Nat.sub_diag in Hbs.
  rewrite app_nil_r in Hbs. by rewrite <- Hbs.
Qed.

(** The [switch] of the loop stores the value a token prints back into the
    attribute, and leaves the others alone. *)
Lemma parse_attr_ok fmt_float fmt_bool strtof schema record0 r k val :
  schema_wf schema -> getRecordSize schema = Some (Z.of_nat (length (data r))) ->
  k < Z.to_nat (numAttr schema) -> getAttr record0 schema (Z.of_nat k) = Some val ->
  value_ok schema k (v val) ->
  exists r', parse_attr strtof r schema k (value_text fmt_float fmt_bool (v val)) = Some r' /\
    getAttr r' schema (Z.of_nat k) = Some val /\
    (forall j, (0 <= j < numAttr schema)%Z -> j <> Z.of_nat k -> getAttr r' schema j = getAttr r schema j) /\
    length (data r') = length (data r).
Proof.
  intros Hwf Hsize Hk Hget Hok. destruct val as [t u].
  destruct (lookup_lt_is_Some_2 (typeLength schema) k) as [len Hlen];
    [destruct Hwf as (_ & _ & -> & _); lia|].
  unfold parse_attr. rewrite arr_get_nat.
  assert (Hset : forall t' u', dataTypes schema !! k = Some t' -> fits t' len u' = true ->
            stored len u' = u -> t' = t ->
            exists r', (('(r', _) ← setAttr r schema (Z.of_nat k) (mkValue t' u'); Some r') = Some r') /\
              getAttr r' schema (Z.of_nat k) = Some (mkValue t u) /\
              (forall j, (0 <= j < numAttr schema)%Z -> j <> Z.of_nat k -> getAttr r' schema j = getAttr r schema j) /\
              length (data r') = length (data r)).
  { intros t' u' Ht Hfit Hst <-.
    destruct (set_then_get r schema (Z.of_nat k) t' len (mkValue t' u')) as (r' & Hs & Hg & _ & Hl);
      rewrite ?Nat2Z.id; [done|done|lia|done|done|done|].
    simpl in Hg. rewrite Hst in Hg. exists r'. rewrite Hs. split_and!; [done|done| |done].
    intros j Hj Hjk. eapply set_other; [done|done| |done|exact Hs]. lia. }
  destruct u as [x|b|f|bb]; simpl in Hok |- *; try done.
  - destruct (getAttr_int _ _ _ _ _ Hget) as (-> & Ht & Hx). rewrite Ht. simpl.
    rewrite <- (app_nil_r (sprintf_d x)), strtol_sprintf_d, to_int32_id by (unfold LONG_MIN, LONG_MAX; lia || done).
    apply Hset; [done|done| |done]. simpl. change (to_signed 32 (x mod 2 ^ 32)) with (to_int32 x). by rewrite to_int32_id.
  - destruct (getAttr_string _ _ _ _ _ Hget) as (-> & Ht). rewrite Ht. simpl.
    destruct Hok as (Hl & Hne & _). pose proof Hl as Hl0. rewrite Hlen in Hl. injection Hl as ->.
    apply Hset; [done| | |done].
    + apply bool_decide_eq_true. rewrite length_app. simpl. lia.
    + simpl. rewrite Nat2Z.id, take_app_length, c_str_idem, Nat.sub_diag, app_nil_r.
      f_equal. symmetry. eapply getAttr_string_full; [exact Hget|exact Hl0].
Qed.

Section Loop.
Context (fmt_float fmt_bool : Z -> list Byte.byte).
Context (schema : Schema) (record0 : Record_).
Hypothesis Hwf : schema_wf schema.
Hypothesis Hsize : getRecordSize schema = Some (Z.of_nat (length (data record0))).
Hypothesis Hok : forall k, k < Z.to_nat (numAttr schema) -> text_ok schema record0 k.

(** The text [serializeRecord] prints for an attribute. *)
Lemma attr_text_ok k t :
  k < Z.to_nat (numAttr schema) -> attr_text fmt_float fmt_bool record0 schema k = Some t ->
  exists nb val, t = nb ++ colon :: value_text fmt_float fmt_bool (v val) /\ name_ok nb /\
    getAttr record0 schema (Z.of_nat k) = Some val /\ value_ok schema k (v val).
Proof.
  intros Hk. pose proof (Hok k Hk) as Ht. unfold text_ok in Ht. unfold attr_text.
  destruct (attrNames schema !! k), (getAttr record0 schema (Z.of_nat k)); simpl; try done.
  intros [= <-]. destruct Ht. eauto 10.
Qed.

Lemma attr_texts_nul j m ts :
  j + m <= Z.to_nat (numAttr schema) ->
  Forall2 (fun k t => attr_text fmt_float fmt_bool record0 schema k = Some t) (seq j m) ts ->
  Forall (no_delim [Byte.x00]) ts.
Proof.
  revert j ts. induction m as [|m IH]; intros j ts Hj Hts; inversion Hts as [|? t ? ts' Ht Hts']; subst; [done|].
  constructor; [|apply (IH (S j)); [lia|done]].
  destruct (attr_text_ok j t ltac:(lia) Ht) as (nb & val & -> & [_ Hnb] & _ & Hv).
  destruct (value_text_ok fmt_float fmt_bool _ _ _ Hv) as [_ Hvd].
  apply no_delim_app. split; [by eapply no_delim_sub; [|exact Hnb]; set_solver|].
  constructor; [done|]. by eapply no_delim_sub; [|exact Hvd]; set_solver.
Qed.

Context (strtof : list Byte.byte -> Z).

(** The loop, from attribute [j] on, on the text the printer wrote for
    those attributes. *)
Lemma deser_loop_ok m : forall j ts r,
  j + m = Z.to_nat (numAttr schema) ->
  Forall2 (fun k t => attr_text fmt_float fmt_bool record0 schema k = Some t) (seq j m) ts ->
  length (data r) = length (data record0) ->
  (forall k, k < j -> getAttr r schema (Z.of_nat k) = getAttr record0 schema (Z.of_nat k)) ->
  exists r', deser_loop strtof schema (numAttr schema - 1) r (join_comma ts ++ [rparen]) (seq j m) = Some r' /\
    length (data r') = length (data record0) /\
    forall k, k < Z.to_nat (numAttr schema) -> getAttr r' schema (Z.of_nat k) = getAttr record0 schema (Z.of_nat k).
Proof.
  induction m as [|m IH]; intros j ts r Hj Hts Hl Hagree.
  { inversion Hts; subst. exists r. split_and!; [done|done|]. intros k Hk. apply Hagree. lia. }
  inversion Hts as [|? t ? ts' Ht Hts']; subst.
  destruct (attr_text_ok j t ltac:(lia) Ht) as (nb & val & -> & [Hne Hnb] & Hget & Hv).
  destruct (value_text_ok fmt_float fmt_bool _ _ _ Hv) as [Hvne Hvd].
  destruct (parse_attr_ok fmt_float fmt_bool strtof schema record0 r j val) as (r1 & Hp & Hg1 & Hoth & Hl1);
    [done|by rewrite Hsize, Hl|lia|done|done|].
  assert (Hagree1 : forall k, k < S j -> getAttr r1 schema (Z.of_nat k) = getAttr record0 schema (Z.of_nat k)).
  { intros k Hk. destruct (decide (k = j)) as [->|]; [by rewrite Hg1, Hget|]. rewrite Hoth by lia. apply Hagree. lia. }
  assert (Hcolon : no_delim [colon] nb) by (eapply no_delim_sub; [|exact Hnb]; set_solver).
  cbn [deser_loop seq]. destruct m as [|m'].
  - inversion Hts'; subst. rewrite (proj2 (Z.eqb_eq _ _)) by lia.
    cbn [join_comma]. rewrite <- app_assoc. cbn [app].
    rewrite strtok_token by (done || by apply byte_in_true; set_solver). cbn [snd].
    rewrite strtok_token by (done || by eapply no_delim_sub; [|exact Hvd]; set_solver || by apply byte_in_true; set_solver).
    simpl. rewrite Hp. simpl. exists r1. split_and!; [done|lia|]. intros k Hk. apply Hagree1. lia.
  - destruct ts' as [|t' ts'']; [inversion Hts'|].
    rewrite (proj2 (Z.eqb_neq _ _)) by lia. rewrite join_comma_cons by done.
    rewrite <- !app_assoc. cbn [app].
    rewrite strtok_token by (done || by apply byte_in_true; set_solver). cbn [snd].
    rewrite strtok_token by (done || by eapply no_delim_sub; [|exact Hvd]; set_solver || by apply byte_in_true; set_solver).
    cbn -[deser_loop seq parse_attr join_comma]. rewrite Hp. cbn -[deser_loop seq join_comma]. apply (IH (S j)); [lia|done|lia|done].
Qed.
End Loop.

(** The attribute [parse_attr] stores lies inside the data buffer. *)
Lemma parse_attr_fits strtof schema r k tok r' :
  schema_wf schema -> k < Z.to_nat (numAttr schema) ->
  parse_attr strtof r schema k tok = Some r' ->
  length (data r') = length (data r) /\
  exists off w, attrOffset schema (Z.of_nat k) = Some off /\ attr_width schema k = Some w /\
    (0 <= off)%Z /\ (0 <= w)%Z /\ Z.to_nat off + Z.to_nat w <= length (data r).
Proof.
  intros Hwf Hk. destruct (attr_layout schema k Hwf Hk) as (off & w & _ & Hoff & Hw & _ & Hoff0 & Hw0 & _).
  unfold parse_attr. destruct (arr_get _ _); simpl; [|done].
  destruct (setAttr _ _ _ _) as [[r1 v1]|] eqn:Hs; simpl; [|done]. intros [= <-].
  destruct (setAttr_writes _ _ _ _ _ _ _ _ Hoff Hw Hs) as (bs & Hwr & Hl).
  apply write_bytes_inv in Hwr as (Hd & _ & Hin). rewrite Hd, length_memcpy_to.
  split; [done|]. exists off, w. split_and!; [done..|lia].
Qed.

(** Every attribute the loop stores lies inside the data buffer. *)
Lemma deser_loop_fits strtof schema last r st idx r' :
  schema_wf schema -> Forall (fun i => i < Z.to_nat (numAttr schema)) idx ->
  deser_loop strtof schema last r st idx = Some r' ->
  Forall (fun i => exists off w, attrOffset schema (Z.of_nat i) = Some off /\ attr_width schema i = Some w /\
            (0 <= off)%Z /\ (0 <= w)%Z /\ Z.to_nat off + Z.to_nat w <= length (data r)) idx.
Proof.
  intros Hwf Hidx. revert r st. induction Hidx as [|i idx Hi _ IH]; intros r st; simpl; [done|].
  destruct (strtok _ _) as [[tok|] st2]; simpl; [|done].
  destruct (parse_attr _ _ _ _ _) as [r1|] eqn:Hp; simpl; [|done].
  destruct (parse_attr_fits _ _ _ _ _ _ Hwf Hi Hp) as [Hl Hfit].
  intros Hloop. constructor; [done|]. rewrite <- Hl. exact (IH _ _ Hloop).
Qed.

(** The printed text holds no NUL, and the parse gives back every
    attribute. *)
Lemma serialize_parse fmt_float fmt_bool strtof schema record junk_id buf :
  schema_wf schema -> getRecordSize schema = Some (Z.of_nat (length (data record))) ->
  (forall k, k < Z.to_nat (numAttr schema) -> text_ok schema record k) ->
  length buf = length (data record) ->
  exists s r', serializeRecord fmt_float fmt_bool record schema = Some s /\ no_delim [Byte.x00] s /\
    deserializeRecord_with strtof SIZEOF_RECORD junk_id buf s schema = Some r' /\
    length (data r') = length (data record) /\
    forall k, (0 <= k < numAttr schema)%Z -> getAttr r' schema k = getAttr record schema k.
Proof.
  intros Hwf Hsize Hok Hbuf.
  destruct (mapM_is_Some_2 (attr_text fmt_float fmt_bool record schema) (seq 0 (Z.to_nat (numAttr schema))))
    as [ts Hts].
  { apply Forall_seq. intros k Hk. pose proof (Hok k ltac:(lia)) as H. unfold text_ok in H. unfold compose, attr_text.
    destruct (attrNames schema !! k), (getAttr record schema (Z.of_nat k)); simpl; first [by destruct H | by eexists]. }
  pose proof (mapM_Some_1 _ _ _ Hts) as Hts2.
  destruct (deser_loop_ok fmt_float fmt_bool schema record Hwf Hsize Hok strtof (Z.to_nat (numAttr schema)) 0 ts (mkRecord junk_id buf))
    as (r' & Hl & Hl' & Hg); [lia|done|done|lia|].
  unfold serializeRecord. rewrite Hts. cbn -[app sprintf_d join_comma].
  set (hd := lbracket :: sprintf_d (page (id record)) ++ minus_sign :: sprintf_d (slot (id record))).
  pose proof (header_no_delim (page (id record)) (slot (id record))) as Hhd.
  exists (hd ++ rbracket :: lparen :: join_comma ts ++ [rparen]), r'.
  split; [done|]. replace (hd ++ rbracket :: lparen :: join_comma ts ++ [rparen])
    with ((hd ++ [rbracket]) ++ lparen :: join_comma ts ++ [rparen]) by (by rewrite <- app_assoc).
  assert (Hnul : no_delim [Byte.x00] ((hd ++ [rbracket]) ++ lparen :: join_comma ts ++ [rparen])).
  { apply no_delim_app. split; [by eapply no_delim_sub; [|exact Hhd]; set_solver|].
    constructor; [done|]. apply no_delim_app. split; [|by repeat constructor].
    apply join_comma_no_delim; [done|]. exact (attr_texts_nul _ _ _ _ Hwf Hsize Hok 0 (Z.to_nat (numAttr schema)) ts ltac:(lia) Hts2). }
  split_and!; [done| |done|].
  - unfold deserializeRecord_with. rewrite decide_False by (unfold SIZEOF_RECORD; lia).
    rewrite (c_str_id [Byte.x00]); [|by constructor|done].
    rewrite strtok_token; [exact Hl|by destruct hd| |by apply byte_in_true; constructor].
    by eapply no_delim_sub; [|exact Hhd]; set_solver.
  - intros k Hk. destruct (Z_of_nat_complete k ltac:(lia)) as [kn ->]. apply Hg. lia.
Qed.

(** ** Properties *)

(** C11. Round trip: on a well-formed schema, a record of [getRecordSize]
    bytes whose attributes are [int]s or strings that fill their field and
    hold no [','] and no [')'], and whose names hold no [':'], is printed by
    [serializeRecord], and the loop of [deserializeRecord], given a
    [Record] and a data buffer of the record's size, parses the text back
    into a record of the same size with the same value in every
    attribute. *)
Theorem deserialize_serialize fmt_float fmt_bool strtof schema record junk_id buf :
  schema_wf schema -> getRecordSize schema = Some (Z.of_nat (length (data record))) ->
  (forall k, k < Z.to_nat (numAttr schema) -> text_ok schema record k) ->
  length buf = length (data record) ->
  exists s r', serializeRecord fmt_float fmt_bool record schema = Some s /\
    deserializeRecord_with strtof SIZEOF_RECORD junk_id buf s schema = Some r' /\
    length (data r') = length (data record) /\
    forall k, (0 <= k < numAttr schema)%Z -> getAttr r' schema k = getAttr record schema k.
Proof.
  intros Hwf Hsize Hok Hbuf.
  destruct (serialize_parse fmt_float fmt_bool strtof schema record junk_id buf Hwf Hsize Hok Hbuf)
    as (s & r' & Hs & _ & Hd); eauto.
Qed.

(** C20. [deserializeRecord] fails whatever its input: storing a value past
    the end of the data buffer is undefined, and the loop stores the last
    attribute, which ends at [getRecordSize]; so a data buffer shorter than
    the record, such as the [sizeof(char* )] bytes the code allocates,
    makes every call fail, whatever size the [Record] itself gets. *)
Theorem deserialize_short_buffer strtof rec_size junk_id buf str schema size :
  schema_wf schema -> (0 < numAttr schema)%Z -> getRecordSize schema = Some size ->
  (Z.of_nat (length buf) < size)%Z ->
  deserializeRecord_with strtof rec_size junk_id buf str schema = None.
Proof.
  intros Hwf Hn Hsize Hlt. unfold deserializeRecord_with. case_decide; [done|].
  destruct (deser_loop _ _ _ _ _ _) as [r'|] eqn:Hl; [exfalso|done].
  apply deser_loop_fits in Hl; [|done|by apply Forall_seq; lia].
  rewrite Forall_seq in Hl. simpl in Hl.
  destruct (Hl (Z.to_nat (numAttr schema) - 1) ltac:(lia)) as (off & w & Hoff & Hw & _ & _ & Hin).
  destruct (getRecordSize_wf schema Hwf) as (size' & Hs & Hs'). rewrite Hsize in Hs. injection Hs as <-.
  replace (Z.to_nat (numAttr schema)) with (S (Z.to_nat (numAttr schema) - 1)) in Hs' by lia.
  rewrite attrOffset_S, Hoff, Hw in Hs'. simpl in Hs'. injection Hs' as <-. lia.
Qed.

(** ** Witnesses *)

(** The record [[1-0](a:-17,b:abcd,c:45)] of [abc_schema]. *)
Definition abc_record : Record_ :=
  mkRecord (mkRID 1 0) (le_bytes 4 (-17) ++ list_byte_of_string "abcd" ++ le_bytes 4 45).

Lemma deserialize_serialize_witness :
  exists s r', serializeRecord sprintf_d sprintf_d abc_record abc_schema = Some s /\
    deserializeRecord_with strtol10 SIZEOF_RECORD (mkRID 0 0) (repeat Byte.x00 12) s abc_schema = Some r' /\
    length (data r') = length (data abc_record) /\
    forall k, (0 <= k < numAttr abc_schema)%Z -> getAttr r' abc_schema k = getAttr abc_record abc_schema k.
Proof.
  apply deserialize_serialize; [concrete_hyp|concrete_hyp| |concrete_hyp].
  intros k Hk. vm_compute in Hk. do 3 (destruct k as [|k]; [concrete_hyp|]). lia.
Defined.

Lemma deserialize_short_buffer_witness :
  deserializeRecord_with strtol10 SIZEOF_RECORD (mkRID 0 0) (repeat Byte.x00 8)
    (list_byte_of_string "[1-0](a:-17,b:abcd,c:45)") abc_schema = None.
Proof. apply (deserialize_short_buffer _ _ _ _ _ _ 12); concrete_hyp. Defined.
