(* ===== verification/Stats.v ===== *)
(** * The I/O statistics of the pool

    [getNumReadIO] and [getNumWriteIO] return the counters [numRead] and
    [numWrite] of [BM_BufferPool_Mgmt], which [buffer_mgr.c] increments by
    hand next to its [readBlock] and [writeBlock] calls.  The storage model
    counts the calls that succeed; this file proves that every operation
    keeps the two in step, so that the statistics are exact. *)

From S2P Require Import Prelude Storage Pool Access Fifo Lru Clock Pin.

(** What the pool counted minus what the page file performed. *)
Definition io_gap (b : BM) : Z * Z :=
  (numRead b - Z.of_nat (nReads (fh b)), numWrite b - Z.of_nat (nWrites (fh b)))%Z.

Ltac io_auto :=
  repeat match goal with
    | H : readBlock _ _ = (_, Some _) |- _ => apply readBlock_counts in H as [? ?]
    | H : writeBlock _ _ _ = Some _ |- _ => apply writeBlock_counts in H as [? ?]
    end;
  unfold io_gap; cbn [fh numRead numWrite upd_frames with_head with_tail with_fh bump_read
                      bump_write bump_occupied ensureCapacity nReads nWrites] in *;
  f_equal; lia.

Lemma pinPageFIFO_io p b : io_gap (fst (pinPageFIFO p b)) = io_gap b.
Proof.
  unfold pinPageFIFO. bm_run. destruct (find_page b p) as [i [|]]; simpl; [io_auto|].
  repeat case_bool_decide; bm_cases; io_auto.
Qed.

Lemma pinPageLRU_io p b : io_gap (fst (pinPageLRU p b)) = io_gap b.
Proof.
  unfold pinPageLRU. bm_run. destruct (find_page b p) as [i [|]]; simpl; [io_auto|].
  destruct (lru_victim b) as [j found]. repeat case_bool_decide; bm_cases; io_auto.
Qed.

Lemma pinPageCLOCK_io p b : io_gap (fst (pinPageCLOCK p b)) = io_gap b.
Proof.
  unfold pinPageCLOCK, sweepM. bm_run. destruct (find_page b p) as [i [|]]; simpl; [io_auto|].
  destruct (clock_victim b) as [j found]. repeat case_bool_decide; bm_cases; io_auto.
Qed.

Lemma flush_loop_io idx b : io_gap (fst (flush_loop idx b)) = io_gap b.
Proof.
  revert b. induction idx as [|i idx IH]; intros b; [done|]. simpl.
  unfold flush_frame at 1. bm_run. bm_cases; rewrite ?IH; io_auto.
Qed.

(** Every request keeps the statistics in step with the page file. *)
Lemma exec_io r page b : io_gap (exec_state r page b) = io_gap b.
Proof.
  unfold exec_state, exec. destruct r; rewrite ?call_fst.
  - rewrite pinPage_fst. destruct (strategy b);
      [apply pinPageFIFO_io|apply pinPageLRU_io|apply pinPageCLOCK_io].
  - unfold unpinPage. bm_run. bm_cases; io_auto.
  - unfold markDirty. bm_run. bm_cases; io_auto.
  - unfold forcePage. bm_run. bm_cases; io_auto.
  - unfold forceFlushPool. cbv [mbind st_bind st_get]. simpl.
    destruct (flush_loop _ b) as [b' r] eqn:E. pose proof (flush_loop_io (cyc_from (nframes b) (head b) (nframes b)) b) as H.
    rewrite E in H. simpl in H. destruct r; simpl; done.
  - unfold write_through. destruct (ph_data h); simpl; [done|io_auto|done].
Qed.

Lemma exec_all_io rs page b : io_gap (fst (fst (exec_all rs page b))) = io_gap b.
Proof.
  revert page b. induction rs as [|r rs IH]; intros page b; [done|]. simpl.
  destruct (exec r page b) as [[b' page'] rc] eqn:E. rewrite IH.
  pose proof (exec_io r page b) as H. unfold exec_state in H. by rewrite E in H.
Qed.

(** C6. The statistics are exact: after any sequence of client requests on
    a pool opened on a page file [f], [getNumReadIO] is the number of block
    reads and [getNumWriteIO] the number of block writes the storage
    manager performed on it, failed calls and early returns included. *)
Theorem stats_exact f n s rs page :
  let '(b, _, _) := exec_all rs page (initBufferPool f n s) in
  getNumReadIO b = (Z.of_nat (nReads (fh b)) - Z.of_nat (nReads f))%Z /\
  getNumWriteIO b = (Z.of_nat (nWrites (fh b)) - Z.of_nat (nWrites f))%Z.
Proof.
  pose proof (exec_all_io rs page (initBufferPool f n s)) as H.
  destruct (exec_all rs page (initBufferPool f n s)) as [[b page'] rc].
  unfold io_gap, getNumReadIO, getNumWriteIO in *. simpl in H. injection H. lia.
Qed.
