(* ===== verification/FillOrder.v ===== *)
(** * Frames fill in ring order under FIFO and CLOCK

    While the pool is not full, the fill paths of [pinPageFIFO] and
    [pinPageCLOCK] in [buffer_mgr.c] put the page in the frame at [head]
    and move [head] to the next frame ([frame = bm->head; ...
    bm->head = frame->next; bm->occupiedCount++]).  This file proves the
    invariant that makes this sound in every reachable FIFO or CLOCK pool:
    as long as [occupiedCount < numPages], [head] is the frame of index
    [occupiedCount], and that frame and every frame after it are empty
    ([pageNum == NO_PAGE]).  So a fill never overwrites a resident page.
    [pinPageLRU] moves [head] on a hit, and does not keep the invariant
    ([Lru.pinPageLRU_hit_then_fill] shows the fill it leads to). *)

From S2P Require Import Prelude Storage Pool Access Fifo Lru Clock Pin.

(** What the invariant reads of a pool: the page numbers of the frames,
    [head], [occupiedCount], [numPages], and the strategy. *)
Definition shape (b : BM) : list Z * nat * Z * Z * ReplacementStrategy :=
  (map pageNum (frames b), head b, occupiedCount b, numPages b, strategy b).

(** While the pool is not full, [head] is frame [occupiedCount], and the
    frames from there to the end are empty. *)
Definition fill_inv (b : BM) : Prop :=
  (occupiedCount b < numPages b)%Z ->
  head b = Z.to_nat (occupiedCount b) /\
  forall j, Z.to_nat (occupiedCount b) <= j < nframes b -> pageNum (frame_at b j) = NO_PAGE.

(** The invariant of a strategy that keeps it. *)
Definition fill_ok (b : BM) : Prop := strategy b = RS_LRU \/ fill_inv b.

(** ** The invariant through a change of state *)

Lemma map_pageNum_set (fr : list PageFrame) i p :
  map pageNum (alter (set_pageNum p) i fr) = <[i := p]> (map pageNum fr).
Proof. revert i. induction fr as [|f fr IH]; intros [|i]; simpl; [done..|f_equal; apply IH]. Qed.

Lemma nframes_shape b' l h o n s :
  shape b' = (l, h, o, n, s) -> nframes b' = length l.
Proof. unfold shape, nframes. injection 1 as <- _ _ _ _. by rewrite length_map. Qed.

Lemma pageNum_shape b j : j < nframes b -> pageNum (frame_at b j) = map pageNum (frames b) !!! j.
Proof. intros Hj. unfold frame_at. by rewrite map_lookup_total_lt. Qed.

(** A change of state invisible to the invariant. *)
Lemma fill_inv_shape b b' : shape b' = shape b -> fill_inv b -> fill_inv b'.
Proof.
  intros Hs Hinv. pose proof (nframes_shape _ _ _ _ _ _ Hs) as Hn. rewrite length_map in Hn; fold (nframes b) in Hn.
  unfold shape in Hs. injection Hs as Hm Hh Ho Hp _. intros Hlt.
  destruct Hinv as [Hh0 Hfree]; [lia|]. split; [lia|]. intros j Hj.
  rewrite pageNum_shape, Hm, <- pageNum_shape by lia. apply Hfree. lia.
Qed.

(** A request on a full pool leaves it full. *)
Lemma fill_inv_full b b' :
  ~ (occupiedCount b < numPages b)%Z -> occupiedCount b' = occupiedCount b ->
  numPages b' = numPages b -> fill_inv b'.
Proof. intros Hf Ho Hn Hlt. lia. Qed.

(** A fill: the page goes to frame [head], [head] moves to the next frame
    (it stays where it is only in a pool of one frame), the count grows. *)
Lemma fill_inv_fill b b' p :
  WF b -> fill_inv b -> (occupiedCount b < numPages b)%Z ->
  shape b' = (<[head b := p]> (map pageNum (frames b)), head b', (occupiedCount b + 1)%Z, numPages b, strategy b) ->
  head b' = cnext (nframes b) (head b) \/ cnext (nframes b) (head b) = head b ->
  fill_inv b'.
Proof.
  intros Hb Hinv Hlt Hs Hh'. pose proof Hb as (Hn1 & Hn & Hh & _ & Ho & _).
  pose proof (nframes_shape _ _ _ _ _ _ Hs) as Hn'. rewrite length_insert, length_map in Hn'; fold (nframes b) in Hn'.
  destruct (Hinv Hlt) as [Hh0 Hfree].
  unfold shape in Hs. injection Hs as Hm Ho' Hp' _. intros Hlt'.
  assert (Hc : cnext (nframes b) (head b) = S (head b)) by (unfold cnext; case_match; apply Nat.eqb_eq in H || apply Nat.eqb_neq in H; lia).
  split; [destruct Hh'; lia|]. intros j Hj.
  rewrite pageNum_shape, Hm, list_lookup_total_insert_ne, <- pageNum_shape by lia. apply Hfree. lia.
Qed.

Lemma insert_pageNum_same b i p :
  pageNum (frame_at b i) = p -> <[i := p]> (map pageNum (frames b)) = map pageNum (frames b).
Proof. intros Hp. by rewrite <- map_pageNum_set, alter_set_pageNum_same. Qed.

(** The shape of a composition of state transformers. *)
Ltac shape_auto :=
  unfold shape; cbn [frames head occupiedCount numPages strategy upd_frames with_head with_tail
                     with_fh bump_read bump_write bump_occupied];
  repeat first [ rewrite map_pageNum_alter by (intros; reflexivity) | rewrite map_pageNum_set ];
  try reflexivity.

(** The head after a fill: the next frame, unless the ring has one frame. *)
Ltac fill_head :=
  first [ left; reflexivity
        | right; apply Nat.eqb_eq, negb_false_iff; assumption ].

(** The three outcomes of a [pinPage*] call that keeps the invariant. *)
Ltac fill_branch b :=
  first [ eapply (fill_inv_full b); [assumption|reflexivity|reflexivity]
        | eapply (fill_inv_fill b); [assumption..|shape_auto|fill_head] ].

(** ** The strategies that keep it *)

Lemma pinPageFIFO_fill_inv p b : WF b -> fill_inv b -> fill_inv (fst (pinPageFIFO p b)).
Proof.
  intros Hb Hinv. unfold pinPageFIFO. bm_run.
  destruct (find_page b p) as [i [|]] eqn:Hf; simpl.
  - destruct (find_page_hit b p i Hb Hf) as [_ Hp]. apply (fill_inv_shape b); [|done].
    shape_auto. by rewrite insert_pageNum_same.
  - destruct (find_page_miss b p i Hb Hf) as [-> _].
    case_bool_decide; bm_cases; fill_branch b.
Qed.

Lemma pinPageCLOCK_fill_inv p b : WF b -> fill_inv b -> fill_inv (fst (pinPageCLOCK p b)).
Proof.
  intros Hb Hinv. unfold pinPageCLOCK, sweepM. bm_run.
  destruct (find_page b p) as [i [|]] eqn:Hf; simpl.
  - destruct (find_page_hit b p i Hb Hf) as [_ Hp]. apply (fill_inv_shape b); [|done].
    shape_auto. by rewrite insert_pageNum_same.
  - destruct (find_page_miss b p i Hb Hf) as [-> _].
    case_bool_decide; bm_cases; fill_branch b.
Qed.

(** No [pinPage*] function changes the strategy. *)
Lemma strategy_pin_strategy s p b : strategy (fst (strategy_pin s p b)) = strategy b.
Proof.
  destruct s; simpl; [unfold pinPageFIFO|unfold pinPageLRU|unfold pinPageCLOCK, sweepM]; bm_run;
    repeat (bm_case; simpl); try reflexivity;
    repeat case_bool_decide; bm_cases; reflexivity.
Qed.

Lemma flush_loop_shape idx b : shape (fst (flush_loop idx b)) = shape b.
Proof.
  revert b. induction idx as [|i idx IH]; intros b; [done|]. simpl.
  unfold flush_frame at 1. bm_run. bm_cases; rewrite ?IH; shape_auto.
Qed.

(** The requests other than [pinPage] keep the shape. *)
Lemma exec_shape r page b :
  (forall p, r <> ReqPin p) -> shape (exec_state r page b) = shape b.
Proof.
  unfold exec_state, exec. intros Hr. destruct r; rewrite ?call_fst.
  - by destruct (Hr p).
  - unfold unpinPage. bm_run. bm_cases; shape_auto.
  - unfold markDirty. bm_run. bm_cases; shape_auto.
  - unfold forcePage. bm_run. bm_cases; shape_auto.
  - unfold forceFlushPool. cbv [mbind st_bind st_get]. simpl.
    pose proof (flush_loop_shape (cyc_from (nframes b) (head b) (nframes b)) b) as H.
    destruct (flush_loop _ b) as [b' []]; done.
  - unfold write_through. destruct (ph_data h); simpl; [done|shape_auto|done].
Qed.

Lemma shape_fill_ok b b' : shape b' = shape b -> fill_ok b -> fill_ok b'.
Proof.
  intros Hs [Hl|Hi]; [left; rewrite <- Hl; exact (f_equal snd Hs)|right; by apply (fill_inv_shape b)].
Qed.

Lemma exec_fill_ok r page b : WF b -> fill_ok b -> fill_ok (exec_state r page b).
Proof.
  intros Hb Hok. destruct r as [p| | | | |];
    [|apply (shape_fill_ok b); [apply exec_shape; intros ? ?; discriminate|done]..].
  change (exec_state (ReqPin p) page b) with (fst (fst (pinPage page p b))).
  rewrite pinPage_fst. destruct Hok as [Hl|Hi]; [left; by rewrite strategy_pin_strategy|].
  destruct (strategy b) eqn:Es;
    [right; by apply pinPageFIFO_fill_inv|left; by rewrite strategy_pin_strategy|right; by apply pinPageCLOCK_fill_inv].
Qed.

Lemma fill_inv_init f n s : fill_inv (initBufferPool f n s).
Proof.
  intros _. unfold nframes, frame_at; simpl. rewrite init_frames, repeat_length.
  split; [done|]. intros j Hj. by rewrite repeat_lookup_total by lia.
Qed.

Lemma reachable_fill_ok b : reachable b -> WF b /\ fill_ok b.
Proof.
  induction 1 as [f n s Hn|r page b _ [Hb Hok]].
  - split; [by apply WF_init|right; apply fill_inv_init].
  - split; [by apply exec_WF|by apply exec_fill_ok].
Qed.

(** C7. Frames fill in ring order under FIFO and CLOCK: in every pool
    reachable from [initBufferPool] whose strategy is FIFO or CLOCK, while
    [occupiedCount < numPages], [head] is the frame of index
    [occupiedCount] and that frame and every frame after it hold no page
    ([NO_PAGE]).  So the fill path of [pinPageFIFO] and [pinPageCLOCK],
    which takes the frame at [head], never overwrites a resident page, and
    every resident page is in one of the first [occupiedCount] frames. *)
Theorem fill_in_ring_order b :
  reachable b -> strategy b <> RS_LRU -> (occupiedCount b < numPages b)%Z ->
  head b = Z.to_nat (occupiedCount b) /\
  forall j, Z.to_nat (occupiedCount b) <= j < nframes b -> pageNum (frame_at b j) = NO_PAGE.
Proof.
  intros Hr Hs Hlt. destruct (reachable_fill_ok b Hr) as [_ [Hl|Hi]]; [done|by apply Hi].
Qed.

Lemma fill_in_ring_order_witness :
  let b := exec_state (ReqPin 4) no_handle
             (exec_state (ReqPin 7) no_handle (initBufferPool (marked_file 8) 3 RS_CLOCK)) in
  reachable b /\ strategy b <> RS_LRU /\ (occupiedCount b < numPages b)%Z /\
  head b = Z.to_nat (occupiedCount b) /\
  (forall j, Z.to_nat (occupiedCount b) <= j < nframes b -> pageNum (frame_at b j) = NO_PAGE).
Proof.
  intros b.
  assert (Hr : reachable b) by (repeat constructor; lia).
  assert (Hs : strategy b <> RS_LRU) by (vm_compute; discriminate).
  assert (Hlt : (occupiedCount b < numPages b)%Z) by (vm_compute; reflexivity).
  exact (conj Hr (conj Hs (conj Hlt (fill_in_ring_order b Hr Hs Hlt)))).
Defined.
