(* ===== verification/PoolIface.v ===== *)
(** * The buffer pool as its clients see it

    The index manager ([src/btree_mgr.c]) and the record manager use a
    buffer pool only through [initBufferPool], [pinPage], [markDirty] and
    [unpinPage], and read the bytes [page->data] points to.  The class
    [BufferPool] states these operations and what a client may assume of
    them: a well-formedness predicate that creation establishes and every
    call preserves, a readable [page->data] that stays readable across
    [pinPage], and a [markDirty] that changes no bytes.  The client components are written and proved against
    the class; the instance [BM_BufferPool] discharges it with the model of
    [src/buffer_mgr.c] and its invariant [WF]. *)

From Stdlib Require Import Strings.Byte.
From S2P Require Import Prelude Storage Pool Access Fifo Lru Clock Pin.

(** [page->data] can be read: a string constant, or a frame of the pool. *)
Definition handle_readable {P} (frame : P -> nat -> option page) (b : P) (h : BM_PageHandle) : Prop :=
  match ph_data h with
  | NoData => False
  | FrameData i => is_Some (frame b i)
  | ConstData _ => True
  end.

Class BufferPool (P : Type) := {
  bp_init : SM_FileHandle -> Z -> ReplacementStrategy -> P;
  bp_pin : BM_PageHandle -> Z -> P -> P * BM_PageHandle * RC;
  bp_markDirty : BM_PageHandle -> P -> P * RC;
  bp_unpin : BM_PageHandle -> P -> P * RC;
  (** The bytes of the frame buffer a handle points to. *)
  bp_frame : P -> nat -> option page;
  bp_ok : P -> Prop;
  bp_init_ok f n s : (1 <= n)%Z -> bp_ok (bp_init f n s);
  bp_pin_ok h p b : bp_ok b -> bp_ok (fst (fst (bp_pin h p b)));
  bp_markDirty_ok h b : bp_ok b -> bp_ok (fst (bp_markDirty h b));
  bp_unpin_ok h b : bp_ok b -> bp_ok (fst (bp_unpin h b));
  (** A handle whose buffer could be read before [pinPage] can be read
      after it: [pinPage] points it to a frame of the pool, or leaves it. *)
  bp_pin_readable h p b :
    bp_ok b -> handle_readable bp_frame b h ->
    handle_readable bp_frame (fst (fst (bp_pin h p b))) (snd (fst (bp_pin h p b)));
  (** [markDirty] changes no frame's bytes. *)
  bp_markDirty_frame h b i : bp_frame (fst (bp_markDirty h b)) i = bp_frame b i
}.

(** ** What [pinPage] does to the handle and the number of frames *)

(** The frame a strategy function's handle points to exists. *)
Definition frame_handle (b : BM) (r : RC + BM_PageHandle) : Prop :=
  match r with
  | inr h => exists i, ph_data h = FrameData i /\ i < nframes b
  | inl _ => True
  end.

Ltac frame_handle_auto :=
  simpl; try (eexists; split; [reflexivity|]); try done; try lia; try (apply cnext_lt; lia).

Lemma pinPageFIFO_frame p b : WF b -> frame_handle b (snd (pinPageFIFO p b)).
Proof.
  intros Hb. unfold pinPageFIFO. bm_run. pose proof (proj1 (proj2 (proj2 Hb))).
  destruct (find_page b p) as [i [|]] eqn:Hf.
  - destruct (find_page_hit b p i Hb Hf) as [Hi _]. frame_handle_auto.
  - pose proof (fifo_victim_lt b Hb) as Hv. destruct (fifo_victim b) as [j found]; simpl in Hv.
    repeat case_bool_decide; bm_cases; frame_handle_auto.
Qed.

Lemma pinPageLRU_frame p b : WF b -> frame_handle b (snd (pinPageLRU p b)).
Proof.
  intros Hb. unfold pinPageLRU. bm_run. pose proof (proj1 (proj2 (proj2 Hb))).
  destruct (find_page b p) as [i [|]] eqn:Hf.
  - destruct (find_page_hit b p i Hb Hf) as [Hi _]. frame_handle_auto.
  - pose proof (lru_victim_lt b Hb) as Hv. destruct (lru_victim b) as [j found]; simpl in Hv.
    repeat case_bool_decide; bm_cases; frame_handle_auto.
Qed.

Lemma pinPageCLOCK_frame p b : WF b -> frame_handle b (snd (pinPageCLOCK p b)).
Proof.
  intros Hb. unfold pinPageCLOCK, sweepM. bm_run. pose proof (proj1 (proj2 (proj2 Hb))).
  destruct (find_page b p) as [i [|]] eqn:Hf.
  - destruct (find_page_hit b p i Hb Hf) as [Hi _]. frame_handle_auto.
  - pose proof (clock_victim_lt b Hb) as Hv. destruct (clock_victim b) as [j found]; simpl in Hv.
    repeat case_bool_decide; bm_cases.
    all: try match goal with
           | H : clock_sweep _ _ _ _ = _ |- _ =>
               apply clock_sweep_facts in H as (_ & _ & _ & Hk); [|done]
           end.
    all: frame_handle_auto.
Qed.

(** No operation changes the capacity. *)
Lemma strategy_numPages s p b : numPages (fst (strategy_pin s p b)) = numPages b.
Proof.
  destruct s; simpl; [unfold pinPageFIFO|unfold pinPageLRU|unfold pinPageCLOCK, sweepM]; bm_run;
    repeat (bm_case; simpl); try reflexivity;
    repeat case_bool_decide; bm_cases; reflexivity.
Qed.

Lemma pinPage_handle h p b :
  WF b ->
  nframes (fst (fst (pinPage h p b))) = nframes b /\
  (snd (fst (pinPage h p b)) = h \/
   exists i, ph_data (snd (fst (pinPage h p b))) = FrameData i /\ i < nframes b).
Proof.
  intros Hb. pose proof (pinPage_WF h p b Hb) as Hb'.
  assert (Hf : frame_handle b (snd (strategy_pin (strategy b) p b))).
  { destruct (strategy b); [apply pinPageFIFO_frame|apply pinPageLRU_frame|apply pinPageCLOCK_frame]; done. }
  pose proof (strategy_numPages (strategy b) p b) as Hn.
  rewrite pinPage_fst in Hb'. unfold pinPage, run_pin.
  destruct (strategy_pin (strategy b) p b) as [b1 [e|h1]]; simpl in *;
    (split; [destruct Hb as (_ & Hl & _); destruct Hb' as (_ & Hl' & _); lia|]); [by left|by right].
Qed.

Lemma run_rc_fst m b : fst (run_rc m b) = fst (m b).
Proof. unfold run_rc. by destruct (m b) as [? []]. Qed.

(** The model of [buffer_mgr.c] is a buffer pool. *)
#[export] Program Instance BM_BufferPool : BufferPool BM := {
  bp_init := initBufferPool;
  bp_pin h p b := pinPage h p b;
  bp_markDirty h b := run_rc (markDirty h) b;
  bp_unpin h b := run_rc (unpinPage h) b;
  bp_frame b i := if decide (i < nframes b) then Some (data (frame_at b i)) else None;
  bp_ok := WF
}.
Next Obligation. intros. by apply WF_init. Qed.
Next Obligation. intros. by apply pinPage_WF. Qed.
Next Obligation. intros. simpl. rewrite run_rc_fst. by apply markDirty_WF. Qed.
Next Obligation. intros. simpl. rewrite run_rc_fst. by apply unpinPage_WF. Qed.
Next Obligation.
  intros h p b Hb Hr. simpl in *. destruct (pinPage_handle h p b Hb) as [Hn [->|(i & Hi & Hlt)]].
  - unfold handle_readable in *. destruct (ph_data h) as [|i|]; [done| |done].
    rewrite Hn. by destruct (decide (i < nframes b)).
  - unfold handle_readable. rewrite Hi, Hn. by rewrite decide_True.
Qed.
Next Obligation.
  intros h b i. simpl. rewrite run_rc_fst. unfold markDirty. bm_run.
  destruct (find_page b _) as [j [|]]; simpl; [|done].
  rewrite nframes_upd_frames. case_decide; [|done]. f_equal.
  destruct (decide (i = j)) as [->|Hij]; [rewrite frame_at_upd_same|rewrite frame_at_upd_other]; done || lia.
Qed.

(** The bytes [page->data] points to, in a pool: [None] is a null pointer
    (or a frame outside the pool, which [handle_readable] excludes). *)
Definition page_bytes {P} `{BufferPool P} (b : P) (h : BM_PageHandle) : option (list Byte.byte) :=
  match ph_data h with
  | NoData => None
  | FrameData i => bp_frame b i
  | ConstData s => Some s
  end.
