(* ===== verification/BTree.v ===== *)
(** * The index manager (src/btree_mgr.c)

    Despite its name, [btree_mgr.c] keeps the keys of an index in the
    global array [AllocBTree] of [numOfKeys] pointers to [struct BTree]
    elements, each holding a key [value] and its [rid]: [insertKey] appends
    after a linear search for duplicates, [findKey] and [deleteKey] search
    linearly, [deleteKey] shifts the elements after the deleted one down,
    [openTreeScan] selection-sorts the array and [nextEntry] walks it with
    the global cursor [scanNextEntry].  The tree handle's [struct BTree]
    holds a buffer pool, a page handle, [maxNumOfKeysPerNode] and
    [nodeCounter]; [insertKey] and [deleteKey] pin, mark dirty and unpin
    "node" pages of the index file through it, and assign string constants
    to the handle's [data] pointer.

    The model is written against the interface [BufferPool] of
    [PoolIface.v].  Memory is modelled where the code's behaviour depends
    on it:
    - [AllocBTree] is the list of its pointer slots, as long as its
      allocation: [createBtree] allocates one slot, and an access outside
      the allocation, or through a pointer not yet assigned or freed, is
      undefined behaviour ([None]);
    - a key is its [DataType] and the 8 bytes of its union [v] as a 64-bit
      word; [intV] and [floatV] are its low 4 bytes (little-endian), so that
      assigning [v.intV] keeps the 4 high bytes of what the element held;
    - a float is its IEEE-754 bit pattern, compared by IEEE equality and
      order ([float_eq], [float_lt]);
    - bytes [malloc] leaves indeterminate are parameters of the operation
      that allocates them ([fresh] elements, the junk of [createBtree]'s
      page buffer, [getNumNodes]'s uninitialised counter).

    The abstraction [key_map] maps an index of [int] keys ([int_index]:
    its first [numOfKeys] slots assigned, of type [int], with distinct
    keys) to a [gmap] from keys to [RID]s.  [findKey], [insertKey] and
    [deleteKey] refine lookup, insertion and deletion in it, and so do
    sequences of calls ([run_ops] against [map_ops]), provided
    [AllocBTree] has room for the insertions: a hypothesis the code itself
    breaks, since [createBtree] allocates one slot ([insertKey_overflow]).
    The remaining theorems state the code's defects. *)

From Stdlib Require Import Strings.Byte Strings.String.
From stdpp Require Import gmap.
From S2P Require Import Prelude RecordMgr Storage Pool PoolIface.

(** ** Keys *)

(** The [Value] of a key: its type and the word of its union. *)
Record Key := mkKey { kdt : DataType; kv : Z }.

Definition LOW32 : Z := Z.ones 32.

(** [v.intV], [v.floatV] (its bit pattern) and [v.stringV] (the pointer). *)
Definition u_intV (w : Z) : Z := to_signed 32 (Z.land w LOW32).
Definition u_floatV (w : Z) : Z := Z.land w LOW32.
Definition u_stringV (w : Z) : Z := w.

(** The union after an assignment to its 4-byte member [intV] or
    [floatV]: the low 4 bytes replaced, the high 4 bytes kept. *)
Definition set_low32 (w x : Z) : Z := Z.lor (Z.land w (Z.shiftl LOW32 32)) (Z.land x LOW32).

(** IEEE-754 single precision on bit patterns. *)
Definition f_isNaN (bits : Z) : bool :=
  Z.eqb (Z.land (Z.shiftr bits 23) 255) 255 && negb (Z.eqb (Z.land bits (Z.ones 23)) 0).

(** The order of non-NaN floats as integers: sign and magnitude, both zeros
    at [0]. *)
Definition f_order (bits : Z) : Z :=
  let mag := Z.land bits (Z.ones 31) in if Z.testbit bits 31 then - mag else mag.

Definition float_eq (a b : Z) : bool := negb (f_isNaN a || f_isNaN b) && Z.eqb (f_order a) (f_order b).
Definition float_lt (a b : Z) : bool := negb (f_isNaN a || f_isNaN b) && Z.ltb (f_order a) (f_order b).

(** ** State *)

(** An element of [AllocBTree]: the [value] and [rid] fields of its
    [struct BTree], the only ones the code uses. *)
Record BTreeEntry := mkEntry { value : Key; rid : RID }.

(** [tree->mgmtData], the [struct BTree] [openBtree] allocates. *)
Record TreeInfo (P : Type) := mkInfo {
  bm : P;
  ph : BM_PageHandle;
  maxNumOfKeysPerNode : Z;
  nodeCounter : Z
}.
Arguments mkInfo {P}.
Arguments bm {P}. Arguments ph {P}. Arguments maxNumOfKeysPerNode {P}. Arguments nodeCounter {P}.

(** The globals [AllocBTree], [numOfKeys], [scanNextEntry] and the open
    tree. *)
Record Index (P : Type) := mkIndex {
  AllocBTree : list (option BTreeEntry);
  numOfKeys : Z;
  scanNextEntry : Z;
  tree : TreeInfo P
}.
Arguments mkIndex {P}.
Arguments AllocBTree {P}. Arguments numOfKeys {P}. Arguments scanNextEntry {P}. Arguments tree {P}.

(** [AllocBTree[i]->...]: the element of an assigned slot. *)
Definition slot (a : list (option BTreeEntry)) (i : nat) : option BTreeEntry := mjoin (a !! i).

(** [AllocBTree[i] = p] inside the allocation. *)
Definition slot_set (a : list (option BTreeEntry)) (i : Z) (e : option BTreeEntry)
  : option (list (option BTreeEntry)) :=
  if decide (0 <= i < Z.of_nat (length a))%Z then Some (<[Z.to_nat i := e]> a) else None.

(** The string constants the code assigns to [ph->data]. *)
Definition c_string (s : string) : list Byte.byte := list_byte_of_string s ++ [Byte.x00].
Definition NotFull : list Byte.byte := c_string "NotFull".
Definition NodeFull : list Byte.byte := c_string "NodeFull".

(** [strcmp(a, b) == 0]. *)
Definition streq (a b : list Byte.byte) : bool := bool_decide (c_str a = c_str b).

(** Assigning [v.intV] keeps the high 4 bytes of a 64-bit word. *)
Lemma shiftr_set_low32 w x : (0 <= w < 2 ^ 64)%Z -> Z.shiftr (set_low32 w x) 32 = Z.shiftr w 32.
Proof.
  intros Hw. apply Z.bits_inj'. intros n Hn. unfold set_low32, LOW32.
  rewrite !Z.shiftr_spec, Z.lor_spec, !Z.land_spec by lia.
  rewrite (Z.ones_spec_high 32 (n + 32)) by lia. rewrite andb_false_r, orb_false_r.
  rewrite Z.shiftl_spec by lia. replace (n + 32 - 32)%Z with n by lia.
  destruct (Z.ltb_spec n 32).
  - rewrite Z.ones_spec_low by lia. apply andb_true_r.
  - rewrite Z.ones_spec_high by lia. rewrite andb_false_r. symmetry.
    destruct (Z.eq_dec w 0) as [->|Hw0]; [apply Z.bits_0|].
    apply Z.bits_above_log2; [lia|]. apply Z.log2_lt_pow2; [lia|].
    apply Z.lt_le_trans with (2 ^ 64)%Z; [lia|apply Z.pow_le_mono_r; lia].
Qed.

Section Index.
Context {P : Type} `{BufferPool P}.

(** ** The key comparisons and assignments *)

(** The test of the [switch (key->dt)] of the search loops, for the
    types that have a case. *)
Definition key_hit (e : BTreeEntry) (key : Key) : bool :=
  bool_decide (kdt (value e) = kdt key) &&
  match kdt key with
  | DT_INT => Z.eqb (u_intV (kv (value e))) (u_intV (kv key))
  | DT_FLOAT => float_eq (u_floatV (kv (value e))) (u_floatV (kv key))
  | DT_STRING => Z.eqb (u_stringV (kv (value e))) (u_stringV (kv key))
  | DT_BOOL => false
  end.

(** The [switch (key->dt)] of [insertKey] that stores the key into the
    element [old]: [v.intV] for an [int] and, by the same line, for a
    string; [v.floatV] for a float; [None] is the [default] case. *)
Definition store_key (old key : Key) : option Key :=
  match kdt key with
  | DT_INT | DT_STRING => Some (mkKey (kdt key) (set_low32 (kv old) (u_intV (kv key))))
  | DT_FLOAT => Some (mkKey DT_FLOAT (set_low32 (kv old) (u_floatV (kv key))))
  | DT_BOOL => None
  end.

(** ** [findKey] *)

(** [for (i = 0; i < numOfKeys; i++) { switch (key->dt) ...; if (flagFound)
    return RC_OK; }]: the return code and the [RID] stored in [*result]. *)
Fixpoint find_loop (a : list (option BTreeEntry)) (key : Key) (idx : list nat)
  : option (RC * option RID) :=
  match idx with
  | [] => Some (RC_IM_KEY_NOT_FOUND, None)
  | i :: idx' =>
      if bool_decide (kdt key = DT_BOOL) then Some (RC_RM_NO_PRINT_FOR_DATATYPE, None)
      else e ← slot a i;
           if key_hit e key then Some (RC_OK, Some (rid e)) else find_loop a key idx'
  end.

Definition findKey (s : Index P) (key : Key) : option (RC * option RID) :=
  find_loop (AllocBTree s) key (seq 0 (Z.to_nat (numOfKeys s))).

(** ** [insertKey] *)

(** The duplicate search of [insertKey]: the loop runs to the end, setting
    [flagFound]; [inl] is the [default] case's return code. *)
Fixpoint dup_loop (a : list (option BTreeEntry)) (key : Key) (idx : list nat) (flag : bool)
  : option (RC + bool) :=
  match idx with
  | [] => Some (inr flag)
  | i :: idx' =>
      if bool_decide (kdt key = DT_BOOL) then Some (inl RC_RM_NO_PRINT_FOR_DATATYPE)
      else e ← slot a i; dup_loop a key idx' (flag || key_hit e key)
  end.

(** [pinPage(bm, ph, p);] on the tree's pool. *)
Definition pin_node (t : TreeInfo P) (p : Z) : TreeInfo P :=
  let '(b1, h1, _) := bp_pin (ph t) p (bm t) in
  {| bm := b1; ph := h1; maxNumOfKeysPerNode := maxNumOfKeysPerNode t; nodeCounter := nodeCounter t |}.

(** [markDirty(bm, ph);]. *)
Definition mark_node (t : TreeInfo P) : TreeInfo P :=
  {| bm := fst (bp_markDirty (ph t) (bm t)); ph := ph t;
     maxNumOfKeysPerNode := maxNumOfKeysPerNode t; nodeCounter := nodeCounter t |}.

Definition pin_dirty (t : TreeInfo P) (p : Z) : TreeInfo P := mark_node (pin_node t p).

(** [ph->data = s; unpinPage(bm, ph);]. *)
Definition unpin_with (t : TreeInfo P) (s : list Byte.byte) : TreeInfo P :=
  let h := {| ph_pageNum := ph_pageNum (ph t); ph_data := ConstData s |} in
  {| bm := fst (bp_unpin h (bm t)); ph := h;
     maxNumOfKeysPerNode := maxNumOfKeysPerNode t; nodeCounter := nodeCounter t |}.

(** [ph->data = s;] alone. *)
Definition set_ph_data (t : TreeInfo P) (s : list Byte.byte) : TreeInfo P :=
  {| bm := bm t; ph := {| ph_pageNum := ph_pageNum (ph t); ph_data := ConstData s |};
     maxNumOfKeysPerNode := maxNumOfKeysPerNode t; nodeCounter := nodeCounter t |}.

(** The element [AllocBTree[numOfKeys]] after the [switch] and the [rid]
    assignments, appended: [numOfKeys++]. *)
Definition append (s : Index P) (a : list (option BTreeEntry)) (k : Key) (r : RID) (t : TreeInfo P)
  : Index P :=
  {| AllocBTree := <[Z.to_nat (numOfKeys s) := Some (mkEntry k r)]> a;
     numOfKeys := numOfKeys s + 1; scanNextEntry := scanNextEntry s; tree := t |}.

Definition with_slots (s : Index P) (a : list (option BTreeEntry)) (t : TreeInfo P) : Index P :=
  {| AllocBTree := a; numOfKeys := numOfKeys s; scanNextEntry := scanNextEntry s; tree := t |}.

(** [insertKey(tree, key, rid)]; [fresh] is the element [malloc] returns
    for [AllocBTree[numOfKeys]]. *)
Definition insertKey (s : Index P) (key : Key) (r : RID) (fresh : BTreeEntry)
  : option (Index P * RC) :=
  a ← slot_set (AllocBTree s) (numOfKeys s) (Some fresh);
  let t := tree s in
  if bool_decide (numOfKeys s = 0%Z) then
    (* pinPage(bm, ph, numOfKeys); markDirty(bm, ph); ph->data = "NotFull"; *)
    let t1 := set_ph_data (pin_dirty t (numOfKeys s)) NotFull in
    match store_key (value fresh) key with
    | None => Some (with_slots s a t1, RC_RM_NO_PRINT_FOR_DATATYPE)
    | Some k => Some (append s a k r (unpin_with t1 NotFull), RC_OK)
    end
  else
    match dup_loop a key (seq 0 (Z.to_nat (numOfKeys s))) false with
    | None => None
    | Some (inl rc) => Some (with_slots s a t, rc)
    | Some (inr true) => Some (with_slots s a t, RC_IM_KEY_ALREADY_EXISTS)
    | Some (inr false) =>
        let t1 := pin_dirty t (nodeCounter t) in
        d ← page_bytes (bm t1) (ph t1);
        if streq d NodeFull then
          (* nodeCounter++; unpinPage; pinPage(bm, ph, nodeCounter); *)
          let nc := (nodeCounter t1 + 1)%Z in
          let b2 := fst (bp_unpin (ph t1) (bm t1)) in
          let '(b3, h3, _) := bp_pin (ph t1) nc b2 in
          let t3 := {| bm := b3; ph := h3; maxNumOfKeysPerNode := maxNumOfKeysPerNode t1;
                       nodeCounter := nc |} in
          match store_key (value fresh) key with
          | None => Some (with_slots s a t3, RC_RM_NO_PRINT_FOR_DATATYPE)
          | Some k => Some (append s a k r (unpin_with t3 NotFull), RC_OK)
          end
        else
          match store_key (value fresh) key with
          | None => Some (with_slots s a t1, RC_RM_NO_PRINT_FOR_DATATYPE)
          | Some k => Some (append s a k r (unpin_with t1 NodeFull), RC_OK)
          end
    end.

(** ** [deleteKey] *)

(** The search of [deleteKey]: the index of the first element that matches;
    [inr None] when there is none.  (The test [if (i == numOfKeys) return
    RC_IM_KEY_NOT_FOUND;] sits inside the loop, where it never holds.) *)
Fixpoint del_find (a : list (option BTreeEntry)) (key : Key) (idx : list nat)
  : option (RC + option nat) :=
  match idx with
  | [] => Some (inr None)
  | i :: idx' =>
      if bool_decide (kdt key = DT_BOOL) then Some (inl RC_RM_NO_PRINT_FOR_DATATYPE)
      else e ← slot a i; if key_hit e key then Some (inr (Some i)) else del_find a key idx'
  end.

(** One iteration of the shift: [AllocBTree[k]] takes the value of
    [AllocBTree[k+1]] by the [switch] on its type, and its [rid].  For a
    string the code [strcpy]s between the buffers the two pointers name,
    which the model does not follow ([None]). *)
Definition copy_entry (dst src : BTreeEntry) : option BTreeEntry :=
  match kdt (value src) with
  | DT_INT => Some (mkEntry (mkKey DT_INT (set_low32 (kv (value dst)) (u_intV (kv (value src))))) (rid src))
  | DT_FLOAT => Some (mkEntry (mkKey DT_FLOAT (set_low32 (kv (value dst)) (u_floatV (kv (value src))))) (rid src))
  | DT_STRING => None
  | DT_BOOL => Some (mkEntry (value dst) (rid src))
  end.

(** [for (k = i; k < numOfKeys && nextKeyIndex < numOfKeys; k++)]: [m]
    iterations from [k]; the final array and [k]. *)
Fixpoint shift_loop (a : list (option BTreeEntry)) (k m : nat)
  : option (list (option BTreeEntry) * nat) :=
  match m with
  | 0 => Some (a, k)
  | S m' =>
      src ← slot a (S k); dst ← slot a k; e ← copy_entry dst src;
      shift_loop (<[k := Some e]> a) (S k) m'
  end.

(** [deleteKey(tree, key)]. *)
Definition deleteKey (s : Index P) (key : Key) : option (Index P * RC) :=
  let n := Z.to_nat (numOfKeys s) in
  r ← del_find (AllocBTree s) key (seq 0 n);
  match r with
  | inl rc => Some (s, rc)
  | inr None => Some (s, RC_OK)
  | inr (Some i) =>
      (* pinPage(bm, ph, i/2); ph->data = "NotFull"; markDirty; unpinPage; *)
      let t1 := mark_node (set_ph_data (pin_node (tree s) (Z.of_nat i / 2)) NotFull) in
      '(a, k) ← shift_loop (AllocBTree s) i (n - S i);
      (* numOfKeys--; free(AllocBTree[k]); *)
      Some ({| AllocBTree := <[k := None]> a; numOfKeys := numOfKeys s - 1;
               scanNextEntry := scanNextEntry s; tree := unpin_with t1 NotFull |}, RC_OK)
  end.

(** ** Scans *)

(** [indexSmallKey = i; for (j = i+1; j < numOfKeys; j++) if (key(j) <
    key(indexSmallKey)) indexSmallKey = j;] with the order [lt] on the
    union words. *)
Fixpoint min_loop (lt : Z -> Z -> bool) (a : list (option BTreeEntry)) (m : nat) (js : list nat)
  : option nat :=
  match js with
  | [] => Some m
  | j :: js' =>
      ej ← slot a j; em ← slot a m;
      min_loop lt a (if lt (kv (value ej)) (kv (value em)) then j else m) js'
  end.

(** The swap of the [value] and [rid] of [AllocBTree[i]] and
    [AllocBTree[m]] through [tempValueSwap] and [tempRidSwap]. *)
Definition swap_slots (a : list (option BTreeEntry)) (i m : nat) : option (list (option BTreeEntry)) :=
  ei ← slot a i; em ← slot a m;
  Some (<[i := Some em]> (<[m := Some ei]> a)).

(** [for (i = 0; i < numOfKeys - 1; i++) { ... }]. *)
Fixpoint sort_loop (lt : Z -> Z -> bool) (a : list (option BTreeEntry)) (n : nat) (idx : list nat)
  : option (list (option BTreeEntry)) :=
  match idx with
  | [] => Some a
  | i :: idx' =>
      m ← min_loop lt a i (seq (S i) (n - S i));
      a' ← swap_slots a i m;
      sort_loop lt a' n idx'
  end.

Definition selection_sort (lt : Z -> Z -> bool) (a : list (option BTreeEntry)) (n : nat)
  : option (list (option BTreeEntry)) :=
  sort_loop lt a n (seq 0 (n - 1)).

(** The comparisons of the two sorts: [AllocBTree[j]->value.v.intV <
    AllocBTree[indexSmallKey]->value.v.intV] and the same on [floatV]. *)
Definition int_lt (x y : Z) : bool := Z.ltb (u_intV x) (u_intV y).
Definition float_key_lt (x y : Z) : bool := float_lt (u_floatV x) (u_floatV y).

(** [openTreeScan(tree, handle)]: sort by [v.intV] when the first element
    is an [int], by [v.floatV] when it is a float; [scanNextEntry] is not
    reset. *)
Definition openTreeScan (s : Index P) : option (Index P) :=
  e0 ← slot (AllocBTree s) 0;
  let n := Z.to_nat (numOfKeys s) in
  match kdt (value e0) with
  | DT_INT =>
      a ← selection_sort int_lt (AllocBTree s) n;
      Some (with_slots s a (tree s))
  | DT_FLOAT =>
      a ← selection_sort float_key_lt (AllocBTree s) n;
      Some (with_slots s a (tree s))
  | _ => Some s
  end.

(** [nextEntry(handle, result)]. *)
Definition nextEntry (s : Index P) : option (Index P * RC * option RID) :=
  if bool_decide (scanNextEntry s < numOfKeys s)%Z then
    e ← slot (AllocBTree s) (Z.to_nat (scanNextEntry s));
    Some ({| AllocBTree := AllocBTree s; numOfKeys := numOfKeys s;
             scanNextEntry := scanNextEntry s + 1; tree := tree s |}, RC_OK, Some (rid e))
  else Some (s, RC_IM_NO_MORE_ENTRIES, None).

(** ** Counters *)

Definition getNumEntries (s : Index P) : Z := numOfKeys s.

(** [for (compareNode = headNode-1; compareNode >= 0; compareNode--)]. *)
Fixpoint same_page_loop (a : list (option BTreeEntry)) (h : nat) (cs : list nat) (acc : Z)
  : option Z :=
  match cs with
  | [] => Some acc
  | c :: cs' =>
      eh ← slot a h; ec ← slot a c;
      same_page_loop a h cs'
        (if Z.eqb (RecordMgr.page (rid eh)) (RecordMgr.page (rid ec)) then acc + 1 else acc)%Z
  end.

Fixpoint head_loop (a : list (option BTreeEntry)) (hs : list nat) (acc : Z) : option Z :=
  match hs with
  | [] => Some acc
  | h :: hs' => acc' ← same_page_loop a h (rev (seq 0 h)) acc; head_loop a hs' acc'
  end.

(** [getNumNodes(tree, result)]: [samePageEntry] is never initialised;
    [junk] is the value it starts from. *)
Definition getNumNodes (s : Index P) (junk : Z) : option Z :=
  cnt ← head_loop (AllocBTree s) (seq 1 (Z.to_nat (numOfKeys s) - 1)) junk;
  Some (numOfKeys s - cnt)%Z.

(** ** Creating and opening an index *)

(** [createBtree(idxId, keyType, n)]: the new index file, whose page 0 holds
    [n] in its first 4 bytes followed by the rest of the [malloc]ed buffer
    [junk]; [AllocBTree] gets one slot, [numOfKeys] and [scanNextEntry]
    are reset. *)
Definition createBtree (n : Z) (junk : page) : SM_FileHandle * list (option BTreeEntry) :=
  let f1 := ensureCapacity 1 {| blocks := [empty_page]; nReads := 0; nWrites := 0 |} in
  let buf := le_bytes 4 n ++ drop 4 junk in
  (default f1 (writeBlock 0 buf f1), [None]).

(** [openBtree(tree, idxId)]: a pool of 6 FIFO frames on the index file,
    [maxNumOfKeysPerNode] read as an [int] from the page it pins, page 1;
    [ph0] is the handle [MAKE_PAGE_HANDLE] allocates. *)
Definition openBtree (f : SM_FileHandle) (ph0 : BM_PageHandle) : option (TreeInfo P) :=
  let b0 := bp_init f 6 RS_FIFO in
  let '(b1, h1, _) := bp_pin ph0 1 b0 in
  d ← page_bytes b1 h1;
  if decide (4 <= length d) then
    Some {| bm := fst (bp_unpin h1 b1); ph := h1;
            maxNumOfKeysPerNode := to_signed 32 (le_value (take 4 d)); nodeCounter := 0 |}
  else None.

(** The globals after [createBtree] and the tree [openBtree] opens. *)
Definition open_index (a : list (option BTreeEntry)) (t : TreeInfo P) : Index P :=
  {| AllocBTree := a; numOfKeys := 0; scanNextEntry := 0; tree := t |}.

(** [deleteBtree(idxId)]: [numOfKeys] and [scanNextEntry] are reset,
    [AllocBTree] is not. *)
Definition deleteBtree (s : Index P) : Index P :=
  {| AllocBTree := AllocBTree s; numOfKeys := 0; scanNextEntry := 0; tree := tree s |}.

(** ** The entries of an index *)

(** [AllocBTree[0..numOfKeys-1]], when all of them are assigned. *)
Definition entries (s : Index P) : option (list BTreeEntry) :=
  mapM (slot (AllocBTree s)) (seq 0 (Z.to_nat (numOfKeys s))).

(** Every operation leaves the tree's buffer pool well formed. *)
Definition pool_ok (s : Index P) : Prop := bp_ok (bm (tree s)).

(** The tree's pages can be written: its pool is well formed and
    [ph->data] can be read, as [insertKey]'s [strcmp] does. *)
Definition ready (s : Index P) : Prop :=
  bp_ok (bm (tree s)) /\ handle_readable bp_frame (bm (tree s)) (ph (tree s)).

(** ** The abstract index: a finite map from [int] keys to [RID]s *)

(** The key an [int] element holds, [v.intV]. *)
Definition ikey (e : BTreeEntry) : Z := u_intV (kv (value e)).

Definition int_entry (e : BTreeEntry) : Prop := kdt (value e) = DT_INT.

Definition key_pair (e : BTreeEntry) : Z * RID := (ikey e, rid e).

(** The map the elements [es] represent. *)
Definition key_map (es : list BTreeEntry) : gmap Z RID := list_to_map (key_pair <$> es).

(** An index of [int] keys: [AllocBTree[0..numOfKeys-1]] are the elements
    [es], of type [int], with distinct keys. *)
Definition int_index (s : Index P) (es : list BTreeEntry) : Prop :=
  (0 <= numOfKeys s)%Z /\ entries s = Some es /\ Forall int_entry es /\ NoDup (ikey <$> es).

(** The first element whose key matches. *)
Definition first_hit (es : list BTreeEntry) (key : Key) : option (nat * BTreeEntry) :=
  list_find (fun e => key_hit e key = true) es.

(** The elements [0 .. k-1] are in place: none is above a later one. *)
Definition sorted_upto (l : list BTreeEntry) (k : nat) : Prop :=
  forall i j x y, i < j -> i < k -> l !! i = Some x -> l !! j = Some y -> (ikey x <= ikey y)%Z.

(** The elements in strictly increasing key order. *)
Definition key_sorted (l : list BTreeEntry) : Prop :=
  forall i j x y, i < j -> l !! i = Some x -> l !! j = Some y -> (ikey x < ikey y)%Z.

(** A client's scan: [nextEntry] until it returns
    [RC_IM_NO_MORE_ENTRIES], with at most [fuel] calls. *)
Fixpoint scan_entries (s : Index P) (fuel : nat) : option (list RID) :=
  match fuel with
  | 0 => None
  | S fuel' =>
      '(s1, rc, r) ← nextEntry s;
      match rc, r with
      | RC_OK, Some rd => rs ← scan_entries s1 fuel'; Some (rd :: rs)
      | _, _ => Some []
      end
  end.

(** ** A client's calls on an open index *)

(** A call of [insertKey] (with the element its [malloc] returns),
    [deleteKey] or [findKey]. *)
Inductive idx_op :=
  | OpInsert (key : Key) (r : RID) (fresh : BTreeEntry)
  | OpDelete (key : Key)
  | OpFind (key : Key).

Definition op_key (o : idx_op) : Key :=
  match o with OpInsert k _ _ | OpDelete k | OpFind k => k end.

Definition is_insert (o : idx_op) : bool :=
  match o with OpInsert _ _ _ => true | _ => false end.

(** A call: the return code, and the [RID] [findKey] stores in [*result]. *)
Definition run_op (s : Index P) (o : idx_op) : option (Index P * (RC * option RID)) :=
  match o with
  | OpInsert k r f => '(s1, rc) ← insertKey s k r f; Some (s1, (rc, None))
  | OpDelete k => '(s1, rc) ← deleteKey s k; Some (s1, (rc, None))
  | OpFind k => res ← findKey s k; Some (s, res)
  end.

Fixpoint run_ops (s : Index P) (ops : list idx_op) : option (Index P * list (RC * option RID)) :=
  match ops with
  | [] => Some (s, [])
  | o :: ops' => '(s1, res) ← run_op s o; '(s2, out) ← run_ops s1 ops'; Some (s2, res :: out)
  end.

(** The same calls on a map from keys to [RID]s, as the index manager's
    interface describes them. *)
Definition map_step (m : gmap Z RID) (o : idx_op) : gmap Z RID * (RC * option RID) :=
  match o with
  | OpInsert k r _ =>
      match m !! u_intV (kv k) with
      | Some _ => (m, (RC_IM_KEY_ALREADY_EXISTS, None))
      | None => (<[u_intV (kv k) := r]> m, (RC_OK, None))
      end
  | OpDelete k => (delete (u_intV (kv k)) m, (RC_OK, None))
  | OpFind k =>
      (m, match m !! u_intV (kv k) with
          | Some r => (RC_OK, Some r)
          | None => (RC_IM_KEY_NOT_FOUND, None) end)
  end.

Fixpoint map_ops (m : gmap Z RID) (ops : list idx_op) : gmap Z RID * list (RC * option RID) :=
  match ops with
  | [] => (m, [])
  | o :: ops' => let '(m1, res) := map_step m o in let '(m2, out) := map_ops m1 ops' in (m2, res :: out)
  end.

Lemma pin_node_ok t p : bp_ok (bm t) -> bp_ok (bm (pin_node t p)).
Proof. unfold pin_node. destruct (bp_pin _ _ _) as [[b1 h1] rc] eqn:E. simpl. intros Hb.
  pose proof (bp_pin_ok (ph t) p (bm t) Hb) as Hp. by rewrite E in Hp. Qed.

Lemma mark_node_ok t : bp_ok (bm t) -> bp_ok (bm (mark_node t)).
Proof. apply bp_markDirty_ok. Qed.

Lemma unpin_with_ok t d : bp_ok (bm t) -> bp_ok (bm (unpin_with t d)).
Proof. apply bp_unpin_ok. Qed.

Lemma set_ph_data_ok t d : bp_ok (bm t) -> bp_ok (bm (set_ph_data t d)).
Proof. done. Qed.

Lemma pin_dirty_ok t p : bp_ok (bm t) -> bp_ok (bm (pin_dirty t p)).
Proof. intros. by apply mark_node_ok, pin_node_ok. Qed.


Lemma pin_result_ok h p b b' h' rc : bp_ok b -> bp_pin h p b = (b', h', rc) -> bp_ok b'.
Proof. intros Hb E. pose proof (bp_pin_ok h p b Hb) as Hp. by rewrite E in Hp. Qed.

#[local] Hint Resolve pin_node_ok mark_node_ok unpin_with_ok set_ph_data_ok pin_dirty_ok
  bp_unpin_ok bp_markDirty_ok : bm.

Lemma insertKey_pool_ok s key r fresh s' rc :
  pool_ok s -> insertKey s key r fresh = Some (s', rc) -> pool_ok s'.
Proof.
  unfold pool_ok, insertKey. intros Hb.
  destruct (slot_set _ _ _) as [a|]; simpl; [|done].
  case_bool_decide.
  - destruct (store_key _ _); intros [= <- _]; simpl; eauto 10 with bm.
  - destruct (dup_loop _ _ _ _) as [[rc'|[]]|]; simpl; [intros [= <- _]; done..| |done].
    destruct (page_bytes _ _); simpl; [|done].
    case_match.
    + destruct (bp_pin _ _ _) as [[b3 h3] rc3] eqn:E.
      assert (Hb3 : bp_ok b3) by (eapply pin_result_ok; [|exact E]; eauto 10 with bm).
      destruct (store_key _ _); intros [= <- _]; simpl; [apply bp_unpin_ok|]; done.
    + destruct (store_key _ _); intros [= <- _]; simpl; eauto 10 with bm.
Qed.

Lemma deleteKey_pool_ok s key s' rc :
  pool_ok s -> deleteKey s key = Some (s', rc) -> pool_ok s'.
Proof.
  unfold pool_ok, deleteKey. intros Hb.
  destruct (del_find _ _ _) as [[rc'|[i|]]|]; simpl; [intros [= <- _]; done| |intros [= <- _]; done|done].
  destruct (shift_loop _ _ _) as [[a k]|]; simpl; [|done].
  intros [= <- _]. simpl. eauto 10 with bm.
Qed.

(** ** Lemmas on the search loops *)

Lemma slot_insert_eq a i e : i < length a -> slot (<[i := Some e]> a) i = Some e.
Proof. intros Hi. unfold slot. by rewrite list_lookup_insert_eq. Qed.

Lemma del_find_none a key idx es :
  mapM (slot a) idx = Some es -> kdt key <> DT_BOOL -> Forall (fun e => key_hit e key = false) es ->
  del_find a key idx = Some (inr None).
Proof.
  revert es. induction idx as [|i idx IH]; intros es Hm Hk Hno; simpl; [done|].
  rewrite bool_decide_eq_false_2 by done. simpl in Hm.
  destruct (slot a i) as [e|]; simpl in *; [|done].
  destruct (mapM (slot a) idx) as [es'|] eqn:E; simpl in Hm; [|done]. injection Hm as <-.
  inversion Hno as [|? ? He Hno']; subst. rewrite He. by apply (IH es').
Qed.

(** ** The array of slots *)

Lemma slots_seq a es off :
  (forall j e, es !! j = Some e -> slot a (off + j) = Some e) ->
  mapM (slot a) (seq off (length es)) = Some es.
Proof.
  revert off. induction es as [|e es IH]; intros off Hs; simpl; [done|].
  pose proof (Hs 0 e eq_refl) as H0. rewrite Nat.add_0_r in H0. rewrite H0. simpl.
  rewrite (IH (S off)); [done|]. intros j e' Hj.
  replace (S off + j) with (off + S j) by lia. by apply (Hs (S j)).
Qed.

Lemma slots_seq_inv a off n es :
  mapM (slot a) (seq off n) = Some es ->
  length es = n /\ forall j e, es !! j = Some e -> a !! (off + j) = Some (Some e).
Proof.
  revert off es. induction n as [|n IH]; intros off es Hm; simpl in Hm.
  { injection Hm as <-. split; [done|]. by intros ? ? ?. }
  destruct (slot a off) as [e|] eqn:He; simpl in Hm; [|done].
  destruct (mapM (slot a) (seq (S off) n)) as [es'|] eqn:E; simpl in Hm; [|done].
  injection Hm as <-. destruct (IH _ _ E) as [Hl Hs]. split; [simpl; lia|].
  intros [|j] e'; simpl; intros Hj.
  - injection Hj as <-. rewrite Nat.add_0_r. unfold slot in He.
    destruct (a !! off) as [[]|]; simpl in He; congruence.
  - replace (off + S j) with (S off + j) by lia. by apply Hs.
Qed.

Lemma slots_prefix es rest : mapM (slot ((Some <$> es) ++ rest)) (seq 0 (length es)) = Some es.
Proof.
  apply slots_seq. intros j e Hj. unfold slot. simpl.
  rewrite lookup_app_l by (rewrite length_fmap; by apply lookup_lt_Some in Hj).
  by rewrite list_lookup_fmap, Hj.
Qed.

(** The first [n] slots hold the elements [es]. *)
Lemma slots_split a n es :
  mapM (slot a) (seq 0 n) = Some es -> a = (Some <$> es) ++ drop n a /\ length es = n.
Proof.
  intros Hm. destruct (slots_seq_inv a 0 n es Hm) as [Hl Hs]. split; [|done].
  apply list_eq. intros i. destruct (decide (i < n)).
  - rewrite lookup_app_l by (by rewrite length_fmap, Hl).
    destruct (lookup_lt_is_Some_2 es i) as [e He]; [lia|].
    rewrite list_lookup_fmap, He. by apply (Hs i).
  - rewrite lookup_app_r by (rewrite length_fmap; lia). rewrite lookup_drop, length_fmap.
    f_equal. lia.
Qed.

Lemma int_index_split s es :
  int_index s es ->
  AllocBTree s = (Some <$> es) ++ drop (length es) (AllocBTree s) /\
  Z.to_nat (numOfKeys s) = length es.
Proof.
  intros (_ & He & _). unfold entries in He. destruct (slots_split _ _ _ He) as [Ha Hl].
  rewrite Hl. split; [done|lia].
Qed.

(** ** The search loops on [int] keys *)

Lemma key_hit_int e key :
  int_entry e -> kdt key = DT_INT -> key_hit e key = Z.eqb (ikey e) (u_intV (kv key)).
Proof. unfold key_hit, int_entry, ikey. intros He Hk. rewrite He, Hk. by rewrite bool_decide_true. Qed.

Lemma find_loop_spec a key idx es :
  mapM (slot a) idx = Some es -> kdt key <> DT_BOOL ->
  find_loop a key idx = Some (match List.find (fun e => key_hit e key) es with
                              | Some e => (RC_OK, Some (rid e))
                              | None => (RC_IM_KEY_NOT_FOUND, None) end).
Proof.
  revert es. induction idx as [|i idx IH]; intros es Hm Hk; simpl in *; [by injection Hm as <-|].
  rewrite bool_decide_eq_false_2 by done.
  destruct (slot a i) as [e|]; simpl in *; [|done].
  destruct (mapM (slot a) idx) as [es'|] eqn:E; simpl in Hm; [|done]. injection Hm as <-.
  simpl. destruct (key_hit e key); [done|]. by apply IH.
Qed.

Lemma dup_loop_spec a key idx es flag :
  mapM (slot a) idx = Some es -> kdt key <> DT_BOOL ->
  dup_loop a key idx flag = Some (inr (flag || existsb (fun e => key_hit e key) es)).
Proof.
  revert es flag. induction idx as [|i idx IH]; intros es flag Hm Hk; simpl in *.
  { injection Hm as <-. by rewrite orb_false_r. }
  rewrite bool_decide_eq_false_2 by done.
  destruct (slot a i) as [e|]; simpl in *; [|done].
  destruct (mapM (slot a) idx) as [es'|] eqn:E; simpl in Hm; [|done]. injection Hm as <-.
  rewrite (IH es') by done. simpl. by rewrite orb_assoc.
Qed.

Lemma key_map_fst es : (key_pair <$> es).*1 = ikey <$> es.
Proof. by rewrite <- list_fmap_compose. Qed.

(** The map agrees with the first matching element. *)
Lemma key_map_find es key :
  Forall int_entry es -> NoDup (ikey <$> es) -> kdt key = DT_INT ->
  key_map es !! u_intV (kv key) = rid <$> List.find (fun e => key_hit e key) es.
Proof.
  intros Hi Hn Hk. induction es as [|e es IH]; [done|].
  inversion Hi as [|? ? He Hi']; subst. inversion Hn as [|? ? Hne Hn']; subst.
  unfold key_map. simpl. fold (key_map es). rewrite key_hit_int by done.
  destruct (Z.eqb_spec (ikey e) (u_intV (kv key))) as [<-|E].
  - by rewrite lookup_insert_eq.
  - rewrite lookup_insert_ne by done. by apply IH.
Qed.

Lemma existsb_find {A} (f : A -> bool) l :
  existsb f l = match List.find f l with Some _ => true | None => false end.
Proof. induction l as [|x l IH]; simpl; [done|]. by destruct (f x). Qed.

(** [insertKey]'s duplicate search finds the keys of the map. *)
Lemma existsb_key_map es key :
  Forall int_entry es -> NoDup (ikey <$> es) -> kdt key = DT_INT ->
  existsb (fun e => key_hit e key) es = bool_decide (is_Some (key_map es !! u_intV (kv key))).
Proof.
  intros Hi Hn Hk. rewrite existsb_find, key_map_find by done.
  destruct (List.find _ _); case_bool_decide as Hb; try done.
  - by destruct Hb; eexists.
  - by destruct Hb as [? ?].
Qed.

(** ** [insertKey] on [int] keys *)

Lemma land_set_low32 w x : Z.land (set_low32 w x) LOW32 = Z.land x LOW32.
Proof.
  apply Z.bits_inj'. intros n Hn. unfold set_low32, LOW32.
  rewrite !Z.land_spec, Z.lor_spec, !Z.land_spec, Z.shiftl_spec by lia.
  destruct (Z.ltb_spec n 32).
  - rewrite (Z.ones_spec_low 32 n), (Z.testbit_neg_r _ (n - 32)) by lia.
    by rewrite andb_false_r, orb_false_l, !andb_true_r.
  - rewrite (Z.ones_spec_high 32 n) by lia. by rewrite !andb_false_r.
Qed.

(** [v.intV] reads back what was assigned to it, whatever the high bytes. *)
Lemma u_intV_set_low32 w k : u_intV (set_low32 w (u_intV k)) = u_intV k.
Proof.
  unfold u_intV. rewrite land_set_low32. f_equal.
  unfold to_signed, LOW32. rewrite !Z.land_ones by lia.
  pose proof (Z.mod_pos_bound k (2 ^ 32) ltac:(lia)) as Hk. set (y := (k mod 2 ^ 32)%Z) in *.
  change (2 ^ (Z.of_nat 32 - 1))%Z with 2147483648%Z. change (2 ^ Z.of_nat 32)%Z with 4294967296%Z.
  change (2 ^ 32)%Z with 4294967296%Z in *.
  destruct (Z.ltb_spec y 2147483648); [apply Z.mod_small; lia|].
  replace (y - 4294967296)%Z with (y + (-1) * 4294967296)%Z by ring.
  rewrite Z.mod_add by lia. apply Z.mod_small. lia.
Qed.

Lemma store_key_int old key :
  kdt key = DT_INT ->
  exists k, store_key old key = Some k /\ kdt k = DT_INT /\ u_intV (kv k) = u_intV (kv key).
Proof.
  intros Hk. unfold store_key. rewrite Hk. eexists; split; [reflexivity|].
  split; [done|]. apply u_intV_set_low32.
Qed.

Lemma slots_insert_ge a i x n :
  n <= i -> mapM (slot (<[i := x]> a)) (seq 0 n) = mapM (slot a) (seq 0 n).
Proof. intros Hi. apply mapM_seq_ext. intros j Hj. unfold slot. by rewrite list_lookup_insert_ne by lia. Qed.

Lemma key_map_snoc es e :
  key_map es !! ikey e = None -> key_map (es ++ [e]) = <[ikey e := rid e]> (key_map es).
Proof.
  intros Hm. unfold key_map. rewrite fmap_app. apply list_to_map_snoc.
  apply not_elem_of_list_to_map_2 in Hm. done.
Qed.

(** The element [insertKey] appends, after the slot [malloc] filled. *)
Lemma append_int s es fresh k r t :
  int_index s es -> kdt k = DT_INT -> Z.to_nat (numOfKeys s) < length (AllocBTree s) ->
  key_map es !! u_intV (kv k) = None ->
  let s' := append s (<[Z.to_nat (numOfKeys s) := Some fresh]> (AllocBTree s)) k r t in
  int_index s' (es ++ [mkEntry k r]) /\ length (AllocBTree s') = length (AllocBTree s).
Proof.
  intros Hs Hk Hcap Hm s'. pose proof Hs as (Hn0 & _ & Hi & Hnd).
  destruct (int_index_split s es Hs) as [Ha Hl]. subst s'. unfold append. simpl.
  rewrite list_insert_insert_eq, length_insert. split; [|done].
  revert Ha Hcap. generalize (drop (length es) (AllocBTree s)) as rest. intros rest Ha Hcap.
  rewrite Ha in Hcap |- *. rewrite Hl in Hcap |- *.
  rewrite length_app, length_fmap in Hcap. destruct rest as [|x rest]; simpl in Hcap; [lia|].
  rewrite insert_app_r_alt by (rewrite length_fmap; lia). rewrite length_fmap, Nat.sub_diag. simpl.
  unfold int_index. simpl. split_and!; [lia| |by apply Forall_app; split; [|constructor]|].
  - unfold entries. simpl. replace (Z.to_nat (numOfKeys s + 1)) with (length (es ++ [mkEntry k r]))
      by (rewrite length_app; simpl; lia).
    replace (Some <$> es) with (Some <$> es) by done.
    change (Some (mkEntry k r) :: rest) with ([Some (mkEntry k r)] ++ rest).
    rewrite app_assoc. change [Some (mkEntry k r)] with (Some <$> [mkEntry k r]).
    rewrite <- fmap_app. apply slots_prefix.
  - rewrite fmap_app. apply stdpp.list_relations.list.NoDup_app. split_and!; [done| |by apply NoDup_singleton].
    intros x' Hx' ->%list_elem_of_singleton. apply not_elem_of_list_to_map_2 in Hm.
    rewrite key_map_fst in Hm. exact (Hm Hx').
Qed.

Lemma pin_dirty_bytes t p :
  bp_ok (bm t) -> handle_readable bp_frame (bm t) (ph t) ->
  is_Some (page_bytes (bm (pin_dirty t p)) (ph (pin_dirty t p))).
Proof.
  intros Hb Hr. unfold pin_dirty, mark_node, pin_node.
  pose proof (bp_pin_readable (ph t) p (bm t) Hb Hr) as Hp.
  destruct (bp_pin (ph t) p (bm t)) as [[b1 h1] rc]. simpl in *.
  unfold page_bytes, handle_readable in *. destruct (ph_data h1); try done.
  by rewrite bp_markDirty_frame.
Qed.

(** ** [deleteKey] on [int] keys *)

Lemma del_find_spec a key off es :
  mapM (slot a) (seq off (length es)) = Some es -> kdt key <> DT_BOOL ->
  del_find a key (seq off (length es)) = Some (inr ((fun p => off + fst p) <$> first_hit es key)).
Proof.
  revert off. induction es as [|e es IH]; intros off Hm Hk; [done|]. simpl in *.
  rewrite bool_decide_eq_false_2 by done.
  destruct (slot a off) as [e'|]; simpl in *; [|done].
  destruct (mapM (slot a) (seq (S off) (length es))) as [es'|] eqn:E; simpl in Hm; [|done].
  injection Hm as -> ->. unfold first_hit. simpl.
  destruct (key_hit e key) eqn:Eh; [rewrite decide_True by done; simpl; by rewrite Nat.add_0_r|].
  rewrite decide_False by congruence. rewrite (IH (S off)) by done.
  fold (first_hit es key). destruct (first_hit es key) as [[j x]|]; simpl; [do 3 f_equal; lia|done].
Qed.

Lemma find_first_hit es key : List.find (fun e => key_hit e key) es = snd <$> first_hit es key.
Proof.
  induction es as [|e es IH]; [done|]. unfold first_hit. simpl.
  destruct (key_hit e key) eqn:Eh; [by rewrite decide_True|].
  rewrite decide_False by congruence. rewrite IH. fold (first_hit es key).
  by destruct (first_hit es key).
Qed.

Lemma copy_entry_int dst src :
  int_entry src -> exists e, copy_entry dst src = Some e /\ int_entry e /\ key_pair e = key_pair src.
Proof.
  unfold copy_entry, int_entry, key_pair, ikey. intros Hs. rewrite Hs.
  eexists; split; [reflexivity|]. split; [done|]. simpl. by rewrite u_intV_set_low32.
Qed.

Lemma slot_middle (pre post : list BTreeEntry) x rest : slot ((Some <$> (pre ++ x :: post)) ++ rest) (length pre) = Some x.
Proof.
  unfold slot. rewrite lookup_app_l by (rewrite length_fmap, length_app; simpl; lia).
  rewrite list_lookup_fmap, list_lookup_middle by done. done.
Qed.

Lemma insert_middle (pre post : list BTreeEntry) x y rest :
  <[length pre := Some y]> ((Some <$> (pre ++ x :: post)) ++ rest) = (Some <$> (pre ++ y :: post)) ++ rest.
Proof.
  rewrite insert_app_l by (rewrite length_fmap, length_app; simpl; lia).
  rewrite <- list_fmap_insert. f_equal. f_equal. rewrite <- (Nat.add_0_r (length pre)), insert_app_r. done.
Qed.

(** The shift loop moves the elements after the deleted one down, keeping
    their keys and [RID]s; the last slot keeps its element. *)
Lemma shift_loop_spec pre x post rest :
  Forall int_entry post ->
  exists post' y,
    shift_loop ((Some <$> (pre ++ x :: post)) ++ rest) (length pre) (length post) =
      Some ((Some <$> (pre ++ post' ++ [y])) ++ rest, length pre + length post) /\
    key_pair <$> post' = key_pair <$> post /\ Forall int_entry post'.
Proof.
  revert pre x. induction post as [|z post IH]; intros pre x Hp.
  { exists [], x. simpl. by rewrite Nat.add_0_r. }
  inversion Hp as [|? ? Hz Hp']; subst.
  destruct (copy_entry_int x z Hz) as (z' & Hc & Hz' & Hzk).
  assert (Hs : slot ((Some <$> (pre ++ x :: z :: post)) ++ rest) (S (length pre)) = Some z).
  { replace (pre ++ x :: z :: post) with ((pre ++ [x]) ++ z :: post) by (by rewrite <- app_assoc).
    replace (S (length pre)) with (length (pre ++ [x])) by (rewrite length_app; simpl; lia).
    apply slot_middle. }
  simpl (length (z :: post)). cbn [shift_loop]. rewrite Hs, slot_middle. simpl. rewrite Hc. simpl.
  rewrite insert_middle.
  destruct (IH (pre ++ [z']) z Hp') as (post' & y & Hsh & Hk & Hi).
  exists (z' :: post'), y. rewrite <- app_assoc in Hsh. simpl in Hsh.
  replace (S (length pre)) with (length (pre ++ [z'])) by (rewrite length_app; simpl; lia).
  rewrite Hsh, <- app_assoc. simpl. split_and!; [rewrite length_app; simpl; do 2 f_equal; lia| |by constructor].
  rewrite Hzk. f_equal. exact Hk.
Qed.

Lemma key_map_cons e es : key_map (e :: es) = <[ikey e := rid e]> (key_map es).
Proof. done. Qed.

Lemma key_map_delete pre x post :
  NoDup (ikey <$> (pre ++ x :: post)) -> key_map (pre ++ post) = delete (ikey x) (key_map (pre ++ x :: post)).
Proof.
  induction pre as [|e pre IH]; intros Hn; simpl in *; rewrite !key_map_cons.
  - rewrite delete_insert_id; [done|]. apply not_elem_of_list_to_map_1. rewrite key_map_fst.
    by apply NoDup_cons_1_1 in Hn.
  - pose proof (NoDup_cons_1_1 _ _ Hn) as Hne. apply NoDup_cons_1_2 in Hn.
    rewrite delete_insert_ne; [by rewrite IH|].
    intros E. apply Hne. rewrite <- E, fmap_app. simpl. set_solver.
Qed.

(** The shift and the [free] of [deleteKey] remove the [i]-th element:
    what remains is an index of [int] keys, whatever the cursor and the
    tree, with the key of that element deleted from the map. *)
Lemma delete_shift s es i x :
  int_index s es -> es !! i = Some x ->
  exists a k es', shift_loop (AllocBTree s) i (length es - S i) = Some (a, k) /\
    key_map es' = delete (ikey x) (key_map es) /\ length (<[k := None]> a) = length (AllocBTree s) /\
    (forall sc t, int_index (mkIndex (<[k := None]> a) (numOfKeys s - 1) sc t) es') /\
    key_pair <$> es' = key_pair <$> (take i es ++ drop (S i) es) /\
    <[k := None]> a = (Some <$> es') ++ None :: drop (length es) (AllocBTree s).
Proof.
  intros Hs Hx. pose proof Hs as (Hn0 & _ & Hi & Hnd). destruct (int_index_split s es Hs) as [Ha Hl].
  pose proof (take_drop_middle es i x Hx) as Hes.
  assert (Hlp : length (take i es) = i) by (rewrite length_take; apply lookup_lt_Some in Hx; lia).
  revert Ha Hes Hlp. generalize (take i es) (drop (S i) es) (drop (length es) (AllocBTree s)).
  intros pre post rest Ha <- <-. rewrite Ha.
  rewrite Forall_app in Hi. destruct Hi as [Hpre Hxpost]. pose proof (Forall_inv_tail Hxpost) as Hpost.
  replace (length (pre ++ x :: post) - S (length pre)) with (length post) by (rewrite length_app; simpl; lia).
  destruct (shift_loop_spec pre x post rest Hpost) as (post' & y & Hsh & Hk & Hi').
  assert (Hlen : length post' = length post) by (apply (f_equal length) in Hk; by rewrite !length_fmap in Hk).
  assert (Hik : ikey <$> post' = ikey <$> post) by (by rewrite <- !key_map_fst, Hk).
  assert (Hfree : <[length pre + length post := None]> ((Some <$> (pre ++ post' ++ [y])) ++ rest)
                  = (Some <$> (pre ++ post')) ++ None :: rest).
  { rewrite app_assoc, fmap_app, <- app_assoc.
    replace (length pre + length post) with (length (Some <$> (pre ++ post')) + 0)
      by (rewrite length_fmap, length_app; lia).
    by rewrite insert_app_r. }
  exists ((Some <$> (pre ++ post' ++ [y])) ++ rest), (length pre + length post), (pre ++ post').
  rewrite Hfree. split_and!; [done| | |intros sc t; unfold int_index, entries; simpl; split_and!| |done].
  - unfold key_map at 1. rewrite fmap_app, Hk, <- fmap_app. by apply key_map_delete.
  - rewrite !length_app, !length_fmap, !length_app. simpl. lia.
  - rewrite length_app in Hl. simpl in Hl. lia.
  - replace (Z.to_nat (numOfKeys s - 1)) with (length (pre ++ post'))
      by (rewrite length_app in *; simpl in *; lia).
    apply slots_prefix.
  - by apply Forall_app.
  - rewrite fmap_app, Hik, <- fmap_app. apply (sublist_NoDup _ (ikey <$> (pre ++ x :: post))); [done|].
    rewrite !fmap_app. apply sublist_app; [done|]. simpl. by apply sublist_cons.
  - by rewrite !fmap_app, Hk.
Qed.

(** ** [openTreeScan] on [int] keys *)

Lemma slot_prefix (l : list BTreeEntry) rest j :
  j < length l -> slot ((Some <$> l) ++ rest) j = l !! j.
Proof.
  intros Hj. unfold slot. rewrite lookup_app_l by (by rewrite length_fmap).
  rewrite list_lookup_fmap. by destruct (l !! j).
Qed.

Lemma insert_prefix (l : list BTreeEntry) rest j e :
  j < length l -> <[j := Some e]> ((Some <$> l) ++ rest) = (Some <$> <[j := e]> l) ++ rest.
Proof. intros Hj. rewrite insert_app_l by (by rewrite length_fmap). by rewrite list_fmap_insert. Qed.

Definition swap_idx (k m j : nat) : nat :=
  if decide (j = k) then m else if decide (j = m) then k else j.

Lemma swap_lookup (l : list BTreeEntry) k m x y j :
  l !! k = Some x -> l !! m = Some y -> <[k := y]> (<[m := x]> l) !! j = l !! swap_idx k m j.
Proof.
  intros Hx Hy. unfold swap_idx.
  destruct (decide (j = k)) as [->|Hk].
  - rewrite list_lookup_insert_eq; [done|]. rewrite length_insert. by apply lookup_lt_Some in Hx.
  - rewrite list_lookup_insert_ne by done. destruct (decide (j = m)) as [->|Hm].
    + rewrite list_lookup_insert_eq; [done|]. by apply lookup_lt_Some in Hy.
    + by rewrite list_lookup_insert_ne.
Qed.

Lemma swap_perm (l : list BTreeEntry) k m x y :
  k <= m -> l !! k = Some x -> l !! m = Some y -> <[k := y]> (<[m := x]> l) ≡ₚ l.
Proof.
  intros Hkm Hx Hy. destruct (decide (k = m)) as [<-|Hne].
  { rewrite Hx in Hy. injection Hy as ->. by rewrite list_insert_insert_eq, list_insert_id. }
  pose proof (take_drop_middle l k x Hx) as Hl.
  assert (Hy' : drop (S k) l !! (m - S k) = Some y) by (rewrite lookup_drop; by replace (S k + (m - S k)) with m by lia).
  pose proof (take_drop_middle _ _ _ Hy') as Hd.
  assert (HA : length (take k l) = k) by (rewrite length_take; apply lookup_lt_Some in Hx; lia).
  assert (HB : length (take (m - S k) (drop (S k) l)) = m - S k)
    by (rewrite length_take; apply lookup_lt_Some in Hy'; lia).
  revert Hl Hd HA HB. generalize (take k l) (drop (S k) l) (take (m - S k) (drop (S k) l))
    (drop (S (m - S k)) (drop (S k) l)). intros A D B C Hl <- HA HB. subst l.
  replace m with (length A + S (length B + 0)) by lia. replace k with (length A + 0) by lia.
  rewrite !insert_app_r. simpl. rewrite insert_app_r. simpl.
  apply Permutation_app_head.
  rewrite !Permutation_middle. apply Permutation_app_head, Permutation_swap.
Qed.

(** The result of [min_loop] on [int] keys is a minimum of the positions
    it looks at. *)
Lemma min_loop_spec (l : list BTreeEntry) rest m js :
  m < length l -> Forall (fun j => j < length l) js ->
  exists m', min_loop int_lt ((Some <$> l) ++ rest) m js = Some m' /\ (m' = m \/ m' ∈ js) /\
    forall j x y, (j = m \/ j ∈ js) -> l !! j = Some x -> l !! m' = Some y -> (ikey y <= ikey x)%Z.
Proof.
  revert m. induction js as [|j0 js IH]; intros m Hm Hjs.
  { exists m. split_and!; [done|by left|]. intros j x y [->|Hj] Hx Hy; [|by apply not_elem_of_nil in Hj].
    rewrite Hx in Hy. injection Hy as ->. lia. }
  inversion Hjs as [|? ? Hj0 Hjs']; subst. simpl.
  destruct (lookup_lt_is_Some_2 l j0 Hj0) as [ej Hej]. destruct (lookup_lt_is_Some_2 l m Hm) as [em Hem].
  rewrite !slot_prefix, Hej, Hem by done. simpl.
  set (m1 := if int_lt (kv (value ej)) (kv (value em)) then j0 else m).
  assert (Hm1 : m1 < length l) by (unfold m1; by destruct (int_lt _ _)).
  destruct (IH m1 Hm1 Hjs') as (m' & Hrun & Hin & Hmin). exists m'. split_and!; [done| |].
  { destruct Hin as [->|Hin]; [unfold m1; destruct (int_lt _ _); [right; left|by left]|right; by right]. }
  assert (Hle : forall x, l !! m1 = Some x -> (ikey x <= ikey ej)%Z /\ (ikey x <= ikey em)%Z).
  { unfold m1, int_lt, ikey. destruct (Z.ltb_spec (u_intV (kv (value ej))) (u_intV (kv (value em)))); intros x Hx.
    - rewrite Hej in Hx. injection Hx as <-. lia.
    - rewrite Hem in Hx. injection Hx as <-. lia. }
  destruct (lookup_lt_is_Some_2 l m1 Hm1) as [e1 He1]. specialize (Hle e1 He1).
  intros j x y Hj Hx Hy. destruct Hj as [->|Hj%elem_of_cons]; [|destruct Hj as [->|Hj]].
  - rewrite Hem in Hx. injection Hx as <-. specialize (Hmin m1 e1 y (or_introl eq_refl) He1 Hy). lia.
  - rewrite Hej in Hx. injection Hx as <-. specialize (Hmin m1 e1 y (or_introl eq_refl) He1 Hy). lia.
  - exact (Hmin j x y (or_intror Hj) Hx Hy).
Qed.

(** Each round of the selection sort puts the minimum of the rest in
    place. *)
Lemma sort_loop_spec (l : list BTreeEntry) rest k cnt :
  k + cnt <= length l - 1 -> sorted_upto l k ->
  exists l', sort_loop int_lt ((Some <$> l) ++ rest) (length l) (seq k cnt) = Some ((Some <$> l') ++ rest) /\
    l' ≡ₚ l /\ sorted_upto l' (k + cnt).
Proof.
  revert k l. induction cnt as [|cnt IH]; intros k l Hk Hs.
  { exists l. by rewrite Nat.add_0_r. }
  assert (Hkl : k < length l) by lia. cbn [seq sort_loop].
  destruct (min_loop_spec l rest k (seq (S k) (length l - S k)) Hkl) as (m & Hrun & Hin & Hmin).
  { apply Forall_seq. intros; lia. }
  rewrite Hrun. simpl.
  assert (Hmk : k <= m < length l) by (destruct Hin as [->|Hin%elem_of_seq]; lia).
  destruct (lookup_lt_is_Some_2 l k Hkl) as [x Hx]. destruct (lookup_lt_is_Some_2 l m (proj2 Hmk)) as [y Hy].
  unfold swap_slots. rewrite !slot_prefix, Hx, Hy by lia. simpl.
  rewrite insert_prefix by lia. rewrite insert_prefix by (rewrite length_insert; lia).
  assert (Hlen : length (<[k := y]> (<[m := x]> l)) = length l) by (by rewrite !length_insert).
  destruct (IH (S k) (<[k := y]> (<[m := x]> l))) as (l' & Hrun' & Hp & Hs'); [lia| |].
  - intros i j x' y' Hij Hi Hx' Hy'. rewrite (swap_lookup l k m x y) in Hx', Hy' by done.
    unfold swap_idx in Hx', Hy'. destruct (decide (i = k)) as [->|Hik].
    + rewrite decide_False in Hy' by lia. injection (eq_trans (eq_sym Hx') Hy) as <-.
      destruct (decide (j = m)) as [->|Hjm].
      * apply (Hmin k); [by left|done|done].
      * apply (Hmin j); [|done|done]. right. apply elem_of_seq. apply lookup_lt_Some in Hy'. lia.
    + rewrite !decide_False in Hx' by lia.
      destruct (decide (j = k)) as [->|Hjk]; [apply (Hs i m); [lia|lia|done|done]|].
      destruct (decide (j = m)) as [->|Hjm]; [apply (Hs i k)|apply (Hs i j)]; (lia || done).
  - rewrite Hlen in Hrun'. exists l'. split_and!; [done| |by replace (k + S cnt) with (S k + cnt) by lia].
    rewrite Hp. apply swap_perm; [lia|done|done].
Qed.

Lemma selection_sort_spec (l : list BTreeEntry) rest :
  exists l', selection_sort int_lt ((Some <$> l) ++ rest) (length l) = Some ((Some <$> l') ++ rest) /\
    l' ≡ₚ l /\ sorted_upto l' (length l - 1).
Proof. apply (sort_loop_spec l rest 0). { lia. } intros i j x y _ Hi. lia. Qed.

(** Sorted up to the last element, with distinct keys: strictly increasing. *)
Lemma sorted_upto_key_sorted l :
  sorted_upto l (length l - 1) -> NoDup (ikey <$> l) -> key_sorted l.
Proof.
  intros Hs Hn i j x y Hij Hx Hy.
  assert (Hle : (ikey x <= ikey y)%Z) by (apply (Hs i j); try done; apply lookup_lt_Some in Hy; lia).
  assert (ikey x <> ikey y); [|lia]. intros E.
  assert (i = j); [|lia]. apply (NoDup_lookup (ikey <$> l) i j (ikey x)); [done| |].
  - by rewrite list_lookup_fmap, Hx.
  - by rewrite list_lookup_fmap, Hy, E.
Qed.

(** [openTreeScan] on a non-empty index of [int] keys sorts its elements. *)
Lemma openTreeScan_int s es :
  int_index s es -> es <> [] ->
  exists es', openTreeScan s = Some (with_slots s ((Some <$> es') ++ drop (length es) (AllocBTree s)) (tree s)) /\
    es' ≡ₚ es /\ key_sorted es'.
Proof.
  intros Hs Hne. pose proof Hs as (_ & _ & Hi & Hnd). destruct (int_index_split s es Hs) as [Ha Hl].
  destruct es as [|e0 es0] eqn:Ees; [done|]. rewrite <- Ees in *.
  assert (He0 : slot (AllocBTree s) 0 = Some e0) by (rewrite Ha, slot_prefix, Ees; [done|subst; simpl; lia]).
  assert (Hk0 : kdt (value e0) = DT_INT) by (subst es; by inversion Hi).
  destruct (selection_sort_spec es (drop (length es) (AllocBTree s))) as (es' & Hsort & Hp & Hsorted).
  exists es'. unfold openTreeScan. rewrite He0. simpl. rewrite Hk0, Hl.
  set (rest := drop (length es) (AllocBTree s)) in *. rewrite Ha at 1. rewrite Hsort. simpl.
  split_and!; [done|done|]. apply sorted_upto_key_sorted.
  - by rewrite (Permutation_length Hp).
  - by rewrite Hp.
Qed.

Lemma int_index_perm s es es' rest t :
  int_index s es -> es' ≡ₚ es -> int_index (with_slots s ((Some <$> es') ++ rest) t) es'.
Proof.
  intros Hs Hp. pose proof Hs as (Hn0 & _ & Hi & Hnd). destruct (int_index_split s es Hs) as [_ Hl].
  unfold int_index, entries. simpl. split_and!; [done| |by rewrite Hp|by rewrite Hp].
  rewrite Hl, <- (Permutation_length Hp). apply slots_prefix.
Qed.

Lemma nextEntry_scan s es k :
  int_index s es -> scanNextEntry s = Z.of_nat k -> k <= length es ->
  scan_entries s (length es - k + 1) = Some (rid <$> drop k es).
Proof.
  intros Hs. remember (length es - k) as d eqn:Hd. revert s k Hs Hd.
  induction d as [|d IH]; intros s k Hs Hd Hk Hkn;
    pose proof Hs as (_ & He & _); destruct (int_index_split s es Hs) as [Ha Hl]; simpl; unfold nextEntry.
  - rewrite bool_decide_false by lia. simpl. by rewrite drop_ge by lia.
  - rewrite bool_decide_true by lia.
    destruct (lookup_lt_is_Some_2 es k) as [e Hek]; [lia|].
    rewrite Hk, Nat2Z.id, Ha, slot_prefix, Hek by lia. simpl. rewrite <- Ha.
    rewrite (IH _ (S k)); [|done|lia|simpl; lia|lia].
    by rewrite (drop_S es e k Hek).
Qed.

(** The three branches of [insertKey] that store the key. *)
Lemma insert_ok s es fresh k r t d key :
  int_index s es -> kdt key = DT_INT -> Z.to_nat (numOfKeys s) < length (AllocBTree s) ->
  key_map es !! u_intV (kv key) = None -> bp_ok (bm t) -> store_key (value fresh) key = Some k ->
  ready (append s (<[Z.to_nat (numOfKeys s) := Some fresh]> (AllocBTree s)) k r (unpin_with t d)) /\
  length (AllocBTree (append s (<[Z.to_nat (numOfKeys s) := Some fresh]> (AllocBTree s)) k r
    (unpin_with t d))) = length (AllocBTree s) /\
  (RC_OK = RC_OK /\ exists es',
     int_index (append s (<[Z.to_nat (numOfKeys s) := Some fresh]> (AllocBTree s)) k r (unpin_with t d)) es' /\
     key_map es' = <[u_intV (kv key) := r]> (key_map es)).
Proof.
  intros Hs Hk Hcap Hm Hb Hsk.
  destruct (store_key_int (value fresh) key Hk) as (k' & Hsk' & Hkk & Hku).
  rewrite Hsk in Hsk'. injection Hsk' as <-.
  destruct (append_int s es fresh k r (unpin_with t d)) as [Hi Hl]; [done|done|done|by rewrite Hku|].
  split_and!; [split; [by apply bp_unpin_ok|done]|exact Hl|done|].
  exists (es ++ [mkEntry k r]). split; [exact Hi|].
  rewrite key_map_snoc; unfold ikey; simpl; by rewrite Hku.
Qed.

(** ** The operations on the map *)

(** [findKey] looks the key up in the map. *)
Lemma findKey_map s es key :
  int_index s es -> kdt key = DT_INT ->
  findKey s key = Some (match key_map es !! u_intV (kv key) with
                        | Some r => (RC_OK, Some r)
                        | None => (RC_IM_KEY_NOT_FOUND, None) end).
Proof.
  intros (_ & He & Hi & Hn) Hk. unfold findKey.
  rewrite (find_loop_spec _ _ _ es) by (done || by rewrite Hk).
  rewrite key_map_find by done. by destruct (List.find _ _).
Qed.

(** [insertKey] inserts the key into the map unless it is there. *)
Lemma insertKey_map s es key r fresh :
  int_index s es -> ready s -> kdt key = DT_INT -> Z.to_nat (numOfKeys s) < length (AllocBTree s) ->
  exists s' rc, insertKey s key r fresh = Some (s', rc) /\ ready s' /\
    length (AllocBTree s') = length (AllocBTree s) /\
    match key_map es !! u_intV (kv key) with
    | Some _ => rc = RC_IM_KEY_ALREADY_EXISTS /\ int_index s' es
    | None => rc = RC_OK /\ exists es', int_index s' es' /\ key_map es' = <[u_intV (kv key) := r]> (key_map es)
    end.
Proof.
  intros Hs [Hb Hr] Hk Hcap. pose proof Hs as (Hn0 & He & Hi & Hnd).
  destruct (int_index_split s es Hs) as [_ Hl].
  destruct (store_key_int (value fresh) key Hk) as (k & Hsk & _).
  assert (Hdup : forall fl, dup_loop (<[Z.to_nat (numOfKeys s) := Some fresh]> (AllocBTree s)) key
                   (seq 0 (Z.to_nat (numOfKeys s))) fl =
                 Some (inr (fl || bool_decide (is_Some (key_map es !! u_intV (kv key)))))).
  { intros fl. rewrite (dup_loop_spec _ _ _ es); [by rewrite existsb_key_map| |by rewrite Hk].
    by rewrite slots_insert_ge by lia. }
  unfold insertKey, slot_set. rewrite decide_True by lia. simpl. rewrite Hsk.
  destruct (key_map es !! u_intV (kv key)) as [r0|] eqn:Hm.
  - assert (numOfKeys s <> 0%Z).
    { intros Hz. rewrite Hz in Hl. destruct es; [done|discriminate]. }
    rewrite bool_decide_false, Hdup by done. rewrite bool_decide_true by done.
    eexists _, _. split; [reflexivity|]. split_and!; [done|simpl; by rewrite length_insert|done|].
    unfold int_index, entries. simpl. by rewrite slots_insert_ge by lia.
  - destruct (decide (numOfKeys s = 0%Z)) as [Hz|Hz];
      [rewrite bool_decide_true by done|rewrite bool_decide_false by done].
    { eexists _, _. split; [reflexivity|]. apply insert_ok; eauto 10 with bm. }
    rewrite Hdup, bool_decide_false by (by intros [? ?]). simpl.
    destruct (pin_dirty_bytes (tree s) (nodeCounter (tree s)) Hb Hr) as [d Hd].
    unfold pin_dirty, mark_node in Hd. simpl in Hd. rewrite Hd. simpl.
    destruct (streq d NodeFull).
    + destruct (bp_pin _ _ _) as [[b3 h3] rc3] eqn:E.
      eexists _, _. split; [reflexivity|]. apply insert_ok; try done.
      simpl. eapply pin_result_ok; [|exact E]. apply bp_unpin_ok. eauto with bm.
    + eexists _, _. split; [reflexivity|]. apply insert_ok; eauto 10 with bm.
Qed.

(** [deleteKey] deletes the key from the map. *)
Lemma deleteKey_map s es key :
  int_index s es -> ready s -> kdt key = DT_INT ->
  exists s' es', deleteKey s key = Some (s', RC_OK) /\ int_index s' es' /\ ready s' /\
    length (AllocBTree s') = length (AllocBTree s) /\ key_map es' = delete (u_intV (kv key)) (key_map es) /\
    match first_hit es key with
    | Some (i, _) => key_pair <$> es' = key_pair <$> (take i es ++ drop (S i) es) /\
                     AllocBTree s' = (Some <$> es') ++ None :: drop (length es) (AllocBTree s)
    | None => s' = s
    end.
Proof.
  intros Hs [Hb Hr] Hk. pose proof Hs as (Hn0 & He & Hi & Hnd). destruct (int_index_split s es Hs) as [_ Hl].
  unfold deleteKey, entries in *. rewrite Hl in He |- *.
  rewrite del_find_spec by (done || by rewrite Hk). simpl.
  destruct (first_hit es key) as [[i x]|] eqn:Ef; simpl.
  - apply list_find_Some in Ef as (Hx & Hhit & _).
    rewrite key_hit_int in Hhit by (first [done | by eapply Forall_lookup_1]). apply Z.eqb_eq in Hhit.
    destruct (delete_shift s es i x Hs Hx) as (a & k & es' & Hsh & Hkm & Hlen & Hi' & Hkp & Ha).
    rewrite Hsh. simpl. eexists _, es'. split; [reflexivity|].
    split_and!; [apply Hi'|split; [simpl; eauto 10 with bm|done]|exact Hlen|by rewrite Hkm, Hhit|done|done].
  - exists s, es. split_and!; [done|done|by split|done| |done].
    symmetry. apply delete_id. rewrite key_map_find, find_first_hit, Ef by done. done.
Qed.

Lemma key_map_size es : NoDup (ikey <$> es) -> size (key_map es) = length es.
Proof.
  intros Hn. unfold key_map. rewrite map_size_list_to_map; [by rewrite length_fmap|].
  by rewrite key_map_fst.
Qed.

Lemma map_step_size m o : size (fst (map_step m o)) <= size m + (if is_insert o then 1 else 0).
Proof.
  destruct o; simpl; [|rewrite map_size_delete; destruct (m !! _); simpl; lia|lia].
  destruct (m !! u_intV (kv key)) eqn:E; simpl; [lia|]. rewrite map_size_insert_None by done. lia.
Qed.

(** One call, on an index of [int] keys with a free slot for an insertion,
    does what [map_step] does to the map. *)
Lemma run_op_map s es o :
  int_index s es -> ready s -> kdt (op_key o) = DT_INT ->
  (is_insert o = true -> Z.to_nat (numOfKeys s) < length (AllocBTree s)) ->
  exists s1 es1 res, run_op s o = Some (s1, res) /\ int_index s1 es1 /\ ready s1 /\
    length (AllocBTree s1) = length (AllocBTree s) /\ map_step (key_map es) o = (key_map es1, res).
Proof.
  intros Hs Hr Hk Hcap. destruct o as [k r f|k|k]; simpl in Hk; unfold run_op, map_step.
  - destruct (insertKey_map s es k r f) as (s' & rc & Hins & Hr' & Hlen & Hm); [done..|by apply Hcap|].
    rewrite Hins. simpl. destruct (key_map es !! u_intV (kv k)); destruct Hm as [-> Hm].
    + by exists s', es, (RC_IM_KEY_ALREADY_EXISTS, None).
    + destruct Hm as (es' & Hi' & Hkm). exists s', es', (RC_OK, None). by rewrite Hkm.
  - destruct (deleteKey_map s es k) as (s' & es' & Hdel & Hi' & Hr' & Hlen & Hkm & _); [done..|].
    rewrite Hdel. exists s', es', (RC_OK, None). by rewrite Hkm.
  - rewrite (findKey_map s es k) by done. by eexists s, es, _.
Qed.

(** ** Properties *)

(** C16. A scan returns the index's entries in key order: on a non-empty
    index of [int] keys whose cursor [scanNextEntry] is [0], [openTreeScan]
    followed by [nextEntry] calls until [RC_IM_NO_MORE_ENTRIES] returns
    the [RID]s of all the elements, each once, in strictly increasing key
    order. *)
Theorem tree_scan_sorted s es :
  int_index s es -> es <> [] -> scanNextEntry s = 0%Z ->
  exists s' es', openTreeScan s = Some s' /\ scan_entries s' (length es + 1) = Some (rid <$> es') /\
    es' ≡ₚ es /\ key_sorted es'.
Proof.
  intros Hs Hne H0. destruct (openTreeScan_int s es Hs Hne) as (es' & Ho & Hp & Hsorted).
  eexists _, es'. split_and!; [exact Ho| |done|done].
  pose proof (int_index_perm s es es' (drop (length es) (AllocBTree s)) (tree s) Hs Hp) as Hs'.
  replace (length es + 1) with (length es' - 0 + 1) by (rewrite (Permutation_length Hp); lia).
  apply (nextEntry_scan _ es' 0); [exact Hs'|simpl; by rewrite H0|lia].
Qed.

(** C2. Refinement: on an index of [int] keys whose array has room for
    the insertions, any sequence of [insertKey], [deleteKey] and [findKey]
    calls returns what the same calls return on the map the index
    represents, and ends in an index of [int] keys representing the map
    they end in. *)
Theorem index_refinement s es ops :
  int_index s es -> ready s -> Forall (fun o => kdt (op_key o) = DT_INT) ops ->
  length es + length (List.filter is_insert ops) <= length (AllocBTree s) ->
  exists s' es' out, run_ops s ops = Some (s', out) /\ int_index s' es' /\ ready s' /\
    map_ops (key_map es) ops = (key_map es', out).
Proof.
  revert s es. induction ops as [|o ops IH]; intros s es Hs Hr Hk Hcap.
  { by exists s, es, []. }
  inversion Hk as [|? ? Ho Hk']; subst. pose proof (proj2 (int_index_split s es Hs)) as Hl.
  destruct (run_op_map s es o) as (s1 & es1 & res & Hrun & Hs1 & Hr1 & Hlen & Hmap); [done..| |].
  { intros Hi. simpl in Hcap. rewrite Hi in Hcap. simpl in Hcap. lia. }
  destruct (IH s1 es1) as (s' & es' & out & Hrun' & Hs' & Hr' & Hmap'); [done..| |].
  { pose proof (map_step_size (key_map es) o) as Hsz. rewrite Hmap in Hsz. simpl in Hsz.
    destruct Hs as (_ & _ & _ & Hnd). destruct Hs1 as (_ & _ & _ & Hnd1).
    rewrite !key_map_size in Hsz by done. rewrite Hlen.
    simpl in Hcap. destruct (is_insert o); simpl in *; lia. }
  exists s', es', (res :: out). simpl. rewrite Hrun. simpl. rewrite Hrun'. simpl.
  split_and!; [done..|]. rewrite Hmap. simpl. by rewrite Hmap'.
Qed.

(** C15. On an index of [int] keys, [findKey] implements lookup in the map
    the elements represent: the [RID] stored under the key with [RC_OK],
    or [RC_IM_KEY_NOT_FOUND]. *)
Theorem findKey_spec s es key :
  int_index s es -> kdt key = DT_INT ->
  findKey s key = Some (match key_map es !! u_intV (kv key) with
                        | Some r => (RC_OK, Some r)
                        | None => (RC_IM_KEY_NOT_FOUND, None) end).
Proof. apply findKey_map. Qed.

(** C13. On an index of [int] keys whose array has a free slot, [insertKey]
    implements insertion into the map: a key already present is refused
    with [RC_IM_KEY_ALREADY_EXISTS] and the elements are kept; a new key is
    stored with [RC_OK] and the map gains it.  The result is again an index
    of [int] keys whose tree can be written, with the same allocation. *)
Theorem insertKey_spec s es key r fresh :
  int_index s es -> ready s -> kdt key = DT_INT -> Z.to_nat (numOfKeys s) < length (AllocBTree s) ->
  exists s' rc, insertKey s key r fresh = Some (s', rc) /\ ready s' /\
    length (AllocBTree s') = length (AllocBTree s) /\
    match key_map es !! u_intV (kv key) with
    | Some _ => rc = RC_IM_KEY_ALREADY_EXISTS /\ int_index s' es
    | None => rc = RC_OK /\ exists es', int_index s' es' /\ key_map es' = <[u_intV (kv key) := r]> (key_map es)
    end.
Proof. apply insertKey_map. Qed.

(** C14. On an index of [int] keys, [deleteKey] implements deletion from
    the map: it returns [RC_OK] and the result is again an index of [int]
    keys, with the same allocation, whose tree can be written.  When the
    [i]-th element holds the key, the elements after it move down a slot
    in order (same keys and [rid]s), the slot of the last element is
    freed ([None]) and the slots past it are unchanged; when no element
    holds it, nothing changes. *)
Theorem deleteKey_spec s es key :
  int_index s es -> ready s -> kdt key = DT_INT ->
  exists s' es', deleteKey s key = Some (s', RC_OK) /\ int_index s' es' /\ ready s' /\
    length (AllocBTree s') = length (AllocBTree s) /\ key_map es' = delete (u_intV (kv key)) (key_map es) /\
    match first_hit es key with
    | Some (i, _) => key_pair <$> es' = key_pair <$> (take i es ++ drop (S i) es) /\
                     AllocBTree s' = (Some <$> es') ++ None :: drop (length es) (AllocBTree s)
    | None => s' = s
    end.
Proof. apply deleteKey_map. Qed.

(** C18. [createBtree] allocates [AllocBTree] with room for one pointer
    (the size of one [BTree] pointer): the first key inserted into a new
    index is stored, and the second [insertKey], whatever the keys, writes
    [AllocBTree[1]] past the allocation. *)
Theorem insertKey_overflow n junk (t : TreeInfo P) k1 r1 f1 k2 r2 f2 :
  kdt k1 <> DT_BOOL ->
  exists s1, insertKey (open_index (snd (createBtree n junk)) t) k1 r1 f1 = Some (s1, RC_OK) /\
             numOfKeys s1 = 1%Z /\ insertKey s1 k2 r2 f2 = None.
Proof.
  intros Hk. unfold insertKey at 1. simpl. unfold store_key.
  destruct (kdt k1) eqn:E; try done; eexists; (split; [reflexivity|]); split; reflexivity.
Qed.

(** C33. [deleteKey] of a key no entry holds returns [RC_OK] and changes
    nothing: its [RC_IM_KEY_NOT_FOUND] test sits inside the search loop,
    where it never holds. *)
Theorem deleteKey_absent s key es :
  entries s = Some es -> kdt key <> DT_BOOL -> Forall (fun e => key_hit e key = false) es ->
  deleteKey s key = Some (s, RC_OK).
Proof. intros He Hk Hno. unfold deleteKey. by rewrite (del_find_none _ _ _ es). Qed.

(** [openTreeScan] does not reset the global cursor [scanNextEntry]:
    once a scan has returned every entry, a new scan returns none. *)
Theorem second_scan_empty s s' :
  nextEntry s = Some (s, RC_IM_NO_MORE_ENTRIES, None) -> openTreeScan s = Some s' ->
  nextEntry s' = Some (s', RC_IM_NO_MORE_ENTRIES, None).
Proof.
  intros Hn Ho. unfold nextEntry in Hn. case_bool_decide as Hlt.
  { destruct (slot _ _); simpl in Hn; congruence. }
  unfold openTreeScan in Ho. unfold nextEntry.
  destruct (slot _ 0) as [e0|]; simpl in Ho; [|done].
  destruct (kdt (value e0)); try destruct (selection_sort _ _ _); simpl in Ho; try done;
    injection Ho as <-; simpl; by rewrite bool_decide_eq_false_2.
Qed.


(** C34. A string key is stored by [v.intV = key->v.intV]: only the low 4
    bytes of its pointer reach the new element, whose high 4 bytes keep
    whatever [malloc] left there, while [findKey] compares whole pointers.
    When those bytes differ from the key's, the key just inserted is not
    found. *)
Theorem string_key_lost s key r fresh :
  numOfKeys s = 0%Z -> 1 <= length (AllocBTree s) -> kdt key = DT_STRING ->
  (0 <= kv (value fresh) < 2 ^ 64)%Z -> Z.shiftr (kv (value fresh)) 32 <> Z.shiftr (kv key) 32 ->
  exists s', insertKey s key r fresh = Some (s', RC_OK) /\
             findKey s' key = Some (RC_IM_KEY_NOT_FOUND, None).
Proof.
  intros Hn Hl Hk Hw Hhi. unfold insertKey, slot_set. rewrite Hn, decide_True by lia. simpl.
  unfold store_key. rewrite Hk. eexists; split; [reflexivity|].
  unfold findKey, append. simpl. rewrite Hn. simpl. rewrite Hk. simpl.
  rewrite slot_insert_eq by (rewrite length_insert; lia). simpl.
  unfold key_hit. simpl. rewrite Hk. simpl.
  destruct (Z.eqb_spec (u_stringV (set_low32 (kv (value fresh)) (u_intV (kv key)))) (u_stringV (kv key)))
    as [E|E]; [|done].
  exfalso. apply Hhi. unfold u_stringV in E. rewrite <- E. by rewrite shiftr_set_low32.
Qed.

End Index.

#[export] Hint Resolve pin_node_ok mark_node_ok unpin_with_ok set_ph_data_ok pin_dirty_ok : bm.

(** C19. [openBtree] reads [maxNumOfKeysPerNode] from page 1 of the index
    file, while [createBtree] wrote [n] into page 0: on the buffer-pool
    model, whatever [n], the tree opens with [maxNumOfKeysPerNode = 0], read
    from the zero page [pinPage] appends. *)
Theorem openBtree_reads_page1 n junk ph0 :
  blocks (fst (createBtree n junk)) !! 0 = Some (le_bytes 4 n ++ drop 4 junk) /\
  option_map maxNumOfKeysPerNode (openBtree (P := BM) (fst (createBtree n junk)) ph0) = Some 0%Z.
Proof. split; [reflexivity|]. vm_compute. reflexivity. Qed.

(** ** Witnesses, on the buffer-pool model *)

(** The tree [openBtree] opens on a new index file. *)
Definition w_tree : TreeInfo BM :=
  default (mkInfo (initBufferPool (fst (createBtree 3 empty_page)) 6 RS_FIFO) (mkHandle 0 NoData) 0 0)
    (openBtree (fst (createBtree 3 empty_page)) (mkHandle 0 NoData)).

Definition int_key (z : Z) : Key := mkKey DT_INT (Z.land z LOW32).
Definition w_entry (z p : Z) : BTreeEntry := mkEntry (int_key z) (mkRID p 0).

(** Three [int] keys in a ten-slot array, the scan finished. *)
Definition w_index : Index BM :=
  {| AllocBTree := [Some (w_entry 7 1); Some (w_entry 5 2); Some (w_entry 2 3)] ++ repeat None 7;
     numOfKeys := 3; scanNextEntry := 3; tree := w_tree |}.

Definition w_es : list BTreeEntry := [w_entry 7 1; w_entry 5 2; w_entry 2 3].

Lemma w_index_ok : int_index w_index w_es /\ ready w_index.
Proof.
  split.
  - split_and!; [vm_compute; congruence|reflexivity|repeat constructor|].
    apply (bool_decide_unpack _). vm_compute. reflexivity.
  - split; [apply (bool_decide_unpack _); vm_compute; reflexivity|].
    vm_compute. eexists. reflexivity.
Qed.

(** The same index with its cursor at [0]. *)
Definition w_index0 : Index BM := mkIndex (AllocBTree w_index) 3 0 w_tree.

Lemma w_index0_ok : int_index w_index0 w_es.
Proof. destruct w_index_ok as [Hi _]. exact Hi. Qed.

Lemma tree_scan_sorted_witness :
  exists s' es', openTreeScan w_index0 = Some s' /\ scan_entries s' (length w_es + 1) = Some (rid <$> es') /\
    es' ≡ₚ w_es /\ key_sorted es'.
Proof. apply tree_scan_sorted; [apply w_index0_ok|discriminate|reflexivity]. Defined.

Definition w_ops : list idx_op :=
  [OpInsert (int_key 4) (mkRID 4 0) (w_entry 0 0); OpFind (int_key 4); OpDelete (int_key 7);
   OpFind (int_key 7); OpInsert (int_key 5) (mkRID 9 0) (w_entry 0 0); OpDelete (int_key 42)].

Lemma index_refinement_witness :
  exists s' es' out, run_ops w_index w_ops = Some (s', out) /\ int_index s' es' /\ ready s' /\
    map_ops (key_map w_es) w_ops = (key_map es', out).
Proof.
  apply index_refinement; [apply w_index_ok|apply w_index_ok|repeat constructor|vm_compute; lia].
Defined.

Lemma findKey_spec_witness :
  findKey w_index (int_key 5) = Some (match key_map w_es !! u_intV (kv (int_key 5)) with
                                     | Some r => (RC_OK, Some r)
                                     | None => (RC_IM_KEY_NOT_FOUND, None) end).
Proof. apply findKey_spec; [apply w_index_ok|reflexivity]. Defined.

Lemma insertKey_spec_witness :
  exists s' rc, insertKey w_index (int_key 4) (mkRID 4 0) (w_entry 0 0) = Some (s', rc) /\ ready s' /\
    length (AllocBTree s') = length (AllocBTree w_index) /\
    match key_map w_es !! u_intV (kv (int_key 4)) with
    | Some _ => rc = RC_IM_KEY_ALREADY_EXISTS /\ int_index s' w_es
    | None => rc = RC_OK /\ exists es', int_index s' es' /\
                key_map es' = <[u_intV (kv (int_key 4)) := mkRID 4 0]> (key_map w_es)
    end.
Proof. apply insertKey_spec; [apply w_index_ok|apply w_index_ok|reflexivity|vm_compute; lia]. Defined.

Lemma deleteKey_spec_witness :
  exists s' es', deleteKey w_index (int_key 5) = Some (s', RC_OK) /\ int_index s' es' /\ ready s' /\
    length (AllocBTree s') = length (AllocBTree w_index) /\
    key_map es' = delete (u_intV (kv (int_key 5))) (key_map w_es) /\
    match first_hit w_es (int_key 5) with
    | Some (i, _) => key_pair <$> es' = key_pair <$> (take i w_es ++ drop (S i) w_es) /\
                     AllocBTree s' = (Some <$> es') ++ None :: drop (length w_es) (AllocBTree w_index)
    | None => s' = w_index
    end.
Proof. apply deleteKey_spec; [apply w_index_ok|apply w_index_ok|reflexivity]. Defined.

Lemma insertKey_overflow_witness :
  exists s1, insertKey (open_index (snd (createBtree 3 empty_page)) w_tree) (int_key 7) (mkRID 1 0)
               (w_entry 0 0) = Some (s1, RC_OK) /\
             numOfKeys s1 = 1%Z /\ insertKey s1 (int_key 5) (mkRID 2 0) (w_entry 0 0) = None.
Proof. apply insertKey_overflow. discriminate. Defined.

Lemma deleteKey_absent_witness :
  deleteKey w_index (int_key 42) = Some (w_index, RC_OK).
Proof.
  apply (deleteKey_absent w_index (int_key 42) [w_entry 7 1; w_entry 5 2; w_entry 2 3]).
  - reflexivity.
  - discriminate.
  - repeat constructor.
Defined.

Lemma second_scan_empty_witness :
  nextEntry (default w_index (openTreeScan w_index)) =
    Some (default w_index (openTreeScan w_index), RC_IM_NO_MORE_ENTRIES, None).
Proof. apply (second_scan_empty w_index); reflexivity. Defined.

(** A string key whose pointer is [0x7fff00001234], inserted into an
    element whose bytes are zero. *)
Lemma string_key_lost_witness :
  exists s', insertKey (open_index (snd (createBtree 3 empty_page)) w_tree)
               (mkKey DT_STRING 140733193392692) (mkRID 1 0) (w_entry 0 0) = Some (s', RC_OK) /\
             findKey s' (mkKey DT_STRING 140733193392692) = Some (RC_IM_KEY_NOT_FOUND, None).
Proof.
  apply string_key_lost; [reflexivity|simpl; lia|reflexivity|change (kv (value (w_entry 0 0))) with 0%Z; lia|intros E; vm_compute in E; discriminate E].
Defined.
