(* ===== verification/BTreeUtil.v ===== *)
(** * The index manager's remaining entry points

    [shutdownIndexManager], [getKeyType] and the debug printer
    [printTree] of [src/btree_mgr.c], over the globals [AllocBTree] and
    [numOfKeys] of [BTree.v]'s [Index].

    - [shutdownIndexManager] frees [AllocBTree[numOfKeys]], [numOfKeys]
      times.  A pointer is identified by the slot it was read from; the
      model records the slots freed, and freeing a slot that is
      unassigned, outside the array, or freed already is [None].
    - [getKeyType] stores [tree->keyType] into [result[i]] for every key;
      [result] is the caller's array.
    - [printTree] formats the entries into stack arrays of 500 bytes with
      [sprintf] and [strcat] and prints [opString] and [TREE]; the model
      returns the text printed and the pointer returned.

    [initIndexManager] only returns [RC_OK]; [closeBtree] and
    [closeTreeScan] only free memory and are in [Memory.v]. *)

From Stdlib Require Import Strings.Byte Strings.String.
From stdpp Require Import list sets.
From S2P Require Import Prelude Storage Pool RecordMgr CString Deserializer BTree.

Definition dot : Byte.byte := Byte.x2e.
Definition newline : Byte.byte := Byte.x0a.
Definition blank : Byte.byte := Byte.x20.

(** [strcat(dst, s)] into a [char dst[500]]. *)
Definition cat500 (d s : list Byte.byte) : option (list Byte.byte) :=
  if decide (length d + length s + 1 <= 500) then Some (d ++ s) else None.

(** Several [strcat]s in a row. *)
Fixpoint cats (d : list Byte.byte) (ss : list (list Byte.byte)) : option (list Byte.byte) :=
  match ss with
  | [] => Some d
  | s :: ss' => d' ← cat500 d s; cats d' ss'
  end.

(** The locals of [printTree]'s loop. *)
Record PrintState := mkPrint {
  opString : list Byte.byte;
  finalResult : list Byte.byte;
  TREE : list Byte.byte;
  count : Z;
  tempCount : Z
}.

Section Util.
Context {P : Type}.

(** [initIndexManager(mgmtData)]: returns [RC_OK]. *)
Definition initIndexManager {M} (mgmtData : M) : RC := RC_OK.

(** [free(AllocBTree[k])]. *)
Definition free_slot (a : list (option BTreeEntry)) (k : Z) (freed : list Z) : option (list Z) :=
  e ← arr_get a k;
  match e with
  | None => None
  | Some _ => if decide (k ∈ freed) then None else Some (k :: freed)
  end.

(** [for (i = 0; i < numOfKeys; i++) free(AllocBTree[numOfKeys]);]. *)
Fixpoint free_loop (a : list (option BTreeEntry)) (k : Z) (idx : list nat) (freed : list Z)
  : option (list Z) :=
  match idx with
  | [] => Some freed
  | _ :: idx' => freed' ← free_slot a k freed; free_loop a k idx' freed'
  end.

(** [shutdownIndexManager()]. *)
Definition shutdownIndexManager (s : Index P) : option RC :=
  _ ← free_loop (AllocBTree s) (numOfKeys s) (seq 0 (Z.to_nat (numOfKeys s))) [];
  Some RC_OK.

(** [for (i = 0; i < numOfKeys; i++) result[i] = tree->keyType;]. *)
Fixpoint keytype_loop (kt : DataType) (idx : list nat) (result : list DataType)
  : option (list DataType) :=
  match idx with
  | [] => Some result
  | i :: idx' => r ← arr_set result (Z.of_nat i) kt; keytype_loop kt idx' r
  end.

(** [getKeyType(tree, result)]: [keyType] is [tree->keyType]. *)
Definition getKeyType (s : Index P) (keyType : DataType) (result : list DataType)
  : option (list DataType * RC) :=
  r ← keytype_loop keyType (seq 0 (Z.to_nat (numOfKeys s))) result; Some (r, RC_OK).

(** The text [printTree] appends to [finalResult] for an element:
    [rid.page "." rid.slot ", " v.intV ","]. *)
Definition entry_pieces (e : BTreeEntry) : list (list Byte.byte) :=
  [sprintf_d (RecordMgr.page (rid e)); [dot]; sprintf_d (RecordMgr.slot (rid e)); [comma; blank];
   sprintf_d (u_intV (kv (value e))); [comma]].

(** One iteration [i] of [printTree]'s loop ([compare] is [2]). *)
Definition print_step (a : list (option BTreeEntry)) (i : nat) (ps : PrintState) : option PrintState :=
  e ← slot a i;
  let c := bool_decide (i mod 2 = 0 /\ i <> 0) in
  ps1 ← (if c then
           op ← cats (opString ps) [sprintf_d (u_intV (kv (value e))); [comma];
                                    sprintf_d (tempCount ps + 1); [comma]];
           Some (mkPrint op (finalResult ps) (TREE ps) (count ps + 1) (tempCount ps + 1))
         else Some ps);
  fr0 ← (if c then cats [] [sprintf_d (count ps1); [newline]] else Some (finalResult ps1));
  fr ← cats fr0 (entry_pieces e);
  tree ← (if c then Some (TREE ps1) else cat500 (TREE ps1) fr);
  Some (mkPrint (opString ps1) fr tree (count ps1) (tempCount ps1)).

Fixpoint print_loop (a : list (option BTreeEntry)) (idx : list nat) (ps : PrintState)
  : option PrintState :=
  match idx with
  | [] => Some ps
  | i :: idx' => ps' ← print_step a i ps; print_loop a idx' ps'
  end.

(** [printTree(tree)]: [strcpy(opString, "1,")], the loop, then
    [printf("%s\n", opString); printf("%s\n", TREE); return tree->idxId;]. *)
Definition printTree (s : Index P) (idxId : string) : option (list Byte.byte * string) :=
  ps ← print_loop (AllocBTree s) (seq 0 (Z.to_nat (numOfKeys s)))
                  (mkPrint [Byte.x31; comma] [] [] 1 1);
  Some (opString ps ++ [newline] ++ TREE ps ++ [newline], idxId).

(** ** Lemmas *)

(** Freeing the same slot twice is undefined. *)
Lemma free_loop_twice a k i j idx : free_loop a k (i :: j :: idx) [] = None.
Proof.
  simpl. unfold free_slot. destruct (arr_get a k) as [[]|]; simpl; [|done..].
  case_decide as Hin; [done|]. destruct Hin. by left.
Qed.

(** The loop stores [kt] into [result[j..j+m-1]], and fails at the first
    index past the array. *)
Lemma keytype_loop_seq kt j m result :
  j <= length result ->
  keytype_loop kt (seq j m) result =
    if decide (j + m <= length result)
    then Some (take j result ++ replicate m kt ++ drop (j + m) result) else None.
Proof.
  revert j result. induction m as [|m IH]; intros j r Hj; simpl.
  { rewrite decide_True by lia. by rewrite Nat.add_0_r, take_drop. }
  unfold arr_set. rewrite Nat2Z.id. destruct (decide (j < length r)) as [Hlt|Hge].
  - rewrite decide_True by lia. simpl. rewrite IH by (rewrite length_insert; lia).
    rewrite length_insert. replace (S j + m) with (j + S m) by lia.
    destruct (decide (j + S m <= length r)); [|done]. f_equal.
    destruct (lookup_lt_is_Some_2 r j Hlt) as [x Hx].
    rewrite (take_S_r _ _ kt) by (by apply list_lookup_insert_eq).
    rewrite take_insert_ge, drop_insert_lt by lia. by rewrite <- app_assoc.
  - rewrite decide_False by lia. rewrite decide_False by lia. done.
Qed.

Lemma dec_digits_length fuel n acc : length (dec_digits fuel n acc) <= fuel + length acc.
Proof.
  revert n acc. induction fuel as [|fuel IH]; intros n acc; simpl; [lia|].
  destruct (Z.ltb n 10); simpl; [lia|]. specialize (IH (n / 10)%Z (digit_byte (n mod 10) :: acc)).
  simpl in IH. lia.
Qed.

(** [sprintf("%d")] prints at most 21 characters. *)
Lemma sprintf_d_length z : length (sprintf_d z) <= 21.
Proof.
  unfold sprintf_d. destruct (Z.ltb z 0); simpl;
    [pose proof (dec_digits_length DEC_FUEL (- z) [])|pose proof (dec_digits_length DEC_FUEL z [])];
    unfold DEC_FUEL in *; simpl in *; lia.
Qed.

Lemma entry_pieces_length e : length (mjoin (entry_pieces e)) <= 67.
Proof.
  unfold entry_pieces.
  pose proof (sprintf_d_length (RecordMgr.page (rid e))). pose proof (sprintf_d_length (RecordMgr.slot (rid e))).
  pose proof (sprintf_d_length (u_intV (kv (value e)))).
  set (a := sprintf_d (RecordMgr.page (rid e))) in *. set (b := sprintf_d (RecordMgr.slot (rid e))) in *.
  set (c := sprintf_d (u_intV (kv (value e)))) in *. simpl. rewrite ?length_app; simpl; rewrite ?length_app; simpl.
  rewrite (length_app c [comma]). simpl. lia.
Qed.

Lemma cat500_Some d s : length d + length s + 1 <= 500 -> cat500 d s = Some (d ++ s).
Proof. intros. unfold cat500. by rewrite decide_True. Qed.

Lemma cats_Some d ss : length d + length (mjoin ss) + 1 <= 500 -> cats d ss = Some (d ++ mjoin ss).
Proof.
  revert d. induction ss as [|x ss IH]; intros d Hl; simpl in *; [by rewrite app_nil_r|].
  rewrite length_app in Hl. rewrite cat500_Some by lia. simpl.
  rewrite IH by (rewrite length_app; lia). by rewrite app_assoc.
Qed.

(** [getKeyType] stores the key type into the first [numOfKeys] cells of
    the caller's array, and is undefined when the array is shorter. *)
Lemma getKeyType_spec (s : Index P) kt result :
  getKeyType s kt result =
    let n := Z.to_nat (numOfKeys s) in
    if decide (n <= length result) then Some (replicate n kt ++ drop n result, RC_OK) else None.
Proof.
  unfold getKeyType. rewrite keytype_loop_seq by lia. simpl.
  by destruct (decide (Z.to_nat (numOfKeys s) <= length result)).
Qed.

(** ** Properties *)

(** C35. [shutdownIndexManager] frees [AllocBTree[numOfKeys]] once per key:
    it returns [RC_OK] only on an index with no key, or with one key and
    an assigned slot [AllocBTree[1]]; with two keys or more it frees the
    same pointer twice, and on the one-slot array [createBtree] allocates
    it reads past the array as soon as the index holds a key. *)
Theorem shutdownIndexManager_defined (s : Index P) :
  shutdownIndexManager s = Some RC_OK <->
    (numOfKeys s <= 0 \/ numOfKeys s = 1 /\ is_Some (slot (AllocBTree s) 1))%Z.
Proof.
  unfold shutdownIndexManager. destruct (Z.to_nat (numOfKeys s)) as [|[|m]] eqn:E.
  - simpl. split; [intros _; left; lia|done].
  - assert (numOfKeys s = 1%Z) as -> by lia. simpl. unfold free_slot, arr_get, slot. simpl.
    change (Z.to_nat 1) with 1.
    destruct (AllocBTree s !! 1) as [[e|]|]; simpl.
    + split; [intros _; right; split; [done|by eexists]|by intros].
    + split; [done|]. intros [H|[_ [? ?]]]; [lia|done].
    + split; [done|]. intros [H|[_ [? ?]]]; [lia|done].
  - cbn [seq]. rewrite free_loop_twice. split; [done|]. intros [H|[H _]]; lia.
Qed.

(** [printTree] appends the cumulated [finalResult] to [TREE] at every
    odd iteration: on two keys it prints the first entry twice,
    [page.slot, key,] of entry 0, then entries 0 and 1 again. *)
Theorem printTree_repeats_first (s : Index P) idxId e0 e1 :
  numOfKeys s = 2%Z -> slot (AllocBTree s) 0 = Some e0 -> slot (AllocBTree s) 1 = Some e1 ->
  printTree s idxId =
    Some ([Byte.x31; comma; newline] ++ mjoin (entry_pieces e0) ++ mjoin (entry_pieces e0) ++
          mjoin (entry_pieces e1) ++ [newline], idxId).
Proof.
  intros Hn H0 H1. pose proof (entry_pieces_length e0). pose proof (entry_pieces_length e1).
  unfold printTree. rewrite Hn. change (Z.to_nat 2) with 2. cbn -[cats cat500 entry_pieces print_step].
  unfold print_step. rewrite H0, H1.
  rewrite !bool_decide_eq_false_2 by (intros [? ?]; simpl in *; lia). cbn -[cats cat500 entry_pieces].
  rewrite (cats_Some []) by (cbn [length]; lia). cbn -[cats cat500 entry_pieces].
  rewrite (cat500_Some []) by (cbn [length]; lia). cbn -[cats cat500 entry_pieces].
  rewrite cats_Some by lia. cbn -[cats cat500 entry_pieces].
  rewrite cat500_Some by (rewrite !length_app; lia). cbn -[entry_pieces].
  by rewrite <- !app_assoc.
Qed.

End Util.

(** ** Witnesses *)

Definition two_keys : Index BM :=
  mkIndex [Some (w_entry 7 1); Some (w_entry 5 2)] 2 0 w_tree.

Lemma printTree_repeats_first_witness :
  printTree two_keys "idx" =
    Some ([Byte.x31; comma; newline] ++ mjoin (entry_pieces (w_entry 7 1)) ++
          mjoin (entry_pieces (w_entry 7 1)) ++ mjoin (entry_pieces (w_entry 5 2)) ++ [newline], "idx"%string).
Proof. exact (printTree_repeats_first two_keys "idx" _ _ eq_refl eq_refl eq_refl). Defined.
