(* ===== verification/Table.v ===== *)
(** * Tables and scans of the record manager (src/record_mgr.c, lines 19-650)

    A table is a page file: page 0 holds the schema as text, and every
    record is the text [serializeRecord] prints, alone on a page of its
    own.  [openTable] reads the first line of the file into the global
    [totalPages] ([atoi]), makes a buffer pool of six frames with FIFO
    replacement, pins page 0 (and never unpins it) and parses the schema
    on it.  [insertRecord], [updateRecord] and [deleteRecord] rewrite one
    page through the pool ([pinPage], [memset] and [sprintf] into
    [page->data], [markDirty], [unpinPage], [forcePage]); [getRecord]
    copies the page's string and calls [deserializeRecord]; [getNumTuples]
    and [next] walk the pages [1 .. totalPages-1].

    The state the functions share, [RM_TableData] with its [RM_RecordMgmt]
    and the global [totalPages], is the record [TableState]; the pool is
    the model [BM] of [buffer_mgr.c] and its page file.  The handle
    [MAKE_PAGE_HANDLE] allocates is indeterminate until [pinPage] sets it
    ([no_handle]).  The file system of [createTable] and [deleteTable]
    (storage_mgr.c, not in the repository) maps names to page files.
    The schema parser, the printer of schemas, [evalExpr] (expr.c) and
    [strtof] are parameters; the buffers the code allocates for strings
    are explicit where their size matters ([getRecord_with],
    [deleteRecord_with]).  [initRecordManager] and [shutdownRecordManager]
    return [RC_OK] and touch no state. *)

From Stdlib Require Import Strings.Byte Strings.String.
From stdpp Require Import strings gmap.
From S2P Require Import Prelude Storage Pool Access Fifo Lru Clock Pin PoolIface RecordMgr CString Deserializer.

(** ** C strings in page buffers *)

(** [memset(buf, '\0', strlen(buf))]. *)
Definition memset_strlen (buf : list Byte.byte) : option (list Byte.byte) :=
  n ← c_strlen buf; Some (repeat Byte.x00 n ++ drop n buf).

(** [sprintf(buf, "%s", s)]: the C string [s] and its NUL at the start of
    [buf]; writing past the end of [buf] is undefined. *)
Definition sprintf_s (buf s : list Byte.byte) : option (list Byte.byte) :=
  let t := c_str s ++ [Byte.x00] in
  if decide (length t <= length buf) then Some (t ++ drop (length t) buf) else None.

(** [strcpy(dst, src)] with [dst] a fresh buffer of [size] bytes: the C
    string [dst] then holds. *)
Definition strcpy_alloc (size : nat) (src : list Byte.byte) : option (list Byte.byte) :=
  n ← c_strlen src;
  if decide (n + 1 <= size) then Some (take n src) else None.

(** [strcat(dst, src)] with [dst] holding the C string [s] in a buffer of
    [size] bytes. *)
Definition strcat_alloc (size : nat) (s src : list Byte.byte) : option (list Byte.byte) :=
  n ← c_strlen src;
  if decide (length s + n + 1 <= size) then Some (s ++ take n src) else None.

(** [strncmp(a, b, n) == 0], reading [a] and [b] as far as the comparison
    goes. *)
Fixpoint strncmp_eq (a b : list Byte.byte) (n : nat) : option bool :=
  match n with
  | 0 => Some true
  | S n' =>
      x ← a !! 0; y ← b !! 0;
      if negb (Byte.eqb x y) then Some false
      else if Byte.eqb x Byte.x00 then Some true
      else strncmp_eq (drop 1 a) (drop 1 b) n'
  end.

(** [char deleteTombStomeFlag[14] = "DELETED_RECORD";]: fourteen bytes, no
    room for the NUL. *)
Definition deleteTombStomeFlag : list Byte.byte := list_byte_of_string "DELETED_RECORD".

(** The literal ["DELETED_RECORD"] of [updateRecord], with its NUL. *)
Definition DELETED_RECORD : list Byte.byte := list_byte_of_string "DELETED_RECORD" ++ [Byte.x00].

(** ** Page buffers through the pool *)

(** A write through [page->data]: into the frame it points to; a handle
    that points to no frame, or to a string literal, is undefined. *)
Definition write_page (b : BM) (h : BM_PageHandle) (d : list Byte.byte) : option BM :=
  match ph_data h with
  | FrameData i => if decide (i < nframes b) then Some (write_through h d b) else None
  | _ => None
  end.

(** The common tail of [insertRecord], [updateRecord] and [deleteRecord]:
    [pinPage(bm, page, p)]; the text to store, computed from the page's
    string; ([page->pageNum = p] for [deleteRecord]);
    [memset(page->data, '\0', strlen(page->data));
     sprintf(page->data, "%s", text); markDirty; unpinPage; forcePage]. *)
Definition rewrite_page (p : Z) (set_num : bool) (text : list Byte.byte -> option (list Byte.byte))
    (b : BM) : option BM :=
  let '(b1, h0, _) := pinPage no_handle p b in
  d ← page_bytes b1 h0;
  s ← text d;
  let h := if set_num then mkHandle p (ph_data h0) else h0 in
  d1 ← memset_strlen d;
  d2 ← sprintf_s d1 s;
  b2 ← write_page b1 h d2;
  let b3 := fst (run_rc (markDirty h) b2) in
  let b4 := fst (run_rc (unpinPage h) b3) in
  Some (fst (run_rc (forcePage h) b4)).

(** ** Tables *)

(** [RM_TableData] with its [RM_RecordMgmt] ([bm], [freePages[0]]) and the
    global [int totalPages]. *)
Record TableState := mkTable {
  ts_schema : Schema;
  ts_bm : BM;
  freePage : Z;
  totalPages : Z
}.

(** The pool [openTable] creates: [initBufferPool(bm, name, 6, RS_FIFO, NULL)]. *)
Definition TABLE_FRAMES : Z := 6.

(** The file system of the storage manager: page files by name. *)
Definition FS := gmap string SM_FileHandle.

(** [createPageFile(name)]: a file of one zero block. *)
Definition new_page_file : SM_FileHandle := mkFile [empty_page] 0 0.

Section Tables.
(** The printer [serializeRecord] of floats and booleans, [strtof], the
    text [serializeSchema] returns (a malloc'd C string: its bytes and its
    NUL), the schema parser, and the junk of the [Record] and data buffer
    [deserializeRecord] allocates. *)
Context (fmt_float fmt_bool : Z -> list Byte.byte) (strtof : list Byte.byte -> Z).
Context (serializeSchema : Schema -> list Byte.byte).
Context (deserializeSchema : list Byte.byte -> option Schema).
Context (junk_id : RID) (junk : list Byte.byte).

(** [initRecordManager(mgmtData)] and [shutdownRecordManager()]: nothing
    to set up or release; both return [RC_OK]. *)
Definition initRecordManager {M} (mgmtData : M) : RC := RC_OK.
Definition shutdownRecordManager : RC := RC_OK.

(** [createTable(name, schema)]: [access(name, F_OK)], [createPageFile],
    [openPageFile], then [writeBlock(0, &fh, serializedData)], which reads
    [PAGE_SIZE] bytes of the [strlen + 1] bytes [serializeSchema] returns. *)
Definition createTable (name : string) (schema : Schema) (fs : FS) : option (FS * RC) :=
  if decide (is_Some (fs !! name)) then Some (fs, RC_TABLE_ALREADY_EXISTS)
  else
    let serializedData := serializeSchema schema in
    if decide (length serializedData < PAGE_SIZE) then None
    else match writeBlock 0 (take PAGE_SIZE serializedData) new_page_file with
         | Some f => Some (<[name := f]> fs, RC_OK)
         | None => Some (<[name := new_page_file]> fs, RC_WRITE_FAILED)
         end.

(** [deleteTable(name)]: [destroyPageFile(name)]. *)
Definition deleteTable (name : string) (fs : FS) : FS * RC :=
  if decide (is_Some (fs !! name)) then (delete name fs, RC_OK) else (fs, RC_FILE_NOT_FOUND).

(** [openTable(rel, name)] on the page file [f] whose first line, as
    [fgets] reads it, is [header]: [totalPages = atoi(header)], the pool,
    [pinPage(bm, page, 0)], [freePages[0] = totalPages] and
    [rel->schema = deserializeSchema(page->data)]. *)
Definition openTable (f : SM_FileHandle) (header : list Byte.byte) : option (TableState * RC) :=
  let tp := atoi header in
  let b0 := initBufferPool f TABLE_FRAMES RS_FIFO in
  let '(b1, h, _) := pinPage no_handle 0 b0 in
  d ← page_bytes b1 h;
  schema ← deserializeSchema (c_str d);
  Some ({| ts_schema := schema; ts_bm := b1; freePage := tp; totalPages := tp |}, RC_OK).

(** [closeTable(rel)]: [shutdownBufferPool]; the rest only frees memory. *)
Definition closeTable (t : TableState) : SM_FileHandle * RC := shutdownBufferPool (ts_bm t).

(** The search of [insertRecord]:
    [while (rid.page > 0 && rid.page < totalPages) { rid.page = rid.page + 1; rid.slot = 0; }]. *)
Fixpoint next_page_loop (fuel : nat) (tp p : Z) : option Z :=
  match fuel with
  | 0 => None
  | S fuel' => if decide (0 < p < tp)%Z then next_page_loop fuel' tp (p + 1) else Some p
  end.

(** [insertRecord(rel, record)]: the page found, [record->id], the text of
    the record written on that page, [freePages[0] += 1; totalPages++]. *)
Definition insertRecord (t : TableState) (record : Record_) : option (TableState * Record_ * RC) :=
  p ← next_page_loop (S (Z.to_nat (totalPages t))) (totalPages t) 1;
  let record' := {| id := mkRID p 0; data := data record |} in
  s ← serializeRecord fmt_float fmt_bool record' (ts_schema t);
  b' ← rewrite_page p false (fun _ => Some s) (ts_bm t);
  Some ({| ts_schema := ts_schema t; ts_bm := b'; freePage := p + 1; totalPages := totalPages t + 1 |},
        record', RC_OK).

(** [deleteRecord(rel, id)] with the tombstone array [flag] and the
    [temp_size] bytes of [temp]: [strcpy(temp, flag); strcat(temp, page->data)]
    is stored on the page. *)
Definition deleteRecord_with (flag : list Byte.byte) (temp_size : nat) (t : TableState) (rid : RID)
  : option (TableState * RC) :=
  if decide (0 < page rid <= totalPages t)%Z then
    b' ← rewrite_page (page rid) true
           (fun d => tomb ← strcpy_alloc temp_size flag; strcat_alloc temp_size tomb d) (ts_bm t);
    Some ({| ts_schema := ts_schema t; ts_bm := b'; freePage := freePage t; totalPages := totalPages t |},
          RC_OK)
  else Some (t, RC_RM_NO_MORE_TUPLES).

(** The code: [temp = malloc(sizeof(char* ))]. *)
Definition deleteRecord (t : TableState) (rid : RID) : option (TableState * RC) :=
  deleteRecord_with deleteTombStomeFlag (Z.to_nat SIZEOF_PTR) t rid.

(** [updateRecord(rel, record)]: refused when the caller's record data
    starts with [DELETED_RECORD]; otherwise the record's text replaces the
    page. *)
Definition updateRecord (t : TableState) (record : Record_) : option (TableState * RC) :=
  if decide (0 < page (id record) <= totalPages t)%Z then
    match strncmp_eq (data record) DELETED_RECORD 14 with
    | None => None
    | Some true => Some (t, RC_RM_UPDATE_NOT_POSSIBLE_ON_DELETED_RECORD)
    | Some false =>
        s ← serializeRecord fmt_float fmt_bool record (ts_schema t);
        b' ← rewrite_page (page (id record)) false (fun _ => Some s) (ts_bm t);
        Some ({| ts_schema := ts_schema t; ts_bm := b'; freePage := freePage t; totalPages := totalPages t |},
              RC_OK)
    end
  else Some (t, RC_RM_NO_MORE_TUPLES).

(** [getRecord(rel, id, record)] with the size [rd_size n] of the buffer
    allocated for the page's string of [n] bytes and the deserializer
    [deser] it calls. *)
Definition getRecord_with (rd_size : nat -> nat) (deser : list Byte.byte -> Schema -> option Record_)
    (t : TableState) (rid : RID) (record : Record_) : option (TableState * Record_ * RC) :=
  if decide (0 < page rid <= totalPages t)%Z then
    let '(b1, h, _) := pinPage no_handle (page rid) (ts_bm t) in
    d ← page_bytes b1 h;
    n ← c_strlen d;
    record_data ← strcpy_alloc (rd_size n) d;
    r ← deser record_data (ts_schema t);
    let b2 := fst (run_rc (unpinPage h) b1) in
    Some ({| ts_schema := ts_schema t; ts_bm := b2; freePage := freePage t; totalPages := totalPages t |},
          {| id := rid; data := data r |}, RC_OK)
  else Some (t, record, RC_RM_NO_MORE_TUPLES).

(** The code: [malloc(sizeof(char) * strlen(page->data))] and
    [deserializeRecord]. *)
Definition getRecord (t : TableState) (rid : RID) (record : Record_) : option (TableState * Record_ * RC) :=
  getRecord_with (fun n => n) (deserializeRecord strtof junk_id junk) t rid record.

Section Walks.
(** The [getRecord] the walks call. *)
Context (getRec : TableState -> RID -> Record_ -> option (TableState * Record_ * RC)).

(** The loop of [getNumTuples]: a page whose [getRecord] fails is tried
    again, forever. *)
Fixpoint tuples_loop (fuel : nat) (t : TableState) (p : Z) (record : Record_) (count : Z)
  : option (TableState * Z) :=
  match fuel with
  | 0 => None
  | S fuel' =>
      if decide (0 < p < totalPages t)%Z then
        '(t', record', rc) ← getRec t (mkRID p 0) record;
        if decide (rc = RC_OK) then tuples_loop fuel' t' (p + 1) record' (count + 1)
        else tuples_loop fuel' t' p record' count
      else Some (t, count)
  end.

(** [getNumTuples(rel)] with the [Record] it allocates. *)
Definition getNumTuples_with (fuel : nat) (junk_record : Record_) (t : TableState) : option (TableState * Z) :=
  tuples_loop fuel t 1 junk_record 0.
End Walks.

(** The code's [getNumTuples], with [fuel] iterations of its loop. *)
Definition getNumTuples (fuel : nat) (junk_record : Record_) (t : TableState) : option (TableState * Z) :=
  getNumTuples_with getRecord fuel junk_record t.

(** ** Scans *)

Section Scans.
(** [Expr] and [evalExpr] of expr.c. *)
Context {Expr : Type} (evalExpr : Record_ -> Schema -> Expr -> option Value).
Context (getRec : TableState -> RID -> Record_ -> option (TableState * Record_ * RC)).

(** [RM_ScanMgmt]; [condn = NULL] is [None]. *)
Record RM_ScanMgmt := mkScan {
  condn : option Expr;
  currentRecord : Record_;
  currentPage : Z;
  currentSlot : Z
}.

(** [startScan(rel, scan, cond)], with the [Record] it allocates. *)
Definition startScan (cond : option Expr) (junk_record : Record_) : RM_ScanMgmt :=
  {| condn := cond; currentRecord := junk_record; currentPage := 1; currentSlot := 0 |}.

Definition next_page (sc : RM_ScanMgmt) : RM_ScanMgmt :=
  {| condn := condn sc; currentRecord := currentRecord sc; currentPage := currentPage sc + 1;
     currentSlot := currentSlot sc |}.

Definition with_current (r : Record_) (sc : RM_ScanMgmt) : RM_ScanMgmt :=
  {| condn := condn sc; currentRecord := r; currentPage := currentPage sc; currentSlot := currentSlot sc |}.

Definition reset_scan (sc : RM_ScanMgmt) : RM_ScanMgmt :=
  {| condn := condn sc; currentRecord := currentRecord sc; currentPage := 1; currentSlot := currentSlot sc |}.

(** The loop of [next] with a condition: [getRecord], [evalExpr], and the
    first record whose result is a true [DT_BOOL]; the caller's [record]
    receives its [data] and [id]. *)
Fixpoint next_cond_loop (fuel : nat) (e : Expr) (t : TableState) (sc : RM_ScanMgmt) (record : Record_)
  : option (TableState * RM_ScanMgmt * Record_ * RC) :=
  match fuel with
  | 0 => None
  | S fuel' =>
      if decide (0 < currentPage sc < totalPages t)%Z then
        '(t', cur, _) ← getRec t (mkRID (currentPage sc) (currentSlot sc)) (currentRecord sc);
        result ← evalExpr cur (ts_schema t') e;
        let sc1 := with_current cur sc in
        if bool_decide (dt result = DT_BOOL) && (match v result with boolV b => negb (Z.eqb b 0) | _ => false end)
        then Some (t', next_page sc1, {| id := id cur; data := data cur |}, RC_OK)
        else next_cond_loop fuel' e t' (next_page sc1) record
      else Some (t, reset_scan sc, record, RC_RM_NO_MORE_TUPLES)
  end.

(** [next(scan, record)]. *)
Definition next (t : TableState) (sc : RM_ScanMgmt) (record : Record_)
  : option (TableState * RM_ScanMgmt * Record_ * RC) :=
  match condn sc with
  | None =>
      if decide (0 < currentPage sc < totalPages t)%Z then
        '(t', cur, _) ← getRec t (mkRID (currentPage sc) (currentSlot sc)) (currentRecord sc);
        Some (t', next_page (with_current cur sc), {| id := id cur; data := data cur |}, RC_OK)
      else Some (t, reset_scan sc, record, RC_RM_NO_MORE_TUPLES)
  | Some e => next_cond_loop (S (Z.to_nat (totalPages t))) e t sc record
  end.
End Scans.
End Tables.

(** ** What the page operations keep of the pool *)

(** The page each frame holds and its bytes. *)
Definition pages_of (b : BM) : list (Z * list Byte.byte) := (fun f => (pageNum f, Pool.data f)) <$> frames b.

Lemma pages_of_upd b g i :
  (forall f, pageNum (g f) = pageNum f /\ Pool.data (g f) = Pool.data f) ->
  pages_of (upd_frames (alter g i) b) = pages_of b.
Proof.
  intros Hg. unfold pages_of, upd_frames; simpl. apply list_eq. intros j.
  rewrite !list_lookup_fmap.
  destruct (decide (i = j)) as [->|Hne]; [rewrite list_lookup_alter|by rewrite list_lookup_alter_ne].
  destruct (frames b !! j) as [f|]; simpl; case_decide; simpl; try done. by destruct (Hg f) as [-> ->].
Qed.

Lemma pages_of_frame b b' j :
  pages_of b' = pages_of b -> j < nframes b ->
  nframes b' = nframes b /\ pageNum (frame_at b' j) = pageNum (frame_at b j) /\ Pool.data (frame_at b' j) = Pool.data (frame_at b j).
Proof.
  intros Heq Hj. assert (Hn : nframes b' = nframes b).
  { unfold nframes. rewrite <- (length_fmap (fun f => (pageNum f, Pool.data f)) (frames b')).
    fold (pages_of b'). rewrite Heq. apply length_fmap. }
  pose proof (f_equal (fun l => l !! j) Heq) as E. unfold pages_of in E. simpl in E.
  rewrite !list_lookup_fmap, !frame_at_lookup in E by lia. injection E as -> ->. done.
Qed.

Lemma pages_of_set_pageNum_same b p i :
  pageNum (frame_at b i) = p -> pages_of (upd_frames (alter (set_pageNum p) i) b) = pages_of b.
Proof. intros Hp. unfold upd_frames. by rewrite alter_set_pageNum_same. Qed.

Lemma pages_of_with_head b i : pages_of (with_head i b) = pages_of b.
Proof. done. Qed.
Lemma pages_of_with_tail b i : pages_of (with_tail i b) = pages_of b.
Proof. done. Qed.

Ltac pages_auto :=
  repeat first [ rewrite pages_of_upd by (intros; split; reflexivity)
               | rewrite pages_of_with_head | rewrite pages_of_with_tail
               | rewrite pages_of_set_pageNum_same
                   by (repeat rewrite pageNum_frame_at_upd by (intros; reflexivity); done) ];
  try reflexivity.

Lemma markDirty_pages h b : pages_of (fst (run_rc (markDirty h) b)) = pages_of b.
Proof. rewrite run_rc_fst. unfold markDirty. bm_run. destruct (find_page b _) as [i [|]]; simpl; pages_auto. Qed.

Lemma unpinPage_pages h b : pages_of (fst (run_rc (unpinPage h) b)) = pages_of b.
Proof. rewrite run_rc_fst. unfold unpinPage. bm_run. destruct (find_page b _) as [i [|]]; simpl; pages_auto. Qed.

Lemma forcePage_pages h b : pages_of (fst (run_rc (forcePage h) b)) = pages_of b.
Proof.
  rewrite run_rc_fst. unfold forcePage. bm_run.
  repeat case_match; simplify_eq/=; pages_auto.
Qed.

(** The three calls after the write. *)
Lemma after_write_pages h b :
  pages_of (fst (run_rc (forcePage h) (fst (run_rc (unpinPage h) (fst (run_rc (markDirty h) b)))))) = pages_of b.
Proof. by rewrite forcePage_pages, unpinPage_pages, markDirty_pages. Qed.

Lemma after_write_WF h b :
  WF b -> WF (fst (run_rc (forcePage h) (fst (run_rc (unpinPage h) (fst (run_rc (markDirty h) b)))))).
Proof. intros Hb. rewrite !run_rc_fst. by apply forcePage_WF, unpinPage_WF, markDirty_WF. Qed.

(** A hit of [pinPage], whatever the strategy: the handle on the frame, no
    frame's page or bytes changed. *)
Lemma pin_hit_pages b h p i :
  WF b -> i < nframes b -> pageNum (frame_at b i) = p -> p <> NO_PAGE ->
  snd (fst (pinPage h p b)) = mkHandle p (FrameData i) /\ pages_of (fst (fst (pinPage h p b))) = pages_of b.
Proof.
  intros Hb Hi Hp Hne. pose proof (find_page_resident b p i Hb Hi Hp Hne) as Hf.
  unfold pinPage, run_pin, strategy_pin.
  destruct (strategy b); [unfold pinPageFIFO|unfold pinPageLRU|unfold pinPageCLOCK]; bm_run;
    rewrite Hf; simpl; split; try done; pages_auto.
Qed.

(** ** C strings in page buffers *)

(** [memset] then [sprintf] of a C string into a buffer with a NUL and
    room for it. *)
Lemma memset_sprintf d s :
  is_Some (c_strlen d) -> no_delim [Byte.x00] s -> length s < length d ->
  exists d1 d2 rest, memset_strlen d = Some d1 /\ sprintf_s d1 s = Some d2 /\
    d2 = s ++ Byte.x00 :: rest /\ length d2 = length d.
Proof.
  intros [n Hn] Hs Hl. pose proof (c_strlen_Some _ _ Hn) as Hnl.
  set (d1 := repeat Byte.x00 n ++ drop n d).
  assert (Hlen : length d1 = length d) by (unfold d1; rewrite length_app, repeat_length, length_drop; lia).
  exists d1, ((s ++ [Byte.x00]) ++ drop (length (s ++ [Byte.x00])) d1), (drop (length (s ++ [Byte.x00])) d1).
  unfold memset_strlen. rewrite Hn. split; [done|].
  unfold sprintf_s. rewrite (c_str_id [Byte.x00] s); [|constructor|exact Hs].
  rewrite Hlen, decide_True by (rewrite length_app; simpl; lia).
  split; [done|]. split; [by rewrite <- app_assoc|].
  rewrite length_app, length_drop, Hlen, length_app. simpl. lia.
Qed.

Lemma c_strlen_written s rest : no_delim [Byte.x00] s -> c_strlen (s ++ Byte.x00 :: rest) = Some (length s) /\
  strcpy_alloc (S (length s)) (s ++ Byte.x00 :: rest) = Some s.
Proof.
  intros Hs. pose proof (c_strlen_app s rest Hs) as E. split; [done|].
  unfold strcpy_alloc. rewrite E. simpl. rewrite decide_True by lia. by rewrite take_app_length.
Qed.

(** ** Rewriting a page *)

(** The pool gives page [p] the frame [i], whose buffer is a C string of
    [PAGE_SIZE] bytes. *)
Definition page_ready (b : BM) (p : Z) (i : nat) : Prop :=
  let '(b1, h, _) := pinPage no_handle p b in
  h = mkHandle p (FrameData i) /\ i < nframes b1 /\ pageNum (frame_at b1 i) = p /\
  is_Some (c_strlen (Pool.data (frame_at b1 i))) /\ length (Pool.data (frame_at b1 i)) = PAGE_SIZE.

#[export] Instance PageData_eq_dec : EqDecision PageData.
Proof. solve_decision. Defined.
#[export] Instance BM_PageHandle_eq_dec : EqDecision BM_PageHandle.
Proof. solve_decision. Defined.

#[export] Instance page_ready_dec b p i : Decision (page_ready b p i).
Proof. unfold page_ready. destruct (pinPage no_handle p b) as [[b1 h] rc]. apply _. Defined.

(** The page a frame holds, with the C string [s] at the start of its
    buffer. *)
Definition holds_text (b : BM) (p : Z) (i : nat) (s : list Byte.byte) : Prop :=
  i < nframes b /\ pageNum (frame_at b i) = p /\ length (Pool.data (frame_at b i)) = PAGE_SIZE /\
  exists rest, Pool.data (frame_at b i) = s ++ Byte.x00 :: rest.

(** [rewrite_page] stores the text on the page, in its frame. *)
Lemma rewrite_page_ok b p i set_num text s :
  WF b -> page_ready b p i ->
  text (Pool.data (frame_at (fst (fst (pinPage no_handle p b))) i)) = Some s ->
  no_delim [Byte.x00] s -> length s < PAGE_SIZE ->
  exists b', rewrite_page p set_num text b = Some b' /\ WF b' /\ holds_text b' p i s.
Proof.
  intros Hb Hr Ht Hs Hsl. unfold page_ready in Hr. pose proof (pinPage_WF no_handle p b Hb) as Hb1.
  unfold rewrite_page. destruct (pinPage no_handle p b) as [[b1 h0] rc]. simpl in *.
  destruct Hr as (-> & Hi & Hp & Hnul & Hlen).
  destruct (memset_sprintf _ s Hnul Hs ltac:(lia)) as (d1 & d2 & rest & Hm & Hsp & Hd2 & Hl2).
  cbn [page_bytes bp_frame BM_BufferPool ph_data]. rewrite decide_True by done. cbn [mbind option_bind].
  rewrite Ht. cbn [mbind option_bind].
  set (h := mkHandle p (FrameData i)). set (b2 := write_through h d2 b1).
  assert (Hw : WF b2)
    by (change (WF (upd_frames (alter (set_data d2) i) b1)); apply WF_upd_frames_same; [done|intros; reflexivity]).
  assert (Hn2 : nframes b2 = nframes b1) by exact (nframes_upd_frames b1 (set_data d2) i).
  assert (Hwi : frame_at b2 i = set_data d2 (frame_at b1 i)) by exact (frame_at_upd_same b1 (set_data d2) i Hi).
  destruct (pages_of_frame _ _ i (after_write_pages h b2)) as (Hn & Hpn & Hdn); [lia|].
  rewrite Hwi in Hpn, Hdn. simpl in Hpn, Hdn.
  assert (Hwr : write_page b1 h d2 = Some b2) by (unfold write_page, h; cbn [ph_data]; by rewrite decide_True).
  destruct set_num; [change (mkHandle p (ph_data h)) with h|];
    (rewrite Hm; cbn [mbind option_bind]; rewrite Hsp; cbn [mbind option_bind];
     rewrite Hwr; cbn [mbind option_bind]; (eexists; split; [reflexivity|]); (split; [by apply after_write_WF|]);
     split_and!; [lia|by rewrite Hpn|rewrite Hdn; lia|exists rest; by rewrite Hdn]).
Qed.

(** ** [insertRecord] *)

(** The search of [insertRecord] ends at [totalPages], or at its start
    [1] when [totalPages <= 1], within [totalPages] iterations. *)
Lemma next_page_loop_spec fuel tp p :
  (1 <= p)%Z -> Z.to_nat (tp - p) < fuel -> next_page_loop fuel tp p = Some (Z.max p tp).
Proof.
  revert p. induction fuel as [|fuel IH]; intros p Hp Hf; [lia|]. simpl.
  destruct (decide (0 < p < tp)%Z).
  - rewrite IH by lia. f_equal. lia.
  - f_equal. lia.
Qed.

Lemma insert_page tp : next_page_loop (S (Z.to_nat tp)) tp 1 = Some (Z.max 1 tp).
Proof. apply next_page_loop_spec; lia. Qed.

(** What [insertRecord] returns when it returns. *)
Lemma insertRecord_Some fmt_float fmt_bool t record t' record' rc :
  insertRecord fmt_float fmt_bool t record = Some (t', record', rc) ->
  record' = {| id := mkRID (Z.max 1 (totalPages t)) 0; data := data record |} /\ rc = RC_OK /\
  ts_schema t' = ts_schema t /\ totalPages t' = (totalPages t + 1)%Z /\
  freePage t' = (Z.max 1 (totalPages t) + 1)%Z.
Proof.
  unfold insertRecord. rewrite insert_page. cbn [mbind option_bind].
  destruct (serializeRecord _ _ _ _); cbn [mbind option_bind]; [|done].
  destruct (rewrite_page _ _ _ _); cbn [mbind option_bind]; [|done]. by intros [= <- <- <-].
Qed.

(** [getAttr] reads only the data of a record. *)
Lemma getAttr_data r r' schema k : data r' = data r -> getAttr r' schema k = getAttr r schema k.
Proof. intros E. unfold getAttr. by rewrite E. Qed.

Lemma text_ok_data r r' schema k : data r' = data r -> text_ok schema r' k <-> text_ok schema r k.
Proof. intros E. unfold text_ok. by rewrite (getAttr_data r r'). Qed.

(** The text of a record fits on a page, NUL included. *)
Definition fits_page (fmt_float fmt_bool : Z -> list Byte.byte) (schema : Schema) (record : Record_) : Prop :=
  match serializeRecord fmt_float fmt_bool record schema with
  | Some s => length s < PAGE_SIZE
  | None => True
  end.

#[export] Instance fits_page_dec fmt_float fmt_bool schema record : Decision (fits_page fmt_float fmt_bool schema record).
Proof. unfold fits_page. case_match; apply _. Defined.

(** [insertRecord] on a page the pool can give a frame stores the text of
    the record on it. *)
Lemma insertRecord_writes fmt_float fmt_bool t record i s :
  WF (ts_bm t) -> page_ready (ts_bm t) (Z.max 1 (totalPages t)) i ->
  serializeRecord fmt_float fmt_bool {| id := mkRID (Z.max 1 (totalPages t)) 0; data := data record |} (ts_schema t)
    = Some s ->
  no_delim [Byte.x00] s -> length s < PAGE_SIZE ->
  exists t', insertRecord fmt_float fmt_bool t record =
               Some (t', {| id := mkRID (Z.max 1 (totalPages t)) 0; data := data record |}, RC_OK) /\
    WF (ts_bm t') /\ holds_text (ts_bm t') (Z.max 1 (totalPages t)) i s /\
    ts_schema t' = ts_schema t /\ totalPages t' = (totalPages t + 1)%Z.
Proof.
  intros Hb Hr Hs Hn Hl.
  destruct (rewrite_page_ok _ _ i false (fun _ : list Byte.byte => Some s) s Hb Hr eq_refl Hn Hl) as (b' & Hw & Hb' & Hh).
  unfold insertRecord. rewrite insert_page. cbn [mbind option_bind]. rewrite Hs. cbn [mbind option_bind].
  rewrite Hw. cbn [mbind option_bind]. by eexists.
Qed.

(** [getRecord] on a resident page that holds the C string [s], with a
    buffer of [strlen + 1] bytes for the copy: what the deserializer makes
    of [s]. *)
Lemma getRecord_reads deser t p i s rec0 r :
  WF (ts_bm t) -> holds_text (ts_bm t) p i s -> no_delim [Byte.x00] s -> p <> NO_PAGE ->
  (0 < p <= totalPages t)%Z -> deser s (ts_schema t) = Some r ->
  exists t'', getRecord_with S deser t (mkRID p 0) rec0 = Some (t'', {| id := mkRID p 0; data := data r |}, RC_OK).
Proof.
  intros Hb (Hi & Hp & _ & rest & Hd) Hs Hne Hrange Hr.
  destruct (pin_hit_pages (ts_bm t) no_handle p i Hb Hi Hp Hne) as [Hh Hpg].
  unfold getRecord_with. rewrite decide_True by (simpl; lia). cbn [page].
  destruct (pinPage no_handle p (ts_bm t)) as [[b1 h] rc]. simpl in Hh, Hpg. subst h.
  destruct (pages_of_frame _ _ i Hpg Hi) as (Hn & _ & Hdn).
  cbn [page_bytes bp_frame BM_BufferPool ph_data]. rewrite decide_True by lia. cbn [mbind option_bind].
  rewrite Hdn, Hd. destruct (c_strlen_written s rest Hs) as [E1 E2]. rewrite E1. cbn [mbind option_bind].
  rewrite E2. cbn [mbind option_bind].
  rewrite Hr. cbn [mbind option_bind]. by eexists.
Qed.

(** ** [openTable] *)

(** [atoi] of a text that starts with neither white space, a sign nor a
    digit is [0]. *)
Lemma atoi_nondigit c rest :
  is_space c = false -> is_digit c = false -> c <> minus_sign -> c <> plus_sign -> atoi (c :: rest) = 0%Z.
Proof.
  intros Hs Hd Hm Hp. unfold atoi, strtol10. cbn [skip_spaces]. rewrite Hs.
  destruct (Byte.eqb c minus_sign) eqn:E1; [by apply Byte.byte_dec_bl in E1|].
  destruct (Byte.eqb c plus_sign) eqn:E2; [by apply Byte.byte_dec_bl in E2|].
  cbn [read_digits]. by rewrite Hd.
Qed.

Lemma openTable_Some deserializeSchema f header t rc :
  openTable deserializeSchema f header = Some (t, rc) ->
  totalPages t = atoi header /\ freePage t = atoi header /\ rc = RC_OK.
Proof.
  unfold openTable. destruct (pinPage _ _ _) as [[b1 h] rc1].
  destruct (page_bytes b1 h); cbn [mbind option_bind]; [|done].
  destruct (deserializeSchema _); cbn [mbind option_bind]; [|done]. by intros [= <- <-].
Qed.

(** The schema of the table [openTable] returns is what the parser made of
    a page's string. *)
Lemma openTable_schema deserializeSchema f header t rc :
  openTable deserializeSchema f header = Some (t, rc) -> exists d, deserializeSchema (c_str d) = Some (ts_schema t).
Proof.
  unfold openTable. destruct (pinPage _ _ _) as [[b1 h] rc1].
  destruct (page_bytes b1 h) as [d|]; cbn [mbind option_bind]; [|done].
  destruct (deserializeSchema _) eqn:E; cbn [mbind option_bind]; [|done]. intros [= <- _]. by exists d.
Qed.

(** ** [getRecord] and [deleteRecord] *)

Lemma rewrite_page_text_None p set_num text b :
  (forall d, text d = None) -> rewrite_page p set_num text b = None.
Proof.
  intros Ht. unfold rewrite_page. destruct (pinPage _ _ _) as [[b1 h] rc].
  destruct (page_bytes b1 h); cbn [mbind option_bind]; [|done]. by rewrite Ht.
Qed.

(** ** Properties *)

(** C12. Round trip through a table: when the pool gives the page
    [insertRecord] chooses a frame whose buffer is a C string of
    [PAGE_SIZE] bytes, [insertRecord] of a record that [serializeRecord]
    and [deserializeRecord] agree on (its text fitting on the page) returns
    [RC_OK] and the RID [(max 1 totalPages, 0)], and [getRecord] of that
    RID, given a buffer of [strlen + 1] bytes for the page's string and a
    data buffer of the record's size, returns [RC_OK] and a record with
    the same value in every attribute: the page was written through the
    pool, stayed resident, and is read back by a hit. *)
Theorem insert_get_roundtrip fmt_float fmt_bool strtof t record i junk_id buf rec0 :
  (0 <= totalPages t)%Z -> WF (ts_bm t) -> page_ready (ts_bm t) (Z.max 1 (totalPages t)) i ->
  schema_wf (ts_schema t) -> getRecordSize (ts_schema t) = Some (Z.of_nat (length (data record))) ->
  (forall k, k < Z.to_nat (numAttr (ts_schema t)) -> text_ok (ts_schema t) record k) ->
  fits_page fmt_float fmt_bool (ts_schema t) {| id := mkRID (Z.max 1 (totalPages t)) 0; data := data record |} ->
  length buf = length (data record) ->
  exists t' t'' g,
    insertRecord fmt_float fmt_bool t record =
      Some (t', {| id := mkRID (Z.max 1 (totalPages t)) 0; data := data record |}, RC_OK) /\
    getRecord_with S (fun s sch => deserializeRecord_with strtof SIZEOF_RECORD junk_id buf s sch)
      t' (mkRID (Z.max 1 (totalPages t)) 0) rec0 = Some (t'', g, RC_OK) /\
    id g = mkRID (Z.max 1 (totalPages t)) 0 /\
    forall k, (0 <= k < numAttr (ts_schema t))%Z -> getAttr g (ts_schema t) k = getAttr record (ts_schema t) k.
Proof.
  intros Htp Hb Hr Hwf Hsize Hok Hfit Hbuf.
  set (record' := {| id := mkRID (Z.max 1 (totalPages t)) 0; data := data record |}) in *.
  destruct (serialize_parse fmt_float fmt_bool strtof (ts_schema t) record' junk_id buf) as (s & r & Hs & Hn & Hd & _ & Hg);
    [done|done|intros k Hk; apply (text_ok_data record record'); [done|by apply Hok]|done|].
  unfold fits_page in Hfit. rewrite Hs in Hfit.
  destruct (insertRecord_writes fmt_float fmt_bool t record i s Hb Hr Hs Hn Hfit) as (t' & Hins & Hb' & Hh & Hsch & Htp').
  destruct (getRecord_reads (fun s sch => deserializeRecord_with strtof SIZEOF_RECORD junk_id buf s sch)
              t' _ i s rec0 r Hb' Hh Hn) as (t'' & Hget); [unfold NO_PAGE; lia|lia|by rewrite Hsch|].
  exists t', t'', {| id := mkRID (Z.max 1 (totalPages t)) 0; data := data r |}.
  split_and!; [done|done|done|]. intros k Hk. rewrite (getAttr_data r) by done. by rewrite Hg.
Qed.

(** C21. [openTable] sets [totalPages] to [atoi] of the file's first line,
    which is [0] for a page file whose page 0 starts with the schema's
    text; from there the first two [insertRecord] calls both choose RID
    [(1, 0)]: the second record overwrites the first. *)
Theorem open_insert_overwrite fmt_float fmt_bool deserializeSchema f c rest t0 rc0 r1 r2 t1 r1' rc1 t2 r2' rc2 :
  is_space c = false -> is_digit c = false -> c <> minus_sign -> c <> plus_sign ->
  openTable deserializeSchema f (c :: rest) = Some (t0, rc0) ->
  insertRecord fmt_float fmt_bool t0 r1 = Some (t1, r1', rc1) ->
  insertRecord fmt_float fmt_bool t1 r2 = Some (t2, r2', rc2) ->
  totalPages t0 = 0%Z /\ id r1' = mkRID 1 0 /\ id r2' = mkRID 1 0.
Proof.
  intros Hs Hd Hm Hp Ho H1 H2.
  destruct (openTable_Some _ _ _ _ _ Ho) as (Ht0 & _ & _). rewrite atoi_nondigit in Ht0 by done.
  destruct (insertRecord_Some _ _ _ _ _ _ _ H1) as (-> & _ & _ & Ht1 & _).
  destruct (insertRecord_Some _ _ _ _ _ _ _ H2) as (-> & _ & _ & _ & _).
  rewrite Ht1, Ht0. done.
Qed.

(** [getRecord] on a page it accepts copies the page's string with
    [strcpy] into a buffer of [strlen] bytes, one too few for the NUL. *)
Lemma getRecord_undefined strtof junk_id junk t rid record :
  (0 < page rid <= totalPages t)%Z -> getRecord strtof junk_id junk t rid record = None.
Proof.
  intros Hr. unfold getRecord, getRecord_with. rewrite decide_True by done.
  destruct (pinPage _ _ _) as [[b1 h] rc]. destruct (page_bytes b1 h); cbn [mbind option_bind]; [|done].
  destruct (c_strlen l) as [n|] eqn:E; cbn [mbind option_bind]; [|done].
  unfold strcpy_alloc. rewrite E. cbn [mbind option_bind]. by rewrite decide_False by lia.
Qed.

(** C22. [getRecord] and [deleteRecord] fail (undefined behaviour) on every
    RID they accept: [getRecord] copies the page's string with [strcpy]
    into a buffer of [strlen] bytes, one too few for the NUL, and
    [deleteRecord] copies the tombstone array, which has no NUL, with
    [strcpy]. *)
Theorem getRecord_deleteRecord_undefined strtof junk_id junk t rid record :
  (0 < page rid <= totalPages t)%Z ->
  getRecord strtof junk_id junk t rid record = None /\ deleteRecord t rid = None.
Proof.
  intros Hr. split; [by apply getRecord_undefined|].
  unfold deleteRecord, deleteRecord_with. rewrite decide_True by done.
  by rewrite rewrite_page_text_None.
Qed.

(** C23. [getNumTuples] never counts a tuple: on a table with a data page
    ([totalPages > 1]) the first [getRecord] of its loop, on page 1, is
    undefined behaviour; on a table without one the loop does not run and
    the count is 0.  (The loop also stops before page [totalPages], which
    [getRecord] would accept.) *)
Theorem getNumTuples_never_counts strtof junk_id junk fuel record t :
  getNumTuples strtof junk_id junk (S fuel) record t =
    if decide (1 < totalPages t)%Z then None else Some (t, 0%Z).
Proof.
  unfold getNumTuples, getNumTuples_with. simpl. case_decide.
  - rewrite decide_True by lia. by rewrite getRecord_undefined by (simpl; lia).
  - by rewrite decide_False by lia.
Qed.

(** ** Witnesses *)

(** A decidable hypothesis on concrete data, evaluated by [vm_compute]. *)
Ltac vm_decide := apply (bool_decide_unpack _); vm_compute; exact I.

(** A table of [abc_schema]: page 0 holds the schema's text, which is also
    the first line [fgets] reads. *)
Definition abc_text : list Byte.byte :=
  list_byte_of_string "Schema with <3> attributes (a: INT, b: STRING[4], c: INT) with keys: (a)".

Definition abc_file : SM_FileHandle := mkFile [abc_text ++ repeat Byte.x00 (PAGE_SIZE - length abc_text)] 0 0.

Definition abc_parser (_ : list Byte.byte) : option Schema := Some abc_schema.

Definition abc_table : TableState :=
  default (mkTable abc_schema (initBufferPool abc_file TABLE_FRAMES RS_FIFO) 0 0)
          (fst <$> openTable abc_parser abc_file abc_text).

(** A second record of [abc_schema]: [(a:7,b:wxyz,c:9)]. *)
Definition abc_record2 : Record_ :=
  mkRecord (mkRID 0 0) (le_bytes 4 7 ++ list_byte_of_string "wxyz" ++ le_bytes 4 9).

Lemma insert_get_roundtrip_witness :
  exists t' t'' g,
    insertRecord sprintf_d sprintf_d abc_table abc_record =
      Some (t', {| id := mkRID (Z.max 1 (totalPages abc_table)) 0; data := data abc_record |}, RC_OK) /\
    getRecord_with S (fun s sch => deserializeRecord_with strtol10 SIZEOF_RECORD (mkRID 0 0) (repeat Byte.x00 12) s sch)
      t' (mkRID (Z.max 1 (totalPages abc_table)) 0) abc_record = Some (t'', g, RC_OK) /\
    id g = mkRID (Z.max 1 (totalPages abc_table)) 0 /\
    forall k, (0 <= k < numAttr (ts_schema abc_table))%Z ->
      getAttr g (ts_schema abc_table) k = getAttr abc_record (ts_schema abc_table) k.
Proof.
  apply (insert_get_roundtrip _ _ _ abc_table abc_record 1); try vm_decide.
  intros k Hk. vm_compute in Hk. do 3 (destruct k as [|k]; [vm_decide|]). lia.
Defined.

Lemma open_insert_overwrite_witness :
  exists t0 rc0 t1 r1' rc1 t2 r2' rc2,
    openTable abc_parser abc_file abc_text = Some (t0, rc0) /\
    insertRecord sprintf_d sprintf_d t0 abc_record = Some (t1, r1', rc1) /\
    insertRecord sprintf_d sprintf_d t1 abc_record2 = Some (t2, r2', rc2) /\
    (totalPages t0 = 0%Z /\ id r1' = mkRID 1 0 /\ id r2' = mkRID 1 0).
Proof.
  destruct (openTable abc_parser abc_file abc_text) as [[t0 rc0]|] eqn:E0; [|vm_compute in E0; discriminate].
  destruct (insertRecord sprintf_d sprintf_d t0 abc_record) as [[[t1 r1'] rc1]|] eqn:E1;
    [|vm_compute in E0; injection E0 as <- <-; vm_compute in E1; discriminate].
  destruct (insertRecord sprintf_d sprintf_d t1 abc_record2) as [[[t2 r2'] rc2]|] eqn:E2;
    [|vm_compute in E0; injection E0 as <- <-; vm_compute in E1; injection E1 as <- <- <-;
      vm_compute in E2; discriminate].
  exists t0, rc0, t1, r1', rc1, t2, r2', rc2. do 3 (split; [done|]).
  assert (Etext : abc_text = Byte.x53 :: drop 1 abc_text) by reflexivity. rewrite Etext in E0.
  refine (open_insert_overwrite _ _ _ _ _ _ _ _ _ _ _ _ _ _ _ _ _ _ _ _ E0 E1 E2); reflexivity || discriminate.
Defined.

(** The table with [totalPages] pages. *)
Definition abc_table_pages (n : Z) : TableState :=
  mkTable (ts_schema abc_table) (ts_bm abc_table) (freePage abc_table) n.

Lemma getRecord_deleteRecord_undefined_witness :
  getRecord strtol10 (mkRID 0 0) [] (abc_table_pages 1) (mkRID 1 0) abc_record = None /\
  deleteRecord (abc_table_pages 1) (mkRID 1 0) = None.
Proof. apply getRecord_deleteRecord_undefined. simpl. lia. Defined.
