(* ===== verification/SchemaParser.v ===== *)
(** * [deserializeSchema] (src/rm_deserializer.c, lines 73-218)

    The parser of the schema text [openTable] finds on page 0, such as
    [Schema with <3> attributes (a: INT, b: STRING[4], c: INT) with keys: (a)].
    It cuts the text with [strtok]: the number of attributes between
    ['<'] and ['>'], then for each attribute its name (up to [':'] or
    [' ']) and its type (up to [','], [')'] or [' ']), then the key names
    between the next ['('] and [')'].  [INT], [FLOAT] and [BOOL] are
    stored at once; any other type token is copied, with the attribute's
    index printed after it, into the buffer [splitString], and after the
    loop the one token left there is parsed as [STRING[n]] followed by the
    index.

    The buffers the code allocates are parameters of
    [deserializeSchema_with] ([caps]): [malloc(sizeof(char* ))] for each
    name and each key, [malloc(sizeof(char))] for [splitString] and for the
    text of the index.  A copy into a buffer too small for it, a [NULL]
    token passed to [strcpy], [strcmp] or [atoi], an index outside the
    arrays, are undefined ([None]).  The arrays [malloc] returns hold
    indeterminate values until written: [junk_name], [junk_type],
    [junk_len] and [junk_key] give them by index; [junk_keySize] is the
    [keySize] of a schema whose text has no key list, and [junk_byte] the
    byte [splitString] holds before anything is copied into it. *)

From Stdlib Require Import Strings.Byte Strings.String.
From S2P Require Import Prelude Storage Pool RecordMgr CString Deserializer Table.

(** ** Characters and words of the format *)

Definition space : Byte.byte := Byte.x20.
Definition langle : Byte.byte := Byte.x3c.
Definition rangle : Byte.byte := Byte.x3e.
Definition equals : Byte.byte := Byte.x3d.

Definition INT_text : list Byte.byte := list_byte_of_string "INT".
Definition FLOAT_text : list Byte.byte := list_byte_of_string "FLOAT".
Definition BOOL_text : list Byte.byte := list_byte_of_string "BOOL".
Definition STRING_text : list Byte.byte := list_byte_of_string "STRING".

(** The sizes of the buffers [deserializeSchema] allocates. *)
Record Caps := mkCaps {
  name_cap : nat;     (* schema->attrNames[i] = malloc(sizeof(char* )) *)
  split_cap : nat;    (* splitString = malloc(sizeof(char)) *)
  str_cap : nat;      (* str = malloc(sizeof(char)) *)
  key_cap : nat       (* keyAttr[numOfKeys] = malloc(sizeof(char* )) *)
}.

Definition code_caps : Caps := mkCaps 8 1 1 8.

(** [strcpy(dst, tok)] into a buffer of [cap] bytes, [tok] a token of
    [strtok] ([None] for [NULL]). *)
Definition strcpy_tok (cap : nat) (tok : option (list Byte.byte)) : option (list Byte.byte) :=
  t ← tok; if decide (length t + 1 <= cap) then Some t else None.

(** [strcmp(tok, w) == 0]; [NULL] is undefined. *)
Definition strcmp_tok (tok : option (list Byte.byte)) (w : list Byte.byte) : option bool :=
  t ← tok; Some (bool_decide (t = w)).

(** [atoi(tok)]; [NULL] is undefined. *)
Definition atoi_tok (tok : option (list Byte.byte)) : option Z := t ← tok; Some (atoi t).

Section Parser.
Context (caps : Caps).
(** What the arrays [malloc] returns hold, and the byte [splitString]
    holds, before the code writes them. *)
Context (junk_name : nat -> string) (junk_type : nat -> DataType) (junk_len : nat -> Z).
Context (junk_key : nat -> Z) (junk_keySize : Z) (junk_byte : Byte.byte).

(** The state of the loop: the arrays, the C string in [splitString]
    ([None] while it holds only [junk_byte]), and the [strtok] state. *)
Record ParseState := mkPS {
  ps_names : list string;
  ps_types : list DataType;
  ps_lens : list Z;
  ps_split : option (list Byte.byte);
  ps_rest : list Byte.byte
}.

(** One attribute [i] of the loop. *)
Definition parse_schema_attr (lastAttr : Z) (i : nat) (ps : ParseState) : option ParseState :=
  let '(tokn, st1) := strtok [colon; space] (ps_rest ps) in
  name ← strcpy_tok (name_cap caps) tokn;
  names ← arr_set (ps_names ps) (Z.of_nat i) (string_of_list_byte name);
  let '(tokt, st2) := strtok (if Z.eqb (Z.of_nat i) lastAttr then [rparen; space] else [comma; space]) st1 in
  let simple (t : DataType) : option ParseState :=
    types ← arr_set (ps_types ps) (Z.of_nat i) t;
    lens ← arr_set (ps_lens ps) (Z.of_nat i) 0%Z;
    Some (mkPS names types lens (ps_split ps) st2) in
  match strcmp_tok tokt INT_text with
  | None => None
  | Some true => simple DT_INT
  | Some false =>
  match strcmp_tok tokt FLOAT_text with
  | None => None
  | Some true => simple DT_FLOAT
  | Some false =>
  match strcmp_tok tokt BOOL_text with
  | None => None
  | Some true => simple DT_BOOL
  | Some false =>
    (* strcpy(splitString, splitEnd); sprintf(str, "%d", i); strcat(splitString, str); *)
    t ← strcpy_tok (split_cap caps) tokt;
    let digits := sprintf_d (Z.of_nat i) in
    if decide (length digits + 1 <= str_cap caps /\ length t + length digits + 1 <= split_cap caps)
    then Some (mkPS names (ps_types ps) (ps_lens ps) (Some (t ++ digits)) st2)
    else None
  end end end.

Fixpoint parse_schema_attrs (lastAttr : Z) (idx : list nat) (ps : ParseState) : option ParseState :=
  match idx with
  | [] => Some ps
  | i :: idx' => ps' ← parse_schema_attr lastAttr i ps; parse_schema_attrs lastAttr idx' ps'
  end.

(** [while (splitKey != NULL) { keyAttr[numOfKeys] = malloc(sizeof(char* ));
    strcpy(keyAttr[numOfKeys], splitKey); numOfKeys++; splitKey = strtok(NULL, ", "); }]
    into [char *keyAttr[n]]: at most [n] keys, each copied into its buffer.
    Each iteration consumes a token, so [fuel] above the length of the
    string is enough. *)
Fixpoint key_tokens (fuel : nat) (n : Z) (tok : option (list Byte.byte)) (st : list Byte.byte)
    (acc : list (list Byte.byte)) : option (list (list Byte.byte)) :=
  match fuel with
  | 0 => None
  | S fuel' =>
      match tok with
      | None => Some acc
      | Some _ =>
          if decide (Z.of_nat (length acc) < n)%Z then
            k ← strcpy_tok (key_cap caps) tok;
            let '(tok', st') := strtok [comma; space] st in
            key_tokens fuel' n tok' st' (acc ++ [k])
          else None
      end
  end.

(** [for (j = 0; j < schemaNumAttr; j++) if (strcmp(keyAttr[i], attrNames[j]) == 0)
    { keyAttrs[i] = j; break; }]: the first attribute named [k]. *)
Definition key_index (names : list string) (k : list Byte.byte) : option Z :=
  (fun p => Z.of_nat (fst p)) <$> list_find (fun nm => list_byte_of_string nm = k) names.

(** The keys: [keyAttrs[i]] keeps its indeterminate value when no
    attribute has the key's name. *)
Definition key_attrs (names : list string) (keys : list (list Byte.byte)) : list Z :=
  imap (fun i k => default (junk_key i) (key_index names k)) keys.

(** [if (strlen(splitString) != 0) { strtok(splitString, "["); if STRING:
    val = atoi(strtok(NULL, "]")); index = atoi(strtok(NULL, "="));
    dataTypes[index] = DT_STRING; typeLength[index] = val; }]. *)
Definition string_attr (split : option (list Byte.byte)) (types : list DataType) (lens : list Z)
  : option (list DataType * list Z) :=
  match split with
  | None => if Byte.eqb junk_byte Byte.x00 then Some (types, lens) else None
  | Some [] => Some (types, lens)
  | Some s =>
      let '(tk, st1) := strtok [lbracket] s in
      match strcmp_tok tk STRING_text with
      | None => None
      | Some true =>
        let '(tv, st2) := strtok [rbracket] st1 in
        val ← atoi_tok tv;
        let '(ti, _) := strtok [equals] st2 in
        index ← atoi_tok ti;
        types' ← arr_set types index DT_STRING;
        lens' ← arr_set lens index val;
        Some (types', lens')
      | Some false => Some (types, lens)
      end
  end.

(** [deserializeSchema(serializedSchemaData)] on the C string [text]. *)
Definition deserializeSchema_with (text : list Byte.byte) : option Schema :=
  let '(_, st0) := strtok [langle] text in
  let '(tokn, st1) := strtok [rangle] st0 in
  n ← atoi_tok tokn;
  let '(_, st2) := strtok [lparen] st1 in
  (* schema->attrNames, dataTypes, typeLength = malloc(... * schemaNumAttr) *)
  let fresh {A} (junk : nat -> A) := junk <$> seq 0 (Z.to_nat n) in
  let ps0 := mkPS (fresh junk_name) (fresh junk_type) (fresh junk_len) None st2 in
  ps ← parse_schema_attrs (n - 1) (seq 0 (Z.to_nat n)) ps0;
  '(keySize, keyAttrs) ←
    (let '(tk, st3) := strtok [lparen] (ps_rest ps) in
     match tk with
     | None => Some (junk_keySize, junk_key <$> seq 0 (Z.to_nat junk_keySize))
     | Some _ =>
         let '(tks, _) := strtok [rparen] st3 in
         let s := default [] tks in
         let '(tok, st4) := strtok [comma; space] s in
         keys ← key_tokens (S (length s)) n tok st4 [];
         Some (Z.of_nat (length keys), key_attrs (ps_names ps) keys)
     end);
  '(types, lens) ← string_attr (ps_split ps) (ps_types ps) (ps_lens ps);
  Some {| numAttr := n; attrNames := ps_names ps; dataTypes := types; typeLength := lens;
          keyAttrs := keyAttrs; keySize := keySize |}.
End Parser.

(** The code, with the sizes of its [malloc]s. *)
Definition deserializeSchema := deserializeSchema_with code_caps.

(** ** Lemmas *)

(** [strtok] never returns an empty token. *)
Lemma skip_delims_head d s c s' : skip_delims d s = c :: s' -> byte_in c d = false.
Proof.
  induction s as [|x s IH]; simpl; [done|].
  destruct (byte_in x d) eqn:E; [exact IH|by intros [= <- _]].
Qed.

Lemma strtok_nonempty d s t r : strtok d s = (Some t, r) -> t <> [].
Proof.
  unfold strtok. destruct (skip_delims d s) as [|c s'] eqn:E; [done|].
  apply skip_delims_head in E. cbn [token_split]. rewrite E.
  destruct (token_split d s'). by intros [= <- _].
Qed.

Lemma arr_set_Some {A} (a a' : list A) i x :
  arr_set a i x = Some a' ->
  length a' = length a /\ (forall k, k <> Z.to_nat i -> a' !! k = a !! k) /\
  (Z.to_nat i < length a -> a' !! Z.to_nat i = Some x).
Proof.
  unfold arr_set. case_decide; [|done]. intros [= <-].
  split_and!; [apply length_insert|intros; by apply list_lookup_insert_ne|intros; by rewrite list_lookup_insert, decide_True].
Qed.

(** With the code's one-byte [splitString], an attribute is parsed only
    when its type is [INT], [FLOAT] or [BOOL]. *)
Lemma parse_schema_attr_basic lastAttr i ps ps' :
  parse_schema_attr code_caps lastAttr i ps = Some ps' ->
  ps_split ps' = ps_split ps /\ length (ps_types ps') = length (ps_types ps) /\
  (forall k, k <> i -> ps_types ps' !! k = ps_types ps !! k) /\
  (i < length (ps_types ps) -> exists t, ps_types ps' !! i = Some t /\ t <> DT_STRING).
Proof.
  unfold parse_schema_attr. destruct (strtok _ (ps_rest ps)) as [tokn st1].
  destruct (strcpy_tok _ tokn); cbn [mbind option_bind]; [|done].
  destruct (arr_set (ps_names ps) _ _); cbn [mbind option_bind]; [|done].
  destruct (strtok _ st1) as [tokt st2] eqn:Et.
  assert (Hsimple : forall t names, t <> DT_STRING ->
    (types ← arr_set (ps_types ps) (Z.of_nat i) t; lens ← arr_set (ps_lens ps) (Z.of_nat i) 0%Z;
     Some (mkPS names types lens (ps_split ps) st2)) = Some ps' ->
    ps_split ps' = ps_split ps /\ length (ps_types ps') = length (ps_types ps) /\
    (forall k, k <> i -> ps_types ps' !! k = ps_types ps !! k) /\
    (i < length (ps_types ps) -> exists t, ps_types ps' !! i = Some t /\ t <> DT_STRING)).
  { intros t names Ht. destruct (arr_set (ps_types ps) _ _) as [types|] eqn:E1; cbn [mbind option_bind]; [|done].
    destruct (arr_set (ps_lens ps) _ _); cbn [mbind option_bind]; [|done]. intros [= <-]. simpl.
    destruct (arr_set_Some _ _ _ _ E1) as (Hl & Ho & Hi). rewrite Nat2Z.id in Ho, Hi.
    split_and!; [done|done|done|]. intros Hlt. exists t. by rewrite Hi. }
  destruct (strcmp_tok tokt INT_text) as [[]|]; [by apply Hsimple| |done].
  destruct (strcmp_tok tokt FLOAT_text) as [[]|]; [by apply Hsimple| |done].
  destruct (strcmp_tok tokt BOOL_text) as [[]|]; [by apply Hsimple| |done].
  unfold strcpy_tok. destruct tokt as [t|]; cbn [mbind option_bind]; [|done].
  apply strtok_nonempty in Et. destruct t; [done|]. simpl. by rewrite decide_False by lia.
Qed.

Lemma parse_schema_attrs_basic lastAttr m : forall j ps ps',
  parse_schema_attrs code_caps lastAttr (seq j m) ps = Some ps' ->
  ps_split ps' = ps_split ps /\ length (ps_types ps') = length (ps_types ps) /\
  (forall k, (k < j \/ j + m <= k) -> ps_types ps' !! k = ps_types ps !! k) /\
  (forall k, j <= k < j + m -> k < length (ps_types ps) -> exists t, ps_types ps' !! k = Some t /\ t <> DT_STRING).
Proof.
  induction m as [|m IH]; intros j ps ps'; simpl.
  { intros [= <-]. split_and!; [done|done|done|]. intros; lia. }
  destruct (parse_schema_attr code_caps lastAttr j ps) as [ps1|] eqn:E; cbn [mbind option_bind]; [|done].
  intros Hl. destruct (parse_schema_attr_basic _ _ _ _ E) as (Hs1 & Hl1 & Ho1 & Hi1).
  destruct (IH _ _ _ Hl) as (Hs & Hlen & Ho & Hi).
  split_and!; [congruence|congruence| |].
  - intros k Hk. rewrite Ho, Ho1 by lia. done.
  - intros k Hk Hkl. destruct (decide (k = j)) as [->|].
    + destruct (Hi1 Hkl) as (t & Ht & Hb). exists t. rewrite Ho by lia. done.
    + apply Hi; lia.
Qed.

(** The key list does not touch the types. *)
Lemma string_attr_None jb types lens types' lens' :
  string_attr jb None types lens = Some (types', lens') -> types' = types.
Proof. simpl. destruct (Byte.eqb jb Byte.x00); [by intros [= <- _]|done]. Qed.

(** [deserializeSchema], with the buffers the code allocates, never
    returns a schema with a string attribute: the type token of a string
    attribute must be copied into [splitString], a buffer of one byte, and
    a [strtok] token is never empty. *)
Lemma deserializeSchema_no_string junk_name junk_type junk_len junk_key junk_keySize junk_byte text schema :
  deserializeSchema junk_name junk_type junk_len junk_key junk_keySize junk_byte text = Some schema ->
  Forall (fun t => t <> DT_STRING) (dataTypes schema).
Proof.
  unfold deserializeSchema, deserializeSchema_with.
  destruct (strtok [langle] text) as [? st0]. destruct (strtok [rangle] st0) as [tokn st1].
  destruct (atoi_tok tokn) as [n|]; cbn [mbind option_bind]; [|done].
  destruct (strtok [lparen] st1) as [? st2]. cbn zeta.
  destruct (parse_schema_attrs _ _ _ _) as [ps|] eqn:Hp; cbn [mbind option_bind]; [|done].
  destruct (parse_schema_attrs_basic _ _ _ _ _ Hp) as (Hs & Hl & _ & Hi). simpl in Hs, Hl, Hi.
  lazymatch goal with |- (?K ≫= _) = _ -> _ => destruct K as [[ks ka]|] end; cbn [mbind option_bind]; [|done].
  rewrite Hs. destruct (string_attr _ None _ _) as [[types lens]|] eqn:Ht; cbn [mbind option_bind]; [|done].
  apply string_attr_None in Ht as ->. intros [= <-]. simpl.
  apply Forall_lookup. intros k t Hk.
  assert (Hkl : k < length (ps_types ps)) by (eapply lookup_lt_Some; exact Hk).
  rewrite Hl, length_fmap, length_seq in Hkl.
  destruct (Hi k ltac:(lia) ltac:(rewrite length_fmap, length_seq; lia)) as (t' & Ht' & Hb). congruence.
Qed.

(** ** Properties *)

(** C24. [openTable], which parses page 0 with [deserializeSchema], never
    opens a table with a string attribute: every attribute of the schema
    of a table it returns is an [INT], a [FLOAT] or a [BOOL]. *)
Theorem openTable_no_string junk_name junk_type junk_len junk_key junk_keySize junk_byte f header t rc :
  openTable (deserializeSchema junk_name junk_type junk_len junk_key junk_keySize junk_byte) f header = Some (t, rc) ->
  Forall (fun ty => ty <> DT_STRING) (dataTypes (ts_schema t)).
Proof. intros (d & Hd)%openTable_schema. exact (deserializeSchema_no_string _ _ _ _ _ _ _ _ Hd). Qed.

(** ** Witnesses *)

Definition ab_text : list Byte.byte :=
  list_byte_of_string "Schema with <2> attributes (a: INT, b: BOOL) with keys: (a)".

(** The file of a table whose page 0 holds [ab_text]. *)
Definition ab_file : SM_FileHandle := mkFile [ab_text ++ repeat Byte.x00 (PAGE_SIZE - length ab_text)] 0 0.

Lemma openTable_no_string_witness :
  Forall (fun ty => ty <> DT_STRING)
    (dataTypes (ts_schema (default abc_table
       (fst <$> openTable (deserializeSchema (fun _ => ""%string) (fun _ => DT_FLOAT) (fun _ => 0%Z) (fun _ => 0%Z) 0 Byte.x00)
                          ab_file ab_text)))).
Proof.
  apply (openTable_no_string (fun _ => ""%string) (fun _ => DT_FLOAT) (fun _ => 0%Z) (fun _ => 0%Z) 0 Byte.x00 ab_file ab_text _ RC_OK).
  vm_compute. reflexivity.
Defined.
